(* ===== verification/_CoqProject ===== *)
-Q . S2P
Prelude.v
Float64.v
SlidingWindow.v
SlidingWindowRefinement.v
FloatWindow.v
Json.v
JsonRoundtrip.v
Geth.v
Rpc.v
Duration.v
Rewriter.v
Reader.v
Backend.v
MockServer.v
Tracker.v
Poller.v
PollerCorrect.v
Async.v
AsyncCorrect.v
AsyncLive.v
Group.v
GroupSafe.v
GroupReturns.v
RateLimiter.v
LimiterConcurrent.v
Cache.v
Server.v
ServerCorrect.v
Metrics.v
WS.v
WSLive.v
Proxyd.v
InFlight.v
System.v
SystemCorrect.v
