(* ===== verification/Prelude.v ===== *)
(** * Verification of bsc-builder-proxyd

    The program is an RPC proxy in front of groups of blockchain nodes. An HTTP
    request goes through the server ([server.go]), which authenticates it, applies
    rate limits ([frontend_rate_limiter.go]), looks calls up in the response cache
    ([cache.go], [methods.go]) and forwards the rest in batches to a backend group
    ([backend.go]). A group chooses an order of its backends, rewrites block tags to
    the consensus blocks ([rewriter.go]), and tries the backends in turn; a backend
    makes the exchange, retries it, and keeps sliding windows of its error rate and
    latency ([pkg/avg-sliding-window/sliding.go]). A consensus poller
    ([consensus_poller.go]) polls the backends of a group, bans the inconsistent ones
    and computes the latest, safe and finalized blocks, which a tracker
    ([consensus_tracker.go]) keeps, in memory or shared through Redis. WebSocket
    connections are relayed message by message. [proxyd.go] builds all this from the
    configuration ([config.go]).

    ** Files

    - [Prelude]: the monad [go] of Go calls that return or panic, strings, 64-bit
      integers, time, and the tactics and hints of the development.
    - [Float64]: the [float64] operations of the program, as IEEE binary64 arithmetic of
      the Standard Library, with when they are exact and how quotients are rounded.
    - [SlidingWindow]: [sliding.go]. The state is [AvgSlidingWindow] over any linked
      hash map and any type of values: [float64], as in the code, or exact numbers.
      [SlidingWindowRefinement]: the exact window refines a log of timed points, and the
      interface [WindowOps]/[WindowLaws] that backends use. [FloatWindow]: the window
      with [float64] values rounds the exact one, and so refines the log too.
    - [Json], [JsonRoundtrip]: the part of [encoding/json] that the program uses, on
      bytes: decoding, encoding, and that decoding undoes encoding.
    - [Geth]: the block number and hash types of go-ethereum, as a class with laws and
      an instance.
    - [Rpc]: [rpc.go], [errors.go] and the errors of [backend.go].
    - [Duration]: [TOMLDuration] of [config.go] with [time.ParseDuration].
    - [Rewriter]: [rewriter.go]. [Reader]: [reader.go] under [io.ReadAll].
    - [Backend]: the type [Backend] of [backend.go] with its options, health, and
      [doForward], [Forward], [ForwardRPC]. [InFlight]: [LimitedHTTPClient] of
      [backend.go], the exchanges of all backends under their two semaphores.
    - [MockServer]: [tools/mockserver], the node that tests talk to, and its composition
      with [doForward].
    - [Tracker]: [consensus_tracker.go]. [Poller]: [consensus_poller.go];
      [PollerCorrect]: its theorems.
    - [Async]: [PollerAsyncHandler] of [consensus_poller.go], its goroutines as the
      labelled steps of a world. [AsyncCorrect]: what holds under every interleaving;
      [AsyncLive]: what happens eventually in every fair execution.
    - [Group]: the type [BackendGroup] of [backend.go]. [GroupSafe]: what the backends
      of a consensus-aware group get to see. [GroupReturns]: when a group without a poller
      returns, down to the bytes that the nodes send.
    - [RateLimiter]: [frontend_rate_limiter.go]. [LimiterConcurrent]: its memory limiter
      with the critical sections of concurrent requests interleaved. [Cache]: [cache.go], [methods.go].
    - [Server]: [HandleRPC], [handleBatchRPC], the limits and [NewServer] of
      [server.go], against the interfaces [RPCCacheOps] and [Upstream];
      [ServerCorrect]: its theorems, and that the groups implement [Upstream].
    - [Metrics]: [metrics.go] and the recording functions of [backend.go]: the metrics as
      data, the samples each function records, and the registry that checks them.
    - [WS]: [WSProxier] of [backend.go], [string_set.go] and [HandleWS]. [WSLive]: that
      the goroutines of a connection end.
    - [Proxyd]: [proxyd.go], [config.go], [redis.go] and [tls.go]: [prepare] is [Start] up
      to the point where the servers listen, [Start] adds the pollers.
    - [System]: the process that [main] runs ([cmd/proxyd/main.go], the routes and the
      shutdown of [server.go], the rest of [Start]): listeners, groups with the worlds of
      their pollers and heartbeats, limiters and cache, with labelled steps.
      [SystemCorrect]: its theorems.

    ** How the model is read

    A Go function is a Rocq function; a method that changes its receiver returns the
    new one; a panic is [Panic]. Shared pointers are threaded: a request that a backend
    translates in place is returned changed, and a backend that is in two groups is
    changed in both. The clock, the network, random shuffles, the iteration order of
    maps, the arrival order of concurrent responses and the interleaving of goroutines
    are arguments or relations, and the theorems hold for all of them. Code outside the
    repository (go-ethereum, Redis and its lock, the LRU, snappy, SHA-256, regular
    expressions, semaphores, WebSocket framing, Prometheus, the HTTP router, YAML) is a class of operations
    with laws that state its documented behaviour, and each has an instance on which the
    theorems are applied. Package variables that the start-up changes (the messages of
    three errors) are a class too, [ErrorMessages], which [Start] instantiates.

    What is one step: in [Async], the five calls of a poll together, the recording of its
    result, the check of its block tags, the reading of the candidates, one round over
    them (which locks each backend in turn in the code), and the publication of the
    consensus. In [Tracker] and [System], one heartbeat: the code may see the poller change
    the local state between the comparison and the post. In [System], one HTTP request as a whole;
    a poller may still find the windows of the backends changed at any time. In [Cache], other
    proxies do not write to the Redis of the cache, and entries do not expire, between the
    calls of a run.

    Raw messages are copied by the code without their white space. Here their value is
    printed again, which differs in the escapes of strings only.

    ** What the theorems show

    - Consensus: the group agrees on the highest common block of its candidates,
      whatever the order in which they are asked; the candidates are exactly the
      eligible primaries that do not lag, or such fallbacks when there is no such primary;
      polling keeps block numbers consistent or bans.
    - Interleaving: under every schedule of the goroutines of a poller the recorded blocks
      are consistent, except between a bad poll and its ban; the steps of a goroutine can
      do to the state what its function does in one go; in every fair
      execution a backend that behaves well joins the consensus group.
    - Rewriting: each block tag is replaced by the number of the consensus block it
      names, and a block beyond the latest consensus block is refused; the range of a log query
      is bounded when a bound is configured. The safe and finalized blocks may be above
      the latest one, since the poller walks back the latest block only.
    - Isolation: a consensus-aware group only contacts members of its consensus group,
      and only with requests that the rewriter let through.
    - Health: error rate and latency are functions of the events in the window, the
      [float64] window has no rounding error on the values it gets, and rounding the error
      rate does not hide a backend that reached its threshold.
    - Ordering: responses match requests through batching, caching, sorting, failover,
      multicall and overriding; each call is answered at its own position. A backend is
      retried until the first success or final error, a group fails over in order, and a
      multicall returns the first accepted response.
    - Panics: a request gets a response whenever the groups return, and groups without
      a poller or multicall do whatever clients and nodes send, apart from the cases that
      the theorem lists.
    - Limits: the groups only see permitted batches, the memory limiter is exact also under
      concurrency and the Redis limiter equivalent to it, bodies are bounded, the exchanges
      in flight are bounded and pollers are not held up by users, effects need authorisation,
      WebSocket backends only see whitelisted calls.
    - Winding down: once one side of a WebSocket connection fails, both goroutines end and
      both connections are closed, in every fair execution. Until then each side gets
      exactly the messages the other side sent that may pass, in order, and the answers of
      the proxy to those that may not.
    - Sharing: a free lock is taken by one instance, and the others adopt its state; cache
      hits are sound.
    - Encoding: requests in canonical form and responses survive encoding and parsing; the
      durations of a configuration are the sums of their parts; and a backend in front of the
      mock server returns the canned response of each request, or the error of the canned
      status, through encoding, decoding and sorting.
    - Metrics: every sample fits the type and the labels of its metric, so that recording
      it does not panic, as long as its labels are UTF-8.
    - Start-up: what [Start] builds meets the conditions the server is verified under,
      apart from the mappings of domains, which it does not check.
    - The process: while requests are served and pollers, heartbeats and the shutdown
      run, every group keeps its backends, has a poller exactly when it should once it is
      configured, and each poller is in a state that its goroutines reach on their own.
    - The theorems of kind "error" state behaviours that the code or its documentation
      do not intend, such as panics on some inputs; so do some theorems that are not in the
      numbered list: a leader that never steps down, a poll that is published before it is
      checked, a latest block that is walked back below the safe one, requests that are served
      before the pollers exist.

    ** Fuel

    The JSON parser has as fuel twice the length of its input and two, and each
    nested call consumes a byte or a unit of an enclosing one; [ReadAll] makes at most one read per byte and two
    more, and is proved to end; [ParseDuration] has as fuel the length of its input, each part
    consumes a character, and it is proved to end; the walk of the consensus rounds has an explicit fuel,
    and the theorem on it gives a fuel that is enough. Retries and failover recurse on
    their bound or list.

    ** What is not modelled

    Log messages (except that truncating a logged body may panic), what the listeners for
    metrics and profiles answer, CORS headers, the measured durations of requests: they do
    not decide what is answered. Parsing certificates, Redis URLs and TOML, and the system
    calls behind sockets and files, are inputs. Concurrent requests on one server are
    modelled one after the other, except in the memory limiter and at the semaphores, and a request that panics is not a step of the process:
    the HTTP server recovers it, but how much of it took effect is not determined. *)

From stdpp Require Import base list gmap strings.
From Stdlib Require Import ZArith Lia Sorting.Sorted.
From Stdlib Require Strings.String.

Local Open Scope Z_scope.

(** ** Go results

    A Go call either returns a value or panics (a nil dereference, an index out
    of range, a failed type assertion, an explicit [panic]). *)

Inductive go (A : Type) : Type :=
| Ret (a : A)
| Panic (msg : string).
Arguments Ret {A} _.
Arguments Panic {A} _.

Definition go_bind {A B} (m : go A) (k : A -> go B) : go B :=
  match m with
  | Ret a => k a
  | Panic s => Panic s
  end.

(** The notation [x ← m; k] is stdpp's, through these instances. *)
#[export] Instance go_ret : MRet go := fun A a => Ret a.
#[export] Instance go_mbind : MBind go := fun A B k m => go_bind m k.

(** Indexing a slice panics out of range. *)
Definition go_index {A} (l : list A) (i : nat) : go A :=
  match l !! i with
  | Some a => Ret a
  | None => Panic "index out of range"
  end.

Lemma go_bind_ret {A B} (m : go A) (k : A -> go B) b :
  (m ≫= k) = Ret b <-> exists a, m = Ret a /\ k a = Ret b.
Proof.
  destruct m as [a|]; simpl; split; try discriminate; eauto.
  - intros (a' & [= <-] & H). exact H.
  - intros (a' & H & _). discriminate H.
Qed.

(** A range loop over a slice, threading the state [S]. *)
Fixpoint go_fold {A S} (f : S -> A -> go S) (s : S) (l : list A) : go S :=
  match l with
  | [] => Ret s
  | a :: l' => s' ← f s a; go_fold f s' l'
  end.

(** ** Strings

    [a ==s b] is Go's equality of strings, as a boolean that computes. *)

Declare Scope proxyd_scope.
Delimit Scope proxyd_scope with proxyd.
Notation "a ==s b" := (Stdlib.Strings.String.eqb a b) (at level 70, no associativity) : proxyd_scope.
Open Scope proxyd_scope.

Lemma streq_spec (a b : string) : reflect (a = b) (a ==s b).
Proof. apply Stdlib.Strings.String.eqb_spec. Qed.

Lemma streq_ne a b : a <> b -> (a ==s b) = false.
Proof. by destruct (streq_spec a b). Qed.

Lemma streq_refl (a : string) : (a ==s a) = true.
Proof. apply Stdlib.Strings.String.eqb_refl. Qed.

(** ** Machine integers *)

Definition two64 : Z := 2 ^ 64.

(** Conversion to [uint64] (and the platform [uint]). *)
Definition u64 (z : Z) : Z := z mod two64.

(** Conversion of a 64-bit pattern to [int64]. *)
Definition i64 (z : Z) : Z :=
  let u := u64 z in if u <? 2 ^ 63 then u else u - two64.

Definition is_u64 (z : Z) : Prop := 0 <= z < two64.
Definition is_i64 (z : Z) : Prop := - 2 ^ 63 <= z < 2 ^ 63.

Definition MaxInt64 : Z := 2 ^ 63 - 1.

Lemma u64_bounds z : is_u64 (u64 z).
Proof. apply Z.mod_pos_bound. done. Qed.

Lemma u64_small z : is_u64 z -> u64 z = z.
Proof. apply Z.mod_small. Qed.

Lemma i64_small z : is_i64 z -> i64 z = z.
Proof.
  unfold is_i64, i64, u64, two64. intros H.
  destruct (decide (0 <= z)).
  - rewrite Z.mod_small by lia. destruct (Z.ltb_spec z (2 ^ 63)); lia.
  - replace (z mod 2 ^ 64) with (z + 2 ^ 64); cycle 1.
    { apply Z.mod_unique with (-1); lia. }
    destruct (Z.ltb_spec (z + 2 ^ 64) (2 ^ 63)); lia.
Qed.

Lemma u64_add_l a b : u64 (u64 a + b) = u64 (a + b).
Proof. unfold u64. apply Zplus_mod_idemp_l. Qed.

Lemma u64_sub_l a b : u64 (u64 a - b) = u64 (a - b).
Proof. unfold u64. apply Zminus_mod_idemp_l. Qed.

Lemma u64_sub_r a b : u64 (a - u64 b) = u64 (a - b).
Proof. unfold u64. apply Zminus_mod_idemp_r. Qed.

(** ** Time

    A [time.Time] is the number of nanoseconds since the zero time, and a
    [time.Duration] a number of nanoseconds. *)

Notation Time := Z (only parsing).
Notation Duration := Z (only parsing).

Definition Millisecond : Duration := 1000000.
Definition Second : Duration := 1000 * Millisecond.
Definition Minute : Duration := 60 * Second.
Definition Hour : Duration := 60 * Minute.

(** [t.Round(d)]: the nearest multiple of [d], halfway values up; [t] itself
    when [d <= 0]. *)
Definition Round (t : Time) (d : Duration) : Time :=
  if d <=? 0 then t
  else let r := t mod d in
       if r + r <? d then t - r else t + (d - r).

(** [t.Truncate(d)]: [t] rounded down to a multiple of [d]. *)
Definition Truncate (t : Time) (d : Duration) : Time :=
  if d <=? 0 then t else t - t mod d.

Lemma Round_mono t1 t2 d : t1 <= t2 -> Round t1 d <= Round t2 d.
Proof.
  intros Hle. unfold Round. destruct (Z.leb_spec d 0); [done|].
  pose proof (Z.div_mod t1 d ltac:(lia)). pose proof (Z.div_mod t2 d ltac:(lia)).
  pose proof (Z.mod_pos_bound t1 d ltac:(lia)). pose proof (Z.mod_pos_bound t2 d ltac:(lia)).
  pose proof (Z.div_le_mono t1 t2 d ltac:(lia) Hle).
  destruct (Z.ltb_spec (t1 mod d + t1 mod d) d), (Z.ltb_spec (t2 mod d + t2 mod d) d);
    destruct (decide (t1 / d = t2 / d)); nia.
Qed.

Lemma Round_dist t d : 0 < d -> 2 * Z.abs (Round t d - t) <= d.
Proof.
  intros Hd. unfold Round. destruct (Z.leb_spec d 0); [lia|].
  pose proof (Z.mod_pos_bound t d ltac:(lia)).
  destruct (Z.ltb_spec (t mod d + t mod d) d); lia.
Qed.

(** ** Lists *)

Definition sumZ (l : list Z) : Z := foldr Z.add 0 l.

Lemma sumZ_app l1 l2 : sumZ (l1 ++ l2) = sumZ l1 + sumZ l2.
Proof. induction l1; simpl in *; lia. Qed.

Lemma sumZ_cons x l : sumZ (x :: l) = x + sumZ l.
Proof. done. Qed.

(** ** Automation *)

Create HintDb proxyd.
#[export] Hint Resolve u64_bounds Round_mono : proxyd.
#[export] Hint Rewrite sumZ_app sumZ_cons u64_add_l u64_sub_l u64_sub_r : proxyd.

(** Run the bound calls that have already returned. *)
Ltac go_simpl := cbn [mbind go_mbind go_bind].
Tactic Notation "go_simpl" "in" hyp(H) := cbn [mbind go_mbind go_bind] in H.

(** Destruct a bound or matched call in a hypothesis that says a computation returned. *)
Ltac inv_ret :=
  repeat match goal with
  | H : (_ ≫= _) = Ret _ |- _ =>
      apply go_bind_ret in H; destruct H as (? & ? & H)
  | H : Ret _ = Ret _ |- _ => injection H as H
  | H : Panic _ = Ret _ |- _ => discriminate H
  | H : (_, _) = (_, _) |- _ => injection H as H
  end.

(** Turn the boolean comparisons of the code into propositions. *)
Ltac bsimp :=
  repeat match goal with
  | H : (_ && _)%bool = true |- _ => apply andb_prop in H; destruct H
  | H : (_ || _)%bool = false |- _ => apply orb_false_elim in H; destruct H
  | H : negb _ = true |- _ => apply negb_true_iff in H
  | H : negb _ = false |- _ => apply negb_false_iff in H
  | H : (_ <? _) = true |- _ => apply Z.ltb_lt in H
  | H : (_ <? _) = false |- _ => apply Z.ltb_ge in H
  | H : (_ <=? _) = true |- _ => apply Z.leb_le in H
  | H : (_ <=? _) = false |- _ => apply Z.leb_gt in H
  | H : (_ =? _) = true |- _ => apply Z.eqb_eq in H
  | H : (_ =? _) = false |- _ => apply Z.eqb_neq in H
  | H : (_ ==s _) = true |- _ => apply Stdlib.Strings.String.eqb_eq in H
  | H : (_ ==s _) = false |- _ => apply Stdlib.Strings.String.eqb_neq in H
  end.
