(* ===== verification/Float64.v ===== *)
(** * The [float64] arithmetic of the program

    Go's [float64] is IEEE 754 binary64 with rounding to the nearest even value, which
    is [spec_float] of the standard library with 53 bits of precision. The program uses it
    in three places: the sums and averages of the sliding windows
    ([pkg/avg-sliding-window/sliding.go]), the error rate of a backend ([backend.go]),
    and the number of batches of a request ([server.go]).

    The file shows what the three rely on. Integers up to [2^53] are represented
    exactly, and their sums and differences are exact as long as they stay below that
    bound. A quotient of two such integers is within half a unit of its last place, so
    that rounding it down or up to an integer gives the integer quotient, and comparing
    it with a threshold errs by at most one part in [2^53]. *)

From stdpp Require Import base numbers list.
From Stdlib Require Import ZArith Lia QArith Floats.SpecFloat.
From S2P Require Import Prelude.

Local Open Scope Z_scope.

Notation float64 := spec_float (only parsing).

Definition fadd : float64 -> float64 -> float64 := SFadd 53 1024.
Definition fsub : float64 -> float64 -> float64 := SFsub 53 1024.
Definition fmul : float64 -> float64 -> float64 := SFmul 53 1024.
Definition fdiv : float64 -> float64 -> float64 := SFdiv 53 1024.

(** The comparison [x <= y], false when one of them is not a number. *)
Definition fleb : float64 -> float64 -> bool := SFleb.

(** The comparison [x < y]. *)
Definition fltb : float64 -> float64 -> bool := SFltb.

(** The conversion [float64(z)] of an integer. *)
Definition of_Z (z : Z) : float64 := binary_normalize 53 1024 z 0 false.

(** The constant [0.5]. *)
Definition fhalf : float64 := S754_finite false (2 ^ 52) (-53).

(** The integer part of [m * 2^e], and the next integer that is not smaller. *)
Definition scale_floor (m : Z) (e : Z) : Z := if 0 <=? e then m * 2 ^ e else m / 2 ^ (- e).
Definition scale_ceil (m : Z) (e : Z) : Z := - scale_floor (- m) e.

(** The conversion of a finite number to an integer type that can hold it, toward zero. *)
Definition ftrunc (f : float64) : Z :=
  match f with
  | S754_finite s m e => if s then - scale_floor (Zpos m) e else scale_floor (Zpos m) e
  | _ => 0
  end.

(** [int(math.Ceil(f))]. *)
Definition fceil (f : float64) : Z :=
  match f with
  | S754_finite s m e => scale_ceil (if s then Zneg m else Zpos m) e
  | _ => 0
  end.

(** ** Normal numbers *)

Definition normal (m : positive) (e : Z) : Prop :=
  2 ^ 52 <= Zpos m < 2 ^ 53 /\ -1074 <= e <= 971.

Lemma digits2_log2 m : Zpos (digits2_pos m) = Z.log2 (Zpos m) + 1.
Proof.
  induction m as [m IH|m IH|]; [| |done]; cbn [digits2_pos];
    rewrite Pos2Z.inj_succ, IH.
  - change (Zpos m~1) with (2 * Zpos m + 1). rewrite Z.log2_succ_double by done. lia.
  - change (Zpos m~0) with (2 * Zpos m). rewrite Z.log2_double by done. lia.
Qed.

Lemma normal_log2 m e : normal m e -> Z.log2 (Zpos m) = 52.
Proof. intros [H _]. apply Z.log2_unique; [done|]. exact H. Qed.

(** Dropping bits that are zero. *)
Lemma shr_1_double m : 0 <= m -> shr_1 (Build_shr_record (2 * m) false false) = Build_shr_record m false false.
Proof. destruct m; [done|done|lia]. Qed.

Lemma iter_pos_comm {A} (f : A -> A) p x : iter_pos f p (f x) = f (iter_pos f p x).
Proof. revert x. induction p as [p IH|p IH|]; intros x; simpl; by rewrite ?IH. Qed.

Lemma iter_pos_S {A} (f : A -> A) p x : iter_pos f (Pos.succ p) x = f (iter_pos f p x).
Proof.
  revert x. induction p as [p IH|p IH|]; intros x; simpl; rewrite ?IH, ?iter_pos_comm; done.
Qed.

Lemma shr_exact p m :
  0 <= m -> iter_pos shr_1 p (Build_shr_record (m * 2 ^ Zpos p) false false) = Build_shr_record m false false.
Proof.
  revert m. induction p as [|p IH] using Pos.peano_ind; intros m Hm.
  - simpl iter_pos. rewrite Z.mul_comm. change (2 ^ 1) with 2. by apply shr_1_double.
  - rewrite iter_pos_S, Pos2Z.inj_succ, Z.pow_succ_r by lia.
    replace (m * (2 * 2 ^ Zpos p)) with (2 * m * 2 ^ Zpos p) by ring.
    rewrite IH by lia. by apply shr_1_double.
Qed.

Lemma fexp_normal e : -1074 <= e -> fexp 53 1024 (53 + e) = e.
Proof. unfold fexp, emin. lia. Qed.

Lemma shr_fexp_exact m e k :
  normal m e -> 0 <= k ->
  shr_fexp 53 1024 (Zpos m * 2 ^ k) (e - k) loc_Exact = (Build_shr_record (Zpos m) false false, e).
Proof.
  intros Hn Hk. unfold shr_fexp.
  assert (exists p, Zpos m * 2 ^ k = Zpos p) as [p Hp].
  { destruct (Zpos m * 2 ^ k) eqn:E; [|eauto|]; pose proof (Z.pow_pos_nonneg 2 k); lia. }
  rewrite Hp. cbn [Zdigits2]. rewrite digits2_log2, <- Hp.
  rewrite Z.log2_mul_pow2, (normal_log2 _ _ Hn) by lia.
  replace (k + 52 + 1 + (e - k)) with (53 + e) by lia. rewrite fexp_normal by (destruct Hn; lia).
  unfold shr. replace (e - (e - k)) with k by lia. destruct k as [|k|k]; [|simpl shr_record_of_loc|lia].
  - f_equal; [|lia]. simpl shr_record_of_loc. f_equal. lia.
  - f_equal; [|lia]. by apply shr_exact.
Qed.

Lemma binary_round_aux_exact s m e k :
  normal m e -> 0 <= k ->
  binary_round_aux 53 1024 s (Zpos m * 2 ^ k) (e - k) loc_Exact = S754_finite s m e.
Proof.
  intros Hn Hk. unfold binary_round_aux. rewrite shr_fexp_exact by done.
  cbn [shr_m loc_of_shr_record round_nearest_even].
  pose proof (shr_fexp_exact m e 0 Hn ltac:(lia)) as E0. rewrite Z.mul_1_r, Z.sub_0_r in E0.
  rewrite E0. cbn [shr_m]. destruct Hn as [_ ?]. by rewrite (proj2 (Z.leb_le e (1024 - 53)) ltac:(lia)).
Qed.

Lemma iter_xO m d : Zpos (Pos.iter xO m d) = Zpos m * 2 ^ Zpos d.
Proof.
  induction d as [|d IH] using Pos.peano_ind.
  - change (2 ^ 1) with 2. simpl. lia.
  - rewrite Pos.iter_succ, Pos2Z.inj_succ, Z.pow_succ_r by lia.
    change (Zpos (Pos.iter xO m d)~0) with (2 * Zpos (Pos.iter xO m d)). rewrite IH. ring.
Qed.

(** A value that a normal number represents is rounded to that number. *)
Lemma binary_round_exact s m e m' e' E :
  normal m e -> 0 <= e + E -> 0 <= e' + E -> Zpos m' * 2 ^ (e' + E) = Zpos m * 2 ^ (e + E) ->
  binary_round 53 1024 s m' e' = S754_finite s m e.
Proof.
  intros Hn He He' Heq. unfold binary_round.
  assert (Z.log2 (Zpos m') + 1 + e' = 53 + e) as Hd.
  { pose proof (f_equal Z.log2 Heq) as Hl. rewrite !Z.log2_mul_pow2, (normal_log2 _ _ Hn) in Hl by lia. lia. }
  rewrite digits2_log2, Hd, fexp_normal by (destruct Hn; lia). unfold shl_align.
  destruct (Z.le_gt_cases e e') as [Hle|Hlt].
  - assert (Zpos m = Zpos m' * 2 ^ (e' - e)) as Hm.
    { replace (e' + E) with ((e' - e) + (e + E)) in Heq by lia.
      rewrite (Z.pow_add_r 2 (e' - e)), Z.mul_assoc in Heq by lia.
      apply Z.mul_reg_r in Heq; [done|]. pose proof (Z.pow_pos_nonneg 2 (e + E)). lia. }
    destruct (e - e') as [|d|d] eqn:Ed; [|lia|].
    + replace (e' - e) with 0 in Hm by lia. rewrite Z.mul_1_r in Hm. injection Hm as <-.
      replace e' with e by lia.
      pose proof (binary_round_aux_exact s m e 0 Hn ltac:(lia)) as H. by rewrite Z.mul_1_r, Z.sub_0_r in H.
    + rewrite iter_xO. replace (Zpos d) with (e' - e) by lia. rewrite <- Hm.
      pose proof (binary_round_aux_exact s m e 0 Hn ltac:(lia)) as H. by rewrite Z.mul_1_r, Z.sub_0_r in H.
  - assert (Zpos m' = Zpos m * 2 ^ (e - e')) as Hm.
    { replace (e + E) with ((e - e') + (e' + E)) in Heq by lia.
      rewrite (Z.pow_add_r 2 (e - e')), Z.mul_assoc in Heq by lia.
      apply Z.mul_reg_r in Heq; [done|]. pose proof (Z.pow_pos_nonneg 2 (e' + E)). lia. }
    destruct (e - e') as [|d|d] eqn:Ed; [lia| |lia]. rewrite Hm.
    replace e' with (e - Zpos d) by lia. by apply binary_round_aux_exact.
Qed.

(** ** Integers are exact up to [2^53] *)

Definition exact (z : Z) : Prop := - 2 ^ 53 <= z <= 2 ^ 53.

(** The normal number of a positive integer. *)
Lemma normal_of_pos z :
  0 < z <= 2 ^ 53 ->
  exists m e, normal m e /\ -52 <= e <= 1 /\ Zpos m * 2 ^ (e + 52) = z * 2 ^ 52.
Proof.
  intros Hz. destruct (Z.eq_dec z (2 ^ 53)) as [->|Hne].
  { exists (2 ^ 52)%positive, 1. unfold normal. split; [lia|]. split; [lia|done]. }
  pose proof (Z.log2_spec z ltac:(lia)) as Hl. pose proof (Z.log2_nonneg z).
  assert (Z.log2 z < 53) by (apply Z.log2_lt_pow2; lia).
  set (k := 52 - Z.log2 z). assert (0 <= k <= 52) by lia.
  assert (2 ^ 52 = 2 ^ Z.log2 z * 2 ^ k) as E1 by (rewrite <- Z.pow_add_r by lia; f_equal; lia).
  assert (2 ^ 53 = 2 ^ Z.succ (Z.log2 z) * 2 ^ k) as E2 by (rewrite <- Z.pow_add_r by lia; f_equal; lia).
  pose proof (Z.pow_pos_nonneg 2 k ltac:(lia) ltac:(lia)) as Hk.
  assert (0 < z * 2 ^ k) as Hp by nia.
  exists (Z.to_pos (z * 2 ^ k)), (- k). unfold normal. rewrite Z2Pos.id by done.
  split; [split; [|lia]; rewrite E1, E2; nia|]. split; [lia|].
  rewrite <- Z.mul_assoc, <- Z.pow_add_r by lia. do 2 f_equal. lia.
Qed.

(** What a number with mantissa [m] and exponent [e] is, for small integers. *)
Definition represents (f : float64) (z : Z) : Prop :=
  match f with
  | S754_zero s => s = false /\ z = 0
  | S754_finite s m e =>
      normal m e /\ -52 <= e <= 1 /\ (if s then Zneg m else Zpos m) * 2 ^ (e + 52) = z * 2 ^ 52
  | _ => False
  end.

Lemma represents_exists z : exact z -> exists f, represents f z.
Proof.
  intros Hz. destruct (Z.lt_trichotomy z 0) as [H|[->|H]].
  - destruct (normal_of_pos (- z)) as (m & e & Hn & He & Hm); [unfold exact in *; lia|].
    exists (S754_finite true m e). split; [done|]. split; [done|]. lia.
  - by exists (S754_zero false).
  - destruct (normal_of_pos z) as (m & e & Hn & He & Hm); [unfold exact in *; lia|].
    by exists (S754_finite false m e).
Qed.

(** Any mantissa and exponent with the value of such an integer round to it. *)
Lemma normalize_represents f z m e :
  represents f z -> -52 <= e -> m * 2 ^ (e + 52) = z * 2 ^ 52 -> binary_normalize 53 1024 m e false = f.
Proof.
  intros Hf He Hm. pose proof (Z.pow_pos_nonneg 2 (e + 52) ltac:(lia) ltac:(lia)).
  destruct f as [s|s| |s mf ef]; simpl in Hf; [|done|done|].
  - destruct Hf as [-> ->]. assert (m = 0) as -> by nia. done.
  - destruct Hf as (Hn & Hef & Hz). rewrite <- Hz in Hm.
    pose proof (Z.pow_pos_nonneg 2 (ef + 52) ltac:(lia) ltac:(lia)).
    destruct s, m as [|m|m]; cbn [binary_normalize];
      [nia|nia| |nia| |nia]; apply (binary_round_exact _ _ _ _ _ 52); lia || done.
Qed.

Lemma of_Z_represents z : exact z -> represents (of_Z z) z.
Proof.
  intros Hz. destruct (represents_exists z Hz) as [f Hf]. unfold of_Z.
  by rewrite (normalize_represents f z).
Qed.

Lemma represents_of_Z f z : represents f z -> of_Z z = f.
Proof. intros Hf. by apply (normalize_represents f z). Qed.

(** The value of a represented number, aligned at a smaller exponent. *)
Lemma shl_align_value m e e' :
  e' <= e -> Zpos (fst (shl_align m e e')) = Zpos m * 2 ^ (e - e').
Proof.
  intros He. unfold shl_align. destruct (e' - e) as [|d|d] eqn:E; [|lia|].
  - replace (e - e') with 0 by lia. simpl. lia.
  - simpl. rewrite iter_xO. do 2 f_equal. lia.
Qed.

Lemma aligned_value s m e e' z :
  -52 <= e' <= e -> (if s : bool then Zneg m else Zpos m) * 2 ^ (e + 52) = z * 2 ^ 52 ->
  cond_Zopp s (Zpos (fst (shl_align m e e'))) * 2 ^ (e' + 52) = z * 2 ^ 52.
Proof.
  intros He Hz. rewrite shl_align_value by lia. rewrite <- Hz.
  replace (e + 52) with ((e - e') + (e' + 52)) by lia. rewrite (Z.pow_add_r 2 (e - e')) by lia.
  destruct s; cbn [cond_Zopp]; [|ring]. rewrite <- Pos2Z.opp_pos. ring.
Qed.

(** Sums and differences of small integers are exact. *)
Lemma fadd_exact a b :
  exact a -> exact b -> exact (a + b) -> fadd (of_Z a) (of_Z b) = of_Z (a + b).
Proof.
  intros Ha%of_Z_represents Hb%of_Z_represents Hab%of_Z_represents. unfold fadd.
  destruct (of_Z a) as [sa|sa| |sa ma ea] eqn:Ea, (of_Z b) as [sb|sb| |sb mb eb] eqn:Eb;
    simpl in Ha, Hb; try done.
  - destruct Ha as [-> ->], Hb as [-> ->]. done.
  - destruct Ha as [-> ->]. cbn [SFadd]. by rewrite <- Eb.
  - destruct Hb as [-> ->]. cbn [SFadd]. by rewrite Z.add_0_r, <- Ea.
  - destruct Ha as (_ & He1 & Hz1), Hb as (_ & He2 & Hz2). cbn [SFadd].
    apply (normalize_represents _ (a + b)); [done|lia|].
    rewrite !Z.mul_add_distr_r, (aligned_value _ _ _ _ a), (aligned_value _ _ _ _ b) by (lia || done). done.
Qed.

Lemma fsub_exact a b :
  exact a -> exact b -> exact (a - b) -> fsub (of_Z a) (of_Z b) = of_Z (a - b).
Proof.
  intros Ha%of_Z_represents Hb%of_Z_represents Hab%of_Z_represents. unfold fsub.
  destruct (of_Z a) as [sa|sa| |sa ma ea] eqn:Ea, (of_Z b) as [sb|sb| |sb mb eb] eqn:Eb;
    simpl in Ha, Hb; try done.
  - destruct Ha as [-> ->], Hb as [-> ->]. done.
  - destruct Ha as [-> ->], Hb as (Hn & He & Hz). cbn [SFsub]. symmetry. apply represents_of_Z.
    split; [done|]. split; [done|]. destruct sb; simpl in *; lia.
  - destruct Hb as [-> ->]. cbn [SFsub]. by rewrite Z.sub_0_r, <- Ea.
  - destruct Ha as (_ & He1 & Hz1), Hb as (_ & He2 & Hz2). cbn [SFsub].
    apply (normalize_represents _ (a - b)); [done|lia|].
    rewrite !Z.mul_sub_distr_r, (aligned_value _ _ _ _ a), (aligned_value _ _ _ _ b) by (lia || done). done.
Qed.

(** ** Quotients *)

(** The bits [r] and [s] that are dropped from a number are those of the fraction
    [num / den]: its first bit, and whether the rest is not zero. *)
Definition fraction (r s : bool) (num den : Z) : Prop :=
  match r, s with
  | false, false => num = 0
  | false, true => 0 < num /\ 2 * num < den
  | true, false => 2 * num = den
  | true, true => den < 2 * num /\ num < den
  end.

Lemma new_location_fraction m n r :
  0 <= r < n ->
  exists rb sb, shr_record_of_loc m (new_location n r) = Build_shr_record m rb sb /\ fraction rb sb r n.
Proof.
  intros Hr. unfold new_location, new_location_even, new_location_odd.
  destruct (Z.even n) eqn:He; (destruct (Z.eqb_spec r 0) as [->|Hne]; [by exists false, false|]).
  - destruct (Z.compare_spec (2 * r) n);
      [exists true, false|exists false, true|exists true, true]; (split; [done|simpl; lia]).
  - assert (2 * r <> n) by (intros <-; by rewrite Z.even_mul in He).
    destruct (Z.compare_spec (2 * r + 1) n);
      [exists false, true|exists false, true|exists true, true]; (split; [done|simpl; lia]).
Qed.

Lemma loc_of_bits m r s :
  loc_of_shr_record (Build_shr_record m r s)
  = match r, s with
    | false, false => loc_Exact
    | false, true => loc_Inexact Lt
    | true, false => loc_Inexact Eq
    | true, true => loc_Inexact Gt
    end.
Proof. by destruct r, s. Qed.

Lemma shr_1_fraction m r s num den :
  0 < m -> 0 < den -> fraction r s num den ->
  exists r' s', shr_1 (Build_shr_record m r s) = Build_shr_record (m / 2) r' s' /\
    fraction r' s' ((m mod 2) * den + num) (2 * den).
Proof.
  intros Hm Hd Hf. destruct m as [|[p|p|]|p]; try lia; cbn [shr_1].
  - exists true, (r || s). change (Zpos p~1) with (2 * Zpos p + 1).
    assert ((2 * Zpos p + 1) / 2 = Zpos p) as -> by (symmetry; apply (Z.div_unique_pos _ 2 _ 1); lia).
    assert ((2 * Zpos p + 1) mod 2 = 1) as -> by (symmetry; apply (Z.mod_unique_pos _ 2 (Zpos p)); lia).
    split; [done|]. destruct r, s; simpl in *; lia.
  - exists false, (r || s). change (Zpos p~0) with (2 * Zpos p).
    assert ((2 * Zpos p) / 2 = Zpos p) as -> by (symmetry; apply (Z.div_unique_pos _ 2 _ 0); lia).
    assert ((2 * Zpos p) mod 2 = 0) as -> by (symmetry; apply (Z.mod_unique_pos _ 2 (Zpos p)); lia).
    split; [done|]. destruct r, s; simpl in *; lia.
  - exists true, (r || s). change (1 / 2) with 0. change (1 mod 2) with 1.
    split; [done|]. destruct r, s; simpl in *; lia.
Qed.

(** Rounding to the nearest is off by half a unit at most. *)
Lemma round_nearest_half m r s num den :
  0 < den -> fraction r s num den ->
  let R := round_nearest_even m (loc_of_shr_record (Build_shr_record m r s)) in
  m <= R <= m + 1 /\ 2 * Z.abs (R * den - (m * den + num)) <= den.
Proof.
  intros Hd Hf. rewrite loc_of_bits. destruct r, s; simpl in *; try (destruct (Z.even m)); nia.
Qed.

(** A mantissa of 53 bits, or the power after it, becomes a normal number. *)
Lemma finish_round R e :
  2 ^ 52 <= R <= 2 ^ 53 -> -1074 <= e <= 970 ->
  exists m e', normal m e' /\ e <= e' <= e + 1 /\ Zpos m * 2 ^ (e' - e) = R /\
    shr_fexp 53 1024 R e loc_Exact = (Build_shr_record (Zpos m) false false, e').
Proof.
  intros HR He. destruct (Z.eq_dec R (2 ^ 53)) as [->|Hne].
  - exists (2 ^ 52)%positive, (e + 1). assert (normal (2 ^ 52) (e + 1)) as Hn by (unfold normal; lia).
    split; [done|]. split; [lia|]. split; [by replace (e + 1 - e) with 1 by lia|].
    pose proof (shr_fexp_exact (2 ^ 52) (e + 1) 1 Hn ltac:(lia)) as E.
    by replace (e + 1 - 1) with e in E by lia.
  - exists (Z.to_pos R), e. assert (normal (Z.to_pos R) e) as Hn.
    { unfold normal. rewrite Z2Pos.id; lia. }
    split; [done|]. split; [lia|]. rewrite Z.sub_diag, Z.mul_1_r, Z2Pos.id by lia.
    split; [done|].
    pose proof (shr_fexp_exact (Z.to_pos R) e 0 Hn ltac:(lia)) as E.
    by rewrite Z.mul_1_r, Z.sub_0_r, Z2Pos.id in E by lia.
Qed.

(** The first shift of a quotient of 53 or 54 bits. *)
Lemma shr_fexp_quotient q e n r :
  2 ^ 52 <= q < 2 ^ 54 -> -1074 <= e <= 900 -> 0 <= r < n ->
  exists k m rb sb num, 0 <= k <= 1 /\ 2 ^ 52 <= m < 2 ^ 53 /\
    shr_fexp 53 1024 q e (new_location n r) = (Build_shr_record m rb sb, e + k) /\
    fraction rb sb num (n * 2 ^ k) /\ m * (n * 2 ^ k) + num = q * n + r.
Proof.
  intros Hq He Hr. destruct (new_location_fraction q n r Hr) as (rb & sb & E & Hf).
  unfold shr_fexp. rewrite E. destruct q as [|q|q]; [lia| |lia]. cbn [Zdigits2]. rewrite digits2_log2.
  destruct (Z.lt_ge_cases (Zpos q) (2 ^ 53)) as [Hlt|Hge].
  - assert (Z.log2 (Zpos q) = 52) as -> by (apply Z.log2_unique; lia).
    replace (52 + 1 + e) with (53 + e) by lia. rewrite fexp_normal, Z.sub_diag by lia.
    exists 0, (Zpos q), rb, sb, r. rewrite Z.add_0_r, Z.mul_1_r. cbn [shr].
    split; [lia|]. split; [lia|]. done.
  - assert (Z.log2 (Zpos q) = 53) as -> by (apply Z.log2_unique; lia).
    replace (53 + 1 + e) with (53 + (e + 1)) by lia. rewrite fexp_normal by lia.
    replace (e + 1 - e) with 1 by lia. cbn [shr iter_pos].
    destruct (shr_1_fraction (Zpos q) rb sb r n ltac:(lia) ltac:(lia) Hf) as (r' & s' & -> & Hf').
    pose proof (Z.div_mod (Zpos q) 2 ltac:(lia)) as Hdm. pose proof (Z.mod_pos_bound (Zpos q) 2 ltac:(lia)).
    exists 1, (Zpos q / 2), r', s', ((Zpos q mod 2) * n + r). change (2 ^ 1) with 2.
    split; [lia|]. split; [lia|]. split; [done|]. split; [by rewrite (Z.mul_comm n)|]. nia.
Qed.

Lemma round_quotient s q e n r :
  2 ^ 52 <= q < 2 ^ 54 -> -1000 <= e <= 900 -> 0 <= r < n ->
  exists m e', normal m e' /\ e <= e' <= e + 2 /\
    binary_round_aux 53 1024 s q e (new_location n r) = S754_finite s m e' /\
    2 * Z.abs (Zpos m * 2 ^ (e' - e) * n - (q * n + r)) <= n * 2 ^ (e' - e).
Proof.
  intros Hq He Hr.
  destruct (shr_fexp_quotient q e n r Hq ltac:(lia) Hr) as (k & m0 & rb & sb & num & Hk & Hm0 & E & Hf & Hv).
  pose proof (Z.pow_pos_nonneg 2 k ltac:(lia) ltac:(lia)) as Hp.
  destruct (round_nearest_half m0 rb sb num (n * 2 ^ k) ltac:(nia) Hf) as [HR Herr].
  unfold binary_round_aux. rewrite E. cbn [shr_m].
  set (R := round_nearest_even m0 _) in *.
  destruct (finish_round R (e + k) ltac:(lia) ltac:(lia)) as (m & e' & Hn & He' & Hm & ->).
  cbn [shr_m]. exists m, e'. split; [done|]. split; [lia|].
  split; [by rewrite (proj2 (Z.leb_le e' (1024 - 53)) ltac:(lia))|].
  assert (2 ^ (e' - e) = 2 ^ (e' - (e + k)) * 2 ^ k) as Hpow.
  { rewrite <- Z.pow_add_r by lia. f_equal. lia. }
  pose proof (Z.pow_pos_nonneg 2 (e' - (e + k)) ltac:(lia) ltac:(lia)) as Hp'.
  rewrite Hpow, Z.mul_assoc, Hm, <- Hv.
  replace (R * 2 ^ k * n) with (R * (n * 2 ^ k)) by ring. nia.
Qed.

(** The quotient of two positive integers is within half a unit in the last place. *)
Lemma fdiv_half_ulp a b :
  0 < a <= 2 ^ 53 -> 0 < b <= 2 ^ 53 ->
  exists m e, fdiv (of_Z a) (of_Z b) = S754_finite false m e /\ normal m e /\ -110 <= e <= 60 /\
    forall D, 200 <= D -> 2 * Z.abs (Zpos m * 2 ^ (e + D) * b - a * 2 ^ D) <= 2 ^ (e + D) * b.
Proof.
  intros Ha Hb.
  destruct (normal_of_pos a Ha) as (m1 & e1 & Hn1 & He1 & Hv1).
  destruct (normal_of_pos b Hb) as (m2 & e2 & Hn2 & He2 & Hv2).
  rewrite (represents_of_Z (S754_finite false m1 e1) a), (represents_of_Z (S754_finite false m2 e2) b) by done.
  unfold fdiv. cbn [SFdiv]. unfold SFdiv_core_binary. cbn [Zdigits2]. rewrite !digits2_log2.
  rewrite (normal_log2 _ _ Hn1), (normal_log2 _ _ Hn2).
  replace (fexp 53 1024 (52 + 1 + e1 - (52 + 1 + e2))) with (e1 - e2 - 53) by (unfold fexp, emin; lia).
  rewrite Z.min_l by lia. replace (e1 - e2 - (e1 - e2 - 53)) with 53 by lia.
  rewrite Z.shiftl_mul_pow2 by lia.
  destruct Hn1 as [Hm1 _], Hn2 as [Hm2 _].
  pose proof (Z_div_mod (Zpos m1 * 2 ^ 53) (Zpos m2) ltac:(lia)) as Hdm.
  destruct (Z.div_eucl _ _) as [q r]. destruct Hdm as [Hqr Hr].
  destruct (round_quotient false q (e1 - e2 - 53) (Zpos m2) r ltac:(nia) ltac:(lia) Hr)
    as (m & e & Hn & He & Hround & Herr).
  exists m, e. split; [exact Hround|]. split; [done|]. split; [lia|]. intros D HD.
  set (x := e - (e1 - e2 - 53)) in *.
  assert (a * Zpos m2 * 2 ^ (e2 + 52) = Zpos m1 * b * 2 ^ (e1 + 52)) as Hab by nia.
  pose proof (Z.pow_pos_nonneg 2 (e2 + 52) ltac:(lia) ltac:(lia)) as P2.
  set (y := e1 - e2 - 53 + D).
  pose proof (Z.pow_pos_nonneg 2 y ltac:(lia) ltac:(lia)) as Py.
  assert (2 ^ (e + D) = 2 ^ x * 2 ^ y) as -> by (rewrite <- Z.pow_add_r by lia; f_equal; lia).
  assert (a * 2 ^ D * Zpos m2 = b * (q * Zpos m2 + r) * 2 ^ y) as Hx.
  { replace (q * Zpos m2 + r) with (Zpos m1 * 2 ^ 53) by lia.
    apply (Z.mul_reg_r _ _ (2 ^ (e2 + 52))); [lia|].
    transitivity (Zpos m1 * b * 2 ^ (e1 + 52) * 2 ^ D); [rewrite <- Hab; ring|].
    transitivity (Zpos m1 * b * (2 ^ 53 * 2 ^ y * 2 ^ (e2 + 52))); [|ring].
    rewrite <- !Z.pow_add_r, <- Z.mul_assoc, <- Z.pow_add_r by lia. do 2 f_equal. lia. }
  apply (Z.mul_le_mono_pos_r _ _ (Zpos m2)); [done|].
  rewrite <- Z.mul_assoc, <- (Z.abs_eq (Zpos m2)) at 1 by done. rewrite <- Z.abs_mul.
  replace ((Zpos m * (2 ^ x * 2 ^ y) * b - a * 2 ^ D) * Zpos m2)
    with ((Zpos m * 2 ^ x * Zpos m2 - (q * Zpos m2 + r)) * (2 ^ y * b)).
  2: { rewrite Z.mul_sub_distr_r, (Z.mul_sub_distr_r _ _ (Zpos m2)), Hx. ring. }
  rewrite Z.abs_mul, (Z.abs_eq (2 ^ y * b)) by nia. nia.
Qed.

(** ** Rounding a quotient to an integer *)

(** Below [2^52] the quotient is a mantissa over a power of two [T] that is large
    enough to tell multiples of [1 / b] apart. *)
Lemma fdiv_small a b :
  0 < a <= 2 ^ 52 -> 0 < b <= 2 ^ 53 ->
  exists m k, fdiv (of_Z a) (of_Z b) = S754_finite false m (- k) /\ 0 <= k /\
    2 * Z.abs (Zpos m * b - a * 2 ^ k) <= b /\ b < 2 * 2 ^ k.
Proof.
  intros Ha Hb. destruct (fdiv_half_ulp a b ltac:(lia) Hb) as (m & e & Hf & [Hm _] & He & Herr).
  specialize (Herr 200 ltac:(lia)).
  pose proof (Z.pow_pos_nonneg 2 (e + 200) ltac:(lia) ltac:(lia)) as HP.
  assert (e <= 0) as He0.
  { destruct (Z.le_gt_cases e 0) as [|Hgt]; [done|exfalso].
    assert (2 ^ (e + 200) = 2 ^ (e - 1) * (2 * 2 ^ 200)) as E.
    { rewrite <- Z.pow_succ_r, <- Z.pow_add_r by lia. f_equal. lia. }
    pose proof (Z.pow_pos_nonneg 2 (e - 1) ltac:(lia) ltac:(lia)). nia. }
  exists m, (- e). rewrite Z.opp_involutive. split; [done|]. split; [lia|].
  pose proof (Z.pow_pos_nonneg 2 (- e) ltac:(lia) ltac:(lia)) as HT.
  assert (2 ^ 200 = 2 ^ (e + 200) * 2 ^ (- e)) as E by (rewrite <- Z.pow_add_r by lia; f_equal; lia).
  rewrite E in Herr. set (P := 2 ^ (e + 200)) in *. set (T := 2 ^ (- e)) in *.
  replace (Zpos m * P * b - a * (P * T)) with ((Zpos m * b - a * T) * P) in Herr by ring.
  rewrite Z.abs_mul, (Z.abs_eq P) in Herr by lia.
  assert (2 * Z.abs (Zpos m * b - a * T) <= b) as Hh by nia. split; [done|]. nia.
Qed.

Lemma fdiv_zero b : 0 < b <= 2 ^ 53 -> fdiv (of_Z 0) (of_Z b) = S754_zero false.
Proof.
  intros Hb. destruct (normal_of_pos b Hb) as (m & e & Hn & He & Hv).
  by rewrite (represents_of_Z (S754_finite false m e) b).
Qed.

Lemma scale_floor_neg m k : 0 <= k -> scale_floor m (- k) = m / 2 ^ k.
Proof.
  intros Hk. unfold scale_floor. destruct (Z.leb_spec 0 (- k)).
  - replace k with 0 by lia. simpl. by rewrite Z.mul_1_r, Z.div_1_r.
  - by rewrite Z.opp_involutive.
Qed.

(** Truncating the computed quotient gives the integer quotient. *)
Lemma ftrunc_fdiv a b : 0 <= a <= 2 ^ 52 -> 0 < b <= 2 ^ 53 -> ftrunc (fdiv (of_Z a) (of_Z b)) = a / b.
Proof.
  intros Ha Hb. destruct (Z.eq_dec a 0) as [->|Hne]; [by rewrite fdiv_zero|].
  destruct (fdiv_small a b ltac:(lia) Hb) as (m & k & -> & Hk & Hh & HT). simpl.
  rewrite scale_floor_neg by done. set (T := 2 ^ k) in *.
  pose proof (Z.div_mod a b ltac:(lia)). pose proof (Z.mod_pos_bound a b ltac:(lia)).
  symmetry. apply (Z.div_unique_pos _ _ _ (Zpos m - T * (a / b))); [|lia]. nia.
Qed.

(** The next integer after the computed quotient is that of the quotient. *)
Lemma fceil_fdiv a b : 0 <= a <= 2 ^ 52 -> 0 < b <= 2 ^ 53 -> fceil (fdiv (of_Z a) (of_Z b)) = (a + b - 1) / b.
Proof.
  intros Ha Hb. destruct (Z.eq_dec a 0) as [->|Hne].
  { rewrite fdiv_zero by done. simpl. symmetry. apply Z.div_small. lia. }
  destruct (fdiv_small a b ltac:(lia) Hb) as (m & k & -> & Hk & Hh & HT). simpl.
  unfold scale_ceil. rewrite scale_floor_neg by done. set (T := 2 ^ k) in *.
  pose proof (Z.div_mod (a + b - 1) b ltac:(lia)). pose proof (Z.mod_pos_bound (a + b - 1) b ltac:(lia)).
  set (c := (a + b - 1) / b) in *.
  assert ((- Zpos m) / T = - c) as ->; [|lia].
  symmetry. apply (Z.div_unique_pos _ _ _ (c * T - Zpos m)); [|lia]. nia.
Qed.

(** ** Comparing a quotient with a threshold *)

(** The value of a finite number, over the smallest power of two. *)
Definition F2Q (f : float64) : Q :=
  match f with
  | S754_finite s m e => Qmake ((if s then Zneg m else Zpos m) * 2 ^ (e + 1074)) (2 ^ 1074)
  | _ => 0%Q
  end.

Definition finite (f : float64) : Prop :=
  match f with
  | S754_zero _ => True
  | S754_finite _ m e => bounded 53 1024 m e = true
  | _ => False
  end.

(** A finite number has at most 53 bits, and exactly 53 above the smallest exponent. *)
Lemma bounded_mantissa m e :
  bounded 53 1024 m e = true -> Zpos m < 2 ^ 53 /\ -1074 <= e /\ (-1074 < e -> 2 ^ 52 <= Zpos m).
Proof.
  unfold bounded, canonical_mantissa. rewrite digits2_log2. intros [He%Z.eqb_eq _]%andb_prop.
  unfold fexp, emin in He. split; [apply Z.log2_lt_pow2; lia|]. split; [lia|].
  intros. apply Z.log2_le_pow2; lia.
Qed.

(** On positive numbers the comparison compares exponents, then mantissas; it agrees
    with the values. *)
Lemma fleb_values m1 e1 m2 e2 :
  bounded 53 1024 m1 e1 = true -> normal m2 e2 ->
  fleb (S754_finite false m1 e1) (S754_finite false m2 e2) = true <->
  Zpos m1 * 2 ^ (e1 + 1074) <= Zpos m2 * 2 ^ (e2 + 1074).
Proof.
  intros (Hm1 & He1 & Hn1)%bounded_mantissa [Hm2 He2]. unfold fleb, SFleb. cbn [SFcompare].
  destruct (Z.compare_spec e1 e2) as [->|Hlt|Hgt].
  - pose proof (Z.pow_pos_nonneg 2 (e2 + 1074) ltac:(lia) ltac:(lia)).
    change (Pos.compare_cont Eq m1 m2) with (Pos.compare m1 m2).
    destruct (Pos.compare_spec m1 m2); split; (done || nia).
  - split; [intros _|done].
    assert (2 ^ (e2 + 1074) = 2 ^ (e2 - e1 - 1) * (2 * 2 ^ (e1 + 1074))) as ->.
    { rewrite <- Z.pow_succ_r, <- Z.pow_add_r by lia. f_equal. lia. }
    pose proof (Z.pow_pos_nonneg 2 (e2 - e1 - 1) ltac:(lia) ltac:(lia)).
    pose proof (Z.pow_pos_nonneg 2 (e1 + 1074) ltac:(lia) ltac:(lia)).
    assert (Zpos m1 <= Zpos m2 * (2 ^ (e2 - e1 - 1) * 2)) by nia. nia.
  - split; [done|intros Hle; exfalso]. specialize (Hn1 ltac:(lia)).
    assert (2 ^ (e1 + 1074) = 2 ^ (e1 - e2 - 1) * (2 * 2 ^ (e2 + 1074))) as E.
    { rewrite <- Z.pow_succ_r, <- Z.pow_add_r by lia. f_equal. lia. }
    rewrite E in Hle.
    pose proof (Z.pow_pos_nonneg 2 (e1 - e2 - 1) ltac:(lia) ltac:(lia)).
    pose proof (Z.pow_pos_nonneg 2 (e2 + 1074) ltac:(lia) ltac:(lia)).
    assert (Zpos m2 < Zpos m1 * (2 ^ (e1 - e2 - 1) * 2)) by nia. nia.
Qed.

Lemma Qle_quotient x d a b :
  0 < b -> (Qmake x d <= inject_Z a / inject_Z b)%Q <-> x * b <= a * Zpos d.
Proof.
  intros Hb. assert (0 < inject_Z b)%Q as Hb' by (unfold Qlt; simpl; lia). split; intros H.
  - assert (Qmake x d * inject_Z b <= inject_Z a)%Q as H'.
    { rewrite <- (Qmult_div_r (inject_Z a) (inject_Z b)) by (intros E; rewrite E in Hb'; by apply Qlt_irrefl in Hb').
      rewrite (Qmult_comm (inject_Z b)). by apply Qmult_le_compat_r; [|apply Qlt_le_weak]. }
    unfold Qle in H'. simpl in H'. lia.
  - apply Qle_shift_div_l; [done|]. unfold Qle. simpl. lia.
Qed.

Lemma slack_value : (1 - (1 # 2 ^ 53) == Qmake (2 ^ 53 - 1) (2 ^ 53))%Q.
Proof. reflexivity. Qed.

Lemma Qle_slack x d a b :
  0 < b -> (Qmake x d * (1 - (1 # 2 ^ 53)) <= inject_Z a / inject_Z b)%Q <->
  x * (2 ^ 53 - 1) * b <= a * (Zpos d * 2 ^ 53).
Proof. intros Hb. rewrite slack_value. apply (Qle_quotient (x * (2 ^ 53 - 1)) (d * 2 ^ 53) a b Hb). Qed.

(** The two comparisons for a positive threshold and quotient, at the scale [2^1074]. *)
Lemma fleb_fdiv_pos m1 e1 a b :
  bounded 53 1024 m1 e1 = true -> 0 < a <= 2 ^ 53 -> 0 < b <= 2 ^ 53 ->
  let x := Zpos m1 * 2 ^ (e1 + 1074) in
  let le := fleb (S754_finite false m1 e1) (fdiv (of_Z a) (of_Z b)) in
  (x * b <= a * 2 ^ 1074 -> le = true) /\ (le = true -> x * (2 ^ 53 - 1) * b <= a * (2 ^ 1074 * 2 ^ 53)).
Proof.
  intros Ht Ha Hb x. destruct (fdiv_half_ulp a b Ha Hb) as (m & e & -> & Hn & He & Herr).
  specialize (Herr 1074 ltac:(lia)). cbv zeta. rewrite (fleb_values _ _ _ _ Ht Hn). fold x.
  destruct (bounded_mantissa _ _ Ht) as (Hm1 & He1 & _).
  pose proof (Z.pow_pos_nonneg 2 (e + 1074) ltac:(lia) ltac:(lia)) as HP.
  assert (e <= e1 -> x = Zpos m1 * 2 ^ (e1 - e) * 2 ^ (e + 1074)) as Hx.
  { intros. unfold x. rewrite <- Z.mul_assoc, <- Z.pow_add_r by lia. do 2 f_equal. lia. }
  assert (e1 < e -> x <= Zpos m * 2 ^ (e + 1074)) as Hlt.
  { intros Hlt. apply (fleb_values _ _ _ _ Ht); [done|]. unfold fleb, SFleb. cbn [SFcompare].
    by rewrite (proj2 (Z.compare_lt_iff e1 e)). }
  clearbody x. revert Herr HP Hx Hlt. generalize (2 ^ 1074) as S, (2 ^ (e + 1074)) as P. intros S P Herr HP Hx Hlt.
  assert (0 < P * b) as HB by nia. replace (Zpos m * P * b) with (Zpos m * (P * b)) in Herr by ring.
  destruct Hn as [Hm _]. split; intros H.
  - destruct (Z.le_gt_cases x (Zpos m * P)) as [|Hgt]; [done|exfalso].
    destruct (Z.le_gt_cases e e1) as [Hee|Hee]; [|specialize (Hlt Hee); lia].
    rewrite (Hx Hee) in *. revert H Hgt. generalize (Zpos m1 * 2 ^ (e1 - e)) as K. intros K H Hgt.
    assert (Zpos m + 1 <= K) as HK by nia.
    assert ((Zpos m + 1) * (P * b) <= K * P * b) by nia. lia.
  - assert (x * b <= Zpos m * (P * b)) by nia.
    assert (2 ^ 52 * (P * b) <= Zpos m * (P * b)) by nia. lia.
Qed.

(** A threshold that the quotient reaches is reached by the computed quotient, and a
    threshold that the computed quotient reaches is missed by the quotient by at most
    one part in [2^53]. *)
Lemma fleb_fdiv t a b :
  finite t -> 0 <= a <= 2 ^ 53 -> 0 < b <= 2 ^ 53 ->
  ((F2Q t <= inject_Z a / inject_Z b)%Q -> fleb t (fdiv (of_Z a) (of_Z b)) = true) /\
  (fleb t (fdiv (of_Z a) (of_Z b)) = true ->
   (F2Q t * (1 - (1 # 2 ^ 53)) <= inject_Z a / inject_Z b)%Q).
Proof.
  intros Ht Ha Hb. destruct t as [s|s| |[] m1 e1]; try done.
  - destruct (Z.eq_dec a 0) as [->|Hne].
    + rewrite fdiv_zero by done. split; [done|]. intros _. cbn [F2Q]. rewrite (Qle_slack 0 1) by lia. lia.
    + destruct (fdiv_half_ulp a b ltac:(lia) Hb) as (m & e & -> & _).
      split; [done|]. intros _. cbn [F2Q]. rewrite (Qle_slack 0 1) by lia. lia.
  - assert (fleb (S754_finite true m1 e1) (fdiv (of_Z a) (of_Z b)) = true) as ->.
    { destruct (Z.eq_dec a 0) as [->|Hne]; [by rewrite fdiv_zero|].
      by destruct (fdiv_half_ulp a b ltac:(lia) Hb) as (m & e & -> & _). }
    split; [done|]. intros _. cbn [F2Q]. rewrite Qle_slack by lia.
    pose proof (Z.pow_nonneg 2 (e1 + 1074) ltac:(lia)).
    transitivity 0; [|apply Z.mul_nonneg_nonneg; [lia|done]].
    apply Z.mul_nonpos_nonneg; [|lia]. apply Z.mul_nonpos_nonneg; [|done]. nia.
  - cbn [F2Q]. rewrite Qle_quotient, Qle_slack by lia.
    change (Zpos (2 ^ 1074)) with (2 ^ 1074).
    destruct (Z.eq_dec a 0) as [->|Hne]; [|apply fleb_fdiv_pos; [done|lia|done]].
    rewrite fdiv_zero by done. split; [|done]. intros Hle. exfalso.
    destruct (bounded_mantissa _ _ Ht) as (_ & He1 & _).
    pose proof (Z.pow_pos_nonneg 2 (e1 + 1074) ltac:(lia) ltac:(lia)). nia.
Qed.
