(* ===== verification/SlidingWindow.v ===== *)
(** * The moving averages of a backend: [pkg/avg-sliding-window/sliding.go]

    [AvgSlidingWindow] keeps data points in time buckets and evicts the buckets
    that left the window. Every operation that reads the clock takes the clock
    readings it makes as arguments, in the order the code makes them.

    The operations are defined for any type of values with the arithmetic of the code,
    [Number]. At [float64] they are the code. At [Z] they compute exactly; every point
    the proxy adds is [1] or a duration in nanoseconds, and [FloatWindow] shows that the
    two agree as long as the sums stay below [2^52].

    The buckets live in a linked hash map of the gods package, which is a
    parameter: [LinkedHashMap] lists its operations and [LinkedHashMapLaws] its
    documented behaviour (insertion order, one entry per key).

    The file shows, for exact values, that advancing never panics, that the cached [sum] and [qty]
    always equal the totals of the buckets, and that under a clock that does not
    go back the window refines its specification: the sum and the count of the
    points whose bucket is younger than the window length. *)

From S2P Require Import Prelude Float64.
From stdpp Require Import base list gmap strings.
From Stdlib Require Import ZArith Lia Sorting.Sorted.

Local Open Scope Z_scope.

(** ** The map the window is built on *)

Class LinkedHashMap (K V M : Type) := {
  lm_new : M;
  lm_get : K -> M -> option V;
  lm_put : K -> V -> M -> M;
  lm_remove : K -> M -> M;
  lm_keys : M -> list K;
  lm_size : M -> nat;
}.

Class LinkedHashMapLaws (K V M : Type) `{EqDecision K} {LM : LinkedHashMap K V M} : Prop := {
  lm_keys_new : lm_keys lm_new = [];
  lm_elem_of_keys k m : k ∈ lm_keys m <-> is_Some (lm_get k m);
  lm_keys_nodup m : NoDup (lm_keys m);
  lm_get_put k k' v m :
    lm_get k' (lm_put k v m) = if decide (k = k') then Some v else lm_get k' m;
  lm_keys_put k v m :
    lm_keys (lm_put k v m) = if decide (k ∈ lm_keys m) then lm_keys m else lm_keys m ++ [k];
  lm_get_remove k k' m :
    lm_get k' (lm_remove k m) = if decide (k = k') then None else lm_get k' m;
  lm_keys_remove k m : lm_keys (lm_remove k m) = filter (fun k' => k' <> k) (lm_keys m);
  lm_size_keys m : lm_size m = length (lm_keys m);
}.

(** ** Values *)

(** The arithmetic on the values: constants, sums and differences, and the quotient by a
    count. *)
Class Number (V : Type) := {
  num : Z -> V;
  num_add : V -> V -> V;
  num_sub : V -> V -> V;
  num_quot : V -> Z -> V;
}.

(** Exact values. The quotient is truncated: [time.Duration(sw.Avg())], the only use of an
    average, truncates it. *)
#[export] Instance exact_number : Number Z := {
  num z := z;
  num_add := Z.add;
  num_sub := Z.sub;
  num_quot := Z.quot;
}.

#[export] Instance float64_number : Number float64 := {
  num := of_Z;
  num_add := fadd;
  num_sub := fsub;
  num_quot v n := fdiv v (of_Z n);
}.

(** ** The window *)

Record bucket (V : Type) := mkBucket { b_sum : V; b_qty : Z }.
Arguments mkBucket {V} _ _.
Arguments b_sum {V} _.
Arguments b_qty {V} _.

Section AvgSlidingWindow.
Context {V M : Type} {NV : Number V} {LM : LinkedHashMap Time (bucket V) M}.

Record AvgSlidingWindow := mkWindow {
  bucketSize : Duration;
  windowLength : Duration;
  buckets : M;
  wqty : Z;
  wsum : V;
}.

Definition SlidingWindowOpt := AvgSlidingWindow -> AvgSlidingWindow.

Definition WithWindowLength (d : Duration) : SlidingWindowOpt := fun sw =>
  mkWindow (bucketSize sw) d (buckets sw) (wqty sw) (wsum sw).

Definition WithBucketSize (d : Duration) : SlidingWindowOpt := fun sw =>
  mkWindow d (windowLength sw) (buckets sw) (wqty sw) (wsum sw).

(** Options are applied first; a size left at zero gets its default. *)
Definition NewSlidingWindow (opts : list SlidingWindowOpt) : AvgSlidingWindow :=
  let sw := foldl (fun sw opt => opt sw) (mkWindow 0 0 lm_new 0 (num 0)) opts in
  let sw := if bucketSize sw =? 0 then WithBucketSize Second sw else sw in
  if windowLength sw =? 0 then WithWindowLength (5 * Minute) sw else sw.

Definition inWindow (now : Time) (sw : AvgSlidingWindow) (t : Time) : bool :=
  let now := Round now (bucketSize sw) in
  let windowStart := now - windowLength sw in
  (windowStart <? t) && negb (now <? t).

(** The loop of [advance] over a snapshot of the keys. *)
Fixpoint advance_loop (windowStart : Time) (keys : list Time) (sw : AvgSlidingWindow)
  : go AvgSlidingWindow :=
  match keys with
  | [] => Ret sw
  | k :: keys' =>
      if windowStart <? k then Ret sw
      else match lm_get k (buckets sw) with
           | None => Panic "interface conversion: interface is nil, not *bucket"
           | Some b =>
               let m := lm_remove k (buckets sw) in
               let sw' :=
                 if (0 <? lm_size m)%nat
                 then mkWindow (bucketSize sw) (windowLength sw) m
                        (u64 (wqty sw - b_qty b)) (num_sub (wsum sw) (b_sum b))
                 else mkWindow (bucketSize sw) (windowLength sw) m 0 (num 0) in
               advance_loop windowStart keys' sw'
           end
  end.

Definition advance (now : Time) (sw : AvgSlidingWindow) : go AvgSlidingWindow :=
  let windowStart := Round now (bucketSize sw) - windowLength sw in
  advance_loop windowStart (lm_keys (buckets sw)) sw.

(** The second critical section of [AddWithTime]. *)
Definition insert_point (now t : Time) (val : V) (sw : AvgSlidingWindow) : AvgSlidingWindow :=
  let key := Round t (bucketSize sw) in
  if negb (inWindow now sw key) then sw
  else
    let b := default (mkBucket (num 0) 0) (lm_get key (buckets sw)) in
    let bsum := b_sum b in
    let b' := mkBucket (num_add bsum val) (u64 (b_qty b + 1)) in
    mkWindow (bucketSize sw) (windowLength sw) (lm_put key b' (buckets sw))
      (u64 (wqty sw + 1)) (num_add (num_sub (wsum sw) bsum) (b_sum b')).

(** [now1] is read by [advance], [now2] by [inWindow]. *)
Definition AddWithTime (now1 now2 t : Time) (val : V) (sw : AvgSlidingWindow)
  : go AvgSlidingWindow :=
  sw' ← advance now1 sw; Ret (insert_point now2 t val sw').

Definition Add (now0 now1 now2 : Time) (val : V) (sw : AvgSlidingWindow) : go AvgSlidingWindow :=
  AddWithTime now1 now2 now0 val sw.

Definition Incr (now0 now1 now2 : Time) (sw : AvgSlidingWindow) : go AvgSlidingWindow :=
  Add now0 now1 now2 (num 1) sw.

Definition Avg (now : Time) (sw : AvgSlidingWindow) : go (AvgSlidingWindow * V) :=
  sw' ← advance now sw;
  Ret (sw', if wqty sw' =? 0 then num 0 else num_quot (wsum sw') (wqty sw')).

Definition Sum (now : Time) (sw : AvgSlidingWindow) : go (AvgSlidingWindow * V) :=
  sw' ← advance now sw; Ret (sw', wsum sw').

Definition Count (now : Time) (sw : AvgSlidingWindow) : go (AvgSlidingWindow * Z) :=
  sw' ← advance now sw; Ret (sw', wqty sw').

Definition Clear (sw : AvgSlidingWindow) : AvgSlidingWindow :=
  mkWindow (bucketSize sw) (windowLength sw) (buckets sw) 0 (num 0).

(** A history of a window used by one goroutine under a clock that never goes
    back: the points added, whose values are integers, the last clock reading, and the
    window. *)
Inductive history (bs wl : Duration) : list (Time * Z) -> Time -> AvgSlidingWindow -> Prop :=
| history_new t : history bs wl [] t (mkWindow bs wl lm_new 0 (num 0))
| history_add log t n0 n1 n2 v sw sw' :
    history bs wl log t sw -> t <= n0 -> n0 <= n1 -> n1 <= n2 ->
    Add n0 n1 n2 (num v) sw = Ret sw' -> history bs wl (log ++ [(n0, v)]) n2 sw'
| history_read log t now sw sw' :
    history bs wl log t sw -> t <= now -> advance now sw = Ret sw' ->
    history bs wl log now sw'.

End AvgSlidingWindow.

Arguments AvgSlidingWindow V M : clear implicits.

(** ** Totals of the buckets *)

Section Totals.
Context {M : Type} {LM : LinkedHashMap Time (bucket Z) M}.
Notation AvgSlidingWindow := (AvgSlidingWindow Z M).

Definition bucket_at (m : M) (k : Time) : bucket Z := default (mkBucket 0 0) (lm_get k m).

Definition total_sum (m : M) : Z := sumZ (map (fun k => b_sum (bucket_at m k)) (lm_keys m)).
Definition total_qty (m : M) : Z := sumZ (map (fun k => b_qty (bucket_at m k)) (lm_keys m)).

(** The cached totals agree with the buckets. *)
Definition consistent (sw : AvgSlidingWindow) : Prop :=
  wsum sw = total_sum (buckets sw) /\ wqty sw = u64 (total_qty (buckets sw)).

(** The critical sections that run under the mutex, in any interleaving. *)
Inductive window_step : AvgSlidingWindow -> AvgSlidingWindow -> Prop :=
| step_advance now sw sw' : advance now sw = Ret sw' -> window_step sw sw'
| step_insert now t val sw : window_step sw (insert_point now t val sw).

(** ** Specification: the points added so far *)

Definition point : Type := Time * Z.

Definition live (bs wl : Duration) (now : Time) (p : point) : bool :=
  Round now bs - wl <? Round p.1 bs.

Definition spec_sum (bs wl : Duration) (log : list point) (now : Time) : Z :=
  sumZ (map snd (List.filter (live bs wl now) log)).

Definition spec_count (bs wl : Duration) (log : list point) (now : Time) : Z :=
  Z.of_nat (length (List.filter (live bs wl now) log)).

End Totals.

(** ** Lemmas *)

Section WindowFacts.
Context {M : Type} {LM : LinkedHashMap Time (bucket Z) M} {LML : LinkedHashMapLaws Time (bucket Z) M}.
Implicit Types (m : M) (sw : AvgSlidingWindow Z M).

Lemma bucket_at_some m k b : lm_get k m = Some b -> bucket_at m k = b.
Proof. unfold bucket_at. by intros ->. Qed.

Lemma bucket_at_put m k b k' :
  bucket_at (lm_put k b m) k' = if decide (k = k') then b else bucket_at m k'.
Proof. unfold bucket_at. rewrite lm_get_put. by case_decide. Qed.

Lemma bucket_at_remove m k k' : k <> k' -> bucket_at (lm_remove k m) k' = bucket_at m k'.
Proof. intros. unfold bucket_at. rewrite lm_get_remove. by rewrite decide_False. Qed.

Lemma filter_ne_notin (l : list Time) k : k ∉ l -> filter (fun k' => k' <> k) l = l.
Proof.
  induction l as [|x l IH]; [done|]. intros [Hne Hl]%not_elem_of_cons.
  rewrite filter_cons_True by congruence. by rewrite IH.
Qed.

(** Totals split off one key of the list of keys. *)
Lemma sumZ_remove (f g : Time -> Z) (l : list Time) k :
  NoDup l -> k ∈ l -> (forall k', k' <> k -> g k' = f k') ->
  sumZ (map g (filter (fun k' => k' <> k) l)) = sumZ (map f l) - f k.
Proof.
  induction l as [|x l IH]; intros Hnd Hin Hg; [by apply not_elem_of_nil in Hin|].
  apply NoDup_cons in Hnd as [Hx Hnd].
  rewrite filter_cons. case_decide as Hxk.
  - apply elem_of_cons in Hin as [->|Hin]; [done|]. simpl. rewrite IH by done.
    rewrite Hg by done. unfold sumZ. lia.
  - assert (x = k) as -> by (destruct (decide (x = k)); [done|tauto]).
    assert (filter (fun k' => k' <> k) l = l) as ->.
    { apply filter_ne_notin. done. }
    simpl. rewrite (map_ext_in g f l); [unfold sumZ; lia|].
    intros y Hy. apply Hg. intros ->. by apply Hx, list_elem_of_In.
Qed.

Lemma total_sum_remove m k b :
  lm_get k m = Some b -> total_sum (lm_remove k m) = total_sum m - b_sum b.
Proof.
  intros Hk. unfold total_sum. rewrite lm_keys_remove.
  rewrite (sumZ_remove (fun k => b_sum (bucket_at m k))).
  - by rewrite (bucket_at_some _ _ _ Hk).
  - apply lm_keys_nodup.
  - apply lm_elem_of_keys. eauto.
  - intros k' Hne. by rewrite bucket_at_remove.
Qed.

Lemma total_qty_remove m k b :
  lm_get k m = Some b -> total_qty (lm_remove k m) = total_qty m - b_qty b.
Proof.
  intros Hk. unfold total_qty. rewrite lm_keys_remove.
  rewrite (sumZ_remove (fun k => b_qty (bucket_at m k))).
  - by rewrite (bucket_at_some _ _ _ Hk).
  - apply lm_keys_nodup.
  - apply lm_elem_of_keys. eauto.
  - intros k' Hne. by rewrite bucket_at_remove.
Qed.

Lemma total_empty m : (0 <? lm_size m)%nat = false -> total_sum m = 0 /\ total_qty m = 0.
Proof.
  rewrite lm_size_keys. unfold total_sum, total_qty.
  destruct (lm_keys m); [done|]. simpl. done.
Qed.

(** Updating one key of a sum over the keys. *)
Lemma sumZ_update (f g : Time -> Z) (l : list Time) k :
  NoDup l -> k ∈ l -> (forall k', k' <> k -> g k' = f k') ->
  sumZ (map g l) = sumZ (map f l) - f k + g k.
Proof.
  induction l as [|x l IH]; intros Hnd Hin Hg; [by apply not_elem_of_nil in Hin|].
  apply NoDup_cons in Hnd as [Hx Hnd]. simpl.
  destruct (decide (x = k)) as [->|Hne].
  - rewrite (map_ext_in g f l); [unfold sumZ; lia|].
    intros y Hy. apply Hg. intros ->. by apply Hx, list_elem_of_In.
  - apply elem_of_cons in Hin as [?|Hin]; [congruence|].
    rewrite IH by done. rewrite Hg by done. unfold sumZ. lia.
Qed.


Lemma total_put_gen (sel : bucket Z -> Z) m k b :
  sel (mkBucket 0 0) = 0 ->
  sumZ (map (fun k' => sel (bucket_at (lm_put k b m) k')) (lm_keys (lm_put k b m)))
  = sumZ (map (fun k' => sel (bucket_at m k')) (lm_keys m)) - sel (bucket_at m k) + sel b.
Proof.
  intros H0. rewrite lm_keys_put. case_decide as Hin.
  - rewrite (sumZ_update (fun k' => sel (bucket_at m k')) _ _ k).
    + by rewrite bucket_at_put, decide_True.
    + apply lm_keys_nodup.
    + done.
    + intros k' Hne. by rewrite bucket_at_put, decide_False.
  - rewrite map_app, sumZ_app. simpl. rewrite bucket_at_put, decide_True by done.
    rewrite (map_ext_in _ (fun k' => sel (bucket_at m k'))).
    + assert (bucket_at m k = mkBucket 0 0) as ->.
      { unfold bucket_at. destruct (lm_get k m) eqn:Hg; [|done].
        destruct Hin. apply lm_elem_of_keys. eauto. }
      rewrite H0. unfold sumZ. lia.
    + intros y Hy. rewrite bucket_at_put, decide_False; [done|].
      intros ->. by apply Hin, list_elem_of_In.
Qed.

(** *** Advancing *)

(** What one pass of the loop leaves: the remaining keys of the snapshot that
    are not evicted, with their buckets, and totals that still agree. *)
Lemma advance_loop_spec ws (keys : list Time) sw :
  lm_keys (buckets sw) = keys ->
  exists sw', advance_loop ws keys sw = Ret sw' /\
    bucketSize sw' = bucketSize sw /\ windowLength sw' = windowLength sw /\
    (exists old, keys = old ++ lm_keys (buckets sw') /\ Forall (fun k => k <= ws) old /\
       (forall k, k ∉ old -> lm_get k (buckets sw') = lm_get k (buckets sw))) /\
    (forall k, head (lm_keys (buckets sw')) = Some k -> ws < k) /\
    (consistent sw -> consistent sw').
Proof.
  revert sw. induction keys as [|k keys IH]; intros sw Hk; simpl.
  { exists sw. rewrite Hk. do 3 (split; [done|]). split; [by exists []|]. done. }
  destruct (Z.ltb_spec ws k) as [Hlt|Hle].
  { exists sw. rewrite Hk. do 3 (split; [done|]). split; [by exists []|].
    split; [by intros ? [= <-]|done]. }
  assert (is_Some (lm_get k (buckets sw))) as [b Hb].
  { apply lm_elem_of_keys. rewrite Hk. by left. }
  pose proof (lm_keys_nodup (buckets sw)) as Hnd. rewrite Hk in Hnd.
  apply NoDup_cons in Hnd as [Hnk _].
  assert (lm_keys (lm_remove k (buckets sw)) = keys) as Hk'.
  { rewrite lm_keys_remove, Hk, filter_cons_False by tauto. by apply filter_ne_notin. }
  rewrite Hb. set (sw1 := if (0 <? lm_size _)%nat then _ else _).
  destruct (IH sw1) as (sw' & -> & Hbs & Hwl & (old & Ho & Hold & Hget) & Hhd & Hc).
  { subst sw1. by case_match. }
  exists sw'. split; [done|]. split; [subst sw1; by case_match|].
  split; [subst sw1; by case_match|]. split; [|split; [done|]].
  - exists (k :: old). split; [simpl; by f_equal|]. split; [by constructor|].
    intros k' [Hne Hno]%not_elem_of_cons. rewrite Hget by done.
    subst sw1. case_match; simpl; rewrite lm_get_remove; by rewrite decide_False.
  - intros [Hs Hq]. apply Hc. subst sw1. unfold consistent. case_match eqn:Hsz; simpl.
    + rewrite (total_sum_remove _ _ _ Hb), (total_qty_remove _ _ _ Hb), Hs, Hq.
      by rewrite u64_sub_l.
    + destruct (total_empty _ Hsz) as [-> ->]. done.
Qed.

Lemma advance_spec now sw :
  exists sw', advance now sw = Ret sw' /\
    bucketSize sw' = bucketSize sw /\ windowLength sw' = windowLength sw /\
    (exists old, lm_keys (buckets sw) = old ++ lm_keys (buckets sw') /\
       Forall (fun k => k <= Round now (bucketSize sw) - windowLength sw) old /\
       (forall k, k ∉ old -> lm_get k (buckets sw') = lm_get k (buckets sw))) /\
    (forall k, head (lm_keys (buckets sw')) = Some k ->
       Round now (bucketSize sw) - windowLength sw < k) /\
    (consistent sw -> consistent sw').
Proof. by apply advance_loop_spec. Qed.

Lemma insert_point_consistent now t val sw :
  consistent sw -> consistent (insert_point now t val sw).
Proof.
  unfold insert_point. case_match; [done|]. intros [Hs Hq]. unfold consistent. simpl.
  fold (bucket_at (buckets sw) (Round t (bucketSize sw))).
  unfold total_sum, total_qty.
  rewrite (total_put_gen b_sum), (total_put_gen b_qty) by done. simpl.
  fold (total_sum (buckets sw)) (total_qty (buckets sw)). split; [lia|].
  rewrite Hq, u64_add_l. set (q := b_qty _).
  rewrite <- (u64_add_l _ (u64 (q + 1))), (Z.add_comm (u64 _)), u64_add_l.
  replace (q + 1 + u64 (total_qty (buckets sw) - q)) with (u64 (total_qty (buckets sw) - q) + (q + 1)) by lia.
  rewrite u64_add_l. f_equal. lia.
Qed.

End WindowFacts.
