(* ===== verification/SlidingWindowRefinement.v ===== *)
(** * The sliding window refines its specification

    Properties of [SlidingWindow]: the totals of an arbitrary interleaving of the
    critical sections, the refinement of the log of points by a window under a
    clock that does not go back, and what [Clear] and out-of-order insertion do.
    [WindowOps] is the interface the backends use: reads are pure, because the
    eviction a read performs is not observable later ([read_transparent]). *)

From stdpp Require Import base list gmap strings relations.
From Stdlib Require Import ZArith Lia Sorting.Sorted.
From S2P Require Import Prelude SlidingWindow.

Local Open Scope Z_scope.

(** ** Points grouped by bucket *)

Definition pts_at (bs : Duration) (log : list point) (k : Time) : list point :=
  List.filter (fun p => Round p.1 bs =? k) log.

Definition spec_bucket (bs : Duration) (log : list point) (k : Time) : bucket Z :=
  mkBucket (sumZ (map snd (pts_at bs log k))) (u64 (Z.of_nat (length (pts_at bs log k)))).

Lemma pts_at_app bs log p k :
  pts_at bs (log ++ [p]) k = pts_at bs log k ++ (if Round p.1 bs =? k then [p] else []).
Proof. unfold pts_at. rewrite List.filter_app. simpl. by destruct (_ =? _). Qed.

Lemma pts_at_nil bs log k : pts_at bs log k = [] <-> ~ exists p, p ∈ log /\ Round p.1 bs = k.
Proof.
  unfold pts_at. induction log as [|q log IH]; simpl.
  - split; [|done]. intros _ (p & Hp & _). by apply not_elem_of_nil in Hp.
  - destruct (Z.eqb_spec (Round q.1 bs) k) as [Hk|Hk].
    + split; [done|]. intros []. exists q. split; [by left|done].
    + rewrite IH. split; intros Hn (p & Hp & Hpk); apply Hn.
      * apply elem_of_cons in Hp as [->|Hp]; [done|]. eauto.
      * exists p. split; [by right|done].
Qed.

(** Each point is counted in exactly one bucket. *)
Lemma sumZ_one_key (ks : list Time) (k : Time) (v : Z) :
  NoDup ks -> sumZ (map (fun k' => if k =? k' then v else 0) ks) = if decide (k ∈ ks) then v else 0.
Proof.
  induction ks as [|x ks IH]; intros Hnd; [done|].
  apply NoDup_cons in Hnd as [Hx Hnd]. simpl. unfold sumZ in *. simpl. rewrite IH by done.
  destruct (Z.eqb_spec k x) as [->|Hne].
  - rewrite decide_False by done. rewrite decide_True by (by left). lia.
  - destruct (decide (k ∈ ks)).
    + rewrite decide_True by (by right). lia.
    + rewrite decide_False; [lia|]. intros [?|?]%elem_of_cons; congruence.
Qed.

Lemma sumZ_map_add (f g : Time -> Z) l :
  sumZ (map (fun k => f k + g k) l) = sumZ (map f l) + sumZ (map g l).
Proof. induction l; unfold sumZ in *; simpl in *; lia. Qed.

Lemma sum_by_key bs (w : point -> Z) (P : point -> bool) (ks : list Time) (log : list point) :
  NoDup ks -> (forall p, p ∈ log -> P p = true <-> Round p.1 bs ∈ ks) ->
  sumZ (map (fun k => sumZ (map w (pts_at bs log k))) ks) = sumZ (map w (List.filter P log)).
Proof.
  intros Hnd. induction log as [|p log IH]; intros HP.
  - simpl. clear. induction ks; unfold sumZ in *; simpl in *; lia.
  - transitivity (sumZ (map (fun k => (if Round p.1 bs =? k then w p else 0)
                                     + sumZ (map w (pts_at bs log k))) ks)).
    { f_equal. apply map_ext. intros k. unfold pts_at. simpl. by destruct (_ =? k). }
    rewrite sumZ_map_add, sumZ_one_key, IH; [|by intros q Hq; apply HP; right|done].
    specialize (HP p ltac:(by left)). simpl. case_decide as Hin.
    + rewrite (proj2 HP Hin). done.
    + destruct (P p); [by destruct Hin; apply HP|done].
Qed.

Lemma u64_sumZ_map {A} (f : A -> Z) l : u64 (sumZ (map (fun x => u64 (f x)) l)) = u64 (sumZ (map f l)).
Proof.
  induction l as [|x l IH]; [done|]. unfold sumZ in *. simpl. rewrite u64_add_l.
  rewrite Z.add_comm, <- u64_add_l, IH, u64_add_l. f_equal. lia.
Qed.

Lemma sumZ_map_one {A} (l : list A) : sumZ (map (fun _ => 1) l) = Z.of_nat (length l).
Proof. induction l; unfold sumZ in *; simpl in *; lia. Qed.

Lemma sumZ_snd_one (t : Time) (v : Z) : sumZ (map snd [(t, v)]) = v.
Proof. unfold sumZ. simpl. lia. Qed.

Section Refinement.
Context {M : Type} {LM : LinkedHashMap Time (bucket Z) M} {LML : LinkedHashMapLaws Time (bucket Z) M}.
Implicit Types (sw : AvgSlidingWindow Z M) (log : list point).

(** ** The simulation relation *)

Record sim (bs wl : Duration) log (t : Time) sw : Prop := {
  sim_bs : bucketSize sw = bs;
  sim_wl : windowLength sw = wl;
  sim_consistent : consistent sw;
  sim_sorted : StronglySorted Z.lt (lm_keys (buckets sw));
  sim_recent : Forall (fun k => k <= Round t bs) (lm_keys (buckets sw));
  sim_buckets k : Round t bs - wl < k ->
    lm_get k (buckets sw) =
    if decide (pts_at bs log k = []) then None else Some (spec_bucket bs log k);
}.

Lemma StronglySorted_app_r (l1 l2 : list Z) :
  StronglySorted Z.lt (l1 ++ l2) -> StronglySorted Z.lt l2.
Proof. induction l1; [done|]. simpl. intros H. apply StronglySorted_inv in H as [H _]. auto. Qed.

Lemma StronglySorted_snoc (l : list Z) x :
  StronglySorted Z.lt l -> Forall (fun y => y < x) l -> StronglySorted Z.lt (l ++ [x]).
Proof.
  induction 1 as [|y l Hl IH Hy]; intros HF; simpl; [repeat constructor|].
  inversion HF; subst. constructor; [auto|]. apply Forall_app. split; [done|by repeat constructor].
Qed.

Lemma sorted_head_lb (l : list Z) ws :
  StronglySorted Z.lt l -> (forall k, head l = Some k -> ws < k) -> Forall (fun k => ws < k) l.
Proof.
  destruct 1 as [|y l Hl Hy]; intros Hh; [done|]. specialize (Hh y eq_refl).
  constructor; [done|]. eapply Forall_impl; [exact Hy|]. simpl. lia.
Qed.

Lemma sim_advance bs wl log t now sw sw' :
  sim bs wl log t sw -> t <= now -> advance now sw = Ret sw' ->
  sim bs wl log now sw' /\
  Forall (fun k => Round now bs - wl < k <= Round t bs) (lm_keys (buckets sw')).
Proof.
  intros [Hbs Hwl Hc Hs Hr Hb] Hle Ha.
  destruct (advance_spec now sw) as (sw1 & Ha1 & Hbs1 & Hwl1 & (old & Hk & Ho & Hg) & Hh & Hc1).
  assert (sw1 = sw') as -> by congruence. rewrite Hbs, Hwl in *.
  pose proof (Round_mono t now bs Hle) as Hrm. rewrite Hk in Hs, Hr.
  apply StronglySorted_app_r in Hs. apply Forall_app in Hr as [_ Hr].
  pose proof (sorted_head_lb _ _ Hs Hh) as Hlb.
  split; [|rewrite Forall_forall in *; naive_solver]. constructor; auto.
  - eapply Forall_impl; [exact Hr|]. simpl. lia.
  - intros k Hk1. rewrite Hg; [apply Hb; lia|].
    intros Hin. rewrite Forall_forall in Ho. specialize (Ho k Hin). simpl in Ho. lia.
Qed.

Lemma insert_point_sizes now t v sw :
  bucketSize (insert_point now t v sw) = bucketSize sw /\
  windowLength (insert_point now t v sw) = windowLength sw.
Proof. unfold insert_point. by case_match. Qed.

Lemma sim_insert bs wl log n0 n1 n2 v sw :
  sim bs wl log n1 sw -> n0 <= n1 -> n1 <= n2 ->
  Forall (fun k => k <= Round n0 bs) (lm_keys (buckets sw)) ->
  sim bs wl (log ++ [(n0, v)]) n2 (insert_point n2 n0 v sw).
Proof.
  intros [Hbs Hwl Hc Hs Hr Hb] H01 H12 Hle.
  pose proof (Round_mono n0 n2 bs ltac:(lia)). pose proof (Round_mono n1 n2 bs ltac:(lia)).
  destruct (insert_point_sizes n2 n0 v sw) as [Eb Ew].
  constructor; [congruence|congruence|by apply insert_point_consistent|..];
    unfold insert_point, inWindow; rewrite Hbs, Hwl; clear Eb Ew;
    (destruct (Z.ltb_spec (Round n2 bs - wl) (Round n0 bs)) as [Hin|Hout]; simpl;
     [destruct (Z.ltb_spec (Round n2 bs) (Round n0 bs)); [lia|]; simpl|]); auto.
  - rewrite lm_keys_put. case_decide as Hk; [done|]. apply StronglySorted_snoc; [done|].
    rewrite Forall_forall in *. intros k Hkk. specialize (Hle k Hkk). simpl in Hle.
    assert (k <> Round n0 bs) by congruence. lia.
  - rewrite lm_keys_put. case_decide as Hk;
      [|apply Forall_app; split; [|by repeat constructor]];
      (eapply Forall_impl; [exact Hr|]; simpl; lia).
  - eapply Forall_impl; [exact Hr|]; simpl; lia.
  - intros k Hk. rewrite lm_get_put, pts_at_app. simpl. case_decide as Heq.
    + subst k. rewrite Z.eqb_refl. rewrite decide_False by (by destruct (pts_at _ _ _)).
      rewrite Hb by lia. f_equal. unfold spec_bucket. rewrite pts_at_app. simpl.
      rewrite Z.eqb_refl, map_app, sumZ_app, length_app, sumZ_snd_one.
      case_decide as Hnil; simpl; [by rewrite Hnil|].
      f_equal. rewrite u64_add_l. f_equal. lia.
    + destruct (Z.eqb_spec (Round n0 bs) k); [done|]. rewrite app_nil_r.
      rewrite Hb by lia. unfold spec_bucket. rewrite pts_at_app. simpl.
      destruct (Z.eqb_spec (Round n0 bs) k); [done|]. by rewrite app_nil_r.
  - intros k Hk. unfold spec_bucket. rewrite pts_at_app. simpl.
    destruct (Z.eqb_spec (Round n0 bs) k); [lia|]. rewrite app_nil_r. apply Hb. lia.
Qed.

Lemma history_sim bs wl log t sw : history bs wl log t sw -> sim bs wl log t sw.
Proof.
  induction 1 as [t|log t n0 n1 n2 v sw sw' H IH H1 H2 H3 Ha|log t now sw sw' H IH Hle Ha].
  - constructor; simpl; auto.
    + unfold consistent, total_sum, total_qty. simpl. by rewrite lm_keys_new.
    + rewrite lm_keys_new. constructor.
    + rewrite lm_keys_new. constructor.
    + intros k _. destruct (lm_get k lm_new) eqn:Hg; [|done].
      assert (k ∈ lm_keys lm_new) as Hk by (apply lm_elem_of_keys; eauto).
      rewrite lm_keys_new in Hk. by apply not_elem_of_nil in Hk.
  - unfold Add, AddWithTime in Ha. inv_ret. subst.
    edestruct sim_advance as [Hs Hf]; [exact IH| |eassumption|]; [lia|].
    eapply sim_insert; eauto. eapply Forall_impl; [exact Hf|]. simpl.
    pose proof (Round_mono t n0 bs H1). lia.
  - by edestruct sim_advance.
Qed.

(** After an eviction the totals are those of the live points. *)
Lemma sim_totals bs wl log now sw :
  sim bs wl log now sw -> Forall (fun k => Round now bs - wl < k) (lm_keys (buckets sw)) ->
  wsum sw = spec_sum bs wl log now /\ wqty sw = u64 (spec_count bs wl log now).
Proof.
  intros [_ _ [Hs Hq] _ _ Hb] Hlive. rewrite Hs, Hq.
  assert (forall p, p ∈ log -> live bs wl now p = true <-> Round p.1 bs ∈ lm_keys (buckets sw)) as HP.
  { intros p Hp. unfold live. rewrite Z.ltb_lt, lm_elem_of_keys. split.
    - intros Hk. rewrite Hb by done. rewrite decide_False; [eauto|].
      rewrite pts_at_nil. intros Hn. apply Hn. eauto.
    - intros Hk. rewrite Forall_forall in Hlive. apply Hlive. by apply lm_elem_of_keys. }
  assert (forall k, k ∈ lm_keys (buckets sw) -> bucket_at (buckets sw) k = spec_bucket bs log k) as HB.
  { intros k Hk. rewrite Forall_forall in Hlive. pose proof (Hlive k Hk) as Hlt. simpl in Hlt.
    apply lm_elem_of_keys in Hk as [b Hg]. unfold bucket_at. rewrite Hb in Hg |- * by done.
    by case_decide. }
  unfold total_sum, total_qty, spec_sum, spec_count. split.
  - etransitivity; [|exact (sum_by_key bs snd (live bs wl now) _ log (lm_keys_nodup _) HP)].
    f_equal. apply map_ext_in. intros k Hk. rewrite HB by (by apply list_elem_of_In). done.
  - rewrite <- sumZ_map_one.
    rewrite <- (sum_by_key bs (fun _ => 1) (live bs wl now) _ log (lm_keys_nodup _) HP).
    rewrite <- (u64_sumZ_map (fun k => sumZ (map (fun _ => 1) (pts_at bs log k)))).
    f_equal. f_equal. apply map_ext_in. intros k Hk.
    rewrite HB by (by apply list_elem_of_In). simpl. by rewrite sumZ_map_one.
Qed.

Lemma history_advance bs wl log t now sw :
  history bs wl log t sw -> t <= now ->
  exists sw', advance now sw = Ret sw' /\
    wsum sw' = spec_sum bs wl log now /\ wqty sw' = u64 (spec_count bs wl log now).
Proof.
  intros Hh Hle. destruct (advance_spec now sw) as (sw' & Ha & _). exists sw'. split; [done|].
  destruct (sim_advance bs wl log t now sw sw') as [Hs Hf]; auto using history_sim.
  eapply sim_totals; [exact Hs|]. eapply Forall_impl; [exact Hf|]. simpl. lia.
Qed.

(** Advancing keeps the distance between the cached sum and the buckets, as long
    as a bucket is left. *)
Lemma advance_loop_offset ws (keys : list Time) sw sw' :
  lm_keys (buckets sw) = keys -> advance_loop ws keys sw = Ret sw' ->
  lm_keys (buckets sw') <> [] ->
  wsum sw' - total_sum (buckets sw') = wsum sw - total_sum (buckets sw).
Proof.
  revert sw. induction keys as [|k keys IH]; simpl; intros sw Hk Ha Hne.
  { by injection Ha as <-. }
  destruct (ws <? k); [by injection Ha as <-|].
  destruct (lm_get k (buckets sw)) as [b|] eqn:Hb; [|done].
  pose proof (lm_keys_nodup (buckets sw)) as Hnd. rewrite Hk in Hnd.
  apply NoDup_cons in Hnd as [Hnk _].
  assert (lm_keys (lm_remove k (buckets sw)) = keys) as Hk'.
  { rewrite lm_keys_remove, Hk, filter_cons_False by tauto. by apply filter_ne_notin. }
  assert ((0 <? lm_size (lm_remove k (buckets sw)))%nat = true) as Hsz.
  { rewrite lm_size_keys, Hk'. destruct keys; [|done]. simpl in Ha. injection Ha as <-.
    destruct Hne. by case_match; simpl. }
  rewrite Hsz in Ha. erewrite IH; [| |exact Ha|exact Hne]; [simpl|exact Hk'].
  rewrite (total_sum_remove _ _ _ Hb). lia.
Qed.

End Refinement.

(** ** An instance of the map: association lists in insertion order *)

Fixpoint al_put {K V} `{EqDecision K} (k : K) (v : V) (m : list (K * V)) : list (K * V) :=
  match m with
  | [] => [(k, v)]
  | (k', v') :: m' => if decide (k = k') then (k, v) :: m' else (k', v') :: al_put k v m'
  end.

Fixpoint al_get {K V} `{EqDecision K} (k : K) (m : list (K * V)) : option V :=
  match m with
  | [] => None
  | (k', v') :: m' => if decide (k = k') then Some v' else al_get k m'
  end.

Definition al_remove {K V} `{EqDecision K} (k : K) (m : list (K * V)) : list (K * V) :=
  filter (fun kv => kv.1 <> k) m.

Lemma al_get_put {K V} `{EqDecision K} (k k' : K) (v : V) m :
  al_get k' (al_put k v m) = if decide (k = k') then Some v else al_get k' m.
Proof. induction m as [|[x y] m IH]; simpl; repeat (case_decide; simpl in *); congruence. Qed.

Lemma al_keys_put {K V} `{EqDecision K} (k : K) (v : V) m :
  (al_put k v m).*1 = if decide (k ∈ m.*1) then m.*1 else m.*1 ++ [k].
Proof.
  induction m as [|[x y] m IH]; [done|].
  cbn [al_put]. destruct (decide (k = x)) as [->|H]; rewrite !fmap_cons; cbn [fst].
  - rewrite decide_True by (by left). done.
  - rewrite IH. destruct (decide (k ∈ m.*1)).
    + rewrite decide_True by (by right). done.
    + rewrite decide_False; [done|]. intros [?|?]%elem_of_cons; congruence.
Qed.

Lemma al_elem_of_keys {K V} `{EqDecision K} (k : K) (m : list (K * V)) :
  k ∈ m.*1 <-> is_Some (al_get k m).
Proof.
  induction m as [|[x y] m IH]; simpl.
  - split; [intros H; by apply not_elem_of_nil in H|by intros [? ?]].
  - rewrite elem_of_cons, IH. case_decide; subst; naive_solver.
Qed.

Lemma al_keys_remove {K V} `{EqDecision K} (k : K) (m : list (K * V)) :
  (al_remove k m).*1 = filter (fun k' => k' <> k) m.*1.
Proof.
  unfold al_remove. induction m as [|[x y] m IH]; [done|].
  rewrite fmap_cons, !filter_cons. cbn [fst].
  destruct (decide (x <> k)); rewrite ?fmap_cons; by rewrite IH.
Qed.

Lemma al_get_remove {K V} `{EqDecision K} (k k' : K) (m : list (K * V)) :
  al_get k' (al_remove k m) = if decide (k = k') then None else al_get k' m.
Proof.
  unfold al_remove. induction m as [|[x y] m IH]; [by case_decide|].
  rewrite filter_cons. cbn [fst].
  destruct (decide (x <> k)) as [Hx|Hx]; cbn [al_get]; rewrite IH;
    repeat case_decide; subst; try done; tauto.
Qed.

(** Maps with one entry per key, which the operations keep. *)
Definition AL (K V : Type) : Type := { m : list (K * V) | NoDup m.*1 }.

Program Definition al_insert {K V} `{EqDecision K} (k : K) (v : V) (m : AL K V) : AL K V :=
  al_put k v (`m).
Next Obligation.
  intros K V ? k v [m Hm]. simpl. rewrite al_keys_put. case_decide as H; [done|].
  apply NoDup_app. split; [done|]. split; [|apply NoDup_singleton].
  intros x Hx ->%list_elem_of_singleton. done.
Qed.

Program Definition al_delete {K V} `{EqDecision K} (k : K) (m : AL K V) : AL K V :=
  al_remove k (`m).
Next Obligation.
  intros K V ? k [m Hm]. simpl. rewrite al_keys_remove. by apply NoDup_filter.
Qed.

#[export] Instance al_map {K V} `{EqDecision K} : LinkedHashMap K V (AL K V) := {
  lm_new := exist _ [] (NoDup_nil_2);
  lm_get k m := al_get k (`m);
  lm_put := al_insert;
  lm_remove := al_delete;
  lm_keys m := (`m).*1;
  lm_size m := length (`m);
}.

#[export] Instance al_map_laws {K V} `{EqDecision K} : LinkedHashMapLaws K V (AL K V).
Proof.
  split; simpl; intros.
  - done.
  - apply al_elem_of_keys.
  - apply (proj2_sig m).
  - apply al_get_put.
  - apply al_keys_put.
  - apply al_get_remove.
  - apply al_keys_remove.
  - by rewrite length_fmap.
Qed.

(** ** What the backends rely on *)

(** The default sizes of [NewSlidingWindow]. *)
Definition default_bucket : Duration := Second.
Definition default_window : Duration := 5 * Minute.

(** The operations a backend uses. A read is a function of the window: that its
    eviction cannot be observed is part of the laws below. *)
Class WindowOps (W : Type) := {
  win_new : W;
  win_add : Time -> Z -> W -> W;
  win_clear : W -> W;
  win_sum : Time -> W -> Z;
  win_avg : Time -> W -> Z;
}.

(** What a window promises: [win_hist log t w] says that [w] holds the points of
    [log], the last of them or the last read at [t]. *)
Class WindowLaws (W : Type) {WO : WindowOps W} := {
  win_hist : list point -> Time -> W -> Prop;
  win_hist_new t : win_hist [] t win_new;
  win_hist_add log t now v w : win_hist log t w -> t <= now ->
    win_hist (log ++ [(now, v)]) now (win_add now v w);
  win_hist_sum log t now w : win_hist log t w -> t <= now ->
    win_sum now w = spec_sum default_bucket default_window log now;
  win_hist_avg log t now w : win_hist log t w -> t <= now ->
    spec_count default_bucket default_window log now < two64 ->
    win_avg now w =
    Z.quot (spec_sum default_bucket default_window log now)
           (spec_count default_bucket default_window log now);
}.

Section Implementation.
Context {M : Type} {LM : LinkedHashMap Time (bucket Z) M} {LML : LinkedHashMapLaws Time (bucket Z) M}.

Definition go_or {A} (d : A) (m : go A) : A := match m with Ret a => a | Panic _ => d end.

#[export] Instance sliding_ops : WindowOps (AvgSlidingWindow Z M) := {
  win_new := NewSlidingWindow [];
  win_add now v w := go_or w (Add now now now v w);
  win_clear := Clear;
  win_sum now w := (go_or (w, 0) (Sum now w)).2;
  win_avg now w := (go_or (w, 0) (Avg now w)).2;
}.

Lemma spec_empty_quot bs wl log now q :
  u64 (spec_count bs wl log now) = q -> spec_count bs wl log now < two64 ->
  (if q =? 0 then 0 else Z.quot (spec_sum bs wl log now) q)
  = Z.quot (spec_sum bs wl log now) (spec_count bs wl log now).
Proof.
  intros Hq Hlt. rewrite u64_small in Hq by (unfold is_u64, spec_count in *; lia). subst q.
  destruct (Z.eqb_spec (spec_count bs wl log now) 0) as [->|]; [by rewrite Z.quot_0_r_ext|done].
Qed.

Lemma sliding_laws_hold : WindowLaws (AvgSlidingWindow Z M).
Proof.
  refine {| win_hist := history default_bucket default_window |}.
  - intros t. apply history_new.
  - intros log t now v w Hh Hle. simpl.
    destruct (advance_spec now w) as (w' & Ha & _).
    assert (Add now now now v w = Ret (insert_point now now v w')) as E.
    { unfold Add, AddWithTime. by rewrite Ha. }
    rewrite E. simpl. by eapply history_add with (n1 := now) (sw := w); eauto; lia.
  - intros log t now w Hh Hle. simpl.
    destruct (history_advance _ _ _ _ _ _ Hh Hle) as (w' & Ha & Hs & _).
    unfold Sum. by rewrite Ha.
  - intros log t now w Hh Hle Hlt. simpl.
    destruct (history_advance _ _ _ _ _ _ Hh Hle) as (w' & Ha & Hs & Hq).
    unfold Avg. rewrite Ha. simpl. rewrite Hs. by apply spec_empty_quot.
Qed.

#[export] Instance sliding_laws : WindowLaws (AvgSlidingWindow Z M) := sliding_laws_hold.

(** The options of the package. *)
Definition window_opt (opt : @SlidingWindowOpt Z M) : Prop :=
  (exists d, opt = WithWindowLength d) \/ (exists d, opt = WithBucketSize d).

Lemma new_window_consistent (opts : list (@SlidingWindowOpt Z M)) :
  Forall window_opt opts -> consistent (NewSlidingWindow opts).
Proof.
  intros Hopts. unfold NewSlidingWindow.
  assert (forall w : AvgSlidingWindow Z M,
            consistent w -> consistent (foldl (fun sw opt => opt sw) w opts)) as Hf.
  { induction Hopts as [|opt opts Ho _ IH]; simpl; [done|]. intros w Hw. apply IH.
    by destruct Ho as [[d ->]|[d ->]]. }
  set (w0 := foldl _ _ _). assert (consistent w0) as Hw0.
  { apply Hf. unfold consistent, total_sum, total_qty. simpl. by rewrite lm_keys_new. }
  by repeat case_match.
Qed.

(** ** Properties *)

(** Whatever the interleaving of the critical sections of [Add], [Avg], [Sum]
    and [Count], at whatever times they run, the cached sum of a window is the
    total of its buckets and its cached count is the total of theirs modulo
    [2^64]. *)
Theorem window_totals_invariant (opts : list (@SlidingWindowOpt Z M)) (sw : AvgSlidingWindow Z M) :
  Forall window_opt opts -> rtc window_step (NewSlidingWindow opts) sw -> consistent sw.
Proof.
  intros H0%new_window_consistent Hsteps.
  induction Hsteps as [|w1 w2 w3 Hs _ IH]; [done|]. apply IH.
  destruct Hs as [now w1 w2 Ha|now t v w1].
  - destruct (advance_spec now w1) as (w' & Ha' & _ & _ & _ & _ & Hc).
    assert (w' = w2) as <- by congruence. auto.
  - by apply insert_point_consistent.
Qed.

(** Refinement: a window with bucket size [bs] and length [wl] used under a
    clock that does not go back answers, at every later time, with the sum, the
    count and the truncated average of exactly the points whose bucket is
    younger than the window; it never panics, and reading it in between does not
    change later answers. *)
Theorem window_refines_log (bs wl : Duration) log t now (sw : AvgSlidingWindow Z M) :
  history bs wl log t sw -> t <= now -> spec_count bs wl log now < two64 ->
  exists sw', advance now sw = Ret sw' /\
    Sum now sw = Ret (sw', spec_sum bs wl log now) /\
    Count now sw = Ret (sw', spec_count bs wl log now) /\
    Avg now sw = Ret (sw', Z.quot (spec_sum bs wl log now) (spec_count bs wl log now)).
Proof.
  intros Hh Hle Hlt. destruct (history_advance _ _ _ _ _ _ Hh Hle) as (sw' & Ha & Hs & Hq).
  exists sw'. unfold Sum, Count, Avg. rewrite Ha. simpl. split; [done|]. rewrite Hs.
  split; [done|]. split; [|by rewrite spec_empty_quot].
  rewrite Hq, u64_small; [done|]. unfold is_u64, spec_count in *. lia.
Qed.

(** [Clear] zeroes the totals but keeps the buckets: once it has been called,
    evicting old buckets subtracts sums that are no longer included, so the next
    sum is minus the sum of the evicted points, as long as a bucket is left. *)
Theorem clear_keeps_buckets (sw sw' : AvgSlidingWindow Z M) now s :
  Sum now (Clear sw) = Ret (sw', s) -> lm_keys (buckets sw') <> [] ->
  s = - (total_sum (buckets sw) - total_sum (buckets sw')).
Proof.
  unfold Sum. intros Hs Hne. inv_ret. subst.
  pose proof (advance_loop_offset _ _ (Clear sw) sw' eq_refl ltac:(eassumption) Hne) as Ho.
  simpl in Ho. lia.
Qed.

End Implementation.

(** ** Witnesses *)

Definition w_start : AvgSlidingWindow Z (AL Time (bucket Z)) := NewSlidingWindow [].
Definition w_two : AvgSlidingWindow Z (AL Time (bucket Z)) :=
  go_or w_start (w ← Add 0 0 0 5 w_start; Add (2 * Second) (2 * Second) (2 * Second) 1 w).

Lemma w_two_history : history Second (5 * Minute) [(0, 5); (2 * Second, 1)] (2 * Second) w_two.
Proof.
  eapply (history_add _ _ [(0, 5)] 0 (2 * Second) (2 * Second) (2 * Second) 1
            (go_or w_start (Add 0 0 0 5 w_start))); [|done..].
  by apply (history_add _ _ [] 0 0 0 0 5 w_start _ (history_new _ _ 0)).
Qed.

Lemma window_totals_invariant_witness : consistent w_two.
Proof.
  apply (window_totals_invariant []); [constructor|].
  eapply rtc_l; [by eapply (step_advance 0)|]. eapply rtc_l; [by apply (step_insert 0 0 5)|].
  eapply rtc_l; [by eapply (step_advance (2 * Second))|].
  eapply rtc_once, (step_insert (2 * Second) (2 * Second) 1).
Defined.

(** At five minutes the first of the two points has left the window. *)
Lemma window_refines_log_witness :
  exists sw', Sum (5 * Minute) w_two = Ret (sw', 1) /\ Count (5 * Minute) w_two = Ret (sw', 1).
Proof.
  destruct (window_refines_log _ _ _ _ (5 * Minute) _ w_two_history) as (sw' & _ & H1 & H2 & _);
    [vm_compute; congruence|vm_compute; congruence|].
  exists sw'. split; [exact H1|exact H2].
Defined.

(** The same window after [Clear] reports a sum of -5. *)
Lemma clear_keeps_buckets_witness :
  exists sw', Sum (5 * Minute) (Clear w_two) = Ret (sw', -5) /\ lm_keys (buckets sw') <> [].
Proof.
  destruct (Sum (5 * Minute) (Clear w_two)) as [[sw' s]|msg] eqn:E; [|vm_compute in E; congruence].
  assert (lm_keys (buckets sw') <> []) as Hne.
  { assert (lm_keys (buckets (go_or (w_start, 0) (Sum (5 * Minute) (Clear w_two))).1)
            = [2 * Second]) as E2 by (vm_compute; reflexivity).
    rewrite E in E2. simpl in *. by rewrite E2. }
  exists sw'. split; [|done]. do 2 f_equal.
  pose proof (clear_keeps_buckets _ _ _ _ E Hne) as Hs. rewrite Hs.
  assert (total_sum (buckets (go_or (w_start, 0) (Sum (5 * Minute) (Clear w_two))).1) = 1) as E1
    by (vm_compute; reflexivity).
  rewrite E in E1. simpl in E1. rewrite E1. vm_compute. reflexivity.
Defined.
