(* ===== verification/FloatWindow.v ===== *)
(** * The sliding window in floating point

    The window of [SlidingWindow] with [float64] values, as the code runs it, and the
    window with exact values do the same steps: as long as the values that are added are
    not negative and the live ones sum to at most [2^52], each sum of the one is the
    rounded sum of the other, and truncating the average gives the integer quotient. It
    follows that the floating-point window refines the log of its points. *)

From stdpp Require Import base list gmap strings.
From Stdlib Require Import ZArith Lia Floats.SpecFloat.
From S2P Require Import Prelude Float64 SlidingWindow SlidingWindowRefinement.

Local Open Scope Z_scope.

Definition window_limit : Z := 2 ^ 52.

Lemma limit_exact z : 0 <= z <= window_limit -> exact z.
Proof. unfold exact, window_limit. lia. Qed.

Section FloatWindow.
Context {MF : Type} {LF : LinkedHashMap Time (bucket float64) MF} {LFL : LinkedHashMapLaws Time (bucket float64) MF}.
Context {MZ : Type} {LZ : LinkedHashMap Time (bucket Z) MZ} {LZL : LinkedHashMapLaws Time (bucket Z) MZ}.
Implicit Types (f : AvgSlidingWindow float64 MF) (z : AvgSlidingWindow Z MZ).

Definition round_bucket (b : bucket Z) : bucket float64 := mkBucket (of_Z (b_sum b)) (b_qty b).

(** The floating-point window holds the rounded values of the exact one. *)
Record rounds f z : Prop := {
  rd_size : bucketSize f = bucketSize z;
  rd_length : windowLength f = windowLength z;
  rd_keys : lm_keys (buckets f) = lm_keys (buckets z);
  rd_get k : lm_get k (buckets f) = round_bucket <$> lm_get k (buckets z);
  rd_qty : wqty f = wqty z;
  rd_sum : wsum f = of_Z (wsum z);
}.

(** The exact window has no negative bucket, its sum is that of its buckets, and it is
    small. *)
Record small z : Prop := {
  sm_nonneg k b : lm_get k (buckets z) = Some b -> 0 <= b_sum b;
  sm_sum : wsum z = total_sum (buckets z);
  sm_limit : wsum z <= window_limit;
}.

Lemma total_sum_nonneg (m : MZ) :
  (forall k b, lm_get k m = Some b -> 0 <= b_sum b) -> 0 <= total_sum m.
Proof.
  intros H. unfold total_sum. induction (lm_keys m) as [|k ks IH]; simpl; [done|].
  unfold bucket_at at 1. destruct (lm_get k m) as [b|] eqn:E; simpl; [pose proof (H k b E)|]; unfold sumZ in *; lia.
Qed.

(** A bucket holds at most the sum of the window. *)
Lemma small_bucket z k b : small z -> lm_get k (buckets z) = Some b -> 0 <= b_sum b <= wsum z.
Proof.
  intros [Hn Hs _] Hb. split; [by eapply Hn|].
  assert (0 <= total_sum (lm_remove k (buckets z))) as H.
  { apply total_sum_nonneg. intros k' b'. rewrite lm_get_remove. case_decide; [done|]. apply Hn. }
  rewrite (total_sum_remove _ _ _ Hb) in H. lia.
Qed.

Lemma small_wsum z : small z -> 0 <= wsum z <= window_limit.
Proof. intros [Hn Hs Hl]. split; [rewrite Hs; by apply total_sum_nonneg|done]. Qed.

(** Removing a key. *)
Lemma rounds_remove f z k :
  rounds f z ->
  lm_keys (lm_remove k (buckets f)) = lm_keys (lm_remove k (buckets z)) /\
  (forall k', lm_get k' (lm_remove k (buckets f)) = round_bucket <$> lm_get k' (lm_remove k (buckets z))).
Proof.
  intros [_ _ Hk Hg _ _]. split; [by rewrite !lm_keys_remove, Hk|].
  intros k'. rewrite !lm_get_remove. by case_decide.
Qed.

Lemma advance_loop_rounds ws (keys : list Time) f z :
  rounds f z -> small z -> lm_keys (buckets z) = keys ->
  exists f' z', advance_loop ws keys f = Ret f' /\ advance_loop ws keys z = Ret z' /\
    rounds f' z' /\ small z'.
Proof.
  revert f z. induction keys as [|k keys IH]; intros f z Hr Hs Hk; simpl; [by exists f, z|].
  destruct (Z.ltb_spec ws k); [by exists f, z|].
  assert (is_Some (lm_get k (buckets z))) as [b Hb].
  { apply lm_elem_of_keys. rewrite Hk. by left. }
  pose proof (small_bucket _ _ _ Hs Hb) as Hbs. pose proof (small_wsum _ Hs) as Hws.
  destruct (rounds_remove f z k Hr) as [Hkeys Hget]. destruct Hr as [E1 E2 E3 E4 E5 E6].
  rewrite E4, Hb. cbn [fmap option_fmap option_map]. rewrite !lm_size_keys, Hkeys.
  pose proof (lm_keys_nodup (buckets z)) as Hnd. rewrite Hk in Hnd. apply NoDup_cons in Hnd as [Hnk _].
  assert (lm_keys (lm_remove k (buckets z)) = keys) as Hk'.
  { rewrite lm_keys_remove, Hk, filter_cons_False by tauto. by apply filter_ne_notin. }
  assert (forall k' b', lm_get k' (lm_remove k (buckets z)) = Some b' -> 0 <= b_sum b') as Hnn.
  { intros k' b'. rewrite lm_get_remove. case_decide; [done|]. apply Hs. }
  case_match eqn:Hsize; (apply IH; [| |exact Hk']).
  - constructor; simpl; try done; [by rewrite E5|].
    rewrite E6. apply fsub_exact; apply limit_exact; lia.
  - constructor; simpl; [done| |lia]. rewrite (total_sum_remove _ _ _ Hb). destruct Hs as [_ -> _]. done.
  - by constructor.
  - constructor; simpl; [done| |done]. rewrite <- lm_size_keys in Hsize. by destruct (total_empty _ Hsize) as [-> _].
Qed.

Lemma advance_rounds now f z :
  rounds f z -> small z ->
  exists f' z', advance now f = Ret f' /\ advance now z = Ret z' /\ rounds f' z' /\ small z'.
Proof.
  intros Hr Hs. unfold advance. pose proof Hr as [E1 E2 E3 _ _ _]. rewrite E1, E2, E3.
  by apply advance_loop_rounds.
Qed.

Lemma bucket_default f z k :
  rounds f z ->
  default (mkBucket (num 0) 0) (lm_get k (buckets f)) = round_bucket (bucket_at (buckets z) k).
Proof. intros [_ _ _ Hg _ _]. rewrite Hg. unfold bucket_at. by destruct (lm_get k (buckets z)). Qed.

Lemma insert_point_rounds now t v f z :
  rounds f z -> small z -> 0 <= v -> wsum (insert_point now t v z) <= window_limit ->
  rounds (insert_point now t (num v) f) (insert_point now t v z) /\ small (insert_point now t v z).
Proof.
  intros Hr Hs Hv Hl. pose proof (small_wsum _ Hs) as Hws.
  pose proof (fun k => bucket_default f z k Hr) as Hdef.
  destruct Hr as [E1 E2 E3 E4 E5 E6].
  unfold insert_point, inWindow in *. rewrite E1, E2. case_match eqn:Hin; [by split; [constructor|]|].
  rewrite Hdef. set (key := Round t (bucketSize z)) in *.
  change (default (mkBucket (num 0) 0) (lm_get key (buckets z))) with (bucket_at (buckets z) key) in *.
  set (b := bucket_at (buckets z) key) in *.
  assert (0 <= b_sum b <= wsum z) as Hb.
  { unfold b, bucket_at. destruct (lm_get key (buckets z)) eqn:E; [by eapply small_bucket|]. simpl. lia. }
  simpl in Hl.
  assert (fadd (of_Z (b_sum b)) (of_Z v) = of_Z (b_sum b + v)) as Hadd
    by (apply fadd_exact; apply limit_exact; lia).
  split; constructor; cbn -[Z.add Z.sub u64]; auto.
  - rewrite !lm_keys_put, E3. done.
  - intros k. rewrite !lm_get_put, E4, Hadd. by case_decide.
  - by rewrite E5.
  - rewrite E6, Hadd, fsub_exact, fadd_exact; [done|apply limit_exact; lia..].
  - intros k b'. rewrite lm_get_put. case_decide; [intros [= <-]; simpl; lia|apply Hs].
  - unfold total_sum. rewrite (total_put_gen b_sum) by done. fold (total_sum (buckets z)). fold b. simpl.
    destruct Hs as [_ -> _]. lia.
Qed.

(** ** Histories *)

(** The live points sum to at most the limit whenever a point is added. *)
Definition live_bounded (bs wl : Duration) (log : list point) : Prop :=
  forall log1 p log2, log = log1 ++ p :: log2 -> spec_sum bs wl (log1 ++ [p]) p.1 <= window_limit.

Lemma spec_sum_app bs wl log1 log2 now :
  spec_sum bs wl (log1 ++ log2) now = spec_sum bs wl log1 now + spec_sum bs wl log2 now.
Proof. unfold spec_sum. by rewrite List.filter_app, map_app, sumZ_app. Qed.

Lemma spec_sum_cons bs wl p log now :
  spec_sum bs wl (p :: log) now = (if live bs wl now p then p.2 else 0) + spec_sum bs wl log now.
Proof. unfold spec_sum. simpl. by destruct (live bs wl now p). Qed.

(** Points only leave the window. *)
Lemma spec_sum_antimono bs wl log t1 t2 :
  Forall (fun p : point => 0 <= p.2) log -> t1 <= t2 -> 0 <= spec_sum bs wl log t2 <= spec_sum bs wl log t1.
Proof.
  intros Hn Ht. induction Hn as [|p log Hp _ IH]; [done|]. rewrite !spec_sum_cons.
  assert (live bs wl t2 p = true -> live bs wl t1 p = true) as Hl.
  { unfold live. pose proof (Round_mono t1 t2 bs Ht). rewrite !Z.ltb_lt. lia. }
  destruct (live bs wl t1 p), (live bs wl t2 p); lia.
Qed.

Lemma insert_point_limit bs wl log n0 n1 n2 v z :
  Forall (fun p : point => 0 <= p.2) log -> n0 <= n1 -> n1 <= n2 ->
  bucketSize z = bs -> windowLength z = wl ->
  wsum z = spec_sum bs wl log n1 -> wsum z <= window_limit ->
  spec_sum bs wl (log ++ [(n0, v)]) n0 <= window_limit ->
  wsum (insert_point n2 n0 v z) <= window_limit.
Proof.
  intros Hn H01 H12 <- <- Hz Hlim Hb. unfold insert_point. case_match eqn:Hin; [done|]. simpl.
  unfold inWindow in Hin. bsimp. pose proof (Round_mono n0 n2 (bucketSize z) ltac:(lia)).
  pose proof (spec_sum_antimono (bucketSize z) (windowLength z) log n0 n1 Hn H01).
  rewrite spec_sum_app, (spec_sum_cons _ _ (n0, v)) in Hb. unfold live in Hb. simpl in Hb.
  rewrite (proj2 (Z.ltb_lt _ _)) in Hb by lia. unfold spec_sum at 2 in Hb. simpl in Hb. lia.
Qed.

Lemma history_rounds bs wl log t f :
  history bs wl log t f -> Forall (fun p : point => 0 <= p.2) log -> live_bounded bs wl log ->
  exists z, history bs wl log t z /\ rounds f z /\ small z.
Proof.
  induction 1 as [t|log t n0 n1 n2 v f f' Hh IH H1 H2 H3 Ha|log t now f f' Hh IH Hle Ha]; intros Hn Hb.
  - eexists. split; [constructor|]. split; constructor; simpl; try done.
    + by rewrite !lm_keys_new.
    + intros k. assert (forall V M (L : LinkedHashMap Time V M) (LL : LinkedHashMapLaws Time V M), lm_get k lm_new = None) as E.
      { intros V M L LL. destruct (lm_get k lm_new) eqn:E; [|done].
        assert (k ∈ lm_keys lm_new) as Hk by (apply lm_elem_of_keys; eauto).
        rewrite lm_keys_new in Hk. by apply not_elem_of_nil in Hk. }
      by rewrite (E _ _ LF LFL), (E _ _ LZ LZL).
    + intros k b Hk. assert (k ∈ lm_keys lm_new) as Hk' by (apply lm_elem_of_keys; eauto).
      rewrite lm_keys_new in Hk'. by apply not_elem_of_nil in Hk'.
    + unfold total_sum. by rewrite lm_keys_new.
  - apply Forall_app in Hn as [Hn Hv]. apply Forall_cons in Hv as [Hv _]. simpl in Hv.
    destruct (IH Hn) as (z & Hz & Hr & Hs).
    { intros log1 p log2 ->. apply (Hb log1 p (log2 ++ [(n0, v)])). by rewrite <- app_assoc. }
    destruct (advance_rounds n1 f z Hr Hs) as (f1 & z1 & Hf1 & Hz1 & Hr1 & Hs1).
    destruct (history_advance _ _ _ _ n1 _ Hz ltac:(lia)) as (z1' & Hz1' & Hsum & _).
    assert (z1' = z1) as -> by congruence.
    destruct (advance_spec n1 z) as (z1' & Hz1'' & Hbs1 & Hwl1 & _). assert (z1' = z1) as -> by congruence.
    destruct (history_sim _ _ _ _ _ Hz) as [Hbs Hwl _ _ _ _].
    destruct (insert_point_rounds n2 n0 v f1 z1 Hr1 Hs1 Hv) as [Hr2 Hs2].
    { eapply (insert_point_limit bs wl log n0 n1); try done; [congruence|congruence|apply Hs1|].
      by apply (Hb log (n0, v) []). }
    exists (insert_point n2 n0 v z1). unfold Add, AddWithTime in Ha. rewrite Hf1 in Ha. inv_ret. subst.
    split; [|done]. eapply (history_add _ _ log t n0 n1 n2 v z); try done.
    unfold Add, AddWithTime. by rewrite Hz1.
  - destruct (IH Hn Hb) as (z & Hz & Hr & Hs).
    destruct (advance_rounds now f z Hr Hs) as (f1 & z1 & Hf1 & Hz1 & Hr1 & Hs1).
    assert (f1 = f') as -> by congruence. exists z1. split; [|done]. by eapply history_read.
Qed.

End FloatWindow.

Section Correct.
Context {M : Type} {LM : LinkedHashMap Time (bucket float64) M} {LML : LinkedHashMapLaws Time (bucket float64) M}.

Lemma ftrunc_avg s n : 0 <= s <= window_limit -> 0 < n <= 2 ^ 53 -> ftrunc (num_quot (of_Z s) n) = Z.quot s n.
Proof. intros Hs Hn. simpl. rewrite Z.quot_div_nonneg by lia. by apply ftrunc_fdiv. Qed.

(** C5. Refinement: the floating-point window, with bucket size [bs] and length [wl],
    used under a clock that does not go back, answers at every later time with the sum,
    the count and the truncated average of exactly the points whose bucket is younger
    than the window, without a rounding error; it never panics, and reading it in between
    does not change later answers. The points are integers that are not negative, and the
    live ones sum to at most [2^52] (for latencies, 52 days within the window) and are at most
    [2^53] many. *)
Theorem float_window_refines_log (bs wl : Duration) log t now (sw : AvgSlidingWindow float64 M) :
  history bs wl log t sw -> Forall (fun p : point => 0 <= p.2) log -> live_bounded bs wl log ->
  t <= now -> spec_count bs wl log now <= 2 ^ 53 ->
  exists sw' avg, advance now sw = Ret sw' /\
    Sum now sw = Ret (sw', of_Z (spec_sum bs wl log now)) /\
    Count now sw = Ret (sw', spec_count bs wl log now) /\
    Avg now sw = Ret (sw', avg) /\
    ftrunc avg = Z.quot (spec_sum bs wl log now) (spec_count bs wl log now).
Proof.
  intros Hh Hn Hb Hle Hc.
  destruct (history_rounds (MZ := AL Time (bucket Z)) _ _ _ _ _ Hh Hn Hb) as (z & Hz & Hr & Hs).
  destruct (advance_rounds now sw z Hr Hs) as (f' & z' & Hf' & Hz' & [_ _ _ _ Eq Es] & Hs').
  destruct (history_advance _ _ _ _ now _ Hz Hle) as (z1 & Hz1 & Hsum & Hqty).
  assert (z1 = z') as -> by congruence. pose proof (small_wsum _ Hs') as Hlim.
  assert (wqty z' = spec_count bs wl log now) as Hq.
  { rewrite Hqty. apply u64_small. unfold is_u64, two64, spec_count in *. lia. }
  rewrite Hsum, Hq in *. exists f'. unfold Sum, Count, Avg. rewrite Hf'. simpl. rewrite Eq, Es.
  eexists. do 4 (split; [done|]). destruct (Z.eqb_spec (spec_count bs wl log now) 0) as [E|Hne].
  - rewrite E. by destruct (spec_sum bs wl log now).
  - apply ftrunc_avg; [done|]. unfold spec_count in *. lia.
Qed.

End Correct.

(** ** Witnesses *)

Definition fw_start : AvgSlidingWindow float64 (AL Time (bucket float64)) := NewSlidingWindow [].
Definition fw_one : AvgSlidingWindow float64 (AL Time (bucket float64)) :=
  go_or fw_start (Add 0 0 0 (of_Z 6) fw_start).
Definition fw_two : AvgSlidingWindow float64 (AL Time (bucket float64)) :=
  go_or fw_start (Add Second Second Second (of_Z 5) fw_one).

Lemma fw_two_history : history Second (5 * Minute) [(0, 6); (Second, 5)] Second fw_two.
Proof.
  eapply (history_add _ _ [(0, 6)] 0 Second Second Second 5 fw_one); [|done|done|done|vm_compute; reflexivity].
  apply (history_add _ _ [] 0 0 0 0 6 fw_start _ (history_new _ _ 0)); [done|done|done|vm_compute; reflexivity].
Qed.

(** The average of 6 and 5 is 5 and a half. *)
Lemma float_window_refines_log_witness :
  exists sw' avg, Sum (2 * Second) fw_two = Ret (sw', of_Z 11) /\ Avg (2 * Second) fw_two = Ret (sw', avg) /\
    ftrunc avg = 5.
Proof.
  destruct (float_window_refines_log _ _ _ _ (2 * Second) _ fw_two_history) as (sw' & avg & _ & H1 & _ & H2 & H3);
    [by repeat constructor| |vm_compute; congruence|vm_compute; congruence|exists sw', avg; split_and!; [exact H1|exact H2|exact H3]].
  intros log1 p log2 E. destruct log1 as [|q [|q' log1]]; [injection E as <- _|injection E as <- <- _|by destruct log1];
    vm_compute; congruence.
Defined.
