(* ===== verification/Json.v ===== *)
(** * JSON as the program uses it: [encoding/json] of Go 1.21

    [json.Unmarshal] into an [interface{}] is [Unmarshal], a recursive-descent
    parser over bytes; [json.Marshal] of such a value is [Marshal]. A Go
    [map[string]interface{}] is an association list sorted by key, which is the
    order [json.Marshal] prints. A [float64] is represented by the literal
    [json.Marshal] prints for it, the shortest decimal that parses back to it, so
    reading a number replaces its literal by that one ([canon_num]). Strings are
    byte strings; reading replaces invalid UTF-8 by U+FFFD and writing escapes
    HTML characters, as the library does. Not modelled: the limit of 10000 nested
    values.

    [parse_fields] and [parse_elems] give the members of an object and the
    elements of an array with the bytes of each value, which is what decoding into
    a struct with [json.RawMessage] fields needs. *)

From stdpp Require Import base list strings.
From Stdlib Require Import ZArith NArith Lia Ascii.
From Stdlib Require Strings.String.
From S2P Require Import Prelude.

Local Open Scope list_scope.

Notation bytes := (list ascii) (only parsing).

Definition chars (s : string) : bytes := Stdlib.Strings.String.list_ascii_of_string s.
Definition str (l : bytes) : string := Stdlib.Strings.String.string_of_list_ascii l.

Definition code (c : ascii) : N := N_of_ascii c.
Definition chr (n : N) : ascii := ascii_of_N n.
Definition quote : ascii := chr 34.

Inductive json : Type :=
| JNull
| JBool (b : bool)
| JNum (lit : string)
| JStr (s : string)
| JArr (l : list json)
| JObj (l : list (string * json)).

(** ** Bytes *)

Definition is_ws (c : ascii) : bool :=
  (code c =? 32)%N || (code c =? 9)%N || (code c =? 10)%N || (code c =? 13)%N.

Fixpoint skip_ws (s : bytes) : bytes :=
  match s with
  | c :: s' => if is_ws c then skip_ws s' else s
  | [] => []
  end.

Definition between (a b : N) (c : ascii) : bool := ((a <=? code c) && (code c <=? b))%N.

Definition is_digit (c : ascii) : bool := between 48 57 c.

Definition hex_digit (c : ascii) : option N :=
  if is_digit c then Some (code c - 48)%N
  else if between 97 102 c then Some (code c - 87)%N
  else if between 65 70 c then Some (code c - 55)%N
  else None.

Definition hex4 (s : bytes) : option (N * bytes) :=
  match s with
  | a :: b :: c :: d :: s' =>
      a ← hex_digit a; b ← hex_digit b; c ← hex_digit c; d ← hex_digit d;
      Some ((((a * 16 + b) * 16 + c) * 16 + d)%N, s')
  | _ => None
  end.

(** ** UTF-8 *)

(** The length of the multi-byte sequence a byte string starts with, if it is well formed. *)
Definition utf8_multi (s : bytes) : option nat :=
  let cont := between 128 191 in
  match s with
  | a :: b :: s' =>
      if between 194 223 a then (if cont b then Some 2%nat else None)
      else match s' with
      | c :: s'' =>
          if between 224 239 a then
            let lo := if (code a =? 224)%N then 160%N else 128%N in
            let hi := if (code a =? 237)%N then 159%N else 191%N in
            if between lo hi b && cont c then Some 3%nat else None
          else match s'' with
          | d :: _ =>
              if between 240 244 a then
                let lo := if (code a =? 240)%N then 144%N else 128%N in
                let hi := if (code a =? 244)%N then 143%N else 191%N in
                if between lo hi b && cont c && cont d then Some 4%nat else None
              else None
          | [] => None
          end
      | [] => None
      end
  | _ => None
  end.

Definition utf8_encode (r : N) : bytes :=
  if (r <? 128)%N then [chr r]
  else if (r <? 2048)%N then [chr (192 + r / 64); chr (128 + r mod 64)]
  else if (r <? 65536)%N then
    [chr (224 + r / 4096); chr (128 + r / 64 mod 64); chr (128 + r mod 64)]
  else [chr (240 + r / 262144); chr (128 + r / 4096 mod 64);
        chr (128 + r / 64 mod 64); chr (128 + r mod 64)].

Definition RuneError : bytes := utf8_encode 65533.

(** ** Strings *)

Definition is_surrogate (r : N) : bool := ((55296 <=? r) && (r <? 57344))%N.

(** [utf16.DecodeRune], when it gives a rune. *)
Definition combine_surrogates (r1 r2 : N) : option N :=
  if ((55296 <=? r1) && (r1 <? 56320) && (56320 <=? r2) && (r2 <? 57344))%N
  then Some ((r1 - 55296) * 1024 + (r2 - 56320) + 65536)%N else None.

(** The rest of a [\u] escape: a lone surrogate is replaced by U+FFFD. *)
Definition parse_u (s : bytes) : option (bytes * bytes) :=
  '(r, s') ← hex4 s;
  if is_surrogate r then
    match s' with
    | b :: u :: s2 =>
        if (code b =? 92)%N && (code u =? 117)%N then
          match hex4 s2 with
          | Some (r2, s3) =>
              match combine_surrogates r r2 with
              | Some rr => Some (utf8_encode rr, s3)
              | None => Some (RuneError, s')
              end
          | None => Some (RuneError, s')
          end
        else Some (RuneError, s')
    | _ => Some (RuneError, s')
    end
  else Some (utf8_encode r, s').

Definition simple_escape (c : ascii) : option ascii :=
  match code c with
  | 34 => Some quote | 92 => Some (chr 92) | 47 => Some (chr 47)
  | 98 => Some (chr 8) | 102 => Some (chr 12) | 110 => Some (chr 10)
  | 114 => Some (chr 13) | 116 => Some (chr 9)
  | _ => None
  end%N.

(** The body of a string literal after the opening quote. *)
Fixpoint parse_string (fuel : nat) (s : bytes) : option (bytes * bytes) :=
  match fuel with
  | O => None
  | S fuel =>
      match s with
      | [] => None
      | c :: s' =>
          if (code c =? 34)%N then Some ([], s')
          else if (code c <? 32)%N then None
          else if (code c =? 92)%N then
            match s' with
            | e :: s2 =>
                if (code e =? 117)%N then
                  '(r, s3) ← parse_u s2; '(t, rest) ← parse_string fuel s3; Some (r ++ t, rest)
                else
                  r ← simple_escape e; '(t, rest) ← parse_string fuel s2; Some (r :: t, rest)
            | [] => None
            end
          else if (code c <? 128)%N then
            '(t, rest) ← parse_string fuel s'; Some (c :: t, rest)
          else match utf8_multi s with
               | Some n =>
                   '(t, rest) ← parse_string fuel (drop n s); Some (take n s ++ t, rest)
               | None => '(t, rest) ← parse_string fuel s'; Some (RuneError ++ t, rest)
               end
      end
  end.

Definition hex_lower (n : N) : ascii := if (n <? 10)%N then chr (48 + n) else chr (87 + n).

(** One byte of the ASCII range in a literal that [json.Marshal] writes. *)
Definition escape_ascii (c : ascii) : bytes :=
  let n := code c in
  if ((n =? 34) || (n =? 92))%N then [chr 92; c]
  else if (n =? 10)%N then [chr 92; chr 110]
  else if (n =? 13)%N then [chr 92; chr 114]
  else if (n =? 9)%N then [chr 92; chr 116]
  else if ((n <? 32) || (n =? 60) || (n =? 62) || (n =? 38))%N then
    [chr 92; chr 117; chr 48; chr 48; hex_lower (n / 16); hex_lower (n mod 16)]
  else [c].

Fixpoint print_string (fuel : nat) (s : bytes) : bytes :=
  match fuel with
  | O => []
  | S fuel =>
      match s with
      | [] => []
      | c :: s' =>
          if (code c <? 128)%N then escape_ascii c ++ print_string fuel s'
          else match utf8_multi s with
               | Some n =>
                   let r := take n s in
                   (if decide (r = utf8_encode 8232) then chr 92 :: chars "u2028"
                    else if decide (r = utf8_encode 8233) then chr 92 :: chars "u2029" else r)
                   ++ print_string fuel (drop n s)
               | None => (chr 92 :: chars "ufffd") ++ print_string fuel s'
               end
      end
  end.

Definition print_str (s : string) : bytes :=
  quote :: print_string (length (chars s)) (chars s) ++ [quote].

(** ** Numbers *)

Fixpoint take_digits (s : bytes) : bytes * bytes :=
  match s with
  | c :: s' => if is_digit c then let '(d, r) := take_digits s' in (c :: d, r) else ([], s)
  | [] => ([], [])
  end.

(** The parts of a number literal: sign, integer digits, fraction digits, exponent. *)
Record num_lit := mkNum { n_neg : bool; n_int : bytes; n_frac : bytes; n_exp : Z }.

Fixpoint digits_val (acc : Z) (ds : bytes) : Z :=
  match ds with
  | [] => acc
  | c :: ds' => digits_val (acc * 10 + (Z.of_N (code c) - 48)) ds'
  end.

Definition parse_exp (s : bytes) : option (Z * bytes) :=
  match s with
  | c :: s1 =>
      if (code c =? 101)%N || (code c =? 69)%N then
        let '(neg, s2) :=
          match s1 with
          | sg :: s2 => if (code sg =? 45)%N then (true, s2)
                        else if (code sg =? 43)%N then (false, s2) else (false, s1)
          | [] => (false, [])
          end in
        let '(ds, rest) := take_digits s2 in
        match ds with
        | [] => None
        | _ => Some ((if neg then - digits_val 0 ds else digits_val 0 ds)%Z, rest)
        end
      else Some (0%Z, s)
  | [] => Some (0%Z, s)
  end.

Definition parse_number (s : bytes) : option (num_lit * bytes) :=
  let '(neg, s1) :=
    match s with c :: s1 => if (code c =? 45)%N then (true, s1) else (false, s) | [] => (false, s) end in
  let '(ds, s2) := take_digits s1 in
  match ds with
  | [] => None
  | d :: ds' =>
      if (code d =? 48)%N && negb (bool_decide (ds' = [])) then None
      else
        '(frac, s3) ← match s2 with
                      | c :: s3 =>
                          if (code c =? 46)%N then
                            let '(f, r) := take_digits s3 in
                            match f with [] => None | _ => Some (f, r) end
                          else Some ([], s2)
                      | [] => Some ([], s2)
                      end;
        '(e, s4) ← parse_exp s3;
        Some (mkNum neg ds frac e, s4)
  end.

(** *** float64

    A finite non-negative [float64] is [m * 2^e] with [m < 2^53]. *)

Definition div_half_even (n d : Z) : Z :=
  let q := (n / d)%Z in
  let r := (n mod d)%Z in
  match (2 * r ?= d)%Z with
  | Lt => q
  | Gt => (q + 1)%Z
  | Eq => if Z.even q then q else (q + 1)%Z
  end.

Definition ratio (m e10 : Z) : Z * Z :=
  if (0 <=? e10)%Z then ((m * 10 ^ e10)%Z, 1%Z) else (m, (10 ^ (- e10))%Z).

(** [n/d] rounded to the nearest [float64], ties to even. *)
Definition round_f64 (n d : Z) : Z * Z :=
  if (n =? 0)%Z then (0, 0)%Z
  else
    let k := (Z.log2 n - Z.log2 d)%Z in
    let scaled (be : Z) :=
      if (be <? 0)%Z then (n * 2 ^ (- be), d)%Z else (n, d * 2 ^ be)%Z in
    let be0 := Z.max (-1074) (k - 52) in
    let '(a0, b0) := scaled be0 in
    let be := if (a0 <? b0 * 2 ^ 52)%Z then Z.max (-1074) (be0 - 1) else be0 in
    let '(a, b) := scaled be in
    let m := div_half_even a b in
    if (m =? 2 ^ 53)%Z then (2 ^ 52, be + 1)%Z else (m, be).

(** [strconv.ParseFloat], [None] when the value is out of range. Literals whose
    magnitude is beyond any [float64] are not expanded. *)
Definition parse_float (l : num_lit) : option (Z * Z) :=
  let m := digits_val 0 (n_int l ++ n_frac l) in
  let e10 := (n_exp l - Z.of_nat (length (n_frac l)))%Z in
  let nd := Z.of_nat (length (n_int l ++ n_frac l)) in
  if (m =? 0)%Z then Some (0, 0)%Z
  else if (nd + e10 <? -400)%Z then Some (0, 0)%Z
  else if (400 + nd <? e10 + nd)%Z then None
  else
    let '(n, d) := ratio m e10 in
    let '(bm, be) := round_f64 n d in
    if (971 <? be)%Z then None else Some (bm, be).

Fixpoint digits_of (fuel : nat) (n : Z) (acc : bytes) : bytes :=
  match fuel with
  | O => acc
  | S fuel =>
      let acc' := chr (48 + Z.to_N (n mod 10)) :: acc in
      if (n <? 10)%Z then acc' else digits_of fuel (n / 10) acc'
  end.

Definition dec (n : Z) : bytes := digits_of (S (Z.to_nat (Z.log2 (n + 1)))) n [].

(** The decimal exponent of [n/d]: [10^x <= n/d < 10^(x+1)]. *)
Definition log10 (n d : Z) : Z :=
  let pow_le (x : Z) := if (0 <=? x)%Z then (d * 10 ^ x <=? n)%Z else (d <=? n * 10 ^ (- x))%Z in
  let x0 := ((Z.log2 n - Z.log2 d) * 30103 / 100000)%Z in
  if pow_le (x0 + 1)%Z then (x0 + 1)%Z else if pow_le x0 then x0 else (x0 - 1)%Z.

(** The shortest decimal [(digits, exponent)] that rounds to [bm * 2^be]. *)
Fixpoint shortest (fuel : nat) (p : Z) (n d bm be x : Z) : Z * Z :=
  let e := (x - p + 1)%Z in
  let D := if (0 <=? e)%Z then div_half_even n (d * 10 ^ e) else div_half_even (n * 10 ^ (- e)) d in
  match fuel with
  | O => (D, e)
  | S fuel =>
      let '(rn, rd) := ratio D e in
      if decide (round_f64 rn rd = (bm, be)) then (D, e)
      else shortest fuel (p + 1) n d bm be x
  end.

Fixpoint strip_zeros (fuel : nat) (D e : Z) : Z * Z :=
  match fuel with
  | O => (D, e)
  | S fuel => if (D mod 10 =? 0)%Z && negb (D =? 0)%Z then strip_zeros fuel (D / 10) (e + 1) else (D, e)
  end.

Definition zeros (n : Z) : bytes := replicate (Z.to_nat n) (chr 48).

(** The text [json.Marshal] prints for a [float64]. *)
Definition print_float (neg : bool) (bm be : Z) : bytes :=
  let sign := if neg then [chr 45] else [] in
  if (bm =? 0)%Z then sign ++ [chr 48]
  else
    let '(n, d) := if (0 <=? be)%Z then (bm * 2 ^ be, 1)%Z else (bm, 2 ^ (- be))%Z in
    let x := log10 n d in
    let '(D, e) := shortest 16 1 n d bm be x in
    let '(D, e) := strip_zeros 20 D e in
    let ds := dec D in
    let k := (Z.of_nat (length ds) + e - 1)%Z in
    sign ++
    (if (k <? -6)%Z || (20 <? k)%Z then
       take 1 ds ++ (match drop 1 ds with [] => [] | t => chr 46 :: t end)
       ++ [chr 101] ++ (if (k <? 0)%Z then chr 45 :: dec (- k) else chr 43 :: dec k)
     else if (0 <=? e)%Z then ds ++ zeros e
     else if (0 <=? k)%Z then take (Z.to_nat (k + 1)) ds ++ chr 46 :: drop (Z.to_nat (k + 1)) ds
     else chars "0." ++ zeros (- k - 1) ++ ds).

(** The [float64] a literal denotes, as the text that is printed for it. *)
Definition canon_num (l : num_lit) : option string :=
  '(bm, be) ← parse_float l; Some (str (print_float (n_neg l) bm be)).

(** ** Values *)

(** Insertion into a map sorted by key; a later value for a key replaces the earlier one. *)
Fixpoint obj_put (k : string) (v : json) (o : list (string * json)) : list (string * json) :=
  match o with
  | [] => [(k, v)]
  | (k', v') :: o' =>
      match Stdlib.Strings.String.compare k k' with
      | Lt => (k, v) :: o
      | Eq => (k, v) :: o'
      | Gt => (k', v') :: obj_put k v o'
      end
  end.

Fixpoint obj_get (k : string) (o : list (string * json)) : option json :=
  match o with
  | [] => None
  | (k', v) :: o' => if decide (k = k') then Some v else obj_get k o'
  end.

Definition prefix_is (p : string) (s : bytes) : option bytes :=
  if decide (take (length (chars p)) s = chars p) then Some (drop (length (chars p)) s) else None.

Definition raw_between (s rest : bytes) : bytes := take (length s - length rest) s.

(** The syntax of a value: number literals as they are written, the members of an
    object in order and with duplicates. [parse_value] parses one value after optional space; [parse_elems] the
    elements of an array after its bracket and [parse_fields] the members of an
    object after its brace, each with the bytes of its value. *)
Fixpoint parse_value (fuel : nat) (s : bytes) : option (json * bytes) :=
  match fuel with
  | O => None
  | S fuel =>
      match skip_ws s with
      | [] => None
      | c :: s' =>
          if (code c =? 123)%N then
            '(fs, rest) ← parse_fields fuel true s'; Some (JObj fs.*1, rest)
          else if (code c =? 91)%N then
            '(es, rest) ← parse_elems fuel true s'; Some (JArr es.*1, rest)
          else if (code c =? 34)%N then
            '(t, rest) ← parse_string (S (length s')) s'; Some (JStr (str t), rest)
          else if (code c =? 116)%N then
            rest ← prefix_is "true" (c :: s'); Some (JBool true, rest)
          else if (code c =? 102)%N then
            rest ← prefix_is "false" (c :: s'); Some (JBool false, rest)
          else if (code c =? 110)%N then
            rest ← prefix_is "null" (c :: s'); Some (JNull, rest)
          else
            '(_, rest) ← parse_number (c :: s');
            Some (JNum (str (raw_between (c :: s') rest)), rest)
      end
  end
with parse_elems (fuel : nat) (first : bool) (s : bytes) : option (list (json * bytes) * bytes) :=
  match fuel with
  | O => None
  | S fuel =>
      match skip_ws s with
      | [] => None
      | c :: s' =>
          if first && (code c =? 93)%N then Some ([], s')
          else
            '(v, rest) ← parse_value fuel (c :: s');
            match skip_ws rest with
            | d :: rest' =>
                if (code d =? 93)%N then Some ([(v, raw_between (c :: s') rest)], rest')
                else if (code d =? 44)%N then
                  '(vs, rest2) ← parse_elems fuel false rest';
                  Some ((v, raw_between (c :: s') rest) :: vs, rest2)
                else None
            | [] => None
            end
      end
  end
with parse_fields (fuel : nat) (first : bool) (s : bytes)
  : option (list (string * json * bytes) * bytes) :=
  match fuel with
  | O => None
  | S fuel =>
      match skip_ws s with
      | [] => None
      | c :: s' =>
          if first && (code c =? 125)%N then Some ([], s')
          else if (code c =? 34)%N then
            '(k, rest) ← parse_string (S (length s')) s';
            match skip_ws rest with
            | d :: rest' =>
                if (code d =? 58)%N then
                  let body := skip_ws rest' in
                  '(v, rest2) ← parse_value fuel body;
                  match skip_ws rest2 with
                  | e :: rest3 =>
                      if (code e =? 125)%N then Some ([(str k, v, raw_between body rest2)], rest3)
                      else if (code e =? 44)%N then
                        '(fs, rest4) ← parse_fields fuel false rest3;
                        Some ((str k, v, raw_between body rest2) :: fs, rest4)
                      else None
                  | [] => None
                  end
                else None
            | [] => None
            end
          else None
      end
  end.

(** Enough for every call the parser makes: a value needs at most two calls per byte. *)
Definition parse_fuel (s : bytes) : nat := S (S (2 * length s)).

(** The [interface{}] value of a syntax tree: numbers become [float64]s, which
    fails when one is out of range, and objects become maps. *)
Definition canon_lit (t : string) : option string :=
  match parse_number (chars t) with
  | Some (l, []) => canon_num l
  | _ => None
  end.

Fixpoint iface (j : json) : option json :=
  match j with
  | JNum t => JNum <$> canon_lit t
  | JArr l => JArr <$> (fix go_list (l : list json) : option (list json) :=
                          match l with
                          | [] => Some []
                          | j :: l => v ← iface j; vs ← go_list l; Some (v :: vs)
                          end) l
  | JObj l => JObj <$> (fix go_fields (acc : list (string * json)) (l : list (string * json))
                          : option (list (string * json)) :=
                          match l with
                          | [] => Some acc
                          | (k, j) :: l => v ← iface j; go_fields (obj_put k v acc) l
                          end) [] l
  | _ => Some j
  end.

(** The syntax tree of a whole text; [None] when it is not valid JSON. *)
Definition parse_json (data : string) : option json :=
  let s := chars data in
  '(v, rest) ← parse_value (parse_fuel s) s;
  match skip_ws rest with [] => Some v | _ => None end.

(** [json.Unmarshal(data, &v)] for [var v interface{}]. *)
Definition Unmarshal (data : string) : option json := v ← parse_json data; iface v.

(** The elements of the array that [data] is, or of [null], as raw messages. *)
Definition UnmarshalRawArray (data : string) : option (list string) :=
  let s := chars data in
  match skip_ws s with
  | c :: s' =>
      if (code c =? 91)%N then
        '(es, rest) ← parse_elems (parse_fuel s) true s';
        match skip_ws rest with [] => Some (map (fun e => str e.2) es) | _ => None end
      else match parse_json data with Some JNull => Some [] | _ => None end
  | [] => None
  end.

(** The members of the object that [data] is, or of [null]. *)
Definition UnmarshalRawObject (data : string) : option (list (string * json * string)) :=
  let s := chars data in
  match skip_ws s with
  | c :: s' =>
      if (code c =? 123)%N then
        '(fs, rest) ← parse_fields (parse_fuel s) true s';
        match skip_ws rest with
        | [] => Some (map (fun f => (f.1.1, f.1.2, str f.2)) fs)
        | _ => None
        end
      else match parse_json data with Some JNull => Some [] | _ => None end
  | [] => None
  end.

(** ** Printing *)

Definition sep_concat (sep : ascii) (l : list bytes) : bytes :=
  match l with
  | [] => []
  | x :: l' => x ++ concat (map (fun y => sep :: y) l')
  end.

Fixpoint print_json (j : json) : bytes :=
  match j with
  | JNull => chars "null"
  | JBool true => chars "true"
  | JBool false => chars "false"
  | JNum t => chars t
  | JStr s => print_str s
  | JArr l => chr 91 :: sep_concat (chr 44) (map print_json l) ++ [chr 93]
  | JObj l =>
      chr 123 ::
      sep_concat (chr 44) (map (fun kv => print_str kv.1 ++ chr 58 :: print_json kv.2) l)
      ++ [chr 125]
  end.

(** [json.Marshal] of a value read with [Unmarshal]. *)
Definition Marshal (j : json) : string := str (print_json j).
