(* ===== verification/JsonRoundtrip.v ===== *)
(** * What is printed parses back

    [Unmarshal] of [Marshal] of a value gives the value again, for values that
    can result from reading JSON: UTF-8 strings, numbers in their printed form,
    objects sorted by key ([json_ok]). The rewriting of request parameters relies
    on it: what the backend reads is the rewritten value. *)

From stdpp Require Import base list strings.
From Stdlib Require Import ZArith NArith Lia Ascii.
From Stdlib Require Strings.String OrderedTypeEx.
From S2P Require Import Prelude Json.

Local Open Scope list_scope.

(** ** Induction over nested values *)

Lemma json_nested_ind (P : json -> Prop) :
  P JNull -> (forall b, P (JBool b)) -> (forall t, P (JNum t)) -> (forall s, P (JStr s)) ->
  (forall l, Forall P l -> P (JArr l)) -> (forall l, Forall (fun kv => P kv.2) l -> P (JObj l)) ->
  forall j, P j.
Proof.
  intros Hn Hb Hnum Hs Ha Ho. fix IH 1.
  intros [|b|t|s|l|l]; [exact Hn|apply Hb|apply Hnum|apply Hs|apply Ha|apply Ho].
  - induction l as [|j l IHl]; constructor; [apply IH|exact IHl].
  - induction l as [|[k v] l IHl]; constructor; [apply IH|exact IHl].
Qed.

(** ** Well-formed values *)

Fixpoint utf8_ok (fuel : nat) (s : bytes) : bool :=
  match fuel with
  | O => bool_decide (s = [])
  | S fuel =>
      match s with
      | [] => true
      | c :: s' =>
          if (code c <? 128)%N then utf8_ok fuel s'
          else match utf8_multi s with Some n => utf8_ok fuel (drop n s) | None => false end
      end
  end.

Definition str_ok (s : string) : bool := utf8_ok (length (chars s)) (chars s).

Fixpoint keys_sorted (l : list (string * json)) : bool :=
  match l with
  | (k1, _) :: (((k2, _) :: _) as l') =>
      bool_decide (Stdlib.Strings.String.compare k1 k2 = Lt) && keys_sorted l'
  | _ => true
  end.

(** Syntax that prints and parses back: UTF-8 strings and number literals. *)
Definition num_syn (t : string) : bool :=
  match parse_number (chars t) with Some (_, []) => true | _ => false end.

Fixpoint syn_ok (j : json) : bool :=
  match j with
  | JNum t => num_syn t
  | JStr s => str_ok s
  | JArr l => forallb syn_ok l
  | JObj l => forallb (fun kv => str_ok kv.1 && syn_ok kv.2) l
  | _ => true
  end.

(** Values: numbers in their printed form and objects sorted by key. *)
Fixpoint json_ok (j : json) : bool :=
  match j with
  | JNum t => bool_decide (canon_lit t = Some t)
  | JStr s => str_ok s
  | JArr l => forallb json_ok l
  | JObj l => keys_sorted l && forallb (fun kv => str_ok kv.1 && json_ok kv.2) l
  | _ => true
  end.

(** ** Conversions *)

Lemma chars_str l : chars (str l) = l.
Proof. apply Stdlib.Strings.String.list_ascii_of_string_of_list_ascii. Qed.

Lemma str_chars s : str (chars s) = s.
Proof. apply Stdlib.Strings.String.string_of_list_ascii_of_string. Qed.

Lemma chars_app s t : chars (s +:+ t) = chars s ++ chars t.
Proof. unfold chars. induction s as [|c s IH]; [done|]. change (String c s +:+ t) with (String c (s +:+ t)). cbn. by f_equal. Qed.

Lemma chars_inj s t : chars s = chars t -> s = t.
Proof. intros H. by rewrite <- (str_chars s), H, str_chars. Qed.

(** ** Strings *)

Lemma parse_escape_ascii c fuel t s rest :
  (code c <? 128)%N = true ->
  parse_string fuel t = Some (s, rest) ->
  parse_string (S fuel) (escape_ascii c ++ t) = Some (c :: s, rest).
Proof.
  intros Hc Ht.
  destruct c as [[] [] [] [] [] [] [] []]; try (vm_compute in Hc; discriminate Hc);
    simpl; rewrite Ht; reflexivity.
Qed.

Lemma utf8_multi_spec s n :
  utf8_multi s = Some n ->
  (2 <= n <= length s)%nat /\ forall t, utf8_multi (take n s ++ t) = Some n.
Proof.
  unfold utf8_multi. destruct s as [|a [|b s']]; [done|done|].
  destruct (between 194 223 a) eqn:Ha.
  { destruct (between 128 191 b) eqn:Hb; [|done]. intros [= <-]. simpl. split; [lia|].
    intros t. by rewrite Ha, Hb. }
  destruct s' as [|c s'']; [done|]. destruct (between 224 239 a) eqn:Ha2.
  { destruct (_ && _) eqn:Hb; [|done]. intros [= <-]. simpl. split; [lia|].
    intros t. by rewrite Ha, Ha2, Hb. }
  destruct s'' as [|d s3]; [done|]. destruct (between 240 244 a) eqn:Ha3; [|done].
  destruct (_ && _) eqn:Hb; [|done]. intros [= <-]. simpl. split; [lia|].
  intros t. by rewrite Ha, Ha2, Ha3, Hb.
Qed.

Lemma utf8_multi_high c s n : utf8_multi (c :: s) = Some n -> (code c <? 128)%N = false.
Proof.
  intros H. destruct (code c <? 128)%N eqn:E; [|done]. exfalso.
  assert (forall lo hi, (128 <= lo)%N -> between lo hi c = false) as Hb.
  { intros lo hi Hlo. unfold between. apply N.ltb_lt in E.
    replace (lo <=? code c)%N with false by (symmetry; apply N.leb_gt; lia). done. }
  unfold utf8_multi in H. destruct s as [|b s]; [done|]. rewrite Hb in H by lia.
  destruct s as [|b2 s]; [done|]. rewrite Hb in H by lia.
  destruct s as [|b3 s]; [done|]. rewrite Hb in H by lia. done.
Qed.

(** A byte of a multi-byte sequence is neither a quote, nor a control, nor an escape. *)
Lemma parse_multi c s n fuel t s' rest :
  utf8_multi (c :: s) = Some n -> parse_string fuel t = Some (s', rest) ->
  parse_string (S fuel) (take n (c :: s) ++ t) = Some (take n (c :: s) ++ s', rest).
Proof.
  intros Hm Ht. pose proof (utf8_multi_high _ _ _ Hm) as Hc.
  destruct (utf8_multi_spec _ _ Hm) as [[Hn Hl] Happ]. specialize (Happ t).
  assert (length (take n (c :: s)) = n) as Hlen by (rewrite length_take; lia).
  remember (take n (c :: s)) as p eqn:Hp.
  assert (exists p', p = c :: p') as [p' ->].
  { destruct n; [lia|]. rewrite Hp. simpl. eauto. }
  apply N.ltb_ge in Hc. cbn [parse_string app].
  replace (code c =? 34)%N with false by (symmetry; apply N.eqb_neq; lia).
  replace (code c <? 32)%N with false by (symmetry; apply N.ltb_ge; lia).
  replace (code c =? 92)%N with false by (symmetry; apply N.eqb_neq; lia).
  replace (code c <? 128)%N with false by (symmetry; apply N.ltb_ge; lia).
  change (c :: p' ++ t) with ((c :: p') ++ t). rewrite Happ.
  rewrite (drop_app_length' (c :: p') t n), (take_app_length' (c :: p') t n) by done.
  by rewrite Ht.
Qed.

Lemma parse_u2028 fuel t s rest :
  parse_string fuel t = Some (s, rest) ->
  parse_string (S fuel) ((chr 92 :: chars "u2028") ++ t) = Some (utf8_encode 8232 ++ s, rest).
Proof. intros Ht. simpl. by rewrite Ht. Qed.

Lemma parse_u2029 fuel t s rest :
  parse_string fuel t = Some (s, rest) ->
  parse_string (S fuel) ((chr 92 :: chars "u2029") ++ t) = Some (utf8_encode 8233 ++ s, rest).
Proof. intros Ht. simpl. by rewrite Ht. Qed.

Lemma print_parse_string n fuel s rest :
  utf8_ok n s = true -> (n < fuel)%nat ->
  parse_string fuel (print_string n s ++ quote :: rest) = Some (s, rest).
Proof.
  revert n s. induction fuel as [|fuel IH]; [lia|]. intros n s Hok Hlt.
  destruct n as [|n]; simpl in Hok.
  { apply bool_decide_eq_true_1 in Hok as ->. done. }
  destruct s as [|c s]; [done|]. cbn [print_string].
  destruct (code c <? 128)%N eqn:Hc.
  - rewrite <- app_assoc. apply parse_escape_ascii; [done|]. apply IH; [done|lia].
  - destruct (utf8_multi (c :: s)) as [m|] eqn:Hm; [|done].
    rewrite <- (take_drop m (c :: s)) at 4. rewrite <- app_assoc.
    assert (parse_string fuel (print_string n (drop m (c :: s)) ++ quote :: rest)
            = Some (drop m (c :: s), rest)) as Hrec by (apply IH; [done|lia]).
    case_decide as H1; [rewrite H1; by apply parse_u2028|].
    case_decide as H2; [rewrite H2; by apply parse_u2029|].
    by apply parse_multi.
Qed.


Lemma print_string_length n s :
  utf8_ok n s = true -> (length s <= length (print_string n s))%nat.
Proof.
  revert s. induction n as [|n IH]; intros s Hok; simpl in Hok.
  { apply bool_decide_eq_true_1 in Hok as ->. done. }
  destruct s as [|c s]; [simpl; lia|]. cbn [print_string].
  destruct (code c <? 128)%N eqn:Hc.
  - rewrite length_app. specialize (IH s Hok). simpl.
    assert (1 <= length (escape_ascii c))%nat; [|lia].
    unfold escape_ascii. repeat case_match; simpl; lia.
  - destruct (utf8_multi (c :: s)) as [m|] eqn:Hm; [|done].
    destruct (utf8_multi_spec _ _ Hm) as [[_ Hl] _]. specialize (IH _ Hok).
    rewrite length_app. rewrite length_drop in IH.
    assert (m <= length (if decide (take m (c :: s) = utf8_encode 8232) then chr 92 :: chars "u2028"
              else if decide (take m (c :: s) = utf8_encode 8233) then chr 92 :: chars "u2029"
              else take m (c :: s)))%nat; [|lia].
    assert (length (take m (c :: s)) = m) as Ht by (rewrite length_take; lia).
    case_decide as H1; [rewrite H1 in Ht; vm_compute in Ht; simpl; lia|].
    case_decide as H2; [rewrite H2 in Ht; vm_compute in Ht; simpl; lia|]. lia.
Qed.

Lemma parse_print_str s rest :
  str_ok s = true ->
  exists t, print_str s = quote :: t /\
    parse_string (S (length (t ++ rest))) (t ++ rest) = Some (chars s, rest).
Proof.
  intros Hok. eexists. split; [reflexivity|]. rewrite <- app_assoc. cbn [app].
  apply print_parse_string; [done|]. unfold str_ok in Hok.
  rewrite length_app. pose proof (print_string_length _ _ Hok). simpl. lia.
Qed.

(** ** Numbers *)

(** What may follow a value: nothing, or a delimiter. *)
Definition delim (rest : bytes) : Prop :=
  match rest with [] => True | c :: _ => code c = 44%N \/ code c = 93%N \/ code c = 125%N end.

Lemma take_digits_app s rest d r :
  take_digits s = (d, r) -> (match rest with c :: _ => is_digit c = false | [] => True end) ->
  take_digits (s ++ rest) = (d, r ++ rest).
Proof.
  revert d r. induction s as [|c s IH]; simpl; intros d r H Hr.
  - injection H as <- <-. destruct rest as [|c rest]; [done|]. simpl. by rewrite Hr.
  - destruct (is_digit c); [|by injection H as <- <-].
    destruct (take_digits s) as [d' r'] eqn:E. injection H as <- <-. by rewrite (IH d' r').
Qed.

Lemma delim_not_digit rest : delim rest -> match rest with c :: _ => is_digit c = false | [] => True end.
Proof.
  destruct rest as [|c rest]; [done|]. unfold is_digit, between. intros [->|[->| ->]]; done.
Qed.

Lemma delim_code_ne rest n : delim rest -> n <> 44%N -> n <> 93%N -> n <> 125%N ->
  match rest with c :: _ => (code c =? n)%N = false | [] => True end.
Proof. destruct rest as [|c rest]; [done|]. intros [->|[->| ->]] ???; apply N.eqb_neq; congruence. Qed.

Lemma parse_exp_app s rest e r :
  parse_exp s = Some (e, r) -> delim rest -> parse_exp (s ++ rest) = Some (e, r ++ rest).
Proof.
  intros H Hd. destruct s as [|c s]; simpl in *.
  { injection H as <- <-. destruct rest as [|c rest]; [done|]. simpl.
    pose proof (delim_code_ne (c :: rest) 101 Hd ltac:(done) ltac:(done) ltac:(done)) as ->.
    by pose proof (delim_code_ne (c :: rest) 69 Hd ltac:(done) ltac:(done) ltac:(done)) as ->. }
  destruct (_ || _) eqn:E; [|by injection H as <- <-].
  destruct s as [|sg s]; [done|]. cbn [app].
  destruct (if (code sg =? 45)%N then (true, s) else if (code sg =? 43)%N then (false, s)
            else (false, sg :: s)) as [neg s2] eqn:E2.
  assert ((if (code sg =? 45)%N then (true, s ++ rest) else if (code sg =? 43)%N then (false, s ++ rest)
           else (false, sg :: s ++ rest)) = (neg, s2 ++ rest)) as ->.
  { destruct (code sg =? 45)%N; [|destruct (code sg =? 43)%N]; by simplify_eq/=. }
  destruct (take_digits s2) as [ds r2] eqn:Ed.
  rewrite (take_digits_app _ _ _ _ Ed (delim_not_digit _ Hd)).
  destruct ds; [done|]. by injection H as <- <-.
Qed.

Lemma parse_number_app s rest l r :
  parse_number s = Some (l, r) -> delim rest -> parse_number (s ++ rest) = Some (l, r ++ rest).
Proof.
  intros H Hd. unfold parse_number in *.
  destruct s as [|c s]; [done|].
  destruct (if (code c =? 45)%N then (true, s) else (false, c :: s)) as [neg s1] eqn:E1.
  cbn [app].
  assert ((if (code c =? 45)%N then (true, s ++ rest) else (false, c :: s ++ rest))
          = (neg, s1 ++ rest)) as ->.
  { destruct (code c =? 45)%N; by simplify_eq/=. }
  destruct (take_digits s1) as [ds s2] eqn:Ed.
  rewrite (take_digits_app _ _ _ _ Ed (delim_not_digit _ Hd)).
  destruct ds as [|d ds]; [done|]. destruct (_ && _); [done|].
  destruct s2 as [|p s2]; cbn [app].
  - assert ((match rest with
             | [] => Some ([], rest)
             | c0 :: s3 => if (code c0 =? 46)%N then
                 let '(f, r0) := take_digits s3 in match f with [] => None | _ :: _ => Some (f, r0) end
                 else Some ([], rest)
             end) = Some ([] : bytes, rest)) as ->.
    { destruct rest as [|c0 rest]; [done|].
      by pose proof (delim_code_ne (c0 :: rest) 46 Hd ltac:(done) ltac:(done) ltac:(done)) as ->. }
    cbn in H |- *. injection H as <- <-.
    pose proof (parse_exp_app [] rest 0%Z [] eq_refl Hd) as E. cbn [app] in E. by rewrite E.
  - destruct (code p =? 46)%N.
    + destruct (take_digits s2) as [f r0] eqn:Ef.
      rewrite (take_digits_app _ _ _ _ Ef (delim_not_digit _ Hd)).
      destruct f as [|f0 f]; [done|]. cbn in H |- *.
      destruct (parse_exp r0) as [[e r1]|] eqn:Ee; simpl in H; [|discriminate H]. injection H as <- <-.
      by rewrite (parse_exp_app _ rest _ _ Ee Hd).
    + cbv [mbind option_bind] in H |- *. destruct (parse_exp (p :: s2)) as [[e r1]|] eqn:Ee; simpl in H; [|discriminate H].
      injection H as <- <-. change (p :: s2 ++ rest) with ((p :: s2) ++ rest).
      by rewrite (parse_exp_app _ rest _ _ Ee Hd).
Qed.

(** The first byte of a number starts no other value. *)
Lemma parse_number_head s l r :
  parse_number s = Some (l, r) ->
  exists c s', s = c :: s' /\ is_ws c = false /\
    Forall (fun n => (code c =? n)%N = false) [123; 91; 34; 116; 102; 110; 93]%N.
Proof.
  destruct s as [|c s]; [done|]. intros H. exists c, s. split; [done|].
  assert (code c = 45%N \/ is_digit c = true) as Hc.
  { unfold parse_number in H. destruct (N.eqb_spec (code c) 45); [by left|].
    simpl in H. destruct (is_digit c); [by right|done]. }
  unfold is_ws, is_digit, between in *.
  assert (45 <= code c <= 57)%N as Hb.
  { destruct Hc as [->|Hc]; [lia|]. apply andb_prop in Hc as [?%N.leb_le ?%N.leb_le]. lia. }
  split; [|repeat constructor; apply N.eqb_neq; lia].
  repeat rewrite (proj2 (N.eqb_neq _ _)) by lia. done.
Qed.

(** ** Values *)

Lemma raw_between_app t rest : raw_between (t ++ rest) rest = t.
Proof. unfold raw_between. rewrite length_app. apply take_app_length'. lia. Qed.

Lemma sep_concat_cons2 sep x y l :
  sep_concat sep (x :: y :: l) = x ++ sep :: sep_concat sep (y :: l).
Proof. done. Qed.

Lemma skip_ws_nonws c s : is_ws c = false -> skip_ws (c :: s) = c :: s.
Proof. simpl. by intros ->. Qed.

Lemma num_syn_number t : num_syn t = true -> exists l, parse_number (chars t) = Some (l, []).
Proof.
  unfold num_syn. destruct (parse_number (chars t)) as [[l [|? ?]]|]; [eauto|done|done].
Qed.

Lemma print_json_head j :
  syn_ok j = true ->
  exists c s, print_json j = c :: s /\ is_ws c = false /\ (code c =? 93)%N = false.
Proof.
  destruct j as [|[]|t|s|l|l]; simpl; intros H; try (eexists _, _; by split).
  apply num_syn_number in H as [l Hl].
  destruct (parse_number_head _ _ _ Hl) as (c & s & -> & Hw & Hf).
  exists c, s. repeat split; [done|]. rewrite !Forall_cons in Hf. tauto.
Qed.

Definition parses (j : json) : Prop := forall fuel rest,
  (2 * length (print_json j) <= fuel)%nat -> delim rest ->
  parse_value fuel (print_json j ++ rest) = Some (j, rest).

Lemma parse_elems_print l : forall first fuel rest,
  Forall parses l -> forallb syn_ok l = true -> l <> [] ->
  (2 * length (sep_concat (chr 44) (map print_json l)) + 1 <= fuel)%nat ->
  parse_elems fuel first (sep_concat (chr 44) (map print_json l) ++ chr 93 :: rest)
  = Some (map (fun j => (j, print_json j)) l, rest).
Proof.
  induction l as [|j l IH]; intros first fuel rest HP Hok Hne Hf; [done|].
  apply Forall_cons in HP as [Hj HP]. simpl in Hok. apply andb_prop in Hok as [Hokj Hok].
  destruct (print_json_head j Hokj) as (c & s & Hc & Hw & Hn).
  destruct fuel as [|fuel]; [lia|].
  destruct l as [|j2 l].
  - cbn [map] in *. unfold sep_concat in *. cbn [map concat] in *. rewrite app_nil_r in *.
    cbn [parse_elems]. rewrite Hc at 1. cbn [app]. rewrite skip_ws_nonws, Hn, andb_false_r by done.
    change (c :: s ++ chr 93 :: rest) with ((c :: s) ++ chr 93 :: rest). rewrite <- Hc.
    rewrite Hj; [|lia|by right; left]. cbn. by rewrite raw_between_app.
  - cbn [map] in *. rewrite sep_concat_cons2 in *. rewrite length_app in Hf. simpl in Hf.
    rewrite <- app_assoc. cbn [app parse_elems]. rewrite Hc at 1. cbn [app].
    rewrite skip_ws_nonws, Hn, andb_false_r by done.
    set (tl := sep_concat _ _ ++ chr 93 :: rest).
    change (c :: s ++ chr 44 :: tl) with ((c :: s) ++ chr 44 :: tl). rewrite <- Hc.
    rewrite Hj; [|lia|by left]. cbv [mbind option_bind].
    change (skip_ws (chr 44 :: tl)) with (chr 44 :: tl). cbv iota beta.
    change (code (chr 44) =? 93)%N with false. change (code (chr 44) =? 44)%N with true.
    cbv iota. unfold tl. rewrite IH; [|done|done|done|simpl in *; lia].
    cbv iota beta. by rewrite raw_between_app.
Qed.

Definition print_field (kv : string * json) : bytes := print_str kv.1 ++ chr 58 :: print_json kv.2.

Lemma parse_fields_print l : forall first fuel rest,
  Forall (fun kv => parses kv.2) l ->
  forallb (fun kv => str_ok kv.1 && syn_ok kv.2) l = true -> l <> [] ->
  (2 * length (sep_concat (chr 44) (map print_field l)) + 1 <= fuel)%nat ->
  parse_fields fuel first (sep_concat (chr 44) (map print_field l) ++ chr 125 :: rest)
  = Some (map (fun kv => (kv.1, kv.2, print_json kv.2)) l, rest).
Proof.
  induction l as [|[k j] l IH]; intros first fuel rest HP Hok Hne Hf; [done|].
  apply Forall_cons in HP as [Hj HP]. simpl in Hok. bsimp.
  destruct (print_json_head j) as (c & s & Hc & Hw & _); [done|].
  destruct fuel as [|fuel]; [lia|].
  assert (forall tl, (2 * length (print_json j) <= fuel)%nat -> delim tl ->
    parse_fields (S fuel) first (print_field (k, j) ++ tl) =
    match skip_ws tl with
    | e :: rest3 =>
        if (code e =? 125)%N then Some ([(k, j, print_json j)], rest3)
        else if (code e =? 44)%N then
          '(fs, rest4) ← parse_fields fuel false rest3; Some ((k, j, print_json j) :: fs, rest4)
        else None
    | [] => None
    end) as Hone.
  { intros tl Hlen Hd. change (parses j) in Hj.
    assert (skip_ws (print_json j ++ tl) = print_json j ++ tl) as Hskip.
    { rewrite Hc. by apply skip_ws_nonws. }
    unfold print_field. simpl fst. simpl snd. rewrite <- app_assoc. cbn [app].
    destruct (parse_print_str k (chr 58 :: print_json j ++ tl)) as (t & -> & Ht); [done|].
    cbn [app parse_fields].
    change (skip_ws (quote :: t ++ chr 58 :: print_json j ++ tl))
      with (quote :: t ++ chr 58 :: print_json j ++ tl). cbv iota beta.
    change (code quote =? 125)%N with false. rewrite andb_false_r.
    change (code quote =? 34)%N with true. cbv iota. rewrite Ht. cbv [mbind option_bind].
    change (skip_ws (chr 58 :: print_json j ++ tl)) with (chr 58 :: print_json j ++ tl).
    cbv iota beta. change (code (chr 58) =? 58)%N with true. cbv iota zeta.
    rewrite Hskip, Hj by done. by rewrite raw_between_app, str_chars. }
  destruct l as [|kv2 l].
  - cbn [map] in *. unfold sep_concat in *. cbn [map concat] in *. rewrite app_nil_r in *.
    rewrite Hone; [done| |by right; right].
    unfold print_field in Hf. simpl in Hf. rewrite length_app in Hf. simpl in Hf. lia.
  - cbn [map] in *. rewrite sep_concat_cons2 in *. rewrite length_app in Hf. simpl in Hf.
    rewrite <- app_assoc. cbn [app].
    rewrite Hone; [| |by left].
    + set (tl := sep_concat _ _ ++ _).
      change (skip_ws (chr 44 :: tl)) with (chr 44 :: tl). cbv iota beta.
      change (code (chr 44) =? 125)%N with false. change (code (chr 44) =? 44)%N with true.
      cbv iota. unfold tl. by rewrite IH; [|done|done|done|simpl in *; lia].
    + unfold print_field in Hf. simpl in Hf. rewrite length_app in Hf. simpl in Hf. lia.
Qed.

Lemma fst_map_pair (l : list json) : (map (fun j => (j, print_json j)) l).*1 = l.
Proof. induction l as [|j l IH]; [done|]. cbn [map]. by rewrite fmap_cons, IH. Qed.

Lemma fst_map_field (l : list (string * json)) :
  (map (fun kv => (kv.1, kv.2, print_json kv.2)) l).*1 = l.
Proof. induction l as [|[k j] l IH]; [done|]. cbn [map]. by rewrite fmap_cons, IH. Qed.

Lemma print_json_parses j : syn_ok j = true -> parses j.
Proof.
  induction j as [|b|t|s|l IH|l IH] using json_nested_ind; intros Hok fuel rest Hf Hd;
    (destruct fuel as [|fuel]; [by pose proof (print_json_head _ Hok) as (c & s' & E & _);
       rewrite E in Hf; simpl in Hf; lia|]).
  - done.
  - by destruct b.
  - cbn [syn_ok] in Hok. apply num_syn_number in Hok as [l Hl].
    destruct (parse_number_head _ _ _ Hl) as (c & s & Hs & Hw & Hfs).
    rewrite !Forall_cons in Hfs. destruct Hfs as (H1 & H2 & H3 & H4 & H5 & H6 & _).
    pose proof (parse_number_app _ _ _ _ Hl Hd) as Hp.
    cbn [print_json]. rewrite Hs in *. cbn [app parse_value] in *.
    rewrite skip_ws_nonws, H1, H2, H3, H4, H5, H6 by done. rewrite Hp. cbv [mbind option_bind].
    change (c :: s ++ rest) with ((c :: s) ++ rest). cbn [app].
    change (c :: s ++ rest) with ((c :: s) ++ rest).
    by rewrite raw_between_app, <- Hs, str_chars.
  - cbn [print_json]. destruct (parse_print_str s rest Hok) as (t & -> & Ht).
    cbn [app parse_value]. change (skip_ws (quote :: t ++ rest)) with (quote :: t ++ rest).
    cbv iota beta. change (code quote =? 123)%N with false. change (code quote =? 91)%N with false.
    change (code quote =? 34)%N with true. cbv iota. rewrite Ht. cbv [mbind option_bind].
    by rewrite str_chars.
  - cbn [syn_ok] in Hok. cbn [print_json] in *. cbn [app parse_value].
    rewrite <- app_assoc. cbn [app]. set (tl := sep_concat _ _ ++ _).
    change (skip_ws (chr 91 :: tl)) with (chr 91 :: tl). cbv iota beta.
    change (code (chr 91) =? 123)%N with false. change (code (chr 91) =? 91)%N with true. cbv iota.
    unfold tl. destruct l as [|j l].
    { destruct fuel; [simpl in Hf; lia|]. done. }
    rewrite parse_elems_print; [| |done|done|].
    + cbv [mbind option_bind]. by rewrite fst_map_pair.
    + rewrite Forall_forall in *. intros x Hx. apply IH; [done|].
      rewrite forallb_forall in Hok. by apply Hok, list_elem_of_In.
    + rewrite length_cons, length_app in Hf. simpl in *. lia.
  - cbn [syn_ok] in Hok. cbn [print_json] in *. cbn [app parse_value].
    rewrite <- app_assoc. cbn [app]. fold print_field in *. set (tl := sep_concat _ _ ++ _).
    change (skip_ws (chr 123 :: tl)) with (chr 123 :: tl). cbv iota beta.
    change (code (chr 123) =? 123)%N with true. cbv iota.
    unfold tl. destruct l as [|kv l].
    { destruct fuel; [simpl in Hf; lia|]. done. }
    rewrite parse_fields_print; [| |done|done|].
    + cbv [mbind option_bind]. by rewrite fst_map_field.
    + rewrite Forall_forall in *. intros x Hx. apply IH; [done|].
      rewrite forallb_forall in Hok. specialize (Hok x ltac:(by apply list_elem_of_In)).
      by bsimp.
    + rewrite length_cons, length_app in Hf. simpl in *. lia.
Qed.

(** ** Maps *)

Lemma compare_lt_trans (a b c : string) :
  Stdlib.Strings.String.compare a b = Lt -> Stdlib.Strings.String.compare b c = Lt ->
  Stdlib.Strings.String.compare a c = Lt.
Proof.
  intros H1 H2. apply OrderedTypeEx.String_as_OT.cmp_lt.
  eapply OrderedTypeEx.String_as_OT.lt_trans; by apply OrderedTypeEx.String_as_OT.cmp_lt.
Qed.

Lemma obj_put_last k v acc :
  Forall (fun kv => Stdlib.Strings.String.compare kv.1 k = Lt) acc ->
  obj_put k v acc = acc ++ [(k, v)].
Proof.
  induction 1 as [|[k' v'] acc Hk _ IH]; [done|]. simpl in *.
  rewrite Stdlib.Strings.String.compare_antisym, Hk. simpl. by rewrite IH.
Qed.

Lemma keys_sorted_cons k v l :
  keys_sorted ((k, v) :: l) = true ->
  Forall (fun kv => Stdlib.Strings.String.compare k kv.1 = Lt) l /\ keys_sorted l = true.
Proof.
  revert k v. induction l as [|[k2 v2] l IH]; intros k v H; [by split|].
  cbn [keys_sorted] in H. apply andb_prop in H as [H1%bool_decide_eq_true_1 H2].
  split; [|done]. constructor; [done|]. apply (IH k2 v2) in H2 as [H2 _].
  eapply Forall_impl; [exact H2|]. intros kv Hkv. exact (compare_lt_trans _ _ _ H1 Hkv).
Qed.

Lemma iface_ok j : json_ok j = true -> iface j = Some j.
Proof.
  induction j as [|b|t|s|l IH|l IH] using json_nested_ind; intros Hok; try done.
  - apply bool_decide_eq_true_1 in Hok. simpl. by rewrite Hok.
  - simpl in *. rewrite fmap_Some. exists l. split; [|done].
    induction IH as [|j l Hj _ IHl]; [done|]. simpl in Hok. bsimp.
    rewrite Hj by done. cbn. by rewrite IHl.
  - simpl in *. bsimp. rewrite fmap_Some. exists l. split; [|done].
    change l with ([] ++ l) at 2.
    assert (Forall (fun kv => Forall (fun kv' : string * json =>
      Stdlib.Strings.String.compare kv'.1 kv.1 = Lt) []) l) as Hacc.
    { apply Forall_forall. constructor. }
    revert Hacc. generalize (@nil (string * json)) as acc.
    induction IH as [|[k j] l Hj _ IHl]; intros acc Hacc; [by rewrite app_nil_r|].
    match goal with H : keys_sorted _ = true |- _ => apply keys_sorted_cons in H as [Hk Hs] end.
    simpl in *. bsimp. rewrite Hj by done. cbn. apply Forall_cons in Hacc as [Hka Hacc].
    rewrite obj_put_last by done.
    rewrite IHl, <- app_assoc; [done|done|done|]. rewrite Forall_forall in *.
    intros kv Hin. apply Forall_app. split; [by apply Hacc|].
    constructor; [by apply Hk|constructor].
Qed.

(** ** Round trips *)

Lemma json_ok_syn j : json_ok j = true -> syn_ok j = true.
Proof.
  induction j as [|b|t|s|l IH|l IH] using json_nested_ind; intros Hok; try done.
  - simpl in *. apply bool_decide_eq_true_1 in Hok. unfold canon_lit, num_syn in *.
    by destruct (parse_number (chars t)) as [[l [|? ?]]|].
  - simpl in *. induction IH as [|j l Hj _ IHl]; [done|]. simpl in *. bsimp.
    by rewrite Hj, IHl.
  - simpl in *. apply andb_prop in Hok as [_ Hok].
    induction IH as [|[k j] l Hj _ IHl]; [done|]. simpl in *. bsimp.
    rewrite Hj, IHl by done. rewrite !andb_true_r. done.
Qed.

Lemma parse_print_json j : syn_ok j = true -> parse_json (Marshal j) = Some j.
Proof.
  intros Hok. unfold parse_json, Marshal. rewrite chars_str.
  pose proof (print_json_parses j Hok (parse_fuel (print_json j)) []) as H.
  rewrite app_nil_r in H. rewrite H; [done| |done]. unfold parse_fuel. lia.
Qed.

Lemma Unmarshal_Marshal j : json_ok j = true -> Unmarshal (Marshal j) = Some j.
Proof. intros Hok. unfold Unmarshal. rewrite parse_print_json by (by apply json_ok_syn). by apply iface_ok. Qed.

Lemma obj_get_put k v m : obj_get k (obj_put k v m) = Some v.
Proof.
  induction m as [|[k' v'] m IH]; cbn; [by rewrite decide_True|].
  destruct (Stdlib.Strings.String.compare k k') eqn:E; cbn.
  1,2: by rewrite decide_True.
  rewrite decide_False; [done|]. intros ->.
  pose proof (proj2 (OrderedTypeEx.String_as_OT.cmp_eq k' k') eq_refl) as E2.
  change (Stdlib.Strings.String.compare k' k' = Eq) in E2. congruence.
Qed.

Lemma obj_get_put_ne k k' v m : k' <> k -> obj_get k' (obj_put k v m) = obj_get k' m.
Proof.
  intros Hne. induction m as [|[k2 v2] m IH]; cbn; [by rewrite decide_False|].
  destruct (Stdlib.Strings.String.compare k k2) eqn:E; cbn.
  - apply Stdlib.Strings.String.compare_eq_iff in E as <-. by rewrite !decide_False.
  - by rewrite decide_False.
  - by rewrite IH.
Qed.

Lemma keys_sorted_intro k v l :
  Forall (fun kv => Stdlib.Strings.String.compare k kv.1 = Lt) l -> keys_sorted l = true ->
  keys_sorted ((k, v) :: l) = true.
Proof.
  destruct l as [|[k2 v2] l]; [done|]. intros [H _]%Forall_cons Hs.
  cbn [keys_sorted]. by rewrite (bool_decide_true _ H).
Qed.

Lemma obj_put_forall (P : string * json -> Prop) k v m :
  P (k, v) -> Forall P m -> Forall P (obj_put k v m).
Proof.
  intros Hk. induction 1 as [|[k2 v2] m H2 Hm IH]; cbn; [by constructor|].
  destruct (Stdlib.Strings.String.compare k k2); repeat constructor; done.
Qed.

Lemma obj_put_sorted k v m : keys_sorted m = true -> keys_sorted (obj_put k v m) = true.
Proof.
  induction m as [|[k2 v2] m IH]; [done|]. intros [Hf Hs]%keys_sorted_cons. cbn [obj_put].
  destruct (Stdlib.Strings.String.compare k k2) eqn:E.
  - apply Stdlib.Strings.String.compare_eq_iff in E as <-. by apply keys_sorted_intro.
  - apply keys_sorted_intro; [|by apply keys_sorted_intro].
    constructor; [done|]. eapply Forall_impl; [exact Hf|]. intros kv Hkv. exact (compare_lt_trans _ _ _ E Hkv).
  - apply keys_sorted_intro; [|by apply IH]. apply obj_put_forall; [|done].
    cbn. by rewrite Stdlib.Strings.String.compare_antisym, E.
Qed.

Lemma json_ok_put k v m :
  str_ok k = true -> json_ok v = true -> json_ok (JObj m) = true -> json_ok (JObj (obj_put k v m)) = true.
Proof.
  intros Hk Hv. cbn [json_ok]. intros [Hs Hm]%andb_prop. rewrite obj_put_sorted by done. cbn [andb].
  apply Is_true_true, forallb_True, obj_put_forall; cbn [fst snd]; [by rewrite Hk, Hv|].
  by apply forallb_True, Is_true_true.
Qed.

Lemma json_ok_get k v m : json_ok (JObj m) = true -> obj_get k m = Some v -> json_ok v = true.
Proof.
  cbn [json_ok]. intros [_ Hm]%andb_prop. induction m as [|[k2 v2] m IH]; [done|]. cbn in *. bsimp.
  case_decide; [by intros [= <-]|auto].
Qed.
