(* ===== verification/Geth.v ===== *)
(** * The go-ethereum packages the proxy calls

    [common/hexutil] and [rpc] are not part of the repository: the classes below
    are parameters of the model. [GethLaws] lists what their documentation
    promises and the proxy relies on. [geth_model] is an instance, used by the
    witnesses only. *)

From stdpp Require Import base list strings.
From Stdlib Require Import ZArith NArith Lia Ascii.
From S2P Require Import Prelude Json JsonRoundtrip.

Local Open Scope Z_scope.

(** [rpc.BlockNumberOrHash]. *)
Record BlockNumberOrHash := mkBNH {
  bnh_number : option Z;
  bnh_hash : option string;
  bnh_canonical : bool;
}.

Class Geth := {
  (** [hexutil.Uint64.String] and [hexutil.DecodeUint64] *)
  Uint64_String : Z -> string;
  DecodeUint64 : string -> option Z;
  (** [( *hexutil.Uint64).UnmarshalJSON] on the bytes of a JSON value *)
  Uint64_UnmarshalJSON : string -> option Z;
  (** The block number tags of package [rpc] *)
  SafeBlockNumber : Z;
  FinalizedBlockNumber : Z;
  LatestBlockNumber : Z;
  PendingBlockNumber : Z;
  EarliestBlockNumber : Z;
  (** [(bnh *BlockNumberOrHash).UnmarshalJSON] on the bytes of a JSON value *)
  bnh_UnmarshalJSON : string -> option BlockNumberOrHash;
  (** [json.Marshal] of a [BlockNumberOrHash], as a value *)
  bnh_json : BlockNumberOrHash -> json;
  (** [BlockNumber.String] and [common.Hash.Hex] *)
  BlockNumber_String : Z -> string;
}.

Class GethLaws {G : Geth} : Prop := {
  DecodeUint64_String n : is_u64 n -> DecodeUint64 (Uint64_String n) = Some n;
  DecodeUint64_range s n : DecodeUint64 s = Some n -> is_u64 n;
  Uint64_JSON n : is_u64 n -> Uint64_UnmarshalJSON (Marshal (JStr (Uint64_String n))) = Some n;
  DecodeUint64_empty : DecodeUint64 "" = None;
  Uint64_String_ok n : str_ok (Uint64_String n) = true;
  (** the tags are distinct, and all but the earliest are negative *)
  block_tags_nodup :
    NoDup [SafeBlockNumber; FinalizedBlockNumber; LatestBlockNumber; PendingBlockNumber;
           EarliestBlockNumber];
  block_tags_neg : Forall (fun n => n < 0)
    [SafeBlockNumber; FinalizedBlockNumber; LatestBlockNumber; PendingBlockNumber];
  earliest_zero : EarliestBlockNumber = 0;
  (** the tags and the hexadecimal numbers as JSON strings *)
  bnh_latest : bnh_UnmarshalJSON (Marshal (JStr "latest")) = Some (mkBNH (Some LatestBlockNumber) None false);
  bnh_safe : bnh_UnmarshalJSON (Marshal (JStr "safe")) = Some (mkBNH (Some SafeBlockNumber) None false);
  bnh_finalized : bnh_UnmarshalJSON (Marshal (JStr "finalized")) = Some (mkBNH (Some FinalizedBlockNumber) None false);
  bnh_pending : bnh_UnmarshalJSON (Marshal (JStr "pending")) = Some (mkBNH (Some PendingBlockNumber) None false);
  bnh_earliest : bnh_UnmarshalJSON (Marshal (JStr "earliest")) = Some (mkBNH (Some EarliestBlockNumber) None false);
  bnh_hex n : 0 <= n <= MaxInt64 ->
    bnh_UnmarshalJSON (Marshal (JStr (Uint64_String n))) = Some (mkBNH (Some n) None false);
  (** a string that is a hexadecimal number is read as that number or refused *)
  bnh_number_decode s n b : str_ok s = true -> DecodeUint64 s = Some n ->
    bnh_UnmarshalJSON (Marshal (JStr s)) = Some b -> b = mkBNH (Some n) None false;
  (** a number that is written is read back *)
  bnh_json_number n : 0 <= n <= MaxInt64 ->
    json_ok (bnh_json (mkBNH (Some n) None false)) = true /\
    bnh_UnmarshalJSON (Marshal (bnh_json (mkBNH (Some n) None false))) = Some (mkBNH (Some n) None false);
}.

(** ** An instance *)

Fixpoint hex_digits (fuel : nat) (n : Z) (acc : bytes) : bytes :=
  match fuel with
  | O => acc
  | S fuel =>
      let acc' := hex_lower (Z.to_N (n mod 16)) :: acc in
      if n <? 16 then acc' else hex_digits fuel (n / 16) acc'
  end.

Definition hex_encode (n : Z) : string := str (chars "0x" ++ hex_digits 16 (u64 n) []).

Fixpoint hex_value (acc : Z) (s : bytes) : option Z :=
  match s with
  | [] => Some acc
  | c :: s' => d ← hex_digit c; hex_value (acc * 16 + Z.of_N d) s'
  end.

(** A quantity: prefix, at least one digit, no leading zero, at most 64 bits. *)
Definition hex_decode (s : string) : option Z :=
  match chars s with
  | z :: x :: ds =>
      if (code z =? 48)%N && ((code x =? 120)%N || (code x =? 88)%N) then
        match ds with
        | [] => None
        | d :: ds' =>
            if (code d =? 48)%N && negb (bool_decide (ds' = [])) then None
            else if (16 <? length ds)%nat then None else hex_value 0 ds
        end
      else None
  | _ => None
  end.

Lemma hex_digit_lower d : (d < 16)%N -> hex_digit (hex_lower d) = Some d.
Proof.
  intros H. destruct d as [|p]; [done|].
  do 4 (destruct p as [p|p|]; try reflexivity; try lia).
Qed.

Lemma hex_lower_zero d : (d < 16)%N -> code (hex_lower d) = 48%N -> d = 0%N.
Proof.
  intros H. destruct d as [|p]; [done|].
  do 4 (destruct p as [p|p|]; try (intros E; vm_compute in E; discriminate E); try lia).
Qed.

(** The digits of a number, most significant first. *)
Lemma hex_digits_spec fuel n acc :
  0 <= n < 16 ^ Z.of_nat fuel -> (0 < fuel)%nat ->
  exists d ds, hex_digits fuel n acc = (d :: ds) ++ acc /\ (length (d :: ds) <= fuel)%nat /\
    (forall a t, hex_value a ((d :: ds) ++ t) = hex_value (a * 16 ^ Z.of_nat (length (d :: ds)) + n) t) /\
    (code d = 48%N -> ds = []).
Proof.
  revert n acc. induction fuel as [|fuel IH]; intros n acc Hn Hf; [lia|]. cbn [hex_digits].
  assert (Z.to_N (n mod 16) < 16)%N as Hd by (pose proof (Z.mod_pos_bound n 16); lia).
  destruct (Z.ltb_spec n 16) as [Hlt|Hge].
  - eexists _, []. split; [reflexivity|]. split; [simpl; lia|]. split; [|done].
    intros a t. cbn [app hex_value]. rewrite hex_digit_lower by done. cbn.
    f_equal. rewrite Z2N.id by (apply Z.mod_pos_bound; lia). rewrite Z.mod_small; lia.
  - destruct fuel as [|fuel]; [simpl in Hn; lia|].
    destruct (IH (n / 16) (hex_lower (Z.to_N (n mod 16)) :: acc)) as (d & ds & -> & Hl & Hv & Hz).
    { split; [apply Z.div_pos; lia|]. apply Z.div_lt_upper_bound; [lia|].
      rewrite (Nat2Z.inj_succ (S fuel)), Z.pow_succ_r in Hn by lia. lia. }
    { lia. }
    exists d, (ds ++ [hex_lower (Z.to_N (n mod 16))]). split; [cbn [app]; by rewrite <- app_assoc|].
    split; [simpl in *; rewrite length_app; simpl; lia|]. split.
    + intros a t. rewrite app_comm_cons, <- app_assoc, Hv. cbn [app hex_value].
      rewrite hex_digit_lower by done. cbn [mbind option_bind]. f_equal.
      rewrite Z2N.id by (apply Z.mod_pos_bound; lia). cbn [length].
      rewrite length_app. cbn [length]. rewrite Nat.add_1_r, !Nat2Z.inj_succ, !Z.pow_succ_r by lia.
      pose proof (Z.div_mod n 16 ltac:(lia)). lia.
    + intros Hd0. specialize (Hz Hd0). subst ds. exfalso.
      specialize (Hv 0 []). cbn in Hv. destruct (hex_digit d) as [v|] eqn:E; [|done].
      cbn in Hv. unfold hex_digit, is_digit, between in E. rewrite Hd0 in E.
      cbn in E. injection E as <-. injection Hv as Hv. simpl in Hv.
      pose proof (Z.div_mod n 16 ltac:(lia)). pose proof (Z.mod_pos_bound n 16). lia.
Qed.

Lemma hex_encode_spec n :
  is_u64 n -> exists d ds, hex_encode n = str (chars "0x" ++ d :: ds) /\
    (length (d :: ds) <= 16)%nat /\ hex_value 0 (d :: ds) = Some n /\ (code d = 48%N -> ds = []).
Proof.
  intros Hn. unfold hex_encode. rewrite u64_small by done.
  destruct (hex_digits_spec 16 n []) as (d & ds & -> & Hl & Hv & Hz).
  { unfold is_u64, two64 in Hn. split; [lia|]. change (Z.of_nat 16) with 16.
    assert (2 ^ 64 = 16 ^ 16) as <- by reflexivity. lia. }
  { lia. }
  exists d, ds. rewrite app_nil_r. repeat split; [done| |done].
  specialize (Hv 0 []). rewrite app_nil_r in Hv. rewrite Hv. done.
Qed.

Lemma hex_digit_range c d : hex_digit c = Some d -> (d < 16)%N.
Proof.
  unfold hex_digit, is_digit, between. intros H.
  destruct ((48 <=? code c)%N && (code c <=? 57)%N) eqn:E1;
    [|destruct ((97 <=? code c)%N && (code c <=? 102)%N) eqn:E2;
      [|destruct ((65 <=? code c)%N && (code c <=? 70)%N) eqn:E3; [|done]]];
    injection H as <-;
    repeat match goal with E : _ && _ = true |- _ =>
      apply andb_prop in E as [?%N.leb_le ?%N.leb_le] end; lia.
Qed.

Lemma hex_value_bound s : forall a n,
  0 <= a -> hex_value a s = Some n ->
  a * 16 ^ Z.of_nat (length s) <= n < (a + 1) * 16 ^ Z.of_nat (length s).
Proof.
  induction s as [|c s IH]; intros a n Ha; cbn [hex_value length].
  - intros [= <-]. simpl. lia.
  - destruct (hex_digit c) as [d|] eqn:E; [|done]. cbn [mbind option_bind]. intros H.
    pose proof (hex_digit_range _ _ E). apply IH in H; [|lia].
    rewrite Nat2Z.inj_succ, Z.pow_succ_r by lia.
    pose proof (Z.pow_nonneg 16 (Z.of_nat (length s)) ltac:(lia)). nia.
Qed.

Lemma hex_decode_range s n : hex_decode s = Some n -> is_u64 n.
Proof.
  unfold hex_decode. destruct (chars s) as [|z [|x ds]]; [done|done|].
  destruct (_ && _); [|done]. destruct ds as [|d ds]; [done|].
  destruct (_ && _); [done|]. destruct (Nat.ltb_spec 16 (length (d :: ds))) as [|Hl]; [done|].
  intros H. apply hex_value_bound in H; [|lia]. unfold is_u64, two64.
  assert (16 ^ Z.of_nat (length (d :: ds)) <= 16 ^ 16) by (apply Z.pow_le_mono_r; lia).
  assert (2 ^ 64 = 16 ^ 16) as -> by reflexivity. lia.
Qed.

Lemma ascii_utf8_ok l : Forall (fun c => (code c < 128)%N) l -> utf8_ok (length l) l = true.
Proof.
  induction 1 as [|c l Hc _ IH]; [done|]. cbn [length utf8_ok].
  rewrite (proj2 (N.ltb_lt _ _)) by done. done.
Qed.

Lemma hex_digits_ascii fuel n acc :
  Forall (fun c => (code c < 128)%N) acc ->
  Forall (fun c => (code c < 128)%N) (hex_digits fuel n acc).
Proof.
  revert n acc. induction fuel as [|fuel IH]; intros n acc Ha; [done|]. cbn [hex_digits].
  assert (code (hex_lower (Z.to_N (n mod 16))) < 128)%N as Hd.
  { assert (Z.to_N (n mod 16) < 16)%N as H by (pose proof (Z.mod_pos_bound n 16); lia).
    revert H. generalize (Z.to_N (n mod 16)) as d. intros d H. destruct d as [|p]; [done|].
    do 4 (destruct p as [p|p|]; try reflexivity; try lia). }
  destruct (n <? 16); [by constructor|]. apply IH. by constructor.
Qed.

Lemma hex_encode_ok n : str_ok (hex_encode n) = true.
Proof.
  unfold str_ok, hex_encode. rewrite chars_str. apply ascii_utf8_ok.
  apply Forall_app. split; [by repeat constructor|]. by apply hex_digits_ascii.
Qed.

Lemma hex_decode_encode n : is_u64 n -> hex_decode (hex_encode n) = Some n.
Proof.
  intros Hn. destruct (hex_encode_spec n Hn) as (d & ds & -> & Hl & Hv & Hz).
  unfold hex_decode. rewrite chars_str. cbn -[hex_value length Nat.ltb bool_decide].
  destruct (N.eqb_spec (code d) 48) as [H0|H0].
  - specialize (Hz H0) as ->. rewrite bool_decide_eq_true_2 by done. done.
  - destruct (Nat.ltb_spec 16 (length (d :: ds))); [lia|]. done.
Qed.

Definition bnh_of_string (s : string) : option BlockNumberOrHash :=
  if decide (s = "earliest") then Some (mkBNH (Some 0) None false)
  else if decide (s = "pending") then Some (mkBNH (Some (-1)) None false)
  else if decide (s = "latest") then Some (mkBNH (Some (-2)) None false)
  else if decide (s = "finalized") then Some (mkBNH (Some (-3)) None false)
  else if decide (s = "safe") then Some (mkBNH (Some (-4)) None false)
  else if decide (length (chars s) = 66%nat) then
    if bool_decide (Forall (fun c => is_Some (hex_digit c)) (drop 2 (chars s)))
    then Some (mkBNH None (Some s) false) else None
  else n ← hex_decode s; if n <=? MaxInt64 then Some (mkBNH (Some n) None false) else None.

Definition bnh_of_json (j : json) : option BlockNumberOrHash :=
  match j with
  | JStr s => bnh_of_string s
  | JObj fs =>
      let canonical := match obj_get "requireCanonical" fs with Some (JBool b) => b | _ => false end in
      match obj_get "blockNumber" fs, obj_get "blockHash" fs with
      | Some (JStr s), None => b ← bnh_of_string s; Some (mkBNH (bnh_number b) None canonical)
      | None, Some (JStr h) => Some (mkBNH None (Some h) canonical)
      | None, None => Some (mkBNH None None canonical)
      | _, _ => None
      end
  | JNull => Some (mkBNH None None false)
  | _ => None
  end.

Definition number_string (n : Z) : string :=
  if n =? 0 then "earliest" else if n =? -1 then "pending" else if n =? -2 then "latest"
  else if n =? -3 then "finalized" else if n =? -4 then "safe" else hex_encode n.

Definition bnh_to_json (b : BlockNumberOrHash) : json :=
  JObj ((match bnh_hash b with Some h => [("blockHash", JStr h)] | None => [] end)
     ++ (match bnh_number b with Some n => [("blockNumber", JStr (number_string n))] | None => [] end)
     ++ (if bnh_canonical b then [("requireCanonical", JBool true)] else [])).

#[export] Instance geth_model : Geth := {
  Uint64_String := hex_encode;
  DecodeUint64 := hex_decode;
  Uint64_UnmarshalJSON data :=
    match parse_json data with
    | Some (JStr s) => if decide (s = "") then Some 0 else hex_decode s
    | _ => None
    end;
  SafeBlockNumber := -4;
  FinalizedBlockNumber := -3;
  LatestBlockNumber := -2;
  PendingBlockNumber := -1;
  EarliestBlockNumber := 0;
  bnh_UnmarshalJSON data := j ← parse_json data; bnh_of_json j;
  bnh_json := bnh_to_json;
  BlockNumber_String := number_string;
}.

Lemma bnh_of_hex n : 0 <= n <= MaxInt64 -> bnh_of_string (hex_encode n) = Some (mkBNH (Some n) None false).
Proof.
  intros Hn. assert (is_u64 n) as Hu by (unfold is_u64, two64, MaxInt64 in *; lia).
  pose proof (hex_decode_encode n Hu) as Hd. unfold bnh_of_string. rewrite Hd.
  destruct (hex_encode_spec n Hu) as (d & ds & E & Hl & _ & _). rewrite E.
  do 5 (rewrite decide_False by discriminate).
  rewrite decide_False.
  - cbn [mbind option_bind]. destruct (Z.leb_spec n MaxInt64); [done|lia].
  - rewrite chars_str, length_app. simpl in *. lia.
Qed.

Lemma bnh_of_number s n b :
  hex_decode s = Some n -> bnh_of_string s = Some b -> b = mkBNH (Some n) None false.
Proof.
  intros Hd. unfold bnh_of_string. rewrite Hd.
  do 5 (case_decide; [subst; vm_compute in Hd; discriminate Hd|]).
  case_decide as Hl.
  - exfalso. revert Hd. unfold hex_decode.
    destruct (chars s) as [|z [|x [|d ds]]]; try discriminate Hl.
    cbn [length] in *. case_match; [|done]. case_match; [done|].
    by destruct (Nat.ltb_spec 16 (S (length ds))); [|lia].
  - cbn. case_match; naive_solver.
Qed.

#[export] Instance geth_model_laws : GethLaws.
Proof.
  split; simpl; intros.
  - by apply hex_decode_encode.
  - by eapply hex_decode_range.
  - rewrite parse_print_json by apply hex_encode_ok. rewrite decide_False; [by apply hex_decode_encode|].
    intros E. pose proof (hex_decode_encode n H) as Hd. by rewrite E in Hd.
  - done.
  - apply hex_encode_ok.
  - repeat (apply NoDup_cons; split; [rewrite ?elem_of_cons, elem_of_nil; lia|]). apply NoDup_nil_2.
  - repeat constructor.
  - done.
  - done.
  - done.
  - done.
  - done.
  - done.
  - rewrite parse_print_json by apply hex_encode_ok. by apply bnh_of_hex.
  - rewrite parse_print_json in * by done. by eapply bnh_of_number.
  - assert (str_ok (number_string n) = true) as Hs.
    { unfold number_string. repeat case_match; try done. apply hex_encode_ok. }
    split; [cbn; by rewrite Hs|]. rewrite parse_print_json by (cbn; by rewrite Hs).
    assert (bnh_of_string (number_string n) = Some (mkBNH (Some n) None false)) as E.
    { unfold number_string. repeat case_match; bsimp; subst; try done; try lia. by apply bnh_of_hex. }
    cbn -[bnh_of_string number_string].
    rewrite (decide_True _ _ (eq_refl "blockNumber")), !decide_False by discriminate.
    by rewrite E.
Qed.
