(* ===== verification/Rpc.v ===== *)
(** * JSON-RPC messages: [rpc.go], [errors.go] and the errors of [backend.go]

    Requests and responses, their decoding from and encoding to bytes, request
    validation, and the error values of the package. A [*RPCErr] is a value,
    except for the package-level ones, which the code compares by identity:
    [ESentinel]. *)

From stdpp Require Import base list strings.
From Stdlib Require Import ZArith NArith Lia Ascii.
From Stdlib Require Strings.String.
From S2P Require Import Prelude Json JsonRoundtrip Geth.

Local Open Scope Z_scope.

(** ** Errors *)

Record RPCErr := mkRPCErr {
  Code : Z;
  Message : string;
  Data : string;
  HTTPErrorCode : Z;
}.

Definition JSONRPCVersion : string := "2.0".
Definition JSONRPCErrorInternal : Z := -32000.
Definition notFoundRpcError : Z := -32601.

(** The package-level [*RPCErr] variables. *)
Inductive rpc_sentinel :=
| ErrParseErr | ErrInternal | ErrMethodNotWhitelisted | ErrBackendOffline | ErrNoBackends
| ErrBackendOverCapacity | ErrBackendBadResponse | ErrTooManyBatchRequests | ErrGatewayTimeout
| ErrOverRateLimit | ErrOverSenderRateLimit | ErrNotHealthy | ErrBlockOutOfRange
| ErrRequestBodyTooLarge | ErrBackendResponseTooLarge.

#[export] Instance rpc_sentinel_eq_dec : EqDecision rpc_sentinel.
Proof. solve_decision. Defined.

(** Their values as declared. *)
Definition declared_value (s : rpc_sentinel) : RPCErr :=
  match s with
  | ErrParseErr => mkRPCErr (-32700) "parse error" "" 400
  | ErrInternal => mkRPCErr JSONRPCErrorInternal "internal error" "" 500
  | ErrMethodNotWhitelisted => mkRPCErr notFoundRpcError "rpc method is not whitelisted" "" 403
  | ErrBackendOffline => mkRPCErr (JSONRPCErrorInternal - 10) "backend offline" "" 503
  | ErrNoBackends =>
      mkRPCErr (JSONRPCErrorInternal - 11) "no backend is currently healthy to serve traffic" "" 503
  | ErrBackendOverCapacity => mkRPCErr (JSONRPCErrorInternal - 12) "backend is over capacity" "" 429
  | ErrBackendBadResponse =>
      mkRPCErr (JSONRPCErrorInternal - 13) "backend returned an invalid response" "" 500
  | ErrTooManyBatchRequests =>
      mkRPCErr (JSONRPCErrorInternal - 14) "too many RPC calls in batch request" "" 0
  | ErrGatewayTimeout => mkRPCErr (JSONRPCErrorInternal - 15) "gateway timeout" "" 504
  | ErrOverRateLimit => mkRPCErr (JSONRPCErrorInternal - 16) "over rate limit" "" 429
  | ErrOverSenderRateLimit => mkRPCErr (JSONRPCErrorInternal - 17) "sender is over rate limit" "" 429
  | ErrNotHealthy =>
      mkRPCErr (JSONRPCErrorInternal - 18) "backend is currently not healthy to serve traffic" "" 503
  | ErrBlockOutOfRange => mkRPCErr (JSONRPCErrorInternal - 19) "block is out of range" "" 400
  | ErrRequestBodyTooLarge => mkRPCErr (JSONRPCErrorInternal - 21) "request body too large" "" 413
  | ErrBackendResponseTooLarge => mkRPCErr (JSONRPCErrorInternal - 20) "backend response too large" "" 500
  end.

(** The start-up replaces the messages of some of them; an empty message replaces nothing. *)
Class ErrorMessages := { configured_message : rpc_sentinel -> string }.

Definition default_messages : ErrorMessages := {| configured_message _ := "" |}.

Definition sentinel_value {EM : ErrorMessages} (s : rpc_sentinel) : RPCErr :=
  let e := declared_value s in
  if configured_message s ==s "" then e else mkRPCErr (Code e) (configured_message s) (Data e) (HTTPErrorCode e).

(** The package-level [errors.New] values, and [context.DeadlineExceeded]. *)
Inductive base_error :=
| ErrBackendUnexpectedJSONRPC | ErrConsensusGetReceiptsCantBeBatched
| ErrConsensusGetReceiptsInvalidTarget | ErrRewriteBlockOutOfRange | ErrRewriteRangeTooLarge
| ErrLimitReaderOverLimit | DeadlineExceeded.

#[export] Instance base_error_eq_dec : EqDecision base_error.
Proof. solve_decision. Defined.

Definition base_message (b : base_error) : string :=
  match b with
  | ErrBackendUnexpectedJSONRPC => "backend returned an unexpected JSON-RPC response"
  | ErrConsensusGetReceiptsCantBeBatched => "consensus_getReceipts cannot be batched"
  | ErrConsensusGetReceiptsInvalidTarget => "unsupported consensus_receipts_target"
  | ErrRewriteBlockOutOfRange => "block is out of range"
  | ErrRewriteRangeTooLarge => "block range is too large"
  | ErrLimitReaderOverLimit => "over read limit"
  | DeadlineExceeded => "context deadline exceeded"
  end.

(** Error values: package-level variables, other [*RPCErr]s, errors made where
    they occur, and wrapped errors. *)
Inductive error :=
| ESentinel (s : rpc_sentinel)
| EBase (b : base_error)
| ERpc (e : RPCErr)
| EOther (msg : string)
| EWrap (msg : string) (inner : option error).

(** [wrapErr]: [fmt.Errorf("%s %w", msg, err)]. *)
Definition wrapErr (err : option error) (msg : string) : error := EWrap msg err.

(** [err.Error()]. *)
Fixpoint error_message {EM : ErrorMessages} (e : error) : string :=
  match e with
  | ESentinel s => Message (sentinel_value s)
  | EBase b => base_message b
  | ERpc e => Message e
  | EOther msg => msg
  | EWrap msg inner =>
      (msg +:+ " " +:+ match inner with Some e => error_message e | None => "%!w(<nil>)" end)
  end.

(** [errors.Is(err, target)] for a package-level target. *)
Fixpoint is_sentinel (t : rpc_sentinel) (e : error) : bool :=
  match e with
  | ESentinel s => bool_decide (s = t)
  | EWrap _ (Some e) => is_sentinel t e
  | _ => false
  end.

Fixpoint is_base (t : base_error) (e : error) : bool :=
  match e with
  | EBase b => bool_decide (b = t)
  | EWrap _ (Some e) => is_base t e
  | _ => false
  end.

(** The type assertion [err.( *RPCErr )]. *)
Definition as_RPCErr {EM : ErrorMessages} (e : error) : option RPCErr :=
  match e with
  | ESentinel s => Some (sentinel_value s)
  | ERpc e => Some e
  | _ => None
  end.

Definition ErrInvalidRequest (msg : string) : error := ERpc (mkRPCErr (-32600) msg "" 400).
Definition ErrInvalidParams (msg : string) : error := ERpc (mkRPCErr (-32602) msg "" 400).

(** [Clone] copies the code, the message and the HTTP code. *)
Definition Clone (r : RPCErr) : RPCErr := mkRPCErr (Code r) (Message r) "" (HTTPErrorCode r).

(** ** Requests and responses *)

(** A [json.RawMessage]; a missing one ([nil]) is the empty string. *)
Notation RawMessage := string (only parsing).

Record RPCReq := mkReq {
  req_JSONRPC : string;
  req_Method : string;
  req_Params : RawMessage;
  req_ID : RawMessage;
}.

(** The non-nil values the code stores in [RPCRes.Result]: a decoded JSON value, a
    [hexutil.Uint64], a raw message, and a [ConsensusGetReceiptsResult]. *)
Inductive result :=
| RJson (j : json)
| RUint64 (n : Z)
| RRaw (s : RawMessage)
| RReceipts (method : string) (res : option result).

Record RPCRes := mkRes {
  res_JSONRPC : string;
  res_Result : option result;
  res_Error : option RPCErr;
  res_ID : RawMessage;
}.

Definition IsError (r : RPCRes) : bool :=
  match res_Error r with Some _ => true | None => false end.

Definition byte_at (s : string) (i : nat) : option ascii := chars s !! i.

Definition HasPrefix (s p : string) : bool :=
  bool_decide (take (length (chars p)) (chars s) = chars p).

Definition HasSuffix (s p : string) : bool :=
  bool_decide (drop (length (chars s) - length (chars p)) (chars s) = chars p).

Definition dquote : string := str [quote].

Definition IsValidID (id : RawMessage) : bool :=
  if HasPrefix id dquote && HasSuffix id dquote then (2 <? length (chars id))%nat
  else match chars id with
       | [] => false
       | c :: _ => negb (code c =? 123)%N && negb (code c =? 91)%N
       end.

Definition ValidateRPCReq (req : RPCReq) : option error :=
  if negb (req_JSONRPC req ==s JSONRPCVersion)
  then Some (ErrInvalidRequest "invalid JSON-RPC version")
  else if req_Method req ==s "" then Some (ErrInvalidRequest "no method specified")
  else if negb (IsValidID (req_ID req)) then Some (ErrInvalidRequest "invalid ID")
  else None.

Definition NewRPCErrorRes {EM : ErrorMessages} (id : RawMessage) (err : error) : RPCRes :=
  let rpcErr :=
    match as_RPCErr err with
    | Some rr => rr
    | None => mkRPCErr JSONRPCErrorInternal (error_message err) "" 0
    end in
  mkRes JSONRPCVersion None (Some rpcErr) id.

Definition NewRPCRes (id : RawMessage) (res : option result) : RPCRes :=
  mkRes JSONRPCVersion res None id.

Fixpoint IsBatch_bytes (raw : bytes) : bool :=
  match raw with
  | [] => false
  | c :: raw' =>
      if (code c =? 32)%N || (code c =? 9)%N || (code c =? 10)%N || (code c =? 13)%N
      then IsBatch_bytes raw'
      else (code c =? 91)%N
  end.

Definition IsBatch (raw : RawMessage) : bool := IsBatch_bytes (chars raw).

(** ** Decoding into structs

    A member is matched to a field by its exact name, or else by its folded name:
    ASCII letters without case, and the two other runes that fold to one. *)

Fixpoint fold_name (s : bytes) : bytes :=
  match s with
  | [] => []
  | c :: s' =>
      if between 97 122 c then chr (code c - 32) :: fold_name s'
      else match s' with
           | c2 :: s2 =>
               if (code c =? 197)%N && (code c2 =? 191)%N then chr 83 :: fold_name s2
               else match s2 with
                    | c3 :: s3 =>
                        if (code c =? 226)%N && (code c2 =? 132)%N && (code c3 =? 170)%N
                        then chr 75 :: fold_name s3 else c :: fold_name s'
                    | [] => c :: fold_name s'
                    end
           | [] => c :: fold_name s'
           end
  end.

Definition field_is (name key : string) : bool :=
  bool_decide (fold_name (chars key) = fold_name (chars name)).

(** A member decoded into a [string] field; [null] leaves the field unchanged. *)
Definition decode_string (old : string) (j : json) : option string :=
  match j with
  | JStr s => Some s
  | JNull => Some old
  | _ => None
  end.

(** A member decoded into an [int] field: an integer literal in range. *)
Definition decode_int (old : Z) (j : json) : option Z :=
  match j with
  | JNull => Some old
  | JNum t =>
      let '(neg, ds) := match chars t with
                        | c :: ds => if (code c =? 45)%N then (true, ds) else (false, c :: ds)
                        | [] => (false, [])
                        end in
      if bool_decide (ds <> []) && forallb is_digit ds then
        let n := if neg then - digits_val 0 ds else digits_val 0 ds in
        if bool_decide (is_i64 n) then Some n else None
      else None
  | _ => None
  end.

Definition decode_req_field (req : RPCReq) (f : string * json * string) : option RPCReq :=
  let '(key, v, raw) := f in
  if field_is "jsonrpc" key then
    s ← decode_string (req_JSONRPC req) v;
    Some (mkReq s (req_Method req) (req_Params req) (req_ID req))
  else if field_is "method" key then
    s ← decode_string (req_Method req) v;
    Some (mkReq (req_JSONRPC req) s (req_Params req) (req_ID req))
  else if field_is "params" key then Some (mkReq (req_JSONRPC req) (req_Method req) raw (req_ID req))
  else if field_is "id" key then Some (mkReq (req_JSONRPC req) (req_Method req) (req_Params req) raw)
  else Some req.

Definition fold_fields {A F} (f : A -> F -> option A) (a : A) (l : list F) : option A :=
  foldl (fun acc x => a ← acc; f a x) (Some a) l.

(** [ParseRPCReq]; its only error is [ErrParseErr]. *)
Definition ParseRPCReq (body : RawMessage) : RPCReq + error :=
  match (fs ← UnmarshalRawObject body; fold_fields decode_req_field (mkReq "" "" "" "") fs) with
  | Some req => inl req
  | None => inr (ESentinel ErrParseErr)
  end.

Definition ParseBatchRPCReq (body : RawMessage) : option (list RawMessage) := UnmarshalRawArray body.

Definition decode_err_field (e : RPCErr) (f : string * json) : option RPCErr :=
  let '(key, v) := f in
  if field_is "code" key then
    n ← decode_int (Code e) v; Some (mkRPCErr n (Message e) (Data e) (HTTPErrorCode e))
  else if field_is "message" key then
    s ← decode_string (Message e) v; Some (mkRPCErr (Code e) s (Data e) (HTTPErrorCode e))
  else if field_is "data" key then
    s ← decode_string (Data e) v; Some (mkRPCErr (Code e) (Message e) s (HTTPErrorCode e))
  else Some e.

(** A member decoded into the [*RPCErr] field. *)
Definition decode_err (old : option RPCErr) (j : json) : option (option RPCErr) :=
  match j with
  | JNull => Some None
  | JObj fs =>
      e ← fold_fields decode_err_field (default (mkRPCErr 0 "" "" 0) old) fs; Some (Some e)
  | _ => None
  end.

Definition result_of_json (j : json) : option result :=
  match j with JNull => None | _ => Some (RJson j) end.

Definition decode_res_field (r : RPCRes) (f : string * json * string) : option RPCRes :=
  let '(key, v, raw) := f in
  if field_is "JSONRPC" key then
    s ← decode_string (res_JSONRPC r) v; Some (mkRes s (res_Result r) (res_Error r) (res_ID r))
  else if field_is "Result" key then
    j ← iface v; Some (mkRes (res_JSONRPC r) (result_of_json j) (res_Error r) (res_ID r))
  else if field_is "Error" key then
    e ← decode_err (res_Error r) v; Some (mkRes (res_JSONRPC r) (res_Result r) e (res_ID r))
  else if field_is "ID" key then Some (mkRes (res_JSONRPC r) (res_Result r) (res_Error r) raw)
  else Some r.

(** [json.Unmarshal(data, &res)] for [var res RPCRes]. *)
Definition UnmarshalRPCRes (data : RawMessage) : option RPCRes :=
  fs ← UnmarshalRawObject data; fold_fields decode_res_field (mkRes "" None None "") fs.

(** [json.Unmarshal(data, &res)] for [var res []*RPCRes]: a [null] element is a nil pointer. *)
Definition UnmarshalRPCResBatch (data : RawMessage) : option (list (option RPCRes)) :=
  raws ← UnmarshalRawArray data;
  mapM (fun raw => match parse_json raw with
                   | Some JNull => Some None
                   | _ => r ← UnmarshalRPCRes raw; Some (Some r)
                   end) raws.

(** ** Encoding *)

(** The value that encoding a raw message writes: [null] for a nil one, an error for
    one that is not JSON. The [Params] and [ID] of a request and the [ID] of a response are
    never empty without being nil, so the empty string stands for nil. The code copies the
    bytes without their white space; here the value is printed again, which is the same value
    and can differ from the copy in the escapes of its strings. *)
Definition raw_json (raw : RawMessage) : option json :=
  if raw ==s "" then Some JNull else parse_json raw.

Definition int_json (n : Z) : json :=
  JNum (str ((if n <? 0 then [chr 45] else []) ++ dec (Z.abs n))).

Definition err_json (e : RPCErr) : json :=
  JObj ([("code", int_json (Code e)); ("message", JStr (Message e))]
        ++ (if Data e ==s "" then [] else [("data", JStr (Data e))])).

Section Encoding.
Context {G : Geth}.

(** A raw message in a result is never nil, and an empty one is not JSON. *)
Fixpoint result_json (r : result) : option json :=
  match r with
  | RJson j => Some j
  | RUint64 n => Some (JStr (Uint64_String n))
  | RRaw s => if s ==s "" then None else raw_json s
  | RReceipts m r =>
      j ← match r with Some r => result_json r | None => Some JNull end;
      Some (JObj [("method", JStr m); ("result", j)])
  end.

(** The object [MarshalJSON] writes, its members in order. *)
Definition MarshalJSON (r : RPCRes) : option json :=
  id ← raw_json (res_ID r);
  match res_Result r, res_Error r with
  | None, None => Some (JObj [("jsonrpc", JStr (res_JSONRPC r)); ("result", JNull); ("id", id)])
  | res, err =>
      rs ← match res with
           | Some v => j ← result_json v; Some [("result", j)]
           | None => Some []
           end;
      Some (JObj ([("jsonrpc", JStr (res_JSONRPC r))] ++ rs
                  ++ (match err with Some e => [("error", err_json e)] | None => [] end)
                  ++ [("id", id)]))
  end.

End Encoding.

(** The object [mustMarshalJSON] writes for a request. *)
Definition req_json (r : RPCReq) : option json :=
  params ← raw_json (req_Params r);
  id ← raw_json (req_ID r);
  Some (JObj [("jsonrpc", JStr (req_JSONRPC r)); ("method", JStr (req_Method r));
              ("params", params); ("id", id)]).

(** ** Lemmas *)

Lemma UnmarshalRawObject_Marshal fs :
  syn_ok (JObj fs) = true ->
  UnmarshalRawObject (Marshal (JObj fs)) = Some (map (fun kv => (kv.1, kv.2, Marshal kv.2)) fs).
Proof.
  intros Hok. unfold UnmarshalRawObject, Marshal at 1. rewrite chars_str.
  cbn [print_json]. set (s := sep_concat _ _). set (fuel := parse_fuel _).
  change (skip_ws (chr 123 :: s ++ [chr 125])) with (chr 123 :: s ++ [chr 125]).
  cbv iota. change (code (chr 123) =? 123)%N with true. cbv iota.
  destruct fs as [|f fs]; [done|].
  assert (Hp : Forall (fun kv => parses kv.2) (f :: fs)).
  { cbn [syn_ok] in Hok. apply Is_true_true, forallb_True in Hok. eapply Forall_impl; [exact Hok|].
    intros [k j]. rewrite andb_True. intros [_ H]. apply print_json_parses. by apply Is_true_true. }
  pose proof (parse_fields_print (f :: fs) true fuel [] Hp Hok ltac:(done)) as H.
  change (sep_concat (chr 44) (map print_field (f :: fs))) with s in H.
  rewrite H; [|unfold fuel, parse_fuel, Marshal; rewrite chars_str; cbn [print_json length]; fold s;
    rewrite length_app; simpl; lia].
  cbv [mbind option_bind]. change (skip_ws []) with (@nil ascii). cbv iota. f_equal.
  rewrite map_map. done.
Qed.

Lemma raw_json_Marshal j : syn_ok j = true -> raw_json (Marshal j) = Some j.
Proof.
  intros Hok. unfold raw_json. destruct (streq_spec (Marshal j) "") as [E|_].
  - destruct (print_json_head j Hok) as (c & s & Hc & _). unfold Marshal in E. by rewrite Hc in E.
  - by apply parse_print_json.
Qed.

Lemma digits_val_app acc a b : digits_val acc (a ++ b) = digits_val (digits_val acc a) b.
Proof. revert acc. induction a as [|c a IH]; intros acc; simpl; [done|apply IH]. Qed.

Lemma digit_code d : 0 <= d < 10 -> code (chr (48 + Z.to_N d)) = (48 + Z.to_N d)%N.
Proof. intros H. unfold code, chr. apply N_ascii_embedding. lia. Qed.

Lemma digit_is_digit d : 0 <= d < 10 -> is_digit (chr (48 + Z.to_N d)) = true.
Proof.
  intros H. unfold is_digit, between. rewrite digit_code by done.
  apply andb_true_intro. split; apply N.leb_le; lia.
Qed.

(** The digits of a number, with no leading zero. *)
Lemma digits_of_spec fuel : forall n acc, 0 <= n < 10 ^ Z.of_nat fuel -> (0 < fuel)%nat ->
  exists c ds, digits_of fuel n acc = (c :: ds) ++ acc /\ forallb is_digit (c :: ds) = true /\
    digits_val 0 (c :: ds) = n /\ (code c = 48%N -> ds = [] /\ n = 0).
Proof.
  induction fuel as [|fuel IH]; intros n acc Hn Hf; [lia|]. cbn [digits_of].
  pose proof (Z.mod_pos_bound n 10 ltac:(lia)) as Hm. set (c := chr _).
  assert (Hc : is_digit c = true) by by apply digit_is_digit.
  assert (Hcode : Z.of_N (code c) - 48 = n mod 10) by (unfold c; rewrite digit_code by lia; lia).
  destruct (Z.ltb_spec n 10).
  - exists c, []. rewrite Z.mod_small in * by lia.
    repeat split; [by cbn; rewrite Hc|cbn [digits_val]; lia|lia].
  - destruct fuel as [|fuel]; [simpl in Hn; lia|].
    destruct (IH (n / 10) (c :: acc)) as (c' & ds & -> & Hd & Hv & Hz); [|lia|].
    { split; [apply Z.div_pos; lia|]. apply Z.div_lt_upper_bound; [lia|].
      rewrite <- Z.pow_succ_r by lia. replace (Z.succ (Z.of_nat (S fuel))) with (Z.of_nat (S (S fuel))); lia. }
    exists c', (ds ++ [c]). repeat split.
    + cbn [app]. by rewrite <- app_assoc.
    + change (c' :: ds ++ [c]) with ((c' :: ds) ++ [c]). rewrite forallb_app, Hd. cbn. by rewrite Hc.
    + change (c' :: ds ++ [c]) with ((c' :: ds) ++ [c]). rewrite digits_val_app, Hv. cbn [digits_val].
      rewrite Hcode. pose proof (Z.div_mod n 10). lia.
    + exfalso. destruct Hz as [_ E]; [done|]. pose proof (Z.div_str_pos n 10). lia.
    + destruct Hz as [_ E]; [done|]. pose proof (Z.div_str_pos n 10). lia.
Qed.

Lemma dec_spec n : 0 <= n ->
  exists c ds, dec n = c :: ds /\ forallb is_digit (c :: ds) = true /\
    digits_val 0 (c :: ds) = n /\ (code c = 48%N -> ds = []).
Proof.
  intros Hn. unfold dec.
  destruct (digits_of_spec (S (Z.to_nat (Z.log2 (n + 1)))) n []) as (c & ds & -> & Hd & Hv & Hz); [|lia|].
  - split; [done|]. pose proof (Z.log2_spec (n + 1) ltac:(lia)) as [_ H].
    pose proof (Z.log2_nonneg (n + 1)).
    rewrite Nat2Z.inj_succ, Z2Nat.id by done.
    apply Z.lt_le_trans with (2 ^ Z.succ (Z.log2 (n + 1))); [lia|]. apply Z.pow_le_mono_l. lia.
  - exists c, ds. rewrite app_nil_r. naive_solver.
Qed.

Lemma is_digit_not_minus c : is_digit c = true -> (code c =? 45)%N = false.
Proof. unfold is_digit, between. intros H. bsimp. apply N.eqb_neq. apply N.leb_le in H. lia. Qed.

Lemma take_digits_all ds : forallb is_digit ds = true -> take_digits ds = (ds, []).
Proof. induction ds as [|c ds IH]; simpl; [done|]. intros H. bsimp. by rewrite H, IH. Qed.

Lemma int_json_syn n : syn_ok (int_json n) = true.
Proof.
  unfold int_json. cbn [syn_ok]. unfold num_syn. rewrite chars_str.
  destruct (dec_spec (Z.abs n) ltac:(lia)) as (c & ds & -> & Hd & _ & Hz).
  assert (Hnz : (code c =? 48)%N && negb (bool_decide (ds = [])) = false).
  { destruct (N.eqb_spec (code c) 48) as [E|]; [|done]. by rewrite (Hz E). }
  pose proof (is_digit_not_minus c ltac:(simpl in Hd; by bsimp)) as Hm.
  unfold parse_number. destruct (n <? 0); cbn [app].
  - change (code (chr 45) =? 45)%N with true. cbv iota. rewrite take_digits_all by done.
    rewrite Hnz. done.
  - rewrite Hm. rewrite take_digits_all by done. rewrite Hnz. done.
Qed.

Lemma decode_int_json old n : is_i64 n -> decode_int old (int_json n) = Some n.
Proof.
  intros Hn. unfold int_json, decode_int. rewrite chars_str.
  destruct (dec_spec (Z.abs n) ltac:(lia)) as (c & ds & -> & Hd & Hv & _).
  pose proof (is_digit_not_minus c ltac:(simpl in Hd; by bsimp)) as Hm.
  destruct (Z.ltb_spec n 0); cbn [app].
  - change (code (chr 45) =? 45)%N with true. cbv iota beta.
    rewrite bool_decide_true by done. rewrite Hd, Hv. cbn [andb].
    replace (- Z.abs n) with n by lia. by rewrite bool_decide_true.
  - rewrite Hm. rewrite bool_decide_true by done. rewrite Hd, Hv. cbn [andb].
    replace (Z.abs n) with n by lia. by rewrite bool_decide_true.
Qed.

(** Field names that the decoders compare. *)
Lemma field_is_refl name : field_is name name = true.
Proof. by apply bool_decide_true. Qed.

Lemma syn_ok_obj fs : Forall (fun kv => str_ok kv.1 = true /\ syn_ok kv.2 = true) fs -> syn_ok (JObj fs) = true.
Proof.
  intros H. cbn [syn_ok]. induction H as [|kv fs [H1 H2] _ IH]; [done|]. cbn. by rewrite H1, H2, IH.
Qed.

(** What [ParseRPCReq] makes of an object with the four members of a request. *)
Lemma decode_req v m p i :
  fold_fields decode_req_field (mkReq "" "" "" "")
    (map (fun kv => (kv.1, kv.2, Marshal kv.2))
       [("jsonrpc", JStr v); ("method", JStr m); ("params", p); ("id", i)])
  = Some (mkReq v m (Marshal p) (Marshal i)).
Proof. done. Qed.

(** A request whose version and method are UTF-8 and whose parameters and ID are in the form
    that the encoder writes is read back unchanged from the bytes that are sent for it. *)
Theorem request_roundtrip v m p i :
  str_ok v = true -> str_ok m = true -> syn_ok p = true -> syn_ok i = true ->
  let req := mkReq v m (Marshal p) (Marshal i) in
  exists j, req_json req = Some j /\ ParseRPCReq (Marshal j) = inl req.
Proof.
  intros Hv Hm Hp Hi req. unfold req_json, req. cbn [req_Params req_ID req_JSONRPC req_Method].
  rewrite !raw_json_Marshal by done. cbv [mbind option_bind]. eexists. split; [done|].
  unfold ParseRPCReq. rewrite UnmarshalRawObject_Marshal.
  - cbv [mbind option_bind]. by rewrite decode_req.
  - apply syn_ok_obj. repeat constructor; done.
Qed.

Lemma request_roundtrip_witness :
  let req := mkReq "2.0" "eth_call" (Marshal (JArr [JStr "0x1"; JNum "1e2"])) (Marshal (JNum "7")) in
  exists j, req_json req = Some j /\ ParseRPCReq (Marshal j) = inl req.
Proof. apply request_roundtrip; vm_compute; reflexivity. Defined.

(** The errors and results that [ParseRPCRes] can produce, in the form it produces them. *)
Definition err_ok (e : RPCErr) : Prop :=
  is_i64 (Code e) /\ str_ok (Message e) = true /\ str_ok (Data e) = true /\ HTTPErrorCode e = 0.

Definition result_ok (r : option result) : Prop :=
  match r with
  | None => True
  | Some (RJson j) => json_ok j = true /\ j <> JNull
  | _ => False
  end.

Lemma decode_err_json e : err_ok e -> decode_err None (err_json e) = Some (Some e).
Proof.
  destruct e as [c m d h]. intros (Hc & Hm & Hd & Hh). cbn in Hc, Hm, Hd, Hh. subst h.
  unfold err_json. cbn [decode_err Code Message Data]. unfold fold_fields.
  destruct (streq_spec d "") as [->|]; cbn [app foldl]; cbv [mbind option_bind];
    unfold decode_err_field at 1; change (field_is "code" "code") with true; cbv iota;
    rewrite decode_int_json by done; done.
Qed.

Lemma err_json_syn e : err_ok e -> syn_ok (err_json e) = true.
Proof.
  intros (_ & Hm & Hd & _). apply syn_ok_obj. destruct (Data e ==s "");
    repeat constructor; first [apply int_json_syn|done].
Qed.

Lemma fold_fields_cons {A F} (f : A -> F -> option A) a a' x l :
  f a x = Some a' -> fold_fields f a (x :: l) = fold_fields f a' l.
Proof. intros H. unfold fold_fields. cbn. by rewrite H. Qed.

(** The effect of each member of an encoded response on the decoded one. *)
Lemma decode_res_jsonrpc r v raw :
  decode_res_field r ("jsonrpc", JStr v, raw) = Some (mkRes v (res_Result r) (res_Error r) (res_ID r)).
Proof. done. Qed.

Lemma decode_res_result r j raw : json_ok j = true ->
  decode_res_field r ("result", j, raw)
  = Some (mkRes (res_JSONRPC r) (result_of_json j) (res_Error r) (res_ID r)).
Proof.
  intros Hj. unfold decode_res_field. change (field_is "JSONRPC" "result") with false.
  change (field_is "Result" "result") with true. cbv iota. by rewrite (iface_ok j Hj).
Qed.

Lemma decode_res_error v res id e raw : err_ok e ->
  decode_res_field (mkRes v res None id) ("error", err_json e, raw) = Some (mkRes v res (Some e) id).
Proof.
  intros He. unfold decode_res_field. change (field_is "JSONRPC" "error") with false.
  change (field_is "Result" "error") with false. change (field_is "Error" "error") with true.
  cbv iota. cbn [res_Error]. by rewrite decode_err_json.
Qed.

Lemma decode_res_id r j raw :
  decode_res_field r ("id", j, raw) = Some (mkRes (res_JSONRPC r) (res_Result r) (res_Error r) raw).
Proof. done. Qed.

Ltac decode_res :=
  repeat (erewrite fold_fields_cons;
    [|first [apply decode_res_jsonrpc|apply decode_res_id|apply decode_res_error; by auto
            |apply decode_res_result; by auto]]);
  cbn [res_JSONRPC res_Result res_Error res_ID].

(** C33. A response that the proxy writes is read back unchanged, whether it carries a
    result, an error, both or a null result, for every response in decoded form. *)
Theorem response_roundtrip {G : Geth} v r e i :
  str_ok v = true -> result_ok r -> (forall x, e = Some x -> err_ok x) -> syn_ok i = true ->
  let res := mkRes v r e (Marshal i) in
  exists j, MarshalJSON res = Some j /\ UnmarshalRPCRes (Marshal j) = Some res.
Proof.
  intros Hv Hr He Hi res. unfold MarshalJSON, res. cbn [res_ID res_Result res_Error res_JSONRPC].
  rewrite raw_json_Marshal by done. unfold UnmarshalRPCRes.
  assert (Hj : exists j, json_ok j = true /\ result_of_json j = r /\
    (r = None /\ j = JNull \/ r = Some (RJson j))).
  { destruct r as [[j| | |]|]; try done; [|by exists JNull; auto].
    exists j. destruct Hr. by destruct j; auto. }
  destruct Hj as (j & Hj & Hres & Hcase). pose proof (json_ok_syn _ Hj) as Hsyn.
  assert (Herr : forall x, e = Some x -> syn_ok (err_json x) = true) by (intros; by apply err_json_syn, He).
  destruct Hcase as [[-> ->]| ->], e as [x|];
    cbv [mbind option_bind result_json]; eexists; (split; [reflexivity|]);
    (rewrite UnmarshalRawObject_Marshal;
      [|apply syn_ok_obj; cbn [app]; repeat (apply Forall_cons_2; [split; [done|by cbn [fst snd]; auto]|]); apply Forall_nil_2]);
    cbv [mbind option_bind]; cbn [app map fst snd]; decode_res; by rewrite ?Hres.
Qed.

Lemma response_roundtrip_witness :
  let res := mkRes "2.0" (Some (RJson (JObj [("a", JBool true); ("b", JNum "12")])))
               (Some (mkRPCErr (-32000) "oops" "0x" 0)) (Marshal (JNum "1")) in
  exists j, MarshalJSON res = Some j /\ UnmarshalRPCRes (Marshal j) = Some res.
Proof.
  apply response_roundtrip; [done| |intros x [= <-]|done]; vm_compute; repeat split; discriminate.
Defined.

(** The JSON values that are accepted as request IDs. *)
Definition id_valid (j : json) : bool :=
  match j with
  | JStr s => negb (s ==s "")
  | JArr _ | JObj _ => false
  | _ => true
  end.

Lemma HasSuffix_quote l : HasSuffix (str (l ++ [quote])) dquote = true.
Proof.
  unfold HasSuffix, dquote. rewrite !chars_str, length_app. apply bool_decide_true.
  cbn [length]. apply drop_app_length'. lia.
Qed.

Lemma print_string_nil fuel s : (length s <= fuel)%nat -> print_string fuel s = [] -> s = [].
Proof.
  destruct fuel as [|fuel], s as [|c s]; cbn [length print_string]; try done; [lia|]. intros _.
  destruct (code c <? 128)%N.
  - unfold escape_ascii. repeat case_match; done.
  - destruct (utf8_multi (c :: s)) as [n|] eqn:E; [|done].
    destruct (utf8_multi_spec _ _ E) as [Hn _].
    repeat case_decide; [done..|]. destruct n; [lia|]. done.
Qed.

Lemma IsValidID_Marshal i : syn_ok i = true -> IsValidID (Marshal i) = id_valid i.
Proof.
  intros Hi. unfold IsValidID, HasPrefix, Marshal.
  destruct i as [|[]|t|s|l|l]; try reflexivity.
  - cbn [syn_ok] in Hi. apply num_syn_number in Hi as [l Hl].
    destruct (parse_number_head _ _ _ Hl) as (c & s & Hs & Hw & Hf).
    rewrite !Forall_cons in Hf. cbn [print_json]. rewrite chars_str, Hs. unfold dquote.
    rewrite bool_decide_false; [cbn [andb id_valid]|].
    + destruct Hf as (H1 & H2 & _). by rewrite ?H1, ?H2.
    + intros E. cbn in E. injection E as ->. cbn in Hf. naive_solver.
  - cbn [print_json]. unfold print_str. rewrite app_comm_cons, HasSuffix_quote, chars_str.
    rewrite bool_decide_true by done. cbn [andb id_valid app length].
    rewrite length_app. cbn [length].
    destruct (print_string (length (chars s)) (chars s)) as [|c l] eqn:E.
    + apply print_string_nil in E; [|done]. destruct s; [done|discriminate E].
    + destruct s; [discriminate E|]. cbn [length]. apply Nat.ltb_lt. lia.
Qed.

(** A decoded request is accepted exactly when its version is 2.0, it names a method and its
    ID is null, a boolean, a number or a non-empty string; a rejected one gets an
    "invalid request" error (code -32600, HTTP 400). *)
Theorem ValidateRPCReq_correct v m p i :
  syn_ok i = true ->
  let req := mkReq v m p (Marshal i) in
  (ValidateRPCReq req = None <-> v = JSONRPCVersion /\ m <> "" /\ id_valid i = true) /\
  (forall e, ValidateRPCReq req = Some e -> exists msg, e = ErrInvalidRequest msg).
Proof.
  intros Hi req. unfold ValidateRPCReq, req. cbn [req_JSONRPC req_Method req_ID].
  rewrite IsValidID_Marshal by done.
  destruct (streq_spec v JSONRPCVersion), (streq_spec m ""), (id_valid i); cbn; naive_solver.
Qed.

Lemma ValidateRPCReq_correct_witness :
  let req := mkReq "2.0" "eth_call" "[]" (Marshal (JNum "1")) in
  (ValidateRPCReq req = None <-> "2.0" = JSONRPCVersion /\ "eth_call" <> "" /\ id_valid (JNum "1") = true) /\
  (forall e, ValidateRPCReq req = Some e -> exists msg, e = ErrInvalidRequest msg).
Proof. apply ValidateRPCReq_correct. reflexivity. Defined.
