(* ===== verification/Duration.v ===== *)
(** * Durations of the configuration: [TOMLDuration] of [config.go]

    The intervals, periods and thresholds of the configuration are texts such as [1h30m]
    that [TOMLDuration.UnmarshalText] parses with [time.ParseDuration]. The file models
    that parser on bytes, with its 64-bit arithmetic and its use of [float64] for
    fractions, and shows that it always ends, that a sequence of numbers with units is
    parsed to its total when that fits in 63 bits, and refused otherwise. *)

From stdpp Require Import base list strings.
From Stdlib Require Import ZArith Lia Ascii Floats.SpecFloat.
From Stdlib Require Strings.String.
From S2P Require Import Prelude Float64 Json JsonRoundtrip Rpc.

Local Open Scope Z_scope.

(** The errors of the parser, with the texts they quote. *)
Inductive duration_error :=
| InvalidDuration (orig : string)
| MissingUnit (orig : string)
| UnknownUnit (unit orig : string).

Definition two63 : Z := 2 ^ 63.

Definition digit_value (c : ascii) : Z := Z.of_N (code c) - 48.

(** [leadingInt]: the digits at the start of [s], or nothing when they exceed [2^63]. *)
Fixpoint leadingInt (x : Z) (s : bytes) : option (Z * bytes) :=
  match s with
  | c :: s' =>
      if negb (is_digit c) then Some (x, s)
      else if two63 / 10 <? x then None
      else
        let x := u64 (x * 10 + digit_value c) in
        if two63 <? x then None else leadingInt x s'
  | [] => Some (x, [])
  end.

(** [leadingFraction]: digits that no longer fit are skipped. *)
Fixpoint leadingFraction (x : Z) (scale : float64) (overflow : bool) (s : bytes) : Z * float64 * bytes :=
  match s with
  | c :: s' =>
      if negb (is_digit c) then (x, scale, s)
      else if overflow then leadingFraction x scale true s'
      else if (two63 - 1) / 10 <? x then leadingFraction x scale true s'
      else
        let y := u64 (x * 10 + digit_value c) in
        if two63 <? y then leadingFraction x scale true s'
        else leadingFraction y (fmul scale (of_Z 10)) false s'
  | [] => (x, scale, [])
  end.

Definition is_dot (c : ascii) : bool := (code c =? 46)%N.

(** The characters up to the next digit or period. *)
Fixpoint take_unit (s : bytes) : bytes * bytes :=
  match s with
  | c :: s' =>
      if is_dot c || is_digit c then ([], s)
      else let '(u, r) := take_unit s' in (c :: u, r)
  | [] => ([], [])
  end.

(** [unitMap]; the micro sign is U+00B5 or U+03BC. *)
Definition micro (a b : N) : string := str [chr a; chr b; chr 115].

Definition unitMap : list (string * Z) :=
  [("ns", 1); ("us", 1000); (micro 194 181, 1000); (micro 206 188, 1000);
   ("ms", 1000000); ("s", 1000000000); ("m", 60000000000); ("h", 3600000000000)].

Fixpoint lookup_unit (u : string) (m : list (string * Z)) : option Z :=
  match m with
  | (k, v) :: m' => if u ==s k then Some v else lookup_unit u m'
  | [] => None
  end.

(** The part of the value after the period. *)
Definition add_fraction (v f unit : Z) (scale : float64) : Z :=
  if 0 <? f then u64 (v + ftrunc (fmul (of_Z f) (fdiv (of_Z unit) scale))) else v.

(** The number at the start of a part: its integer and its fraction. *)
Definition parse_number_part (s : bytes) : option (Z * Z * float64 * bytes) :=
  '(v, s1) ← leadingInt 0 s;
  let pre := negb (length s1 =? length s)%nat in
  match s1 with
  | c :: s2 =>
      if is_dot c then
        let '(f, scale, s3) := leadingFraction 0 (of_Z 1) false s2 in
        let post := negb (length s3 =? length s2)%nat in
        if negb pre && negb post then None else Some (v, f, scale, s3)
      else if pre then Some (v, 0, of_Z 1, s1) else None
  | [] => if pre then Some (v, 0, of_Z 1, s1) else None
  end.

(** One turn of the loop of [ParseDuration]: the value of the next part and the rest. *)
Definition parse_part (orig : string) (s : bytes) : (Z * bytes) + duration_error :=
  match parse_number_part s with
  | None => inr (InvalidDuration orig)
  | Some (v, f, scale, s1) =>
      let '(u, rest) := take_unit s1 in
      match u with
      | [] => inr (MissingUnit orig)
      | _ =>
          match lookup_unit (str u) unitMap with
          | None => inr (UnknownUnit (str u) orig)
          | Some unit =>
              if two63 / unit <? v then inr (InvalidDuration orig)
              else
                let v := add_fraction (u64 (v * unit)) f unit scale in
                if (0 <? f) && (two63 <? v) then inr (InvalidDuration orig) else inl (v, rest)
          end
      end
  end.

(** The loop; each turn consumes a character, so the length is enough fuel. *)
Fixpoint parse_parts (fuel : nat) (orig : string) (d : Z) (s : bytes) : option (Z + duration_error) :=
  match s, fuel with
  | [], _ => Some (inl d)
  | _, O => None
  | _, S fuel =>
      match parse_part orig s with
      | inr e => Some (inr e)
      | inl (v, rest) =>
          let d := u64 (d + v) in
          if two63 <? d then Some (inr (InvalidDuration orig)) else parse_parts fuel orig d rest
      end
  end.

Definition strip_sign (s : bytes) : bool * bytes :=
  match s with
  | c :: s' => if (code c =? 45)%N then (true, s') else if (code c =? 43)%N then (false, s') else (false, s)
  | [] => (false, s)
  end.

(** [time.ParseDuration]. *)
Definition ParseDuration (orig : string) : option (Duration + duration_error) :=
  let '(neg, s) := strip_sign (chars orig) in
  if str s ==s "0" then Some (inl 0)
  else match s with
       | [] => Some (inr (InvalidDuration orig))
       | _ =>
           match parse_parts (length s) orig 0 s with
           | None => None
           | Some (inr e) => Some (inr e)
           | Some (inl d) =>
               if neg then Some (inl (i64 (- d)))
               else if two63 - 1 <? d then Some (inr (InvalidDuration orig)) else Some (inl d)
           end
       end.

(** [TOMLDuration.UnmarshalText]: the value that is stored, or the error. *)
Definition UnmarshalText (b : string) : option (Duration + duration_error) := ParseDuration b.

(** ** The parser ends *)

Lemma leadingInt_length s : forall x v r, leadingInt x s = Some (v, r) -> (length r <= length s)%nat.
Proof.
  induction s as [|c s IH]; intros x v r H; cbn [leadingInt] in H; [by simplify_eq|].
  repeat case_match; simplify_eq; [done|]. apply IH in H. simpl. lia.
Qed.

Lemma leadingFraction_length s : forall x scale o f sc r,
  leadingFraction x scale o s = (f, sc, r) -> (length r <= length s)%nat.
Proof.
  induction s as [|c s IH]; intros x scale o f sc r H; cbn [leadingFraction] in H; [by simplify_eq|].
  repeat case_match; simplify_eq; [done|..]; apply IH in H; simpl; lia.
Qed.

Lemma take_unit_length s u r : take_unit s = (u, r) -> (length u + length r = length s)%nat.
Proof.
  revert u r. induction s as [|c s IH]; intros u r H; cbn [take_unit] in H; [by simplify_eq|].
  repeat case_match; simplify_eq; [done|]. specialize (IH _ _ eq_refl). simpl. lia.
Qed.

Lemma parse_number_part_length s v f sc r :
  parse_number_part s = Some (v, f, sc, r) -> (length r <= length s)%nat.
Proof.
  unfold parse_number_part. intros H. destruct (leadingInt 0 s) as [[v1 s1]|] eqn:E; [|done].
  apply leadingInt_length in E. cbn [mbind option_bind] in H. destruct s1 as [|c s1]; [by repeat case_match; simplify_eq|].
  destruct (is_dot c); [|by repeat case_match; simplify_eq].
  destruct (leadingFraction 0 (of_Z 1) false s1) as [[f1 sc1] s3] eqn:Ef. apply leadingFraction_length in Ef.
  simpl in E. repeat case_match; simplify_eq; lia.
Qed.

Lemma parse_part_length orig s v r : parse_part orig s = inl (v, r) -> (length r < length s)%nat.
Proof.
  unfold parse_part. intros H. destruct (parse_number_part s) as [[[[v1 f] sc] s1]|] eqn:E; [|done].
  apply parse_number_part_length in E. destruct (take_unit s1) as [u rest] eqn:Eu.
  apply take_unit_length in Eu. destruct u as [|c u]; [done|]. simpl in Eu. repeat case_match; simplify_eq; lia.
Qed.

Lemma parse_parts_ends fuel : forall orig d s, (length s <= fuel)%nat -> is_Some (parse_parts fuel orig d s).
Proof.
  induction fuel as [|fuel IH]; intros orig d s Hl; (destruct s as [|c s]; [by eexists|]); [simpl in Hl; lia|].
  cbn [parse_parts]. destruct (parse_part orig (c :: s)) as [[v rest]|e] eqn:E; [|by eexists].
  apply parse_part_length in E. case_match; [by eexists|]. apply IH. lia.
Qed.

(** Every text is parsed or refused. *)
Lemma ParseDuration_ends orig : is_Some (ParseDuration orig).
Proof.
  unfold ParseDuration. destruct (strip_sign (chars orig)) as [neg s]. case_match; [by eexists|].
  destruct s as [|c s]; [by eexists|].
  destruct (parse_parts_ends (length (c :: s)) orig 0 (c :: s)) as [r ->]; [done|].
  repeat case_match; by eexists.
Qed.

(** ** Numbers with units *)

(** A text of the form [<number><unit>...<number><unit>]. *)
Definition print_part (p : Z * string) : bytes := dec p.1 ++ chars p.2.
Definition print_parts (ps : list (Z * string)) : bytes := concat (map print_part ps).

Definition part_value (p : Z * string) : Z := p.1 * default 0 (lookup_unit p.2 unitMap).
Definition parts_value (ps : list (Z * string)) : Z := sumZ (map part_value ps).

(** A number that is not negative with a known unit, that fits on its own. *)
Definition good_part (p : Z * string) : Prop :=
  0 <= p.1 /\ p.2 ∈ map fst unitMap /\ part_value p < two63.

(** What may follow a part: nothing or a digit. *)
Definition ends_part (rest : bytes) : Prop :=
  match rest with [] => True | c :: _ => is_digit c = true end.

Lemma digits_val_ge ds : forall acc, forallb is_digit ds = true -> 0 <= acc -> acc <= digits_val acc ds.
Proof.
  induction ds as [|c ds IH]; intros acc Hd Ha; [done|]. cbn in Hd. apply andb_prop in Hd as [Hc Hd].
  cbn [digits_val]. unfold is_digit, between in Hc. apply andb_prop in Hc as [H1%N.leb_le H2%N.leb_le].
  specialize (IH (acc * 10 + (Z.of_N (code c) - 48)) Hd ltac:(lia)). lia.
Qed.

Lemma leadingInt_digits ds : forall rest x,
  forallb is_digit ds = true -> 0 <= x <= two63 -> digits_val x ds <= two63 ->
  match rest with [] => True | c :: _ => is_digit c = false end ->
  leadingInt x (ds ++ rest) = Some (digits_val x ds, rest).
Proof.
  induction ds as [|c ds IH]; intros rest x Hd Hx Hv Hr.
  { destruct rest as [|c rest]; [done|]. cbn [app leadingInt]. by rewrite Hr. }
  cbn in Hd. apply andb_prop in Hd as [Hc Hd]. cbn [app leadingInt]. rewrite Hc.
  unfold is_digit, between in Hc. apply andb_prop in Hc as [H1%N.leb_le H2%N.leb_le].
  cbn [digits_val] in Hv |- *. pose proof (digits_val_ge ds (x * 10 + (Z.of_N (code c) - 48)) Hd ltac:(lia)).
  unfold digit_value. unfold two63 in *. cbn [negb].
  rewrite (proj2 (Z.ltb_ge _ _)) by (apply Z.div_le_lower_bound; lia).
  rewrite u64_small by (unfold is_u64, two64; lia).
  rewrite (proj2 (Z.ltb_ge _ _)) by lia. apply IH; try done. lia.
Qed.

(** The units have neither digits nor periods. *)
Lemma take_unit_known u rest :
  u ∈ map fst unitMap -> ends_part rest -> take_unit (chars u ++ rest) = (chars u, rest).
Proof.
  intros Hu Hr. assert (take_unit rest = ([], rest)) as E.
  { destruct rest as [|c rest]; [done|]. cbn [ends_part] in Hr. cbn [take_unit]. by rewrite Hr, orb_true_r. }
  assert (Forall (fun c => is_dot c || is_digit c = false) (chars u)) as Hf.
  { cbn in Hu. rewrite !elem_of_cons in Hu. destruct_or! Hu; subst; try (by repeat constructor).
    by apply elem_of_nil in Hu. }
  induction Hf as [|c l Hc _ IH]; [done|]. cbn [app take_unit]. by rewrite Hc, IH.
Qed.

Lemma known_unit u :
  u ∈ map fst unitMap ->
  exists unit c l, lookup_unit u unitMap = Some unit /\ 0 < unit /\ chars u = c :: l /\
    is_dot c = false /\ is_digit c = false.
Proof.
  intros Hu. cbn in Hu. rewrite !elem_of_cons in Hu.
  destruct_or! Hu; subst; try (by eexists _, _, _; repeat split). by apply elem_of_nil in Hu.
Qed.

Lemma parse_part_good orig p rest :
  good_part p -> ends_part rest ->
  parse_part orig (print_part p ++ rest) = inl (part_value p, rest).
Proof.
  destruct p as [n u]. intros (Hn & Hu & Hv) Hr. cbn [fst snd] in *.
  destruct (known_unit u Hu) as (unit & c & l & Hl & Hpos & Hcu & Hdot & Hdig).
  unfold part_value in Hv |- *. cbn [fst snd] in *. rewrite Hl in Hv |- *. cbn [default from_option id] in *.
  destruct (dec_spec n Hn) as (c0 & ds & Hdec & Hds & Hval & _).
  unfold parse_part, parse_number_part, print_part. cbn [fst snd]. rewrite <- app_assoc, Hdec.
  rewrite leadingInt_digits; [|done|unfold two63; lia|rewrite Hval; nia|by rewrite Hcu].
  cbn [mbind option_bind]. rewrite Hcu. cbn [app]. rewrite Hdot.
  rewrite (proj2 (Nat.eqb_neq _ _)) by (simpl; rewrite ?length_app; simpl; rewrite ?length_app; lia). cbn [negb].
  change (c :: l ++ rest) with ((c :: l) ++ rest). rewrite <- Hcu, take_unit_known by done.
  rewrite str_chars, Hl, Hval. destruct (chars u) eqn:E; [done|].
  rewrite (proj2 (Z.ltb_ge _ _)) by (apply Z.div_le_lower_bound; lia).
  unfold add_fraction. cbn. rewrite u64_small; [done|]. unfold is_u64, two64, two63 in *. nia.
Qed.

Lemma print_part_head p : 0 <= p.1 -> exists c l, print_part p = c :: l /\ is_digit c = true.
Proof.
  intros Hn. destruct (dec_spec p.1 Hn) as (c & ds & Hdec & Hds & _ & _). unfold print_part.
  rewrite Hdec. exists c, (ds ++ chars p.2). cbn in Hds. by apply andb_prop in Hds as [-> _].
Qed.

Lemma print_parts_ends ps : Forall good_part ps -> ends_part (print_parts ps).
Proof.
  destruct 1 as [|p ps [Hn _] _]; [done|].
  change (print_parts (p :: ps)) with (print_part p ++ print_parts ps). destruct (print_part_head p Hn) as (c & l & -> & Hc). done.
Qed.

Lemma part_value_nonneg p : good_part p -> 0 <= part_value p.
Proof.
  intros (Hn & Hu & _). destruct (known_unit _ Hu) as (unit & _ & _ & Hl & Hp & _).
  unfold part_value. rewrite Hl. simpl. nia.
Qed.

Lemma parts_value_nonneg ps : Forall good_part ps -> 0 <= parts_value ps.
Proof.
  unfold parts_value. induction 1 as [|p ps Hp _ IH]; [done|]. simpl. pose proof (part_value_nonneg p Hp).
  unfold sumZ in *. lia.
Qed.

Lemma parse_parts_good ps : forall fuel orig d,
  Forall good_part ps -> (length (print_parts ps) <= fuel)%nat -> 0 <= d <= two63 ->
  parse_parts fuel orig d (print_parts ps) =
    Some (if d + parts_value ps <=? two63 then inl (d + parts_value ps) else inr (InvalidDuration orig)).
Proof.
  induction ps as [|p ps IH]; intros fuel orig d Hps Hl Hd.
  { unfold parts_value. cbn. rewrite Z.add_0_r, (proj2 (Z.leb_le _ _)) by lia. by destruct fuel. }
  apply Forall_cons in Hps as [Hp Hps]. pose proof (parts_value_nonneg ps Hps).
  pose proof (part_value_nonneg p Hp) as Hpv. pose proof Hp as (Hn & _ & Hlt).
  destruct (print_part_head p Hn) as (c & l & Hc & _).
  change (print_parts (p :: ps)) with (print_part p ++ print_parts ps) in *.
  destruct fuel as [|fuel]; [rewrite Hc in Hl; simpl in Hl; lia|].
  rewrite length_app, Hc in Hl. simpl in Hl.
  assert (parse_parts (S fuel) orig d (print_part p ++ print_parts ps) =
          let d' := u64 (d + part_value p) in
          if two63 <? d' then Some (inr (InvalidDuration orig)) else parse_parts fuel orig d' (print_parts ps)) as ->.
  { pose proof (parse_part_good orig p (print_parts ps) Hp (print_parts_ends ps Hps)) as E.
    rewrite Hc in E |- *. cbn [app parse_parts] in E |- *. by rewrite E. }
  cbv zeta. rewrite u64_small by (unfold is_u64, two64, two63 in *; lia).
  unfold parts_value in *. cbn [map]. rewrite sumZ_cons.
  destruct (Z.ltb_spec two63 (d + part_value p)).
  - by rewrite (proj2 (Z.leb_gt _ _)) by lia.
  - rewrite IH by (try done; lia). by rewrite Z.add_assoc.
Qed.

(** A text made of whole numbers, each with a unit from nanoseconds to hours and each by
    itself less than [2^63] nanoseconds, is read as the sum of its parts when that is less than
    [2^63] nanoseconds, and refused otherwise. *)
Theorem UnmarshalText_parts ps :
  ps <> [] -> Forall good_part ps ->
  UnmarshalText (str (print_parts ps)) =
    Some (if parts_value ps <? two63 then inl (parts_value ps) else inr (InvalidDuration (str (print_parts ps)))).
Proof.
  intros Hne Hps. destruct ps as [|p ps]; [done|]. pose proof (parts_value_nonneg _ Hps) as Hnn.
  pose proof (Forall_inv Hps) as (Hn & Hu & _). destruct (print_part_head p Hn) as (c & l & Hc & Hd).
  destruct (known_unit _ Hu) as (_ & cu & lu & _ & _ & Hcu & _ & Hcd).
  unfold UnmarshalText, ParseDuration. set (s := print_parts (p :: ps)) in *.
  assert (chars (str s) = s) as -> by apply Stdlib.Strings.String.list_ascii_of_string_of_list_ascii.
  assert (exists l', s = c :: l') as [l' Hs]. { exists (l ++ print_parts ps). unfold s.
    change (print_parts (p :: ps)) with (print_part p ++ print_parts ps). by rewrite Hc. }
  assert (strip_sign s = (false, s)) as ->.
  { rewrite Hs. unfold is_digit, between in Hd. apply andb_prop in Hd as [H1%N.leb_le _]. cbn [strip_sign].
    rewrite !(proj2 (N.eqb_neq _ _)) by lia. done. }
  assert ((str s ==s "0") = false) as ->.
  { apply Stdlib.Strings.String.eqb_neq. intros E. apply (f_equal chars) in E.
    unfold str, chars in E. rewrite Stdlib.Strings.String.list_ascii_of_string_of_list_ascii in E.
    destruct (dec_spec p.1 Hn) as (c0 & ds & Hdec & _ & _ & _).
    assert (length s = 1%nat) as Hl by (by rewrite E).
    unfold s, print_parts in Hl. cbn [map concat] in Hl. unfold print_part at 1 in Hl.
    rewrite Hdec, Hcu, !length_app in Hl. simpl in Hl. lia. }
  rewrite Hs, <- Hs. unfold s. rewrite parse_parts_good by (done || unfold two63; lia). fold s. rewrite Z.add_0_l.
  destruct (Z.leb_spec (parts_value (p :: ps)) two63).
  - destruct (Z.ltb_spec (two63 - 1) (parts_value (p :: ps))), (Z.ltb_spec (parts_value (p :: ps)) two63);
      (done || lia).
  - by rewrite (proj2 (Z.ltb_ge _ _)) by lia.
Qed.

(** ** Witnesses *)

(** [1h30m] is ninety minutes. *)
Lemma UnmarshalText_parts_witness :
  UnmarshalText "1h30m" = Some (inl (90 * Minute)) /\ UnmarshalText "1.5s" = Some (inl (1500 * Millisecond)) /\
  UnmarshalText "-2ms" = Some (inl (-2 * Millisecond)) /\ UnmarshalText "10" = Some (inr (MissingUnit "10")).
Proof.
  split; [|split; [vm_compute; reflexivity|split; vm_compute; reflexivity]].
  refine (UnmarshalText_parts [(1, "h"); (30, "m")] _ _); [discriminate|].
  repeat constructor; try (vm_compute; (congruence || reflexivity)).
Defined.
