(* ===== verification/Rewriter.v ===== *)
(** * Block tag rewriting: [rewriter.go]

    In consensus mode a request is rewritten against the block numbers the
    backends agree on: the tags [latest], [safe] and [finalized] become numbers, a
    number beyond the latest block is refused, and [eth_blockNumber] is answered
    by the proxy. A rewrite returns its result, an error, and the request and the
    response it may have changed. *)

From stdpp Require Import base list strings.
From Stdlib Require Import ZArith Lia.
From Stdlib Require Strings.String.
From S2P Require Import Prelude Json JsonRoundtrip Geth Rpc.

Local Open Scope Z_scope.

Record RewriteContext := mkRctx {
  latest : Z;
  safe : Z;
  finalized : Z;
  maxBlockRange : Z;
}.

Inductive RewriteResult :=
| RewriteNone
| RewriteOverrideError
| RewriteOverrideRequest
| RewriteOverrideResponse.

Definition rewrite_out : Type := RewriteResult * option error * RPCReq * RPCRes.

Definition set_params (req : RPCReq) (params : string) : RPCReq :=
  mkReq (req_JSONRPC req) (req_Method req) params (req_ID req).

(** [json.Unmarshal] into [[]interface{}] and into [[]map[string]interface{}];
    a nil map is [None]. *)
Definition UnmarshalSlice (data : string) : option (list json) :=
  match Unmarshal data with
  | Some (JArr l) => Some l
  | Some JNull => Some []
  | _ => None
  end.

Definition as_map (j : json) : option (option (list (string * json))) :=
  match j with
  | JObj m => Some (Some m)
  | JNull => Some None
  | _ => None
  end.

Definition UnmarshalMaps (data : string) : option (list (option (list (string * json)))) :=
  l ← UnmarshalSlice data; mapM as_map l.

Definition map_json (m : option (list (string * json))) : json :=
  match m with Some m => JObj m | None => JNull end.

Section Rewriter.
Context {G : Geth}.

Definition remarshalBlockNumberOrHash (current : json) : option BlockNumberOrHash :=
  bnh_UnmarshalJSON (Marshal current).

Definition bnh_error : error := EOther "invalid block number or hash".

Definition rewriteTag (rctx : RewriteContext) (current : string) : (string * bool) + error :=
  match remarshalBlockNumberOrHash (JStr current) with
  | None => inr bnh_error
  | Some bnh =>
      match bnh_number bnh with
      | None => inl (current, false)
      | Some n =>
          if (n =? PendingBlockNumber) || (n =? EarliestBlockNumber) then inl (current, false)
          else if n =? FinalizedBlockNumber then inl (Uint64_String (finalized rctx), true)
          else if n =? SafeBlockNumber then inl (Uint64_String (safe rctx), true)
          else if n =? LatestBlockNumber then inl (Uint64_String (latest rctx), true)
          else if i64 (latest rctx) <? n then inr (EBase ErrRewriteBlockOutOfRange)
          else inl (current, false)
      end
  end.

Definition BlockNumberOrHashWithNumber (n : Z) : BlockNumberOrHash := mkBNH (Some n) None false.

Definition rewriteTagBlockNumberOrHash (rctx : RewriteContext) (current : BlockNumberOrHash)
  : (BlockNumberOrHash * bool) + error :=
  match bnh_number current with
  | None => inl (current, false)
  | Some n =>
      if (n =? PendingBlockNumber) || (n =? EarliestBlockNumber) then inl (current, false)
      else if n =? FinalizedBlockNumber then
        inl (BlockNumberOrHashWithNumber (i64 (finalized rctx)), true)
      else if n =? SafeBlockNumber then inl (BlockNumberOrHashWithNumber (i64 (safe rctx)), true)
      else if n =? LatestBlockNumber then inl (BlockNumberOrHashWithNumber (i64 (latest rctx)), true)
      else if i64 (latest rctx) <? n then inr (EBase ErrRewriteBlockOutOfRange)
      else inl (current, false)
  end.

(** The new value of a block parameter, and whether it replaces the old one. *)
Definition rewrite_value (rctx : RewriteContext) (blockNrOrHash : bool) (v : json)
  : (json * bool) + error :=
  let tag (s : string) :=
    match rewriteTag rctx s with
    | inl (s', rw) => inl (JStr s', rw)
    | inr err => inr err
    end in
  if blockNrOrHash then
    match remarshalBlockNumberOrHash v with
    | None => match v with
              | JStr s => tag s
              | _ => inr (EOther "expected BlockNumberOrHash or string")
              end
    | Some bnh => match rewriteTagBlockNumberOrHash rctx bnh with
                  | inl (b, rw) => inl (bnh_json b, rw)
                  | inr err => inr err
                  end
    end
  else match v with
       | JStr s => tag s
       | _ => inr (EOther "expected string")
       end.

Definition json_error : error := EOther "invalid JSON".

Definition rewriteParam (rctx : RewriteContext) (req : RPCReq) (res : RPCRes) (pos : nat)
    (required blockNrOrHash : bool) : go rewrite_out :=
  match UnmarshalSlice (req_Params req) with
  | None => Ret (RewriteOverrideError, Some json_error, req, res)
  | Some p =>
      let missing := Nat.eqb (length p) pos && negb required in
      if negb missing && (length p <=? pos)%nat then Ret (RewriteNone, None, req, res)
      else
        let p := if missing then p ++ [JStr "latest"] else p in
        v ← go_index p pos;
        match rewrite_value rctx blockNrOrHash v with
        | inr err => Ret (RewriteOverrideError, Some err, req, res)
        | inl (val, true) =>
            Ret (RewriteOverrideRequest, None,
                 set_params req (Marshal (JArr (<[pos := val]> p))), res)
        | inl (_, false) => Ret (RewriteNone, None, req, res)
        end
  end.

(** Go's [m[key]], for a possibly nil map. *)
Definition map_get (m : option (list (string * json))) (key : string) : option json :=
  m ← m; obj_get key m.

Definition map_put (m : option (list (string * json))) (key : string) (v : json)
  : go (option (list (string * json))) :=
  match m with
  | Some m => Ret (Some (obj_put key v m))
  | None => Panic "assignment to entry in nil map"
  end.

Definition rewriteTagMap (rctx : RewriteContext) (m : option (list (string * json))) (key : string)
  : go ((option (list (string * json)) * bool) + error) :=
  match map_get m key with
  | None | Some JNull => Ret (inl (m, false))
  | Some (JStr current) =>
      if current ==s "" then Ret (inl (m, false))
      else match rewriteTag rctx current with
           | inr err => Ret (inr err)
           | inl (val, true) => m' ← map_put m key (JStr val); Ret (inl (m', true))
           | inl (_, false) => Ret (inl (m, false))
           end
  | Some _ => Ret (inr (EOther "expected string"))
  end.

Definition blockNumber (m : option (list (string * json))) (key : string) (latest : Z) : Z + error :=
  match map_get m key with
  | Some (JStr current) =>
      if current ==s "earliest" then inl 0
      else if current ==s "pending" then inl (u64 (latest + 1))
      else match DecodeUint64 current with
           | Some n => inl n
           | None => inr (EOther "invalid hex number")
           end
  | _ => inr (EOther "expected string")
  end.

(** The range check, when one is configured. *)
Definition check_range (rctx : RewriteContext) (m : option (list (string * json))) (given : bool)
  : option error :=
  if (0 <? maxBlockRange rctx) && given then
    match blockNumber m "fromBlock" (latest rctx) with
    | inr err => Some err
    | inl from =>
        match blockNumber m "toBlock" (latest rctx) with
        | inr err => Some err
        | inl to =>
            if maxBlockRange rctx <? u64 (to - from) then Some (EBase ErrRewriteRangeTooLarge)
            else None
        end
    end
  else None.

Definition has_key (m : option (list (string * json))) (key : string) : bool :=
  match map_get m key with Some _ => true | None => false end.

(** The missing bound of a range defaults to the latest block. *)
Definition default_bounds (m : option (list (string * json))) : go (option (list (string * json))) :=
  let hasFrom := has_key m "fromBlock" in
  let hasTo := has_key m "toBlock" in
  if hasFrom && negb hasTo then map_put m "toBlock" (JStr "latest")
  else if hasTo && negb hasFrom then map_put m "fromBlock" (JStr "latest")
  else Ret m.

Definition rewriteRange (rctx : RewriteContext) (req : RPCReq) (res : RPCRes) (pos : nat)
  : go rewrite_out :=
  match UnmarshalMaps (req_Params req) with
  | None => Ret (RewriteOverrideError, Some json_error, req, res)
  | Some p =>
      m ← go_index p pos;
      m1 ← default_bounds m;
      r2 ← rewriteTagMap rctx m1 "fromBlock";
      match r2 with
      | inr err => Ret (RewriteOverrideError, Some err, req, res)
      | inl (m2, modifiedFrom) =>
          r3 ← rewriteTagMap rctx m2 "toBlock";
          match r3 with
          | inr err => Ret (RewriteOverrideError, Some err, req, res)
          | inl (m3, modifiedTo) =>
              match check_range rctx m3 (has_key m "fromBlock" || has_key m "toBlock") with
              | Some err => Ret (RewriteOverrideError, Some err, req, res)
              | None =>
                  if modifiedFrom || modifiedTo then
                    Ret (RewriteOverrideRequest, None,
                         set_params req (Marshal (JArr (map map_json (<[pos := m3]> p)))), res)
                  else Ret (RewriteNone, None, req, res)
              end
          end
      end
  end.

Definition RewriteRequest (rctx : RewriteContext) (req : RPCReq) (res : RPCRes) : go rewrite_out :=
  let method_in := existsb (fun m => req_Method req ==s m) in
  if method_in ["eth_getLogs"; "eth_newFilter"] then rewriteRange rctx req res 0
  else if method_in ["debug_getRawReceipts"; "consensus_getReceipts"] then
    rewriteParam rctx req res 0 true false
  else if method_in ["eth_getBalance"; "eth_getCode"; "eth_getTransactionCount"; "eth_call"] then
    rewriteParam rctx req res 1 false true
  else if method_in ["eth_getStorageAt"; "eth_getProof"] then rewriteParam rctx req res 2 false true
  else if method_in ["eth_getBlockTransactionCountByNumber"; "eth_getUncleCountByBlockNumber";
              "eth_getBlockByNumber"; "eth_getTransactionByBlockNumberAndIndex";
              "eth_getUncleByBlockNumberAndIndex"] then
    rewriteParam rctx req res 0 false false
  else Ret (RewriteNone, None, req, res).

Definition RewriteResponse (rctx : RewriteContext) (req : RPCReq) (res : RPCRes)
  : RewriteResult * option error * RPCRes :=
  if req_Method req ==s "eth_blockNumber" then
    (RewriteOverrideResponse, None,
     mkRes (res_JSONRPC res) (Some (RUint64 (latest rctx))) (res_Error res) (res_ID res))
  else (RewriteNone, None, res).

Definition RewriteTags (rctx : RewriteContext) (req : RPCReq) (res : RPCRes) : go rewrite_out :=
  match RewriteResponse rctx req res with
  | (RewriteOverrideResponse, err, res') => Ret (RewriteOverrideResponse, err, req, res')
  | (_, _, res') => RewriteRequest rctx req res'
  end.

End Rewriter.

(** ** Properties *)

Section Properties.
Context {G : Geth} {GL : GethLaws}.

(** The block numbers the consensus hands to the rewriter. Nothing is assumed about their order:
    a latest block that was walked back may be below the safe one. *)
Record rctx_ok (rctx : RewriteContext) : Prop := {
  latest_range : 0 <= latest rctx < MaxInt64;
  safe_range : 0 <= safe rctx < MaxInt64;
  finalized_range : 0 <= finalized rctx < MaxInt64;
}.

(** The consensus block that a moving tag stands for. *)
Definition tag_block (rctx : RewriteContext) (n : Z) : option Z :=
  if n =? LatestBlockNumber then Some (latest rctx)
  else if n =? SafeBlockNumber then Some (safe rctx)
  else if n =? FinalizedBlockNumber then Some (finalized rctx)
  else None.

(** The block number that a backend reads in a parameter. *)
Definition reads (v : json) (n : Z) : Prop :=
  exists b, remarshalBlockNumberOrHash v = Some b /\ bnh_number b = Some n.

(** The parameter [v] of the client may become [v']: a moving tag becomes the number of its
    consensus block; a hash, the tags [pending] and [earliest] and a number up to the latest
    block stay as they are. *)
Definition resolved_arg (rctx : RewriteContext) (v v' : json) : Prop :=
  exists b, remarshalBlockNumberOrHash v = Some b /\
    match bnh_number b with
    | None => v' = v
    | Some n =>
        match tag_block rctx n with
        | Some k => reads v' k
        | None => v' = v /\ (n = PendingBlockNumber \/ n <= latest rctx)
        end
    end.

(** The tags are pairwise distinct. *)
Ltac tags_distinct :=
  let H := fresh in
  pose proof block_tags_nodup as H; rewrite !NoDup_cons, !not_elem_of_cons in H;
  destruct H as ((? & ? & ? & ? & _) & (? & ? & ? & _) & (? & ? & _) & (? & _) & _).

(** How both rewriting functions classify the number of a parameter that they keep. *)
Lemma kept_number rctx n :
  rctx_ok rctx ->
  (n =? PendingBlockNumber) || (n =? EarliestBlockNumber) = true \/
  ((n =? FinalizedBlockNumber) = false /\ (n =? SafeBlockNumber) = false /\
   (n =? LatestBlockNumber) = false /\ (i64 (latest rctx) <? n) = false) ->
  tag_block rctx n = None /\ (n = PendingBlockNumber \/ n <= latest rctx).
Proof.
  intros [Hl _ _] H. tags_distinct. pose proof earliest_zero. unfold tag_block.
  destruct H as [H|(Hf & Hs & Hla & Hlt)].
  - apply orb_prop in H as [->%Z.eqb_eq| ->%Z.eqb_eq].
    all: rewrite !(proj2 (Z.eqb_neq _ _)) by congruence. all: split; [done|]; auto with lia.
  - rewrite Hf, Hs, Hla. split; [done|]. rewrite i64_small in Hlt by (unfold is_i64, MaxInt64 in *; lia). bsimp. auto.
Qed.

Lemma reads_hex n : 0 <= n < MaxInt64 -> reads (JStr (Uint64_String n)) n.
Proof. intros Hn. eexists. unfold remarshalBlockNumberOrHash. rewrite bnh_hex by lia. by split. Qed.

Lemma reads_number n :
  0 <= n < MaxInt64 ->
  let v := bnh_json (BlockNumberOrHashWithNumber (i64 n)) in reads v n /\ json_ok v = true.
Proof.
  intros Hn. rewrite i64_small by (unfold is_i64, MaxInt64 in *; lia).
  destruct (bnh_json_number n) as [Hok Hread]; [lia|]. split; [|done]. by eexists.
Qed.

(** A tag that is replaced, by a value that reads as its block, is resolved. *)
Lemma resolved_tag rctx v v' b n k :
  remarshalBlockNumberOrHash v = Some b -> bnh_number b = Some n -> tag_block rctx n = Some k -> reads v' k ->
  resolved_arg rctx v v'.
Proof. intros Hb Hn Hk Hr. exists b. split; [done|]. by rewrite Hn, Hk. Qed.

Lemma resolved_kept rctx v b n :
  remarshalBlockNumberOrHash v = Some b -> bnh_number b = Some n ->
  tag_block rctx n = None /\ (n = PendingBlockNumber \/ n <= latest rctx) -> resolved_arg rctx v v.
Proof. intros Hb Hn [Ht H]. exists b. split; [done|]. by rewrite Hn, Ht. Qed.

Lemma tag_block_finalized rctx : tag_block rctx FinalizedBlockNumber = Some (finalized rctx).
Proof. tags_distinct. unfold tag_block. rewrite !(proj2 (Z.eqb_neq _ _)) by congruence. by rewrite Z.eqb_refl. Qed.

Lemma tag_block_safe rctx : tag_block rctx SafeBlockNumber = Some (safe rctx).
Proof.
  tags_distinct. unfold tag_block. rewrite (proj2 (Z.eqb_neq SafeBlockNumber LatestBlockNumber)) by congruence.
  by rewrite Z.eqb_refl.
Qed.

Lemma tag_block_latest rctx : tag_block rctx LatestBlockNumber = Some (latest rctx).
Proof. unfold tag_block. by rewrite Z.eqb_refl. Qed.

Lemma rewriteTag_ok rctx s s' rw :
  rctx_ok rctx -> str_ok s = true -> rewriteTag rctx s = inl (s', rw) ->
  resolved_arg rctx (JStr s) (JStr s') /\ str_ok s' = true /\ (rw = false -> s' = s).
Proof.
  intros Hr Hs. unfold rewriteTag.
  destruct (remarshalBlockNumberOrHash (JStr s)) as [b|] eqn:Hb; [|done].
  destruct (bnh_number b) as [n|] eqn:Hn; [|intros [= <- <-]; split; [|done]; exists b; by rewrite Hn].
  pose proof (kept_number rctx n Hr) as Hk. pose proof Hr as [Hl Hsf Hf].
  assert (Hhex : forall k, 0 <= k < MaxInt64 -> tag_block rctx n = Some k ->
    resolved_arg rctx (JStr s) (JStr (Uint64_String k)) /\ str_ok (Uint64_String k) = true /\
    (true = false -> Uint64_String k = s)).
  { intros k Hk1 Hk2. split; [by eapply resolved_tag, reads_hex|]. split; [apply Uint64_String_ok|done]. }
  destruct (_ || _); [intros [= <- <-]; split; [eapply resolved_kept; eauto|done]|].
  destruct (Z.eqb_spec n FinalizedBlockNumber) as [->|]; [intros [= <- <-]; by apply Hhex, tag_block_finalized|].
  destruct (Z.eqb_spec n SafeBlockNumber) as [->|]; [intros [= <- <-]; by apply Hhex, tag_block_safe|].
  destruct (Z.eqb_spec n LatestBlockNumber) as [->|]; [intros [= <- <-]; by apply Hhex, tag_block_latest|].
  destruct (_ <? n); [done|]. intros [= <- <-]. split; [eapply resolved_kept; eauto 10|done].
Qed.

(** A rewritten parameter is resolved, and one that is kept already was. *)
Lemma rewrite_value_ok rctx nh v v' rw :
  rctx_ok rctx -> json_ok v = true -> rewrite_value rctx nh v = inl (v', rw) ->
  if rw then resolved_arg rctx v v' /\ json_ok v' = true else resolved_arg rctx v v.
Proof.
  intros Hr Hv. unfold rewrite_value.
  assert (Htag : forall s, v = JStr s ->
    match rewriteTag rctx s with inl (s', rw) => inl (JStr s', rw) | inr err => inr err end = inl (v', rw) ->
    if rw then resolved_arg rctx v v' /\ json_ok v' = true else resolved_arg rctx v v).
  { intros s -> H. destruct (rewriteTag rctx s) as [[s' rw']|] eqn:E; [|done]. simplify_eq.
    destruct (rewriteTag_ok _ _ _ _ Hr Hv E) as (H1 & H2 & H3). destruct rw; [auto|]. by rewrite H3 in H1. }
  destruct nh; [|destruct v; try done; by apply Htag].
  destruct (remarshalBlockNumberOrHash v) as [b|] eqn:Hb; [|destruct v; try done; by apply Htag].
  unfold rewriteTagBlockNumberOrHash. pose proof Hr as [Hl Hsf Hf].
  destruct (bnh_number b) as [n|] eqn:Hn; [|intros [= <- <-]; exists b; by rewrite Hn].
  pose proof (kept_number rctx n Hr) as Hk.
  assert (Hnum : forall k, 0 <= k < MaxInt64 -> tag_block rctx n = Some k ->
    resolved_arg rctx v (bnh_json (BlockNumberOrHashWithNumber (i64 k))) /\
    json_ok (bnh_json (BlockNumberOrHashWithNumber (i64 k))) = true).
  { intros k Hk1 Hk2. destruct (reads_number k Hk1). split; [by eapply resolved_tag|done]. }
  destruct (_ || _); [intros [= <- <-]; eapply resolved_kept; eauto|].
  destruct (Z.eqb_spec n FinalizedBlockNumber) as [->|]; [intros [= <- <-]; by apply Hnum, tag_block_finalized|].
  destruct (Z.eqb_spec n SafeBlockNumber) as [->|]; [intros [= <- <-]; by apply Hnum, tag_block_safe|].
  destruct (Z.eqb_spec n LatestBlockNumber) as [->|]; [intros [= <- <-]; by apply Hnum, tag_block_latest|].
  destruct (_ <? n); [done|]. intros [= <- <-]. eapply resolved_kept; eauto 10.
Qed.

Lemma UnmarshalSlice_Marshal p : forallb json_ok p = true -> UnmarshalSlice (Marshal (JArr p)) = Some p.
Proof. intros H. unfold UnmarshalSlice. by rewrite Unmarshal_Marshal. Qed.

Lemma forallb_insert {A} (f : A -> bool) i x l :
  f x = true -> forallb f l = true -> forallb f (<[i := x]> l) = true.
Proof.
  intros Hx Hl. apply Is_true_true, forallb_True, Forall_insert; [|by rewrite Hx].
  by apply forallb_True, Is_true_true.
Qed.

Lemma forallb_lookup {A} (f : A -> bool) l i x : forallb f l = true -> l !! i = Some x -> f x = true.
Proof.
  intros Hl Hi. apply Is_true_true, forallb_True in Hl. eapply Forall_lookup_1 in Hl; [|done].
  by apply Is_true_true.
Qed.

(** The parameter that is rewritten, by method, and whether the method needs it. *)
Definition block_position (method : string) : option (nat * bool) :=
  let method_in := existsb (fun m => method ==s m) in
  if method_in ["debug_getRawReceipts"; "consensus_getReceipts"] then Some (0, true)%nat
  else if method_in ["eth_getBalance"; "eth_getCode"; "eth_getTransactionCount"; "eth_call"]
  then Some (1, false)%nat
  else if method_in ["eth_getStorageAt"; "eth_getProof"] then Some (2, false)%nat
  else if method_in ["eth_getBlockTransactionCountByNumber"; "eth_getUncleCountByBlockNumber";
                     "eth_getBlockByNumber"; "eth_getTransactionByBlockNumberAndIndex";
                     "eth_getUncleByBlockNumberAndIndex"] then Some (0, false)%nat
  else None.

Lemma existsb_streq m l : existsb (fun x => m ==s x) l = true <-> m ∈ l.
Proof.
  rewrite existsb_exists. split.
  - intros (x & Hx & E). bsimp. subst. by apply list_elem_of_In.
  - intros H. exists m. split; [by apply list_elem_of_In|apply streq_refl].
Qed.

Lemma RewriteTags_param rctx req res pos required :
  block_position (req_Method req) = Some (pos, required) ->
  exists nh, RewriteTags rctx req res = rewriteParam rctx req res pos required nh.
Proof.
  unfold block_position, RewriteTags, RewriteResponse, RewriteRequest. intros H.
  destruct (streq_spec (req_Method req) "eth_blockNumber") as [E|_]; [by rewrite E in H|].
  destruct (existsb _ ["eth_getLogs"; _]) eqn:E.
  { apply existsb_streq in E. rewrite !elem_of_cons, elem_of_nil in E.
    destruct E as [E|[E|[]]]; by rewrite E in H. }
  repeat case_match; naive_solver.
Qed.

Lemma latest_rewritten rctx nh :
  rctx_ok rctx -> exists v, rewrite_value rctx nh (JStr "latest") = inl (v, true).
Proof.
  intros Hr. pose proof block_tags_nodup as Hnd. rewrite !NoDup_cons, !not_elem_of_cons in Hnd.
  unfold rewrite_value, rewriteTag, rewriteTagBlockNumberOrHash, remarshalBlockNumberOrHash.
  rewrite bnh_latest. cbn [bnh_number].
  rewrite (proj2 (Z.eqb_neq _ PendingBlockNumber)), (proj2 (Z.eqb_neq _ EarliestBlockNumber)) by naive_solver.
  rewrite (proj2 (Z.eqb_neq _ FinalizedBlockNumber)), (proj2 (Z.eqb_neq _ SafeBlockNumber)) by naive_solver.
  rewrite Z.eqb_refl. destruct nh; cbn; eauto.
Qed.

(** C6. Block tags are resolved: when a request whose method has a block parameter is let through,
    [latest], [safe] and [finalized] in that parameter have become the number of that
    consensus block, and anything else in it is unchanged and is a hash, [pending],
    [earliest] or a number up to the latest consensus block. If exactly that parameter is
    missing it is taken as [latest], unless the method requires it; a request with too few
    parameters to reach it is forwarded as it is. The other parameters keep their values,
    and neither the rest of the request nor the response changes. The consensus blocks are
    below [2^63 - 1], in any order, and the parameters are of the form that the JSON decoder
    gives (UTF-8 strings, canonical numbers, sorted keys). *)
Theorem tags_resolved rctx req res p pos required rw req' res' :
  rctx_ok rctx -> block_position (req_Method req) = Some (pos, required) ->
  UnmarshalSlice (req_Params req) = Some p -> forallb json_ok p = true ->
  RewriteTags rctx req res = Ret (rw, None, req', res') ->
  res' = res /\ req' = set_params req (req_Params req') /\
  (((length p < pos)%nat \/ length p = pos /\ required = true) /\ req' = req \/
   ((pos < length p)%nat \/ length p = pos /\ required = false) /\
   exists p' v', UnmarshalSlice (req_Params req') = Some p' /\ p' !! pos = Some v' /\
     resolved_arg rctx (default (JStr "latest") (p !! pos)) v' /\ forall i, i <> pos -> p' !! i = p !! i).
Proof.
  intros Hr Hpos Hp Hok H. destruct (RewriteTags_param rctx req res pos required Hpos) as [nh E].
  rewrite E in H. clear E. unfold rewriteParam in H. rewrite Hp in H. cbv zeta in H.
  assert (Hset : set_params req (req_Params req) = req) by by destruct req.
  destruct (Nat.eqb_spec (length p) pos) as [Hlen|Hlen], required; cbn [andb negb] in H.
  2: { (* the parameter is missing and defaults to latest *)
    subst pos. unfold go_index in H. rewrite list_lookup_middle in H by done.
    go_simpl in H.
    destruct (latest_rewritten rctx nh Hr) as [v Hv]. rewrite Hv in H. simplify_eq.
    apply rewrite_value_ok in Hv as [Hv Hvok]; [|done|done].
    split; [done|split; [done|right]]. split; [by right|]. cbn [req_Params set_params].
    rewrite insert_app_r_alt, Nat.sub_diag by lia. cbn [insert list_insert].
    exists (p ++ [v]), v. rewrite UnmarshalSlice_Marshal by (rewrite forallb_app, Hok; cbn; by rewrite Hvok).
    split; [done|]. split; [by apply list_lookup_middle|]. split; [by rewrite lookup_ge_None_2 by lia|].
    intros i Hi. destruct (decide (i < length p)%nat); [by apply lookup_app_l|].
    rewrite lookup_app_r, (lookup_ge_None_2 p i) by lia. apply lookup_ge_None_2. cbn. lia. }
  all: destruct (Nat.leb_spec (length p) pos); [simplify_eq; rewrite Hset; split; [done|]; split; [done|]; left; split; [|done];
    first [by right|left; lia]|].
  1: lia.
  all: unfold go_index in H; destruct (p !! pos) as [v|] eqn:Hv; [|discriminate H];
    go_simpl in H.
  all: destruct (rewrite_value rctx nh v) as [[v' []]|] eqn:E; simplify_eq.
  all: apply rewrite_value_ok in E; [|done|by eapply forallb_lookup].
  all: split; [done|]; rewrite ?Hset; split; [done|]; right; split; [by left|]; cbn [default].
  2,4: exists p, v; by auto.
  all: destruct E as [E Eok]; cbn [req_Params set_params].
  all: exists (<[pos := v']> p), v'; rewrite UnmarshalSlice_Marshal by by apply forallb_insert.
  all: split; [done|]; split; [by apply list_lookup_insert_eq|]; split; [done|].
  all: intros i Hi; by apply list_lookup_insert_ne.
Qed.

Lemma map_put_get m key v w : map_get m key = Some v -> exists m', map_put m key w = Ret (Some m').
Proof. destruct m; cbn; [eauto|done]. Qed.

Lemma rewriteTagMap_returns rctx m key : exists r, rewriteTagMap rctx m key = Ret r.
Proof.
  unfold rewriteTagMap. destruct (map_get m key) as [[| | |s| |]|] eqn:E; eauto.
  destruct (s ==s ""); eauto. destruct (rewriteTag rctx s) as [[s' []]|]; eauto.
  destruct (map_put_get _ _ _ (JStr s') E) as [m' ->]. cbn. eauto.
Qed.

Lemma default_bounds_returns m : exists m', default_bounds m = Ret m'.
Proof.
  unfold default_bounds, has_key.
  destruct (map_get m "fromBlock") eqn:E1, (map_get m "toBlock") eqn:E2; cbn [andb negb]; eauto.
  - destruct m; [|done]. cbn. eauto.
  - destruct m; [|done]. cbn. eauto.
Qed.

Lemma rewriteParam_returns rctx req res pos required nh :
  exists out, rewriteParam rctx req res pos required nh = Ret out.
Proof.
  unfold rewriteParam. destruct (UnmarshalSlice _) as [p|]; [|eauto]. cbv zeta.
  destruct (Nat.eqb_spec (length p) pos) as [Hl|Hl], required; cbn [andb negb];
    destruct (Nat.leb_spec (length p) pos); cbn [andb negb]; eauto; try lia; unfold go_index.
  - subst. rewrite list_lookup_middle by done. go_simpl. repeat case_match; eauto.
  - destruct (lookup_lt_is_Some_2 p pos) as [v ->]; [done|]. go_simpl.
    repeat case_match; eauto.
  - destruct (lookup_lt_is_Some_2 p pos) as [v ->]; [done|]. go_simpl.
    repeat case_match; eauto.
Qed.

Lemma rewriteRange_returns rctx req res pos :
  (forall p, UnmarshalMaps (req_Params req) = Some p -> (pos < length p)%nat) ->
  exists out, rewriteRange rctx req res pos = Ret out.
Proof.
  intros Hp. unfold rewriteRange. destruct (UnmarshalMaps _) as [p|]; [|eauto].
  unfold go_index. destruct (lookup_lt_is_Some_2 p pos) as [m ->]; [by apply Hp|].
  go_simpl. destruct (default_bounds_returns m) as [m1 ->].
  go_simpl. destruct (rewriteTagMap_returns rctx m1 "fromBlock") as [[[m2 b2]|] ->]; go_simpl; [|eauto].
  destruct (rewriteTagMap_returns rctx m2 "toBlock") as [[[m3 b3]|] ->]; go_simpl; [|eauto].
  repeat case_match; eauto.
Qed.

(** C38. Rewriting fails with a panic exactly when a log filter request ([eth_getLogs],
    [eth_newFilter]) has an empty list, or [null], for its parameters; otherwise it returns. *)
Theorem RewriteTags_panics_iff rctx req res :
  (exists msg, RewriteTags rctx req res = Panic msg) <->
  req_Method req ∈ ["eth_getLogs"; "eth_newFilter"] /\ UnmarshalMaps (req_Params req) = Some [].
Proof.
  unfold RewriteTags, RewriteResponse, RewriteRequest.
  destruct (streq_spec (req_Method req) "eth_blockNumber") as [E|_].
  { rewrite E. split; [by intros []|]. intros [H _]. rewrite !elem_of_cons, elem_of_nil in H. naive_solver. }
  destruct (existsb _ ["eth_getLogs"; _]) eqn:E.
  - apply existsb_streq in E. split; [|intros [_ Hp]; unfold rewriteRange; rewrite Hp; cbn; eauto].
    intros [msg H]. split; [done|]. destruct (UnmarshalMaps _) as [[|m p]|] eqn:Hp; [done|exfalso..];
      (destruct (rewriteRange_returns rctx req res 0) as [out Hout];
        [rewrite Hp; intros ? [= <-]; cbn; lia|congruence]).
  - split.
    + intros [msg H]. exfalso. repeat case_match; try discriminate H;
        match goal with H : rewriteParam ?r ?q ?s ?p ?a ?b = _ |- _ =>
          destruct (rewriteParam_returns r q s p a b); congruence end.
    + intros [Hm _]. apply existsb_streq in Hm. congruence.
Qed.

(** *** Block ranges *)

Definition map_ok (m : option (list (string * json))) : bool := json_ok (map_json m).

Lemma UnmarshalMaps_Marshal p :
  forallb map_ok p = true -> UnmarshalMaps (Marshal (JArr (map map_json p))) = Some p.
Proof.
  intros H. unfold UnmarshalMaps. rewrite UnmarshalSlice_Marshal.
  - cbv [mbind option_bind]. induction p as [|[m|] p IH]; [done|..]; cbn in *; bsimp; by rewrite IH.
  - induction p as [|m p IH]; [done|]. cbn [forallb map] in *. bsimp. unfold map_ok in *. by rewrite H, IH.
Qed.

(** A bound of a range may become [v']: an absent, null or empty one stays as it is, and any other
    is resolved as a parameter is. *)
Definition resolved_bound (rctx : RewriteContext) (v v' : option json) : Prop :=
  match v with
  | Some (JStr s) =>
      if s ==s "" then v' = v
      else exists s', v' = Some (JStr s') /\ str_ok s' = true /\ resolved_arg rctx (JStr s) (JStr s')
  | _ => v' = v
  end.

(** No block of the consensus is above this one; the pending block is the one after the latest. *)
Definition top_block (rctx : RewriteContext) : Z := Z.max (latest rctx + 1) (Z.max (safe rctx) (finalized rctx)).

Lemma map_put_spec m key v m' :
  map_put m key v = Ret m' ->
  map_get m' key = Some v /\ (forall k, k <> key -> map_get m' k = map_get m k) /\
  (str_ok key = true -> json_ok v = true -> map_ok m = true -> map_ok m' = true).
Proof.
  destruct m as [m|]; [|done]. cbn. intros [= <-]. cbn. split; [apply obj_get_put|].
  split; [intros; by apply obj_get_put_ne|]. intros. by apply json_ok_put.
Qed.

Lemma map_get_ok m key v : map_ok m = true -> map_get m key = Some v -> json_ok v = true.
Proof. destruct m; [|done]. apply json_ok_get. Qed.

Lemma rewriteTagMap_ok rctx m key m' rw :
  rctx_ok rctx -> map_ok m = true -> str_ok key = true ->
  rewriteTagMap rctx m key = Ret (inl (m', rw)) ->
  resolved_bound rctx (map_get m key) (map_get m' key) /\ map_ok m' = true /\
  (forall k, k <> key -> map_get m' k = map_get m k) /\ (rw = false -> m' = m).
Proof.
  intros Hr Hm Hk. unfold rewriteTagMap, resolved_bound.
  destruct (map_get m key) as [[| | |s| |]|] eqn:E; try (intros [= <- <-]; rewrite ?E; naive_solver).
  destruct (streq_spec s "") as [->|Hs]; [intros [= <- <-]; rewrite E; naive_solver|].
  destruct (rewriteTag rctx s) as [[s' rw']|] eqn:Ht; [|done].
  destruct (rewriteTag_ok _ _ _ _ Hr (map_get_ok _ _ _ Hm E) Ht) as (H1 & H2 & H3).
  destruct rw'; [|intros [= <- <-]; rewrite E; rewrite H3 in *; naive_solver].
  intros Hput. inv_ret. match goal with H : map_put _ _ _ = _ |- _ =>
    destruct (map_put_spec _ _ _ _ H) as (Hg & Hne & Hmk) end. subst.
  rewrite Hg. naive_solver.
Qed.

(** The number that is read in a resolved parameter. *)
Lemma resolved_number rctx v s b n :
  rctx_ok rctx -> resolved_arg rctx v (JStr s) -> remarshalBlockNumberOrHash (JStr s) = Some b ->
  bnh_number b = Some n -> 0 <= n -> n <= top_block rctx.
Proof.
  intros Hr (b0 & Hb0 & H) Hb Hn Hpos. unfold top_block. destruct (bnh_number b0) as [n0|] eqn:E; [|congruence].
  unfold tag_block in H. pose proof block_tags_neg as Hneg. rewrite !Forall_cons in Hneg.
  assert (Hread : forall k, reads (JStr s) k -> n = k) by (intros k (b1 & Hb1 & Hn1); congruence).
  repeat case_match; simplify_eq; try (apply Hread in H; lia).
  destruct H as [<- [Hp|Hle]]; simplify_eq; lia.
Qed.

Lemma bound_number rctx v m key n :
  rctx_ok rctx -> resolved_bound rctx v (map_get m key) -> blockNumber m key (latest rctx) = inl n ->
  0 <= n <= top_block rctx.
Proof.
  intros Hr Hb. pose proof Hr as [Hl _ _]. unfold blockNumber.
  destruct (map_get m key) as [[| | |s| |]|]; try done.
  destruct (s ==s "earliest"); [intros [= <-]; unfold top_block; lia|].
  destruct (s ==s "pending").
  { intros [= <-]. unfold top_block. rewrite u64_small; [lia|]. unfold is_u64, two64, MaxInt64 in *. lia. }
  destruct (DecodeUint64 s) as [k|] eqn:Hd; [|done]. intros [= ->].
  destruct (DecodeUint64_range _ _ Hd) as [Hk _]. split; [done|].
  unfold resolved_bound in Hb. destruct v as [[| | |s0| |]|]; try done.
  destruct (streq_spec s0 "") as [->|_]; [simplify_eq; by rewrite DecodeUint64_empty in Hd|].
  destruct Hb as (s' & [= <-] & Hs & Harg).
  assert (exists b, remarshalBlockNumberOrHash (JStr s) = Some b) as [b Hrem].
  { destruct Harg as (b0 & Hb0 & H). repeat case_match; try (destruct H as (b1 & Hb1 & _); by eauto).
    all: destruct_and?; simplify_eq; eauto. }
  pose proof (bnh_number_decode _ _ _ Hs Hd Hrem) as ->. by apply (resolved_number rctx _ _ _ _ Hr Harg Hrem).
Qed.

Lemma rewriteTagMap_latest rctx m key m' rw :
  rctx_ok rctx -> map_get m key = Some (JStr "latest") ->
  rewriteTagMap rctx m key = Ret (inl (m', rw)) -> rw = true.
Proof.
  intros Hr Hg. unfold rewriteTagMap. rewrite Hg. change ("latest" ==s "") with false. cbv iota.
  destruct (latest_rewritten rctx false Hr) as [v Hv]. unfold rewrite_value in Hv.
  destruct (rewriteTag rctx "latest") as [[s' rw']|]; [|done]. simplify_eq.
  intros H. inv_ret. by simplify_eq.
Qed.

(** Filling in a missing bound is always noticed as a modification. *)
Lemma default_bounds_ok rctx m m1 m2 m3 b2 b3 :
  rctx_ok rctx -> map_ok m = true -> default_bounds m = Ret m1 ->
  rewriteTagMap rctx m1 "fromBlock" = Ret (inl (m2, b2)) ->
  rewriteTagMap rctx m2 "toBlock" = Ret (inl (m3, b3)) ->
  map_ok m1 = true /\ (b2 || b3 = false -> m1 = m).
Proof.
  intros Hr Hm Hd H2 H3. unfold default_bounds in Hd.
  destruct (has_key m "fromBlock"), (has_key m "toBlock"); cbn [andb negb] in Hd; try (by simplify_eq).
  all: destruct (map_put_spec _ _ _ _ Hd) as (Hg & _ & Hmk); specialize (Hmk eq_refl eq_refl Hm).
  all: split; [done|]; intros Hb; exfalso; apply orb_false_elim in Hb as [-> ->].
  - apply rewriteTagMap_ok in H2 as (_ & _ & Hne & _); [|done..].
    rewrite <- Hne in Hg by done. by apply rewriteTagMap_latest in H3.
  - by apply rewriteTagMap_latest in H2.
Qed.

Lemma check_range_ok rctx m vf vt :
  rctx_ok rctx -> 0 < maxBlockRange rctx < 2 ^ 63 ->
  resolved_bound rctx vf (map_get m "fromBlock") -> resolved_bound rctx vt (map_get m "toBlock") ->
  check_range rctx m true = None ->
  exists from to, blockNumber m "fromBlock" (latest rctx) = inl from /\
    blockNumber m "toBlock" (latest rctx) = inl to /\
    0 <= from <= to /\ to <= top_block rctx /\ to - from <= maxBlockRange rctx.
Proof.
  intros Hr Hmax Hf Ht. unfold check_range. destruct (Z.ltb_spec 0 (maxBlockRange rctx)); [|lia]. cbn [andb].
  destruct (blockNumber m "fromBlock" _) as [from|] eqn:Ef; [|done].
  destruct (blockNumber m "toBlock" _) as [to|] eqn:Et; [|done].
  pose proof (bound_number _ _ _ _ _ Hr Hf Ef). pose proof (bound_number _ _ _ _ _ Hr Ht Et).
  destruct (Z.ltb_spec (maxBlockRange rctx) (u64 (to - from))) as [|Hle]; [done|]. intros _.
  assert (top_block rctx <= MaxInt64) by (destruct Hr; unfold top_block; lia).
  exists from, to. unfold u64, two64, MaxInt64 in *.
  destruct (decide (from <= to)).
  - rewrite Z.mod_small in Hle by lia. naive_solver lia.
  - replace ((to - from) mod 2 ^ 64) with (to - from + 2 ^ 64) in Hle; [lia|].
    apply Z.mod_unique with (-1); lia.
Qed.

(** The bounds of a filter after a missing one has been filled in. *)
Lemma default_bounds_get m m1 k :
  has_key m "fromBlock" || has_key m "toBlock" = true -> default_bounds m = Ret m1 ->
  map_get m1 k = if existsb (fun b => k ==s b) ["fromBlock"; "toBlock"]
                 then Some (default (JStr "latest") (map_get m k)) else map_get m k.
Proof.
  intros Hhas Hd. unfold default_bounds, has_key in *. cbn [existsb]. rewrite orb_false_r.
  destruct (map_get m "fromBlock") as [f|] eqn:Ef, (map_get m "toBlock") as [t|] eqn:Et; cbn in Hd; try done.
  1: injection Hd as <-; destruct (streq_spec k "fromBlock") as [->|]; [by rewrite Ef|];
     destruct (streq_spec k "toBlock") as [->|]; [by rewrite Et|done].
  all: destruct (map_put_spec _ _ _ _ Hd) as (Hg & Hne & _).
  all: destruct (streq_spec k "fromBlock") as [->|H1]; [rewrite ?Hg, ?Hne, Ef by done; done|].
  all: destruct (streq_spec k "toBlock") as [->|H2]; [rewrite ?Hg, ?Hne, Et by done; done|]; cbn; by apply Hne.
Qed.

(** C22. Log queries are resolved and bounded: when a log filter request that gives a bound is let
    through, in its first filter a bound that is missing is taken as [latest], moving tags
    in the bounds have become the numbers of their consensus blocks, and a bound that was a
    number is at most the latest one; all other members and filters keep their values. If
    a maximal block range is configured (and is below [2^63]), then moreover the range
    starts no later than it ends, spans at most that many blocks, and ends at the latest at
    the pending block or, if that is higher, the safe or finalized one. The consensus blocks
    are below [2^63 - 1], in any order, and the filters of the form that the JSON decoder
    gives. *)
Theorem range_bounded rctx req res m p rw req' res' :
  rctx_ok rctx -> req_Method req ∈ ["eth_getLogs"; "eth_newFilter"] ->
  UnmarshalMaps (req_Params req) = Some (m :: p) -> forallb map_ok (m :: p) = true ->
  has_key m "fromBlock" || has_key m "toBlock" = true ->
  RewriteTags rctx req res = Ret (rw, None, req', res') ->
  exists m', UnmarshalMaps (req_Params req') = Some (m' :: p) /\
    (forall key, key ∉ ["fromBlock"; "toBlock"] -> map_get m' key = map_get m key) /\
    (forall key, key ∈ ["fromBlock"; "toBlock"] ->
      resolved_bound rctx (Some (default (JStr "latest") (map_get m key))) (map_get m' key)) /\
    (0 < maxBlockRange rctx < 2 ^ 63 ->
     exists from to, blockNumber m' "fromBlock" (latest rctx) = inl from /\
       blockNumber m' "toBlock" (latest rctx) = inl to /\
       0 <= from <= to /\ to <= top_block rctx /\ to - from <= maxBlockRange rctx).
Proof.
  intros Hr Hmeth Hp Hok Hhas H.
  assert (E : RewriteTags rctx req res = rewriteRange rctx req res 0).
  { unfold RewriteTags, RewriteResponse, RewriteRequest. rewrite (proj2 (existsb_streq _ _) Hmeth).
    rewrite !elem_of_cons, elem_of_nil in Hmeth. by destruct Hmeth as [->|[->|[]]]. }
  rewrite E in H. clear E. unfold rewriteRange in H. rewrite Hp in H.
  change (go_index (m :: p) 0) with (Ret m) in H. go_simpl in H.
  cbn [forallb] in Hok. apply andb_prop in Hok as [Hm Hok].
  apply go_bind_ret in H as (m1 & Hd & H). apply go_bind_ret in H as (r2 & H2 & H).
  destruct r2 as [[m2 b2]|]; [|simplify_eq]. apply go_bind_ret in H as (r3 & H3 & H).
  destruct r3 as [[m3 b3]|]; [|simplify_eq]. rewrite Hhas in H.
  destruct (default_bounds_ok _ _ _ _ _ _ _ Hr Hm Hd H2 H3) as [Hm1 Hsame].
  pose proof (fun k => default_bounds_get m m1 k Hhas Hd) as Hdef.
  apply rewriteTagMap_ok in H2 as (Hf & Hm2 & Hne2 & He2); [|done..].
  apply rewriteTagMap_ok in H3 as (Ht & Hm3 & Hne3 & He3); [|done..].
  rewrite <- (Hne3 "fromBlock") in Hf by done. rewrite (Hne2 "toBlock") in Ht by done.
  destruct (check_range rctx m3 true) eqn:Hc; [simplify_eq|]. exists m3. split; [|split; [|split]].
  - destruct b2, b3; cbn [orb] in H; simplify_eq; cbn [req_Params set_params].
    1-3: apply (UnmarshalMaps_Marshal (m3 :: p)); cbn [forallb]; by rewrite Hm3.
    by rewrite Hp, He3, He2, Hsame.
  - intros key Hkey. rewrite !not_elem_of_cons in Hkey. destruct Hkey as (Hk1 & Hk2 & _).
    rewrite Hne3, Hne2, Hdef by done. cbn [existsb]. by rewrite !streq_ne.
  - intros key Hkey. rewrite !elem_of_cons, elem_of_nil in Hkey.
    destruct Hkey as [->|[->|[]]]; [rewrite Hdef in Hf|rewrite Hdef in Ht]; done.
  - intros Hmax. by eapply check_range_ok.
Qed.

End Properties.

(** ** Witnesses *)

Definition demo_rctx : RewriteContext := mkRctx 100 90 80 30.

Lemma demo_rctx_ok : rctx_ok demo_rctx.
Proof. by split; cbn. Qed.

Definition demo_res : RPCRes := mkRes "2.0" None None "1".
Definition demo_call : RPCReq := mkReq "2.0" "eth_getBalance" (Marshal (JArr [JStr "0xabc"; JStr "latest"])) "1".

Lemma tags_resolved_witness :
  exists req' p' v, RewriteTags demo_rctx demo_call demo_res = Ret (RewriteOverrideRequest, None, req', demo_res) /\
    UnmarshalSlice (req_Params req') = Some p' /\ p' !! 1%nat = Some v /\ reads v 100.
Proof.
  destruct (RewriteTags demo_rctx demo_call demo_res) as [[[[rw e] req'] res']|] eqn:E;
    [|vm_compute in E; discriminate E].
  assert (rw = RewriteOverrideRequest /\ e = None /\ res' = demo_res) as (-> & -> & ->)
    by (vm_compute in E; injection E; intros; subst; auto).
  destruct (tags_resolved demo_rctx demo_call demo_res [JStr "0xabc"; JStr "latest"] 1 false
    RewriteOverrideRequest req' demo_res demo_rctx_ok eq_refl eq_refl eq_refl E)
    as (_ & _ & [[[H|[H _]] _]|(_ & p' & v & H1 & H2 & (b & Hb & H3) & _)]); [cbn in H; lia..|].
  exists req', p', v. vm_compute in Hb. injection Hb as <-. by auto.
Defined.

Definition demo_logs : RPCReq :=
  mkReq "2.0" "eth_getLogs" (Marshal (JArr [JObj [("fromBlock", JStr "0x50")]])) "1".

Lemma range_bounded_witness :
  exists req' m' from to,
    RewriteTags demo_rctx demo_logs demo_res = Ret (RewriteOverrideRequest, None, req', demo_res) /\
    UnmarshalMaps (req_Params req') = Some [m'] /\
    blockNumber m' "fromBlock" 100 = inl from /\ blockNumber m' "toBlock" 100 = inl to /\
    0 <= from <= to /\ to - from <= 30.
Proof.
  destruct (RewriteTags demo_rctx demo_logs demo_res) as [[[[rw e] req'] res']|] eqn:E;
    [|vm_compute in E; discriminate E].
  assert (rw = RewriteOverrideRequest /\ e = None /\ res' = demo_res) as (-> & -> & ->)
    by (vm_compute in E; injection E; intros; subst; auto).
  destruct (range_bounded demo_rctx demo_logs demo_res (Some [("fromBlock", JStr "0x50")]) []
    RewriteOverrideRequest req' demo_res demo_rctx_ok) as (m' & Hm' & _ & _ & H); [|done..|].
  - apply elem_of_cons. by left.
  - destruct H as (from & to & H); [done|]. exists req', m', from, to. cbn in H. naive_solver.
Defined.
