(* ===== verification/Reader.v ===== *)
(** * The limited reader: [reader.go]

    Request and response bodies are read through a reader that fails once it has
    handed out a number of bytes. The underlying reader is a source that delivers
    its bytes in pieces of any sizes and reports the end of the data with the last
    piece or after it, as the contract of [io.Reader] allows. *)

From stdpp Require Import base list strings.
From Stdlib Require Import ZArith Lia Ascii.
From S2P Require Import Prelude Json Rpc.

Local Open Scope Z_scope.

(** A reader over remaining bytes: a read delivers at most [S n] bytes, [n] the
    next entry of [src_sizes]; [src_eager] says whether the end of the data is
    reported together with the last bytes. *)
Record source := mkSource {
  src_data : bytes;
  src_sizes : list nat;
  src_eager : bool;
  src_err : option error;   (* the error after the data; [None] is [io.EOF] *)
}.

(** What a [Read] returns besides the bytes: nothing, [io.EOF], or an error. *)
Inductive read_end := More | EOF | ReadErr (e : error).

Definition src_end (s : source) : read_end :=
  match src_err s with None => EOF | Some e => ReadErr e end.

Definition src_Read (k : nat) (s : source) : bytes * read_end * source :=
  let n := Nat.min k (S (hd k (src_sizes s))) in
  let rest := drop n (src_data s) in
  let s' := mkSource rest (tl (src_sizes s)) (src_eager s) (src_err s) in
  match src_data s, rest with
  | [], _ => ([], src_end s, s')
  | _ :: _, [] => (take n (src_data s), if src_eager s then src_end s else More, s')
  | _ :: _, _ :: _ => (take n (src_data s), More, s')
  end.

Record LimitedReader := mkLimited {
  lr_R : source;
  lr_N : Z;
}.

Definition LimitReader (r : source) (n : Z) : LimitedReader := mkLimited r n.

Definition Read (k : nat) (l : LimitedReader) : bytes * read_end * LimitedReader :=
  if lr_N l <=? 0 then ([], ReadErr (EBase ErrLimitReaderOverLimit), l)
  else
    let k := if lr_N l <? Z.of_nat k then Z.to_nat (lr_N l) else k in
    let '(bs, e, r) := src_Read k (lr_R l) in
    (bs, e, mkLimited r (lr_N l - Z.of_nat (length bs))).

(** [io.ReadAll] with a buffer of [S (buf i)] bytes for the [i]-th read; a reader
    that makes progress on each read needs no more reads than bytes, and two. *)
Fixpoint ReadAll_loop (fuel : nat) (buf : nat -> nat) (acc : bytes) (l : LimitedReader)
  : option (bytes * option error) :=
  match fuel with
  | O => None
  | S fuel =>
      let '(bs, e, l') := Read (S (buf fuel)) l in
      match e with
      | More => ReadAll_loop fuel buf (acc ++ bs) l'
      | EOF => Some (acc ++ bs, None)
      | ReadErr err => Some (acc ++ bs, Some err)
      end
  end.

Definition read_fuel (l : LimitedReader) : nat := S (S (length (src_data (lr_R l)))).

Definition ReadAll (buf : nat -> nat) (l : LimitedReader) : option (bytes * option error) :=
  ReadAll_loop (read_fuel l) buf [] l.

(** ** Properties *)

(** What reading a whole source through a limit yields. *)
Definition limited (data : bytes) (n : Z) (eager : bool) (err : option error) : bytes * option error :=
  if (Z.of_nat (length data) <? n) || ((Z.of_nat (length data) =? n) && eager && (0 <? n))
  then (data, err)
  else (take (Z.to_nat n) data, Some (EBase ErrLimitReaderOverLimit)).

(** One read of a source that still has data takes a non-empty prefix of it. *)
Lemma src_Read_step k s c d :
  src_data s = c :: d -> (0 < k)%nat ->
  exists m e s', src_Read k s = (take m (c :: d), e, s') /\ (0 < m <= k)%nat /\ src_eager s' = src_eager s /\
    src_err s' = src_err s /\ src_data s' = drop m (c :: d) /\ (m <= length (c :: d))%nat /\
    (e = if src_eager s && (m =? length (c :: d))%nat then src_end s else More).
Proof.
  intros Hd Hk. unfold src_Read. rewrite Hd. set (n := Nat.min k _).
  assert (0 < n <= k)%nat by lia. set (m := Nat.min n (length (c :: d))).
  assert (Htake : take n (c :: d) = take m (c :: d)).
  { unfold m. destruct (decide (n <= length (c :: d))%nat); [by rewrite Nat.min_l|].
    rewrite Nat.min_r, !take_ge by lia. done. }
  assert (Hdrop : drop n (c :: d) = drop m (c :: d)).
  { unfold m. destruct (decide (n <= length (c :: d))%nat); [by rewrite Nat.min_l|].
    rewrite Nat.min_r, !drop_ge by lia. done. }
  destruct (drop n (c :: d)) as [|x r] eqn:E; (eexists m, _, _; split; [by rewrite Htake|]);
    cbn [src_eager src_err src_data]; rewrite <- ?Hdrop; repeat split; try (cbn in *; lia).
  - assert (length (drop n (c :: d)) = 0%nat) as Hl by by rewrite E.
    rewrite length_drop in Hl. destruct (Nat.eqb_spec m (length (c :: d))); [|lia].
    by rewrite andb_true_r.
  - assert (length (drop n (c :: d)) = S (length r)) as Hl by by rewrite E.
    rewrite length_drop in Hl. destruct (Nat.eqb_spec m (length (c :: d))); [lia|].
    by rewrite andb_false_r.
Qed.

Lemma limited_nonpos data n eager err :
  n <= 0 -> limited data n eager err = ([], Some (EBase ErrLimitReaderOverLimit)).
Proof.
  intros Hn. unfold limited. destruct (Z.ltb_spec (Z.of_nat (length data)) n); [lia|].
  destruct (Z.ltb_spec 0 n); [lia|]. rewrite andb_false_r. cbn.
  by replace (Z.to_nat n) with 0%nat by lia.
Qed.

Lemma limited_drop data n eager err m :
  (m < length data)%nat \/ (m <= length data)%nat /\ eager = false ->
  Z.of_nat m <= n -> (m <= length data)%nat ->
  let '(bs, e) := limited (drop m data) (n - Z.of_nat m) eager err in
  limited data n eager err = (take m data ++ bs, e).
Proof.
  intros Hm Hle Hlen. unfold limited. rewrite length_drop.
  replace (Z.of_nat (length data - m) <? n - Z.of_nat m) with (Z.of_nat (length data) <? n)
    by (destruct (Z.ltb_spec (Z.of_nat (length data)) n),
          (Z.ltb_spec (Z.of_nat (length data - m)) (n - Z.of_nat m)); lia).
  replace ((Z.of_nat (length data - m) =? n - Z.of_nat m) && eager && (0 <? n - Z.of_nat m))
    with ((Z.of_nat (length data) =? n) && eager && (0 <? n))
    by (destruct (Z.eqb_spec (Z.of_nat (length data)) n),
          (Z.eqb_spec (Z.of_nat (length data - m)) (n - Z.of_nat m)), eager,
          (Z.ltb_spec 0 n), (Z.ltb_spec 0 (n - Z.of_nat m)); cbn; try done; lia).
  destruct (_ || _); [by rewrite take_drop|]. f_equal.
  rewrite <- (take_drop m (take (Z.to_nat n) data)), take_take, skipn_firstn_comm.
  f_equal; f_equal; lia.
Qed.

Lemma ReadAll_loop_spec fuel : forall buf acc l,
  (read_fuel l <= fuel)%nat ->
  let s := lr_R l in
  let '(bs, e) := limited (src_data s) (lr_N l) (src_eager s) (src_err s) in
  ReadAll_loop fuel buf acc l = Some (acc ++ bs, e).
Proof.
  induction fuel as [|fuel IH]; intros buf acc [s n] Hf; [unfold read_fuel in Hf; lia|].
  cbn [lr_R lr_N]. cbn [ReadAll_loop]. unfold Read. cbn [lr_R lr_N].
  destruct (Z.leb_spec n 0); [by rewrite limited_nonpos|].
  set (k := if n <? _ then _ else _).
  assert (Hk : (0 < k)%nat /\ Z.of_nat k <= n) by (unfold k; destruct (Z.ltb_spec n (Z.of_nat (S (buf fuel)))); lia).
  destruct (src_data s) as [|c d] eqn:Hd.
  - unfold src_Read, limited. rewrite Hd. cbn [length]. destruct (Z.ltb_spec (Z.of_nat 0) n); [|lia]. cbn [orb].
    unfold src_end. destruct (src_err s); done.
  - destruct (src_Read_step k s c d Hd) as (m & e & s' & -> & Hm & Heag & Herr & Hdata & Hle & He); [lia|].
    rewrite length_take_le by done.
    destruct (src_eager s && (m =? length (c :: d))%nat) eqn:Hend.
    + bsimp. apply Nat.eqb_eq in H1. subst e. unfold limited. rewrite H0.
      replace (_ || _) with true; [|destruct (Z.ltb_spec (Z.of_nat (length (c :: d))) n),
        (Z.eqb_spec (Z.of_nat (length (c :: d))) n), (Z.ltb_spec 0 n); cbn; try done; lia].
      rewrite take_ge by lia. unfold src_end. destruct (src_err s); done.
    + subst e. specialize (IH buf (acc ++ take m (c :: d)) (mkLimited s' (n - Z.of_nat m))).
      cbn [lr_R lr_N] in IH. rewrite Heag, Herr, Hdata in IH.
      pose proof (limited_drop (c :: d) n (src_eager s) (src_err s) m) as Hdrop.
      destruct (limited (drop m (c :: d)) _ _ _) as [bs e].
      rewrite Hdrop; [|..|lia|done].
      * rewrite IH; [by rewrite app_assoc|]. unfold read_fuel in *. cbn [lr_R] in *.
        rewrite Hdata, length_drop. rewrite Hd in Hf. lia.
      * destruct (src_eager s); [left|by right]. cbn [andb] in Hend. apply Nat.eqb_neq in Hend. lia.
Qed.

Lemma ReadAll_limited buf s n :
  ReadAll buf (LimitReader s n) = Some (limited (src_data s) n (src_eager s) (src_err s)).
Proof.
  unfold ReadAll, LimitReader. pose proof (ReadAll_loop_spec _ buf [] (mkLimited s n) (le_n _)) as H.
  cbn [lr_R lr_N] in H. destruct (limited _ _ _ _) as [bs e]. exact H.
Qed.

(** C36. Reading a body through the limit, however it is split into reads: a body
    shorter than the limit arrives whole, with the error of the underlying reader
    if it has one, and a longer one fails with "over read limit". A body of
    exactly the limit arrives only when its last bytes come together with the end of the data. *)
Theorem ReadAll_LimitReader buf s n :
  ReadAll buf (LimitReader s n) = Some (limited (src_data s) n (src_eager s) (src_err s)).
Proof. apply ReadAll_limited. Qed.
