(* ===== verification/Backend.v ===== *)
(** * Backends: the [Backend] type of [backend.go]

    A backend forwards requests over HTTP, retries, and keeps sliding windows of
    its latency, its requests and its network errors from which its health is
    computed. The windows are any implementation of the window interface. The
    network is an argument: one attempt brings the clock readings around the HTTP
    exchange and the reply as a function of the request that is sent. *)

From stdpp Require Import base list strings sorting.
From Stdlib Require Import ZArith QArith Lia Ascii.
From Stdlib Require Strings.String.
From S2P Require Import Prelude Float64 SlidingWindow SlidingWindowRefinement Json JsonRoundtrip Geth Rpc Reader.

Local Open Scope Z_scope.

(** ** HTTP requests *)

(** [textproto.CanonicalMIMEHeaderKey]. *)
Definition is_upper (c : ascii) : bool := between 65 90 c.
Definition is_lower (c : ascii) : bool := between 97 122 c.

Definition token_char (c : ascii) : bool :=
  is_upper c || is_lower c || is_digit c ||
  existsb (fun d => (code c =? code d)%N) (chars "!#$%&'*+-.^_`|~").

Fixpoint canonical_key (upper : bool) (s : bytes) : bytes :=
  match s with
  | [] => []
  | c :: s' =>
      let c' := if upper && is_lower c then chr (code c - 32)
                else if negb upper && is_upper c then chr (code c + 32) else c in
      c' :: canonical_key (code c =? 45)%N s'
  end.

Definition CanonicalHeaderKey (k : string) : string :=
  if forallb token_char (chars k) then str (canonical_key true (chars k)) else k.

(** [Header.Set]: one value per canonical key. *)
Definition Header : Type := list (string * string).

Fixpoint header_set (k v : string) (h : Header) : Header :=
  match h with
  | [] => [(CanonicalHeaderKey k, v)]
  | (k', v') :: h' =>
      if CanonicalHeaderKey k ==s k' then (k', v) :: h' else (k', v') :: header_set k v h'
  end.

Fixpoint header_get (k : string) (h : Header) : option string :=
  match h with
  | [] => None
  | (k', v) :: h' => if CanonicalHeaderKey k ==s k' then Some v else header_get k h'
  end.

Definition base64_char (n : N) : ascii :=
  default (chr 61)
    (chars "ABCDEFGHIJKLMNOPQRSTUVWXYZabcdefghijklmnopqrstuvwxyz0123456789+/" !! N.to_nat n).

Fixpoint base64 (s : bytes) : bytes :=
  match s with
  | a :: b :: c :: s' =>
      let n := (code a * 65536 + code b * 256 + code c)%N in
      base64_char (n / 262144) :: base64_char ((n / 4096) mod 64) :: base64_char ((n / 64) mod 64)
      :: base64_char (n mod 64) :: base64 s'
  | [a; b] =>
      let n := (code a * 65536 + code b * 256)%N in
      [base64_char (n / 262144); base64_char ((n / 4096) mod 64); base64_char ((n / 64) mod 64); chr 61]
  | [a] =>
      let n := (code a * 65536)%N in
      [base64_char (n / 262144); base64_char ((n / 4096) mod 64); chr 61; chr 61]
  | [] => []
  end.

(** [SetBasicAuth]. *)
Definition basic_auth (username password : string) : string :=
  ("Basic " +:+ str (base64 (chars username ++ chr 58 :: chars password))).

(** The values of the request context; the authenticated user and the origin may be missing. *)
Record Ctx := mkCtx {
  ctx_opTxProxyAuth : string;
  ctx_xForwardedFor : string;
  ctx_txSource : string;
  ctx_auth : option string;
  ctx_origin : option string;
}.

Definition GetAuthCtx (ctx : Ctx) : string := default "none" (ctx_auth ctx).
Definition GetOriginCtx (ctx : Ctx) : string := default "" (ctx_origin ctx).
Definition GetOpTxProxyAuthHeader (ctx : Ctx) : string := ctx_opTxProxyAuth ctx.
Definition GetXForwardedFor (ctx : Ctx) : string := ctx_xForwardedFor ctx.
Definition GetTxSource (ctx : Ctx) : string := ctx_txSource ctx.

(** A request that is sent; its body is the JSON value it encodes. *)
Record http_request := mkHttpReq {
  hr_url : string;
  hr_header : Header;
  hr_body : json;
}.

(** What comes back: no response, or a status and a body. *)
Inductive http_reply :=
| NoResponse (e : error)
| Response (status : Z) (body : source).

(** One HTTP exchange: the clock when it starts and when it has succeeded or failed, the error of building the request, of acquiring the
    semaphore, and the reply. *)
Record attempt := mkAttempt {
  at_start : Time;
  at_end : Time;
  at_newRequest : option error;
  at_acquire : option error;
  at_reply : http_request -> http_reply;
}.

(** [LimitedHTTPClient.DoWithSemaphore]. *)
Definition DoWithSemaphore (a : attempt) (req : http_request) : http_reply :=
  match at_acquire a with
  | Some err => NoResponse (wrapErr (Some err) "too many requests")
  | None => at_reply a req
  end.

(** [strings.TrimSpace], on ASCII, and [stripXFF]: the first of a list of addresses. *)
Definition is_space (c : ascii) : bool := between 9 13 c || (code c =? 32)%N.

Fixpoint trim_left (s : bytes) : bytes :=
  match s with
  | c :: s' => if is_space c then trim_left s' else s
  | [] => []
  end.

Definition TrimSpace (s : bytes) : bytes := reverse (trim_left (reverse (trim_left s))).

Fixpoint before_comma (s : bytes) : bytes :=
  match s with
  | c :: s' => if (code c =? 44)%N then [] else c :: before_comma s'
  | [] => []
  end.

Definition stripXFF (xff : string) : string := str (TrimSpace (before_comma (chars xff))).

Definition proxydHealthzMethod : string := "proxyd_healthz".
Definition ConsensusGetReceiptsMethod : string := "consensus_getReceipts".
Definition ReceiptsTargetDebugGetRawReceipts : string := "debug_getRawReceipts".
Definition ReceiptsTargetAlchemyGetTransactionReceipts : string := "alchemy_getTransactionReceipts".
Definition ReceiptsTargetParityGetTransactionReceipts : string := "parity_getBlockReceipts".
Definition ReceiptsTargetEthGetTransactionReceipts : string := "eth_getBlockReceipts".

(** [calcBackoff], with the jitter that [rand.Int63n(250)] returned. *)
Definition calcBackoff (jitter i : Z) : Duration := Z.min (2 ^ i * 1000 + jitter) 3000 * Millisecond.

(** A [tls.Config]: the PEM data of its certificate authorities and its certificates. *)
Record TLSConfig := mkTLS { RootCAs : string; Certificates : list string }.

Section Backend.
Context {G : Geth} {W : Type} {WO : WindowOps W}.

Record Backend := mkBackend {
  Name : string;
  rpcURL : string;
  receiptsTarget : string;
  wsURL : string;
  authUsername : string;
  authPassword : string;
  headers : list (string * string);
  clientTimeout : Duration;
  maxRetries : Z;
  maxResponseSize : Z;
  maxRPS : Z;
  maxWSConns : Z;
  outOfServiceInterval : Duration;
  stripTrailingXFF : bool;
  proxydIP : string;
  skipPeerCountCheck : bool;
  forcedCandidate : bool;
  maxDegradedLatencyThreshold : Duration;
  maxLatencyThreshold : Duration;
  maxErrorRateThreshold : float64;
  latencySlidingWindow : W;
  networkRequestsSlidingWindow : W;
  intermittentErrorsSlidingWindow : W;
  weight : Z;
  clientTLS : option TLSConfig;
}.

Definition BackendOpt : Type := Backend -> Backend.

Definition WithBasicAuth (username password : string) : BackendOpt :=
  fun '(mkBackend nm url tgt ws _ _ hd to rt sz rps wsc oos xff ip skp frc deg lat err lw nw ew wt tls) =>
    mkBackend nm url tgt ws username password hd to rt sz rps wsc oos xff ip skp frc deg lat err lw nw ew wt tls.

Definition WithHeaders (h : list (string * string)) : BackendOpt :=
  fun '(mkBackend nm url tgt ws us pw _ to rt sz rps wsc oos xff ip skp frc deg lat err lw nw ew wt tls) =>
    mkBackend nm url tgt ws us pw h to rt sz rps wsc oos xff ip skp frc deg lat err lw nw ew wt tls.

Definition WithTimeout (timeout : Duration) : BackendOpt :=
  fun '(mkBackend nm url tgt ws us pw hd _ rt sz rps wsc oos xff ip skp frc deg lat err lw nw ew wt tls) =>
    mkBackend nm url tgt ws us pw hd timeout rt sz rps wsc oos xff ip skp frc deg lat err lw nw ew wt tls.

Definition WithMaxRetries (retries : Z) : BackendOpt :=
  fun '(mkBackend nm url tgt ws us pw hd to _ sz rps wsc oos xff ip skp frc deg lat err lw nw ew wt tls) =>
    mkBackend nm url tgt ws us pw hd to retries sz rps wsc oos xff ip skp frc deg lat err lw nw ew wt tls.

Definition WithMaxResponseSize (size : Z) : BackendOpt :=
  fun '(mkBackend nm url tgt ws us pw hd to rt _ rps wsc oos xff ip skp frc deg lat err lw nw ew wt tls) =>
    mkBackend nm url tgt ws us pw hd to rt size rps wsc oos xff ip skp frc deg lat err lw nw ew wt tls.

Definition WithOutOfServiceDuration (interval : Duration) : BackendOpt :=
  fun '(mkBackend nm url tgt ws us pw hd to rt sz rps wsc _ xff ip skp frc deg lat err lw nw ew wt tls) =>
    mkBackend nm url tgt ws us pw hd to rt sz rps wsc interval xff ip skp frc deg lat err lw nw ew wt tls.

Definition WithMaxRPS (n : Z) : BackendOpt :=
  fun '(mkBackend nm url tgt ws us pw hd to rt sz _ wsc oos xff ip skp frc deg lat err lw nw ew wt tls) =>
    mkBackend nm url tgt ws us pw hd to rt sz n wsc oos xff ip skp frc deg lat err lw nw ew wt tls.

Definition WithMaxWSConns (n : Z) : BackendOpt :=
  fun '(mkBackend nm url tgt ws us pw hd to rt sz rps _ oos xff ip skp frc deg lat err lw nw ew wt tls) =>
    mkBackend nm url tgt ws us pw hd to rt sz rps n oos xff ip skp frc deg lat err lw nw ew wt tls.

Definition WithStrippedTrailingXFF : BackendOpt :=
  fun '(mkBackend nm url tgt ws us pw hd to rt sz rps wsc oos _ ip skp frc deg lat err lw nw ew wt tls) =>
    mkBackend nm url tgt ws us pw hd to rt sz rps wsc oos true ip skp frc deg lat err lw nw ew wt tls.

Definition WithProxydIP (s : string) : BackendOpt :=
  fun '(mkBackend nm url tgt ws us pw hd to rt sz rps wsc oos xff _ skp frc deg lat err lw nw ew wt tls) =>
    mkBackend nm url tgt ws us pw hd to rt sz rps wsc oos xff s skp frc deg lat err lw nw ew wt tls.

Definition WithConsensusSkipPeerCountCheck (b : bool) : BackendOpt :=
  fun '(mkBackend nm url tgt ws us pw hd to rt sz rps wsc oos xff ip _ frc deg lat err lw nw ew wt tls) =>
    mkBackend nm url tgt ws us pw hd to rt sz rps wsc oos xff ip b frc deg lat err lw nw ew wt tls.

Definition WithConsensusForcedCandidate (b : bool) : BackendOpt :=
  fun '(mkBackend nm url tgt ws us pw hd to rt sz rps wsc oos xff ip skp _ deg lat err lw nw ew wt tls) =>
    mkBackend nm url tgt ws us pw hd to rt sz rps wsc oos xff ip skp b deg lat err lw nw ew wt tls.

Definition WithWeight (n : Z) : BackendOpt :=
  fun '(mkBackend nm url tgt ws us pw hd to rt sz rps wsc oos xff ip skp frc deg lat err lw nw ew _ tls) =>
    mkBackend nm url tgt ws us pw hd to rt sz rps wsc oos xff ip skp frc deg lat err lw nw ew n tls.

Definition WithMaxDegradedLatencyThreshold (d : Duration) : BackendOpt :=
  fun '(mkBackend nm url tgt ws us pw hd to rt sz rps wsc oos xff ip skp frc _ lat err lw nw ew wt tls) =>
    mkBackend nm url tgt ws us pw hd to rt sz rps wsc oos xff ip skp frc d lat err lw nw ew wt tls.

Definition WithMaxLatencyThreshold (d : Duration) : BackendOpt :=
  fun '(mkBackend nm url tgt ws us pw hd to rt sz rps wsc oos xff ip skp frc deg _ err lw nw ew wt tls) =>
    mkBackend nm url tgt ws us pw hd to rt sz rps wsc oos xff ip skp frc deg d err lw nw ew wt tls.

Definition WithMaxErrorRateThreshold (q : float64) : BackendOpt :=
  fun '(mkBackend nm url tgt ws us pw hd to rt sz rps wsc oos xff ip skp frc deg lat _ lw nw ew wt tls) =>
    mkBackend nm url tgt ws us pw hd to rt sz rps wsc oos xff ip skp frc deg lat q lw nw ew wt tls.

Definition WithConsensusReceiptTarget (target : string) : BackendOpt :=
  fun '(mkBackend nm url _ ws us pw hd to rt sz rps wsc oos xff ip skp frc deg lat err lw nw ew wt tls) =>
    mkBackend nm url target ws us pw hd to rt sz rps wsc oos xff ip skp frc deg lat err lw nw ew wt tls.

Definition WithIntermittentNetworkErrorSlidingWindow (w : W) : BackendOpt :=
  fun '(mkBackend nm url tgt ws us pw hd to rt sz rps wsc oos xff ip skp frc deg lat err lw nw _ wt tls) =>
    mkBackend nm url tgt ws us pw hd to rt sz rps wsc oos xff ip skp frc deg lat err lw nw w wt tls.

(** The TLS configuration is that of the HTTP client; the WebSocket dialer has none. *)
Definition WithTLSConfig (tlsConfig : TLSConfig) : BackendOpt :=
  fun '(mkBackend nm url tgt ws us pw hd to rt sz rps wsc oos xff ip skp frc deg lat err lw nw ew wt _) =>
    mkBackend nm url tgt ws us pw hd to rt sz rps wsc oos xff ip skp frc deg lat err lw nw ew wt (Some tlsConfig).

(** The same backend with other windows. *)
Definition set_windows (latW netW errW : W) : Backend -> Backend :=
  fun '(mkBackend nm url tgt ws us pw hd to rt sz rps wsc oos xff ip skp frc deg lat err _ _ _ wt tls) =>
    mkBackend nm url tgt ws us pw hd to rt sz rps wsc oos xff ip skp frc deg lat err latW netW errW wt tls.


Definition Override (opts : list BackendOpt) (b : Backend) : Backend := foldl (fun b opt => opt b) b opts.

Definition NewBackend (name rpcURL wsURL : string) (opts : list BackendOpt) : Backend :=
  Override opts
    (mkBackend name rpcURL "" wsURL "" "" [] (5 * Second) 0 MaxInt64 0 0 0 false "" false false
       (5 * Second) (10 * Second) fhalf win_new win_new win_new 0 None).

(** ** Health *)

Definition ErrorRate (now : Time) (b : Backend) : float64 :=
  let requests := win_sum now (networkRequestsSlidingWindow b) in
  if 10 <=? requests
  then fdiv (of_Z (win_sum now (intermittentErrorsSlidingWindow b))) (of_Z requests)
  else of_Z 0.

Definition IsHealthy (now : Time) (b : Backend) : bool :=
  if fleb (maxErrorRateThreshold b) (ErrorRate now b) then false
  else if maxLatencyThreshold b <=? win_avg now (latencySlidingWindow b) then false
  else true.

Definition IsDegraded (now : Time) (b : Backend) : bool :=
  maxDegradedLatencyThreshold b <=? win_avg now (latencySlidingWindow b).

Definition ClearSlidingWindows (b : Backend) : Backend :=
  set_windows (latencySlidingWindow b) (win_clear (networkRequestsSlidingWindow b))
    (win_clear (intermittentErrorsSlidingWindow b)) b.

Definition incr_requests (now : Time) (b : Backend) : Backend :=
  set_windows (latencySlidingWindow b) (win_add now 1 (networkRequestsSlidingWindow b))
    (intermittentErrorsSlidingWindow b) b.

Definition incr_errors (now : Time) (b : Backend) : Backend :=
  set_windows (latencySlidingWindow b) (networkRequestsSlidingWindow b)
    (win_add now 1 (intermittentErrorsSlidingWindow b)) b.

Definition add_latency (now : Time) (d : Duration) (b : Backend) : Backend :=
  set_windows (win_add now d (latencySlidingWindow b)) (networkRequestsSlidingWindow b)
    (intermittentErrorsSlidingWindow b) b.

(** ** Forwarding *)

Definition set_method (req : RPCReq) (m : string) : RPCReq :=
  mkReq (req_JSONRPC req) m (req_Params req) (req_ID req).

(** The parameters for the receipts method [target], from those of
    [consensus_getReceipts]; reading a missing hash is a nil dereference. *)
Definition receipts_params (target : string) (reqParams : list BlockNumberOrHash) : go (json + error) :=
  if (target ==s ReceiptsTargetDebugGetRawReceipts) || (target ==s ReceiptsTargetEthGetTransactionReceipts)
     || (target ==s ReceiptsTargetParityGetTransactionReceipts) then
    p ← go_index reqParams 0;
    match bnh_number p, bnh_hash p with
    | Some n, _ => Ret (inl (JArr [JStr (BlockNumber_String n)]))
    | None, Some h => Ret (inl (JArr [JStr h]))
    | None, None => Panic "nil pointer dereference"
    end
  else if target ==s ReceiptsTargetAlchemyGetTransactionReceipts then
    p ← go_index reqParams 0;
    let opt_str (o : option string) := match o with Some s => JStr s | None => JNull end in
    Ret (inl (JArr [JObj [("blockHash", match bnh_number p with Some _ => JNull | None => opt_str (bnh_hash p) end);
                          ("blockNumber", opt_str (BlockNumber_String <$> bnh_number p))]]))
  else Ret (inr (EBase ErrConsensusGetReceiptsInvalidTarget)).

(** The loop that translates [consensus_getReceipts]: the requests, which it changes
    in place also when it fails, the IDs of the translated ones, and the error. *)
Fixpoint translate (target : string) (reqs : list RPCReq) : go (list RPCReq * list string * option error) :=
  match reqs with
  | [] => Ret ([], [], None)
  | req :: reqs' =>
      if req_Method req ==s ConsensusGetReceiptsMethod then
        let req1 := set_method req target in
        match (raws ← UnmarshalRawArray (req_Params req); mapM bnh_UnmarshalJSON raws) with
        | None => Ret (req1 :: reqs', [req_ID req], Some (ErrInvalidRequest "invalid request"))
        | Some reqParams =>
            p ← receipts_params target reqParams;
            match p with
            | inr err => Ret (req1 :: reqs', [req_ID req], Some err)
            | inl params =>
                let req2 := mkReq (req_JSONRPC req) target (Marshal params) (req_ID req) in
                '(reqs2, ids, err) ← translate target reqs';
                Ret (req2 :: reqs2, req_ID req :: ids, err)
            end
        end
      else
        '(reqs2, ids, err) ← translate target reqs';
        Ret (req :: reqs2, ids, err)
  end.

(** [mustMarshalJSON] of the requests: a single one is not wrapped in an array. *)
Definition request_body (reqs : list RPCReq) : go json :=
  match mapM req_json reqs with
  | Some [j] => Ret j
  | Some js => Ret (JArr js)
  | None => Panic "json: error calling MarshalJSON"
  end.

Definition forwardedFor (b : Backend) (xff : string) : string :=
  if stripTrailingXFF b then stripXFF xff
  else if negb (proxydIP b ==s "") then (xff +:+ ", " +:+ proxydIP b)
  else xff.

Definition request_header (b : Backend) (ctx : Ctx) : Header :=
  let h := if negb (authPassword b ==s "")
           then header_set "Authorization" (basic_auth (authUsername b) (authPassword b)) [] else [] in
  let h := if negb (GetOpTxProxyAuthHeader ctx ==s "")
           then header_set "X-Optimism-Signature" (GetOpTxProxyAuthHeader ctx) h else h in
  let h := header_set "content-type" "application/json" h in
  let h := header_set "X-Forwarded-For" (forwardedFor b (GetXForwardedFor ctx)) h in
  let h := foldl (fun h '(name, value) => header_set name value h) h (headers b) in
  if negb (GetTxSource ctx ==s "") then header_set "X-Tx-Source" (GetTxSource ctx) h else h.

Definition responseIsNotBatched (data : string) : bool :=
  match UnmarshalRPCRes data with Some _ => true | None => false end.

(** The responses in a body, [None] for a nil one; the error, and whether it counts as a network error. *)
Definition decode_responses (single : bool) (data : string) : list (option RPCRes) + error * bool :=
  if single then
    match UnmarshalRPCRes data with
    | Some r => inl [Some r]
    | None => inr (ESentinel ErrBackendBadResponse, false)
    end
  else
    match UnmarshalRPCResBatch data with
    | Some l => inl l
    | None =>
        if responseIsNotBatched data then inr (EBase ErrBackendUnexpectedJSONRPC, true)
        else inr (ESentinel ErrBackendBadResponse, true)
    end.

(** [res.Error.HTTPErrorCode = status] for every response, when the status is not 200. *)
Definition capture_status (status : Z) (rs : list (option RPCRes)) : go (list (option RPCRes)) :=
  if status =? 200 then Ret rs
  else go_fold (fun acc r =>
         match r with
         | Some (mkRes v res (Some e) id) =>
             Ret (acc ++ [Some (mkRes v res (Some (mkRPCErr (Code e) (Message e) (Data e) status)) id)])
         | _ => Panic "nil pointer dereference"
         end) [] rs.

(** Responses to translated requests carry the method that was called. *)
Definition enrich (target : string) (ids : list string) (rs : list (option RPCRes)) : go (list RPCRes) :=
  go_fold (fun acc r =>
    match r with
    | None => Panic "nil pointer dereference"
    | Some r =>
        Ret (acc ++ [if existsb (fun id => res_ID r ==s id) ids
                     then mkRes (res_JSONRPC r) (Some (RReceipts target (res_Result r))) (res_Error r) (res_ID r)
                     else r])
    end) [] rs.

(** The map from ID to position; a missing key reads as 0. *)
Fixpoint positions (i : Z) (reqs : list RPCReq) (pos : list (string * Z)) : go (list (string * Z)) :=
  match reqs with
  | [] => Ret pos
  | r :: reqs' =>
      if existsb (fun kv => req_ID r ==s kv.1) pos
      then Panic "bug! detected requests with duplicate IDs"
      else positions (i + 1) reqs' (pos ++ [(req_ID r, i)])
  end.

Fixpoint pos_get (pos : list (string * Z)) (id : string) : Z :=
  match pos with
  | [] => 0
  | (k, i) :: pos' => if id ==s k then i else pos_get pos' id
  end.

(** [sort.Slice] by a key. Any sorted permutation is allowed; this one is also stable, which
    makes no difference for responses with distinct positions. *)
Fixpoint insert_by {A} (key : A -> Z) (x : A) (l : list A) : list A :=
  match l with
  | [] => [x]
  | y :: l' => if key x <=? key y then x :: l else y :: insert_by key x l'
  end.

Definition sort_by {A} (key : A -> Z) (l : list A) : list A := foldr (insert_by key) [] l.

Definition sortBatchRPCResponse (req : list RPCReq) (res : list RPCRes) : go (list RPCRes) :=
  pos ← positions 0 req [];
  Ret (sort_by (fun r => pos_get pos (res_ID r)) res).

(** Reading the body; the buffers that [io.ReadAll] uses do not matter. *)
Definition read_body (b : Backend) (body : source) : bytes * option error :=
  default ([], None) (ReadAll (fun _ => 511%nat) (LimitReader body (maxResponseSize b))).

(** What [doForward] does with a response whose body has been read. *)
Definition handle_body (b : Backend) (a : attempt) (reqs : list RPCReq) (ids : list string) (target : string)
    (status : Z) (data : string) : go (Backend * (list RPCRes + error)) :=
  match decode_responses (Nat.eqb (length reqs) 1) data with
  | inr (err, counted) => Ret (if counted then incr_errors (at_end a) b else b, inr err)
  | inl rs =>
      if negb (Nat.eqb (length reqs) (length rs)) then
        Ret (incr_errors (at_end a) b, inr (EBase ErrBackendUnexpectedJSONRPC))
      else
        rs1 ← capture_status status rs;
        let b1 := add_latency (at_end a) (at_end a - at_start a) b in
        rs2 ← enrich target ids rs1;
        rs3 ← sortBatchRPCResponse reqs rs2;
        Ret (b1, inl rs3)
  end.

Definition doForward (b : Backend) (ctx : Ctx) (rpcReqs : list RPCReq) (isBatch : bool) (a : attempt)
  : go (Backend * list RPCReq * (list RPCRes + error)) :=
  let b0 := incr_requests (at_start a) b in
  if isBatch && existsb (fun r => req_Method r ==s ConsensusGetReceiptsMethod) rpcReqs then
    Ret (b0, rpcReqs, inr (EBase ErrConsensusGetReceiptsCantBeBatched))
  else
    '(reqs, ids, err) ← (if isBatch then Ret (rpcReqs, [], None) else translate (receiptsTarget b) rpcReqs);
    match err with
    | Some err => Ret (b0, reqs, inr err)
    | None =>
        body ← request_body reqs;
        match at_newRequest a with
        | Some err =>
            Ret (incr_errors (at_end a) b0, reqs, inr (wrapErr (Some err) "error creating backend request"))
        | None =>
            match DoWithSemaphore a (mkHttpReq (rpcURL b) (request_header b ctx) body) with
            | NoResponse err =>
                Ret (incr_errors (at_end a) b0, reqs, inr (wrapErr (Some err) "error in backend request"))
            | Response status stream =>
                _ ← go_index reqs 0;
                if negb (status =? 200) && negb (status =? 400) then
                  Ret (incr_errors (at_end a) b0, reqs, inr (EOther ("response code " +:+ str (dec status))))
                else
                  match read_body b stream with
                  | (_, Some err) =>
                      if is_base ErrLimitReaderOverLimit err
                      then Ret (b0, reqs, inr (ESentinel ErrBackendResponseTooLarge))
                      else Ret (incr_errors (at_end a) b0, reqs,
                                inr (wrapErr (Some err) "error reading response body"))
                  | (resB, None) =>
                      '(b1, r) ← handle_body b0 a reqs ids (receiptsTarget b) status (str resB);
                      Ret (b1, reqs, r)
                  end
            end
        end
    end.

(** The errors that [Forward] hands to its caller without retrying. *)
Definition not_retried (err : error) : bool :=
  match err with
  | ESentinel ErrBackendResponseTooLarge | EBase ErrConsensusGetReceiptsCantBeBatched
  | EBase ErrConsensusGetReceiptsInvalidTarget | EBase ErrBackendUnexpectedJSONRPC => true
  | _ => false
  end.

(** The attempts from the [i]-th on, [n] of them left. *)
Fixpoint forward_loop (n : nat) (b : Backend) (ctx : Ctx) (reqs : list RPCReq) (isBatch : bool)
    (net : nat -> attempt) (i : nat) (lastError : option error)
  : go (Backend * list RPCReq * (list RPCRes + error)) :=
  match n with
  | O => Ret (b, reqs, inr (wrapErr lastError "permanent error forwarding request"))
  | S n =>
      _ ← go_index reqs 0;
      '(b1, reqs1, r) ← doForward b ctx reqs isBatch (net i);
      match r with
      | inl res => Ret (b1, reqs1, inl res)
      | inr err =>
          if not_retried err then Ret (b1, reqs1, inr err)
          else forward_loop n b1 ctx reqs1 isBatch net (S i) (Some err)
      end
  end.

Definition Forward (b : Backend) (ctx : Ctx) (reqs : list RPCReq) (isBatch : bool) (net : nat -> attempt)
  : go (Backend * list RPCReq * (list RPCRes + error)) :=
  forward_loop (Z.to_nat (maxRetries b + 1)) b ctx reqs isBatch net 0 None.

(** A call of the proxy itself; [params] is the encoded argument list. *)
Definition ForwardRPC (b : Backend) (ctx : Ctx) (id method : string) (params : list json) (a : attempt)
  : go (Backend * (RPCRes + error)) :=
  let rpcReq := mkReq JSONRPCVersion method (Marshal (JArr params)) id in
  '(b1, _, r) ← doForward b ctx [rpcReq] false a;
  match r with
  | inr err => Ret (b1, inr err)
  | inl [res] =>
      match res_Error res with
      | Some e => Ret (b1, inr (ERpc e))
      | None => Ret (b1, inl res)
      end
  | inl _ => Ret (b1, inr (EOther "unexpected response len for non-batched request (len != 1)"))
  end.

End Backend.

(** ** Sorting responses *)

Section Sorting.
Context {A : Type} (key : A -> Z).

Lemma insert_by_perm x l : insert_by key x l ≡ₚ x :: l.
Proof.
  induction l as [|y l IH]; [done|]. cbn. destruct (_ <=? _); [done|]. by rewrite IH, Permutation_swap.
Qed.

Lemma sort_by_perm l : sort_by key l ≡ₚ l.
Proof. induction l as [|x l IH]; [done|]. cbn. by rewrite insert_by_perm, IH. Qed.

Definition key_le (x y : A) : Prop := key x <= key y.

Lemma insert_by_sorted x l : StronglySorted key_le l -> StronglySorted key_le (insert_by key x l).
Proof.
  induction 1 as [|y l Hs IH Hy]; cbn; [by repeat constructor|].
  destruct (Z.leb_spec (key x) (key y)).
  - constructor; [by constructor|]. constructor; [done|].
    eapply Forall_impl; [exact Hy|]. unfold key_le in *. intros z Hz. lia.
  - constructor; [done|]. rewrite insert_by_perm. constructor; [unfold key_le; lia|done].
Qed.

Lemma sort_by_sorted l : StronglySorted key_le (sort_by key l).
Proof. induction l; cbn; [constructor|by apply insert_by_sorted]. Qed.

(** Two sorted permutations of each other have the same keys in the same order. *)
Lemma sorted_keys_unique l1 l2 :
  StronglySorted key_le l1 -> StronglySorted key_le l2 -> l1 ≡ₚ l2 -> map key l1 = map key l2.
Proof.
  intros H1 H2 Hp.
  assert (Hmap : forall l, StronglySorted key_le l -> StronglySorted Z.le (map key l)).
  { induction 1 as [|x l Hs IH Hx]; cbn; constructor; [done|]. by apply Forall_map. }
  apply (StronglySorted_unique Z.le); auto. by apply Permutation_map.
Qed.

(** Whatever sorted permutation [sort.Slice] returns, it is this one when the keys differ. *)
Lemma sort_slice_unique l l' :
  (forall x y, x ∈ l -> y ∈ l -> key x = key y -> x = y) ->
  StronglySorted key_le l' -> l' ≡ₚ l -> l' = sort_by key l.
Proof.
  intros Hinj Hs Hp. pose proof (sort_by_sorted l) as Hs2. pose proof (sort_by_perm l) as Hp2.
  assert (Hk : map key l' = map key (sort_by key l)) by (apply sorted_keys_unique; auto; by rewrite Hp, Hp2).
  assert (Hin : forall x, x ∈ l' -> x ∈ l) by (intros x; by rewrite Hp).
  assert (Hin2 : forall x, x ∈ sort_by key l -> x ∈ l) by (intros x; by rewrite Hp2).
  clear Hs Hs2 Hp Hp2. revert Hk Hin Hin2. generalize (sort_by key l) as l2.
  induction l' as [|x l' IH]; intros [|y l2] Hk Hin Hin2; try done. injection Hk as Hxy Hk.
  f_equal; [apply Hinj; auto; [apply Hin|apply Hin2]; by left|].
  apply IH; [done|intros z Hz; apply Hin; by right|intros z Hz; apply Hin2; by right].
Qed.

End Sorting.

(** ** Positions *)

Lemma positions_spec reqs : forall i pos out,
  positions i reqs pos = Ret out ->
  out = pos ++ imap (fun k r => (req_ID r, i + Z.of_nat k)) reqs /\
  (NoDup pos.*1 -> NoDup (pos.*1 ++ map req_ID reqs)).
Proof.
  induction reqs as [|r reqs IH]; intros i pos out H; cbn in *.
  - simplify_eq. by rewrite !app_nil_r.
  - destruct (existsb _ pos) eqn:E; [done|]. apply IH in H as [-> Hnd]. split.
    + rewrite <- app_assoc. cbn. do 2 f_equal; [f_equal; lia|]. apply imap_ext. intros k x _. cbn. f_equal. lia.
    + intros Hpos. rewrite fmap_app in Hnd. cbn in Hnd. rewrite <- app_assoc in Hnd. apply Hnd.
      apply NoDup_app. split; [done|]. split; [|apply NoDup_singleton].
      intros x Hx ->%list_elem_of_singleton. apply list_elem_of_fmap in Hx as ([k v] & Hk & Hx). cbn in Hk.
      assert (existsb (fun kv : string * Z => req_ID r ==s kv.1) pos = true); [|congruence].
      apply existsb_exists. exists (k, v). split; [by apply list_elem_of_In|]. cbn.
      rewrite Hk. apply streq_refl.
Qed.

Lemma pos_get_imap reqs : forall i k r, NoDup (map req_ID reqs) -> reqs !! k = Some r ->
  pos_get (imap (fun k r => (req_ID r, i + Z.of_nat k)) reqs) (req_ID r) = i + Z.of_nat k.
Proof.
  induction reqs as [|r0 reqs IH]; intros i k r Hnd Hk; [done|]. cbn in Hnd. apply NoDup_cons in Hnd as [Hn Hnd].
  destruct k as [|k]; cbn in *.
  - simplify_eq. by rewrite streq_refl.
  - destruct (streq_spec (req_ID r) (req_ID r0)) as [E|_].
    + exfalso. apply Hn. rewrite <- E. apply (list_elem_of_fmap_2 req_ID). by eapply list_elem_of_lookup_2.
    + rewrite <- (IH (i + 1) k r Hnd Hk) at 1 || (etransitivity; [|etransitivity; [apply (IH (i + 1) k r Hnd Hk)|lia]]).
      f_equal. apply imap_ext. intros j x _. cbn. f_equal. lia.
Qed.

(** The IDs of requests are sorted by position, and positions tell them apart. *)
Lemma ids_sorted reqs :
  NoDup (map req_ID reqs) ->
  let key id := pos_get (imap (fun k r => (req_ID r, 0 + Z.of_nat k)) reqs) id in
  StronglySorted (key_le key) (map req_ID reqs) /\
  forall x y, x ∈ map req_ID reqs -> y ∈ map req_ID reqs -> key x = key y -> x = y.
Proof.
  intros Hnd key.
  assert (Hkey : forall k r, reqs !! k = Some r -> key (req_ID r) = Z.of_nat k).
  { intros k r Hk. unfold key. by rewrite (pos_get_imap _ _ _ _ Hnd Hk). }
  split.
  - clear Hnd. assert (forall k l, (forall j r, l !! j = Some r -> key (req_ID r) = Z.of_nat (k + j)) ->
      StronglySorted (key_le key) (map req_ID l)) as Hs.
    { intros k l. revert k. induction l as [|r l IH]; intros k Hl; cbn; constructor.
      - apply (IH (S k)). intros j x Hx. rewrite (Hl (S j) x Hx). lia.
      - apply Forall_map, Forall_lookup_2. intros j x Hx. unfold key_le.
        rewrite (Hl 0%nat r eq_refl), (Hl (S j) x Hx). lia. }
    apply (Hs 0%nat). exact Hkey.
  - intros x y (r1 & -> & H1)%list_elem_of_fmap (r2 & -> & H2)%list_elem_of_fmap Heq.
    apply list_elem_of_lookup_1 in H1 as [k1 H1]. apply list_elem_of_lookup_1 in H2 as [k2 H2].
    rewrite (Hkey _ _ H1), (Hkey _ _ H2) in Heq. assert (k1 = k2) by lia. subst. congruence.
Qed.

Lemma map_sort_by {A B} (f : A -> B) (key : B -> Z) l :
  map f (sort_by (fun x => key (f x)) l) = sort_by key (map f l).
Proof.
  induction l as [|x l IH]; [done|]. cbn [map]. unfold sort_by in *. cbn [foldr]. rewrite <- IH.
  generalize (foldr (insert_by (fun x => key (f x))) [] l) as l'.
  induction l' as [|y l' IH']; [done|]. cbn. destruct (_ <=? _); [done|]. cbn. by rewrite IH'.
Qed.

Lemma sortBatchRPCResponse_spec reqs rs out :
  sortBatchRPCResponse reqs rs = Ret out ->
  NoDup (map req_ID reqs) /\ out ≡ₚ rs /\
  (map res_ID rs ≡ₚ map req_ID reqs -> map res_ID out = map req_ID reqs).
Proof.
  unfold sortBatchRPCResponse. intros H. inv_ret.
  match goal with H : positions _ _ _ = _ |- _ => apply positions_spec in H as [-> Hnd] end.
  cbn in Hnd. specialize (Hnd (NoDup_nil_2)). subst out. cbn [app].
  split; [done|]. split; [apply sort_by_perm|]. intros Hp.
  destruct (ids_sorted reqs Hnd) as [Hs Hinj].
  rewrite (map_sort_by res_ID (pos_get _)). symmetry. apply sort_slice_unique; [|done|by rewrite Hp].
  intros x y Hx Hy. rewrite Hp in Hx, Hy. by apply Hinj.
Qed.

(** ** Properties of forwarding *)

Section Forwarding.
Context {G : Geth} {W : Type} {WO : WindowOps W}.
Implicit Types (b : Backend (W := W)) (a : attempt).

Lemma translate_ids target reqs : forall reqs' ids err,
  translate target reqs = Ret (reqs', ids, err) -> map req_ID reqs' = map req_ID reqs.
Proof.
  induction reqs as [|r reqs IH]; intros reqs' ids err H; cbn [translate] in H; [by simplify_eq|].
  destruct (req_Method r ==s ConsensusGetReceiptsMethod).
  - destruct (UnmarshalRawArray (req_Params r) ≫= _) as [ps|]; [|by simplify_eq].
    apply go_bind_ret in H as (p & _ & H). destruct p as [params|err2]; [|by simplify_eq].
    apply go_bind_ret in H as ([[reqs2 ids2] err2] & H2 & H). simplify_eq. cbn. by erewrite IH.
  - apply go_bind_ret in H as ([[reqs2 ids2] err2] & H2 & H). simplify_eq. cbn. by erewrite IH.
Qed.

Lemma capture_status_ids status rs out :
  capture_status status rs = Ret out ->
  map (fmap res_ID) out = map (fmap res_ID) rs.
Proof.
  unfold capture_status. destruct (status =? 200); [by intros [= <-]|].
  assert (forall acc, go_fold (fun acc r => match r with
      | Some (mkRes v res (Some e) id) =>
          Ret (acc ++ [Some (mkRes v res (Some (mkRPCErr (Code e) (Message e) (Data e) status)) id)])
      | _ => Panic "nil pointer dereference" end) acc rs = Ret out ->
    map (fmap res_ID) out = map (fmap res_ID) acc ++ map (fmap res_ID) rs) as Hg; [|apply Hg].
  induction rs as [|[[v res [e|] id]|] rs IH]; intros acc H; cbn in H;
    [simplify_eq; by rewrite app_nil_r| |done|done].
  apply IH in H. rewrite H, map_app. cbn. by rewrite <- app_assoc.
Qed.

Lemma enrich_ids target ids rs out :
  enrich target ids rs = Ret out -> map (fun r => Some (res_ID r)) out = map (fmap res_ID) rs.
Proof.
  unfold enrich. set (f := fun acc r => _).
  assert (forall acc, go_fold f acc rs = Ret out ->
    map (fun r => Some (res_ID r)) out = map (fun r => Some (res_ID r)) acc ++ map (fmap res_ID) rs) as Hg;
    [|apply Hg].
  induction rs as [|[r|] rs IH]; intros acc H; cbn in H; [simplify_eq; by rewrite app_nil_r| |done].
  apply IH in H. rewrite H, map_app, <- app_assoc. cbn. by destruct (existsb _ ids).
Qed.

(** The failures that count as network errors; a response that cannot be decoded does when
    several requests were sent. *)
Definition network_error (single : bool) (err : error) : bool :=
  match err with
  | EWrap _ _ | EOther _ => true
  | EBase ErrBackendUnexpectedJSONRPC => true
  | ESentinel ErrBackendBadResponse => negb single
  | _ => false
  end.

Lemma decode_responses_counted single data err counted :
  decode_responses single data = inr (err, counted) -> counted = network_error single err.
Proof. unfold decode_responses. repeat case_match; naive_solver. Qed.

Lemma translate_error target reqs : forall reqs' ids err,
  translate target reqs = Ret (reqs', ids, Some err) -> forall single, network_error single err = false.
Proof.
  induction reqs as [|r reqs IH]; intros reqs' ids err H single; cbn [translate] in H; [done|].
  destruct (req_Method r ==s ConsensusGetReceiptsMethod).
  - destruct (UnmarshalRawArray (req_Params r) ≫= _) as [ps|]; [|by simplify_eq].
    apply go_bind_ret in H as (p & Hp & H). destruct p as [params|err2].
    + apply go_bind_ret in H as ([[reqs2 ids2] err2] & H2 & H). simplify_eq. by eapply IH.
    + simplify_eq. unfold receipts_params in Hp. repeat case_match; inv_ret; try done; simplify_eq.
      all: repeat case_match; by simplify_eq.
  - apply go_bind_ret in H as ([[reqs2 ids2] err2] & H2 & H). simplify_eq. by eapply IH.
Qed.

(** The ways [doForward] returns: before a body is read, and after. *)
Lemma doForward_cases b ctx reqs isBatch a b' reqs' r :
  doForward b ctx reqs isBatch a = Ret (b', reqs', r) ->
  let b0 := incr_requests (at_start a) b in
  map req_ID reqs' = map req_ID reqs /\
  ((exists err, r = inr err /\
     b' = if network_error (Nat.eqb (length reqs) 1) err then incr_errors (at_end a) b0 else b0) \/
   exists ids status data,
     handle_body b0 a reqs' ids (receiptsTarget b) status data = Ret (b', r)).
Proof.
  intros H b0. unfold doForward in H. fold b0 in H.
  destruct (isBatch && _); [simplify_eq; eauto 10|].
  apply go_bind_ret in H as ([[reqs1 ids] err] & Ht & H).
  assert (Hids : map req_ID reqs1 = map req_ID reqs /\
    forall err', err = Some err' -> network_error (Nat.eqb (length reqs) 1) err' = false).
  { destruct isBatch; [by simplify_eq|]. split; [by eapply translate_ids|].
    intros err' ->. by eapply translate_error. }
  destruct Hids as [Hids Herr].
  destruct err as [err|]; [simplify_eq; split; [done|left]; exists err; by rewrite Herr|].
  apply go_bind_ret in H as (body & _ & H). destruct (at_newRequest a); [simplify_eq; eauto 10|].
  destruct (DoWithSemaphore a _) as [err|status stream]; [simplify_eq; eauto 10|].
  apply go_bind_ret in H as (r0 & _ & H).
  destruct (_ && _); [simplify_eq; eauto 10|]. destruct (read_body b stream) as [data [err|]].
  - destruct (is_base _ err); simplify_eq; eauto 10.
  - apply go_bind_ret in H as ([b1 r1] & Hh & H). simplify_eq. eauto 10.
Qed.

Lemma doForward_accounting b ctx reqs isBatch a b' reqs' r :
  doForward b ctx reqs isBatch a = Ret (b', reqs', r) ->
  let b0 := incr_requests (at_start a) b in
  b' = match r with
       | inl _ => add_latency (at_end a) (at_end a - at_start a) b0
       | inr err => if network_error (Nat.eqb (length reqs) 1) err then incr_errors (at_end a) b0 else b0
       end.
Proof.
  intros H b0. apply doForward_cases in H as [Hids [(err & -> & H)|(ids & status & data & H)]]; [done|].
  fold b0 in H. unfold handle_body in H.
  assert (Hlen : length reqs' = length reqs) by by rewrite <- (length_map req_ID reqs'), Hids, length_map.
  rewrite Hlen in H. destruct (decode_responses _ data) as [rs0|[err counted]] eqn:Hd.
  - destruct (negb _); [by simplify_eq|].
    apply go_bind_ret in H as (rs1 & _ & H). apply go_bind_ret in H as (rs2 & _ & H).
    apply go_bind_ret in H as (rs3 & _ & H). by simplify_eq.
  - apply decode_responses_counted in Hd as ->. by simplify_eq.
Qed.

Lemma doForward_ordered b ctx reqs isBatch a b' reqs' rs :
  doForward b ctx reqs isBatch a = Ret (b', reqs', inl rs) ->
  NoDup (map req_ID reqs) /\ length rs = length reqs /\
  (map res_ID rs ≡ₚ map req_ID reqs -> map res_ID rs = map req_ID reqs).
Proof.
  intros H. apply doForward_cases in H as [Hids [(err & Herr & _)|(ids & status & data & H)]]; [done|].
  assert (Hlen : length reqs' = length reqs) by by rewrite <- (length_map req_ID reqs'), Hids, length_map.
  unfold handle_body in H. destruct (decode_responses _ data) as [rs0|[err []]]; [|simplify_eq..].
  destruct (Nat.eqb_spec (length reqs') (length rs0)) as [Hl|]; [|simplify_eq]. cbn [negb] in H.
  apply go_bind_ret in H as (rs1 & H1 & H). apply go_bind_ret in H as (rs2 & H2 & H).
  apply go_bind_ret in H as (rs3 & H3 & H). simplify_eq.
  apply capture_status_ids, (f_equal length) in H1. apply enrich_ids, (f_equal length) in H2.
  rewrite !length_map in H1, H2.
  apply sortBatchRPCResponse_spec in H3 as (Hnd & Hp & Hord). rewrite Hids in *.
  split; [done|]. split; [rewrite Hp; lia|]. intros Hq. apply Hord. by rewrite <- Hp.
Qed.

(** C21. Responses come back in request order: when a forwarded batch succeeds the request IDs
    are distinct, there is one response per request, and if the backend answered
    exactly those IDs, in whatever order, the responses are in the order of the
    requests. *)
Theorem response_order b ctx reqs isBatch a b' reqs' rs :
  doForward b ctx reqs isBatch a = Ret (b', reqs', inl rs) ->
  NoDup (map req_ID reqs) /\ length rs = length reqs /\
  (map res_ID rs ≡ₚ map req_ID reqs -> map res_ID rs = map req_ID reqs).
Proof. apply doForward_ordered. Qed.

Lemma doForward_ids b ctx reqs isBatch a b' reqs' r :
  doForward b ctx reqs isBatch a = Ret (b', reqs', r) -> map req_ID reqs' = map req_ID reqs.
Proof. intros H. by apply doForward_cases in H as [H _]. Qed.

(** Forwarding with retries: the requests keep their IDs, and a success answers each of them. *)
Lemma Forward_ordered b ctx reqs isBatch net b' reqs' r :
  Forward b ctx reqs isBatch net = Ret (b', reqs', r) ->
  map req_ID reqs' = map req_ID reqs /\
  (forall rs, r = inl rs -> length rs = length reqs /\
    (map res_ID rs ≡ₚ map req_ID reqs -> map res_ID rs = map req_ID reqs)).
Proof.
  unfold Forward. generalize (Z.to_nat (maxRetries b + 1)) as n, 0%nat as i, (@None error) as last.
  intros n. revert b reqs. induction n as [|n IH]; intros b reqs i last H; cbn [forward_loop] in H; [by simplify_eq|].
  apply go_bind_ret in H as (r0 & _ & H). apply go_bind_ret in H as ([[b1 reqs1] r1] & Hf & H).
  pose proof (doForward_ids _ _ _ _ _ _ _ _ Hf) as Hids. destruct r1 as [rs|err].
  - simplify_eq. split; [done|]. intros rs' [= <-]. by apply doForward_ordered in Hf as (_ & Hl & Ho).
  - destruct (not_retried err); [by simplify_eq|]. apply IH in H as [H1 H2]. rewrite Hids in *. split; [done|].
    intros rs E. destruct (H2 rs E) as [Hl Ho]. split; [|done].
    by rewrite Hl, <- (length_map req_ID reqs1), Hids, length_map.
Qed.

(** *** Health as a function of what happened

    The abstract state of a backend is the list of the attempts made on it. *)

Inductive outcome := Served | NetworkError | OtherError.

Record event := mkEvent { ev_start : Time; ev_end : Time; ev_outcome : outcome }.

Definition outcome_of (single : bool) (r : list RPCRes + error) : outcome :=
  match r with
  | inl _ => Served
  | inr err => if network_error single err then NetworkError else OtherError
  end.

(** The calls of [doForward] on a backend, one after the other. *)
Inductive calls (b0 : Backend (W := W)) : list event -> Time -> Backend (W := W) -> Prop :=
| calls_nil t : calls b0 [] t b0
| calls_step evs t b ctx reqs isBatch a b' reqs' r :
    calls b0 evs t b -> t <= at_start a <= at_end a ->
    doForward b ctx reqs isBatch a = Ret (b', reqs', r) ->
    calls b0 (evs ++ [mkEvent (at_start a) (at_end a) (outcome_of (Nat.eqb (length reqs) 1) r)]) (at_end a) b'.

Definition requests_of (evs : list event) : list point := map (fun e => (ev_start e, 1)) evs.

Definition errors_of (evs : list event) : list point :=
  omap (fun e => match ev_outcome e with NetworkError => Some (ev_end e, 1) | _ => None end) evs.

Definition latencies_of (evs : list event) : list point :=
  omap (fun e => match ev_outcome e with Served => Some (ev_end e, ev_end e - ev_start e) | _ => None end) evs.

(** The specification: the error rate and the average latency of the attempts of the
    last five minutes, in buckets of a second. *)
Definition sum_in_window (now : Time) (log : list point) : Z := spec_sum default_bucket default_window log now.
Definition count_in_window (now : Time) (log : list point) : Z := spec_count default_bucket default_window log now.

Definition spec_error_rate (now : Time) (evs : list event) : float64 :=
  let requests := sum_in_window now (requests_of evs) in
  if 10 <=? requests then fdiv (of_Z (sum_in_window now (errors_of evs))) (of_Z requests) else of_Z 0.

(** The same without rounding. *)
Definition exact_error_rate (now : Time) (evs : list event) : Q :=
  let requests := sum_in_window now (requests_of evs) in
  if 10 <=? requests then (inject_Z (sum_in_window now (errors_of evs)) / inject_Z requests)%Q else 0%Q.

Definition spec_latency (now : Time) (evs : list event) : Duration :=
  Z.quot (sum_in_window now (latencies_of evs)) (count_in_window now (latencies_of evs)).

Context {WL : WindowLaws W}.

Record windows_hold (evs : list event) (t : Time) (b : Backend (W := W)) : Prop := {
  hold_requests : exists t1, t1 <= t /\ win_hist (requests_of evs) t1 (networkRequestsSlidingWindow b);
  hold_errors : exists t1, t1 <= t /\ win_hist (errors_of evs) t1 (intermittentErrorsSlidingWindow b);
  hold_latencies : exists t1, t1 <= t /\ win_hist (latencies_of evs) t1 (latencySlidingWindow b);
}.

(** The settings of a backend, which forwarding does not change. *)
Definition settings b :=
  (Name b, maxRetries b, maxLatencyThreshold b, maxDegradedLatencyThreshold b, maxErrorRateThreshold b).

Lemma windows_hold_step evs t b a o :
  windows_hold evs t b -> t <= at_start a <= at_end a ->
  let b0 := incr_requests (at_start a) b in
  windows_hold (evs ++ [mkEvent (at_start a) (at_end a) o]) (at_end a)
    match o with
    | Served => add_latency (at_end a) (at_end a - at_start a) b0
    | NetworkError => incr_errors (at_end a) b0
    | OtherError => b0
    end.
Proof.
  intros [(t1 & H1 & Hr) (t2 & H2 & He) (t3 & H3 & Hl)] Ht b0.
  assert (Hr' := win_hist_add _ _ (at_start a) 1 _ Hr ltac:(lia)).
  destruct b; split; unfold requests_of, errors_of, latencies_of in *; rewrite ?map_app, ?omap_app; cbn;
    destruct o; cbn in *; rewrite ?app_nil_r;
    first [exists (at_start a); split; [lia|exact Hr']
          |exists (at_end a); split; [lia|by eapply win_hist_add; [eassumption|lia]]
          |eexists; split; [|eassumption]; lia].
Qed.

Lemma calls_hold b0 evs t b :
  (forall t', windows_hold [] t' b0) -> calls b0 evs t b ->
  windows_hold evs t b /\ settings b = settings b0.
Proof.
  intros H0. induction 1 as [t|evs t b ctx reqs isBatch a b' reqs' r _ [IH Hs] Ht Hf]; [done|].
  apply doForward_accounting in Hf. cbn zeta in Hf.
  pose proof (windows_hold_step evs t b a (outcome_of (Nat.eqb (length reqs) 1) r) IH Ht) as Hstep.
  split.
  - rewrite Hf. unfold outcome_of in *. destruct r as [rs|err]; [done|]. by destruct (network_error _ err).
  - rewrite <- Hs, Hf. destruct b. destruct r; [done|]. by destruct (network_error _ _).
Qed.

Lemma count_le log now : count_in_window now log <= Z.of_nat (length log).
Proof.
  unfold count_in_window, spec_count. apply inj_le. induction log as [|p log IH]; [done|]. cbn.
  destruct (live _ _ _ p); cbn; lia.
Qed.

Lemma omap_length_le {A B} (f : A -> option B) l : (length (omap f l) <= length l)%nat.
Proof. induction l as [|x l IH]; [done|]. cbn. destruct (f x); cbn; lia. Qed.

Lemma latencies_length evs : (length (latencies_of evs) <= length evs)%nat.
Proof. apply omap_length_le. Qed.

Lemma health_of_events b0 evs t b now :
  (forall t', windows_hold [] t' b0) -> calls b0 evs t b -> t <= now -> Z.of_nat (length evs) < two64 ->
  ErrorRate now b = spec_error_rate now evs /\
  IsHealthy now b =
    negb (fleb (maxErrorRateThreshold b0) (spec_error_rate now evs)) &&
    (spec_latency now evs <? maxLatencyThreshold b0) /\
  IsDegraded now b = (maxDegradedLatencyThreshold b0 <=? spec_latency now evs).
Proof.
  intros H0 Hc Hnow Hlen.
  destruct (calls_hold b0 evs t b H0 Hc) as [[(t1 & H1 & Hr) (t2 & H2 & He) (t3 & H3 & Hl)] Hs].
  injection Hs as _ _ Hmax Hdeg Hrate.
  assert (Hcnt : count_in_window now (latencies_of evs) < two64).
  { pose proof (count_le (latencies_of evs) now). pose proof (latencies_length evs). lia. }
  assert (Havg : win_avg now (latencySlidingWindow b) = spec_latency now evs)
    by (eapply win_hist_avg; [exact Hl|lia|exact Hcnt]).
  assert (Herr : ErrorRate now b = spec_error_rate now evs).
  { unfold ErrorRate, spec_error_rate, sum_in_window.
    rewrite (win_hist_sum _ _ now _ Hr), (win_hist_sum _ _ now _ He) by lia. done. }
  split; [done|]. unfold IsHealthy, IsDegraded. rewrite Herr, Havg, Hmax, Hdeg, Hrate. split; [|done].
  rewrite Z.leb_antisym. by destruct (fleb _ _), (_ <? _).
Qed.

(** C7. Health is a function of what happened: after any sequence of forwarded calls on a backend
    that starts with empty windows, the backend is healthy exactly when the error
    rate of the last five minutes (zero below ten requests) and the average
    latency of the successful calls are below their thresholds, and degraded
    exactly when that latency reaches its threshold. *)
Theorem health_refines_events b0 evs t b now :
  (forall t', windows_hold [] t' b0) -> calls b0 evs t b -> t <= now -> Z.of_nat (length evs) < two64 ->
  ErrorRate now b = spec_error_rate now evs /\
  IsHealthy now b =
    negb (fleb (maxErrorRateThreshold b0) (spec_error_rate now evs)) &&
    (spec_latency now evs <? maxLatencyThreshold b0) /\
  IsDegraded now b = (maxDegradedLatencyThreshold b0 <=? spec_latency now evs).
Proof. apply health_of_events. Qed.

Lemma unit_sum_count bs wl log now :
  Forall (fun p : point => p.2 = 1) log -> spec_sum bs wl log now = spec_count bs wl log now.
Proof.
  unfold spec_sum, spec_count. induction 1 as [|p log Hp _ IH]; [done|]. simpl.
  destruct (live bs wl now p); [|done]. simpl. rewrite Hp, IH. unfold sumZ. lia.
Qed.

Lemma errors_units evs : Forall (fun p : point => p.2 = 1) (errors_of evs).
Proof. induction evs as [|e evs IH]; [done|]. cbn. destruct (ev_outcome e); [done|by constructor|done]. Qed.

Lemma requests_units evs : Forall (fun p : point => p.2 = 1) (requests_of evs).
Proof. induction evs; by constructor. Qed.

Lemma counts_bounded evs now :
  0 <= sum_in_window now (errors_of evs) <= Z.of_nat (length evs) /\
  0 <= sum_in_window now (requests_of evs) <= Z.of_nat (length evs).
Proof.
  unfold sum_in_window. rewrite !unit_sum_count by auto using errors_units, requests_units.
  pose proof (count_le (errors_of evs) now) as He. pose proof (count_le (requests_of evs) now) as Hr.
  assert (length (requests_of evs) = length evs) as Hlen by apply length_map.
  assert (length (errors_of evs) <= length evs)%nat by apply omap_length_le.
  unfold count_in_window, spec_count in *. lia.
Qed.

Lemma fleb_zero t : finite t -> fleb t (of_Z 0) = true <-> (F2Q t <= 0)%Q.
Proof.
  intros Ht. destruct t as [s|s| |[] m e]; try done.
  - split; [|done]. intros _. cbn [F2Q]. unfold Qle. simpl Qnum. simpl Qden. rewrite Z.mul_1_r.
    pose proof (Z.pow_nonneg 2 (e + 1074) ltac:(lia)). simpl Z.mul at 2. nia.
  - split; [done|]. intros H. exfalso. cbn [F2Q] in H. unfold Qle in H. simpl Qnum in H. simpl Qden in H.
    rewrite Z.mul_1_r in H. destruct (bounded_mantissa _ _ Ht) as (_ & He & _).
    pose proof (Z.pow_pos_nonneg 2 (e + 1074) ltac:(lia) ltac:(lia)). nia.
Qed.

(** Comparing the error rate with a threshold, with and without rounding. *)
Lemma error_rate_compare t evs now :
  finite t -> Z.of_nat (length evs) <= 2 ^ 53 ->
  ((F2Q t <= exact_error_rate now evs)%Q -> fleb t (spec_error_rate now evs) = true) /\
  (fleb t (spec_error_rate now evs) = true -> (F2Q t * (1 - (1 # 2 ^ 53)) <= exact_error_rate now evs)%Q).
Proof.
  intros Ht Hlen. destruct (counts_bounded evs now) as [He Hr].
  unfold exact_error_rate, spec_error_rate. destruct (Z.leb_spec 10 (sum_in_window now (requests_of evs))).
  - apply fleb_fdiv; [done|lia|lia].
  - rewrite fleb_zero by done. split; [done|]. intros Hle.
    rewrite slack_value. apply (Qle_trans _ (0 * Qmake (2 ^ 53 - 1) (2 ^ 53))); [by apply Qmult_le_compat_r|done].
Qed.

(** C8. Rounding does not hide a bad backend: a backend whose exact error rate reaches a
    finite threshold is not healthy; and one that is refused has reached the threshold of
    its latency, or its exact error rate misses the threshold by at most one part in
    [2^53]. *)
Theorem health_rounding b0 evs t b now :
  (forall t', windows_hold [] t' b0) -> calls b0 evs t b -> t <= now -> Z.of_nat (length evs) <= 2 ^ 53 ->
  finite (maxErrorRateThreshold b0) ->
  ((F2Q (maxErrorRateThreshold b0) <= exact_error_rate now evs)%Q -> IsHealthy now b = false) /\
  (IsHealthy now b = false ->
   maxLatencyThreshold b0 <= spec_latency now evs \/
   (F2Q (maxErrorRateThreshold b0) * (1 - (1 # 2 ^ 53)) <= exact_error_rate now evs)%Q).
Proof.
  intros H0 Hc Hnow Hlen Hfin. destruct (health_of_events b0 evs t b now H0 Hc Hnow) as (_ & -> & _).
  { unfold two64. lia. }
  destruct (error_rate_compare _ evs now Hfin Hlen) as [H1 H2]. split.
  - intros H. by rewrite H1.
  - intros [H|H]%andb_false_iff; [right; apply H2; by destruct (fleb _ _)|left; by apply Z.ltb_ge].
Qed.

(** *** Requests that are sent as they are *)

Lemma translate_plain target reqs :
  Forall (fun r => req_Method r <> ConsensusGetReceiptsMethod) reqs -> translate target reqs = Ret (reqs, [], None).
Proof.
  induction 1 as [|r reqs Hr _ IH]; [done|]. cbn [translate].
  destruct (streq_spec (req_Method r) ConsensusGetReceiptsMethod); [done|]. by rewrite IH.
Qed.

Lemma enrich_none target rs : enrich target [] (map Some rs) = Ret rs.
Proof.
  unfold enrich. set (f := fun acc r => _).
  assert (forall acc, go_fold f acc (map Some rs) = Ret (acc ++ rs)) as H; [|apply H].
  induction rs as [|r rs IH]; intros acc; [by rewrite app_nil_r|].
  change (go_fold f acc (map Some (r :: rs))) with (go_fold f (acc ++ [r]) (map Some rs)).
  by rewrite IH, <- app_assoc.
Qed.

Lemma positions_returns reqs : forall i pos,
  NoDup (pos.*1 ++ map req_ID reqs) -> exists out, positions i reqs pos = Ret out.
Proof.
  induction reqs as [|r reqs IH]; intros i pos Hnd; cbn; [by eexists|].
  assert (existsb (fun kv => req_ID r ==s kv.1) pos = false) as ->.
  { apply not_true_iff_false. intros (kv & Hin & E)%existsb_exists. bsimp.
    apply NoDup_app in Hnd as (_ & Hnd & _). apply (Hnd kv.1); [|rewrite <- E; by left].
    apply list_elem_of_fmap. exists kv. split; [done|]. by apply list_elem_of_In. }
  apply IH. rewrite fmap_app. cbn. by rewrite <- app_assoc.
Qed.

(** *** Retries *)

(** The first [k] attempts failed with errors that are retried, the last of them with [last], and left
    the backend and the requests as given. *)
Inductive retried (ctx : Ctx) (isBatch : bool) (net : nat -> attempt) (b0 : Backend) (reqs0 : list RPCReq)
  : nat -> Backend -> list RPCReq -> option error -> Prop :=
| retried_none : retried ctx isBatch net b0 reqs0 0 b0 reqs0 None
| retried_more k b reqs last b1 reqs1 err :
    retried ctx isBatch net b0 reqs0 k b reqs last ->
    doForward b ctx reqs isBatch (net k) = Ret (b1, reqs1, inr err) -> not_retried err = false ->
    retried ctx isBatch net b0 reqs0 (S k) b1 reqs1 (Some err).

Lemma forward_loop_retries ctx isBatch net b0 reqs0 n : forall k b reqs last b' reqs' r,
  retried ctx isBatch net b0 reqs0 k b reqs last ->
  forward_loop n b ctx reqs isBatch net k last = Ret (b', reqs', r) ->
  (exists j b1 reqs1 last1, (j < k + n)%nat /\ retried ctx isBatch net b0 reqs0 j b1 reqs1 last1 /\
     doForward b1 ctx reqs1 isBatch (net j) = Ret (b', reqs', r) /\
     match r with inl _ => True | inr err => not_retried err = true end) \/
  (exists last1, retried ctx isBatch net b0 reqs0 (k + n) b' reqs' last1 /\
     r = inr (wrapErr last1 "permanent error forwarding request")).
Proof.
  induction n as [|n IH]; intros k b reqs last b' reqs' r Hk H; cbn [forward_loop] in H.
  - simplify_eq. right. exists last. by rewrite Nat.add_0_r.
  - apply go_bind_ret in H as (r0 & _ & H). apply go_bind_ret in H as ([[b1 reqs1] r1] & Hf & H).
    assert (Hstop : Ret (b1, reqs1, r1) = Ret (b', reqs', r) ->
      match r1 with inl _ => True | inr err => not_retried err = true end ->
      exists j b1 reqs1 last1, (j < k + S n)%nat /\ retried ctx isBatch net b0 reqs0 j b1 reqs1 last1 /\
        doForward b1 ctx reqs1 isBatch (net j) = Ret (b', reqs', r) /\
        match r with inl _ => True | inr err => not_retried err = true end).
    { intros E Hr. exists k, b, reqs, last. split; [lia|]. simplify_eq. auto. }
    destruct r1 as [rs|err]; [left; by apply Hstop|].
    destruct (not_retried err) eqn:Hr; [left; by apply Hstop|].
    rewrite Nat.add_succ_r, <- Nat.add_succ_l. by apply (IH _ _ _ _ _ _ _ (retried_more _ _ _ _ _ _ _ _ _ _ _ _ Hk Hf Hr)).
Qed.

(** An attempt is counted when it starts. *)
Lemma attempt_counted b ctx reqs isBatch a b1 reqs1 r log t :
  win_hist log t (networkRequestsSlidingWindow b) -> t <= at_start a ->
  doForward b ctx reqs isBatch a = Ret (b1, reqs1, r) ->
  win_hist (log ++ [(at_start a, 1)]) (at_start a) (networkRequestsSlidingWindow b1).
Proof.
  intros Hh Ht Hf. apply doForward_accounting in Hf. rewrite Hf. destruct b.
  destruct r; [|destruct (network_error _ _)]; by eapply win_hist_add.
Qed.

Lemma retried_counted ctx isBatch net b0 reqs0 log t k b reqs last :
  win_hist log t (networkRequestsSlidingWindow b0) -> t <= at_start (net 0%nat) ->
  (forall j, at_start (net j) <= at_start (net (S j))) ->
  retried ctx isBatch net b0 reqs0 k b reqs last ->
  exists t', t' <= at_start (net k) /\
    win_hist (log ++ map (fun j => (at_start (net j), 1)) (seq 0 k)) t' (networkRequestsSlidingWindow b).
Proof.
  intros Hh Ht Hm. induction 1 as [|k b reqs last b1 reqs1 err _ (t' & Ht' & IH) Hf _].
  - exists t. split; [done|]. by rewrite app_nil_r.
  - exists (at_start (net k)). split; [apply Hm|]. rewrite seq_S, map_app, app_assoc. by eapply attempt_counted.
Qed.

(** C28. Retries: forwarding makes attempts until the first one that succeeds or fails with an error
    that is not worth retrying, and returns what that attempt returned; all attempts before it failed.
    If the configured number of retries is used up, so that one more attempt than that has
    failed, it returns the last error as a permanent one. Each attempt is counted as a
    request at its start. The clock does not go back, and the number of retries is not negative. *)
Theorem Forward_retries b ctx reqs isBatch net log t b' reqs' r :
  win_hist log t (networkRequestsSlidingWindow b) -> t <= at_start (net 0%nat) ->
  (forall j, at_start (net j) <= at_start (net (S j))) -> 0 <= maxRetries b ->
  Forward b ctx reqs isBatch net = Ret (b', reqs', r) ->
  exists k, 1 <= Z.of_nat k <= maxRetries b + 1 /\
    (exists t', win_hist (log ++ map (fun j => (at_start (net j), 1)) (seq 0 k)) t' (networkRequestsSlidingWindow b')) /\
    ((exists b1 reqs1 last, retried ctx isBatch net b reqs (k - 1) b1 reqs1 last /\
        doForward b1 ctx reqs1 isBatch (net (k - 1)%nat) = Ret (b', reqs', r) /\
        match r with inl _ => True | inr err => not_retried err = true end) \/
     (exists err, Z.of_nat k = maxRetries b + 1 /\ retried ctx isBatch net b reqs k b' reqs' (Some err) /\
        r = inr (wrapErr (Some err) "permanent error forwarding request"))).
Proof.
  intros Hh Ht Hm Hmax H. unfold Forward in H.
  apply (forward_loop_retries _ _ _ b reqs) in H as [(j & b1 & reqs1 & last & Hj & Hr & Hf & Hres)|(last & Hr & ->)];
    [..|apply retried_none].
  - exists (S j). split; [lia|]. destruct (retried_counted _ _ _ _ _ _ _ _ _ _ _ Hh Ht Hm Hr) as (t' & Ht' & Hw).
    split.
    + exists (at_start (net j)). rewrite seq_S, map_app, app_assoc. by eapply attempt_counted.
    + left. replace (S j - 1)%nat with j by lia. by exists b1, reqs1, last.
  - exists (Z.to_nat (maxRetries b + 1)). rewrite Nat.add_0_l in Hr. split; [lia|].
    destruct (retried_counted _ _ _ _ _ _ _ _ _ _ _ Hh Ht Hm Hr) as (t' & _ & Hw). split; [by exists t'|]. right.
    inversion Hr as [E|k0 b0 reqs0 last0 b1 reqs1 err Hr0 Hf0 Hn0 E]; [lia|]. subst. exists err.
    split; [lia|]. split; [|done]. by rewrite <- E in Hr.
Qed.

(** *** Failures that take the process down *)

(** A single response with HTTP status 400 and no error member is dereferenced as if it
    had one: [doForward] panics. *)
Theorem bad_request_without_error_panics b ctx req isBatch a j stream data r :
  req_Method req <> ConsensusGetReceiptsMethod -> req_json req = Some j ->
  at_newRequest a = None -> at_acquire a = None ->
  (forall hr, at_reply a hr = Response 400 stream) ->
  read_body b stream = (data, None) -> UnmarshalRPCRes (str data) = Some r -> res_Error r = None ->
  exists msg, doForward b ctx [req] isBatch a = Panic msg.
Proof.
  intros Hm Hj Hn Ha Hr Hb Hu He. unfold doForward. cbn [existsb].
  destruct (streq_spec (req_Method req) ConsensusGetReceiptsMethod) as [|_]; [done|]. cbn [orb].
  rewrite andb_false_r.
  assert (Ht : (if isBatch then Ret ([req], [], None) else translate (receiptsTarget b) [req])
               = Ret ([req], [], @None error)).
  { destruct isBatch; [done|]. cbn [translate].
    by destruct (streq_spec (req_Method req) ConsensusGetReceiptsMethod). }
  rewrite Ht. go_simpl. unfold request_body. cbn [mapM]. rewrite Hj. go_simpl. cbn [mret option_ret mbind option_bind].
  go_simpl. rewrite Hn. unfold DoWithSemaphore. rewrite Ha, Hr. go_simpl.
  change (go_index [req] 0) with (Ret req). go_simpl. cbn [Z.eqb Pos.eqb negb andb]. rewrite Hb.
  unfold handle_body, decode_responses. cbn [length Nat.eqb]. rewrite Hu. cbn [length Nat.eqb negb].
  unfold capture_status. cbn [Z.eqb Pos.eqb go_fold]. destruct r as [v res [e|] id]; [done|]. go_simpl. eauto.
Qed.

(** [consensus_getReceipts] with an empty parameter list panics for every supported receipts
    target. *)
Theorem getReceipts_empty_params_panics b ctx v id a :
  receiptsTarget b ∈ [ReceiptsTargetDebugGetRawReceipts; ReceiptsTargetEthGetTransactionReceipts;
    ReceiptsTargetParityGetTransactionReceipts; ReceiptsTargetAlchemyGetTransactionReceipts] ->
  exists msg, doForward b ctx [mkReq v ConsensusGetReceiptsMethod "[]" id] false a = Panic msg.
Proof.
  intros Ht. unfold doForward. cbn [andb]. cbn [translate]. cbn [req_Method].
  rewrite streq_refl. change (UnmarshalRawArray (req_Params (mkReq v ConsensusGetReceiptsMethod "[]" id))) with (Some (@nil string)).
  cbv [mbind option_bind]. cbn [mapM]. rewrite !elem_of_cons, elem_of_nil in Ht.
  destruct Ht as [->|[->|[->|[->|[]]]]]; eexists; reflexivity.
Qed.

End Forwarding.

(** ** Witnesses *)

Notation demo_window := (AvgSlidingWindow Z (AL Time (bucket Z))) (only parsing).

Definition demo_backend : Backend (W := demo_window) :=
  NewBackend "b1" "http://b1" ""
    [WithMaxRetries 1; WithConsensusReceiptTarget ReceiptsTargetEthGetTransactionReceipts].

Definition demo_ctx : Ctx := mkCtx "" "10.0.0.1" "" None None.

Definition demo_request (id method : string) (params : json) : RPCReq := mkReq "2.0" method (Marshal params) id.

Definition demo_response (id : string) (j : json) : RPCRes := mkRes "2.0" (Some (RJson j)) None id.

Definition body_of (js : list (option json)) : string :=
  match js with
  | [Some j] => Marshal j
  | _ => Marshal (JArr (omap id js))
  end.

Definition demo_attempt (t : Time) (status : Z) (rs : list RPCRes) : attempt :=
  mkAttempt t (t + 50 * Millisecond) None None
    (fun _ => Response status (mkSource (chars (body_of (map MarshalJSON rs))) [] false None)).

Definition failed_attempt (t : Time) : attempt :=
  mkAttempt t (t + 50 * Millisecond) None None (fun _ => NoResponse (EOther "connection refused")).

Definition demo_reqs : list RPCReq :=
  [demo_request "1" "eth_chainId" (JArr []); demo_request "2" "eth_gasPrice" (JArr [])].

Definition demo_swapped : attempt :=
  demo_attempt Hour 200 [demo_response "2" (JStr "0x5"); demo_response "1" (JStr "0x38")].

Lemma response_order_witness :
  exists b' reqs' rs, doForward demo_backend demo_ctx demo_reqs true demo_swapped = Ret (b', reqs', inl rs) /\
    map res_ID rs = ["1"; "2"].
Proof.
  destruct (doForward demo_backend demo_ctx demo_reqs true demo_swapped) as [[[b' reqs'] r]|] eqn:E;
    [|vm_compute in E; discriminate E].
  assert (exists rs, r = inl rs /\ map res_ID rs ≡ₚ map req_ID demo_reqs) as (rs & -> & Hp).
  { vm_compute in E. injection E as _ _ <-. eexists. split; [reflexivity|reflexivity]. }
  destruct (response_order demo_backend demo_ctx demo_reqs true demo_swapped b' reqs' rs E) as (_ & _ & H).
  exists b', reqs', rs. split; [reflexivity|]. exact (H Hp).
Defined.

Lemma demo_windows t : windows_hold [] t demo_backend.
Proof.
  split; exists t; (split; [lia|]); exact (win_hist_new (W := demo_window) t).
Qed.

Lemma health_refines_events_witness :
  exists b' evs, calls demo_backend evs (Hour + 50 * Millisecond) b' /\ length evs = 1%nat /\
    IsHealthy (Hour + Second) b' =
      negb (fleb fhalf (spec_error_rate (Hour + Second) evs)) &&
      (spec_latency (Hour + Second) evs <? 10 * Second).
Proof.
  destruct (doForward demo_backend demo_ctx demo_reqs true demo_swapped) as [[[b' reqs'] r]|] eqn:E;
    [|vm_compute in E; discriminate E].
  assert (Hc := calls_step demo_backend [] Hour demo_backend demo_ctx demo_reqs true demo_swapped b' reqs' r
    (calls_nil _ Hour) ltac:(split; vm_compute; discriminate) E).
  eexists b', _. split; [exact Hc|]. split; [reflexivity|].
  destruct (health_refines_events demo_backend _ _ _ (Hour + Second) demo_windows Hc) as (_ & H & _);
    [vm_compute; discriminate|vm_compute; reflexivity|]. exact H.
Defined.

Lemma health_rounding_witness :
  exists b' evs, calls demo_backend evs (Hour + 50 * Millisecond) b' /\ length evs = 1%nat /\
    ((1 # 2 <= exact_error_rate (Hour + Second) evs)%Q -> IsHealthy (Hour + Second) b' = false).
Proof.
  destruct (doForward demo_backend demo_ctx demo_reqs true demo_swapped) as [[[b' reqs'] r]|] eqn:E;
    [|vm_compute in E; discriminate E].
  assert (Hc := calls_step demo_backend [] Hour demo_backend demo_ctx demo_reqs true demo_swapped b' reqs' r
    (calls_nil _ Hour) ltac:(split; vm_compute; discriminate) E).
  eexists b', _. split; [exact Hc|]. split; [reflexivity|]. intros H.
  destruct (health_rounding demo_backend _ _ _ (Hour + Second) demo_windows Hc) as [H1 _];
    [vm_compute; discriminate|vm_compute; discriminate|vm_compute; reflexivity|].
  apply H1. refine (Qle_trans _ _ _ _ H). vm_compute. discriminate.
Defined.

Definition demo_net (i : nat) : attempt :=
  match i with
  | O => failed_attempt Hour
  | S i => demo_attempt (Hour + Z.of_nat (S i) * Second) 200 [demo_response "1" (JArr [])]
  end.

Definition demo_receipts : RPCReq := demo_request "1" ConsensusGetReceiptsMethod (JArr [JStr "0x10"]).

Lemma Forward_retries_witness :
  exists b' reqs' r k, Forward demo_backend demo_ctx [demo_receipts] false demo_net = Ret (b', reqs', r) /\
    1 <= Z.of_nat k <= 2 /\ exists t', win_hist (map (fun j => (at_start (demo_net j), 1)) (seq 0 k)) t' (networkRequestsSlidingWindow b').
Proof.
  destruct (Forward demo_backend demo_ctx [demo_receipts] false demo_net) as [[[b' reqs'] r]|] eqn:E;
    [|vm_compute in E; discriminate E].
  destruct (Forward_retries demo_backend demo_ctx [demo_receipts] false demo_net [] Hour b' reqs' r)
    as (k & H1 & H2 & _); [exact (win_hist_new (W := demo_window) Hour)|vm_compute; discriminate| |vm_compute; discriminate|exact E|].
  - intros [|j]; unfold demo_net, failed_attempt, demo_attempt, at_start; unfold Hour, Minute, Second, Millisecond; lia.
  - exists b', reqs', r, k. split; [reflexivity|]. split; [exact H1|exact H2].
Defined.

Lemma bad_request_without_error_panics_witness :
  exists msg, doForward demo_backend demo_ctx [demo_request "1" "eth_chainId" (JArr [])] false
    (demo_attempt Hour 400 [demo_response "1" JNull]) = Panic msg.
Proof.
  eapply bad_request_without_error_panics;
    [discriminate|reflexivity|reflexivity|reflexivity|intros; reflexivity|reflexivity|vm_compute; reflexivity|reflexivity].
Defined.

Lemma getReceipts_empty_params_panics_witness :
  exists msg, doForward demo_backend demo_ctx [mkReq "2.0" ConsensusGetReceiptsMethod "[]" "1"] false
    (failed_attempt Hour) = Panic msg.
Proof. apply getReceipts_empty_params_panics. right; left. Defined.

(** A retry changes the answer: a receipts request that succeeds at once returns the receipts
    wrapped with the method that was called; the same request whose first attempt
    fails on the network returns them bare, because the first attempt has replaced
    the method of the shared request. *)
Theorem receipts_wrapper_lost_on_retry :
  let result r := match r with Ret (_, _, inl [res]) => res_Result res | _ => None end in
  result (Forward demo_backend demo_ctx [demo_receipts] false (fun i => demo_net (S i)))
    = Some (RReceipts ReceiptsTargetEthGetTransactionReceipts (Some (RJson (JArr [])))) /\
  result (Forward demo_backend demo_ctx [demo_receipts] false demo_net) = Some (RJson (JArr [])).
Proof. split; vm_compute; reflexivity. Qed.
