(* ===== verification/MockServer.v ===== *)
(** * The mock server of the test tools: [tools/mockserver]

    [MockedHandler] answers JSON-RPC requests from templates: those of a YAML file, read on
    every request, followed by overrides. Reading files and YAML are parameters. The
    handler writes what [json.Marshal] makes of an [RPCRes] that is passed by value: the
    method [MarshalJSON] has a pointer receiver and is not used, so the members have the
    names of the fields.

    The file composes the mock with a backend: forwarding a request or a batch to it
    succeeds, with the canned answer of each request at its place. *)

From stdpp Require Import base list strings.
From Stdlib Require Import ZArith Lia Ascii.
From Stdlib Require Strings.String.
From S2P Require Import Prelude SlidingWindow SlidingWindowRefinement Json JsonRoundtrip Geth Rpc Reader Backend.

Local Open Scope Z_scope.

(** ** Templates *)

Record MethodTemplate := mkTemplate {
  tpl_Method : string;
  tpl_Block : string;
  tpl_Response : string;
  tpl_ResponseCode : Z;
}.

(** The templates are pointers, and a null entry of the file is a nil one. *)
Record MockedHandler := mkHandler {
  Overrides : list (option MethodTemplate);
  Autoload : bool;
  AutoloadFile : string;
}.

(** What [os.ReadFile] returns, empty when it fails, and what [yaml.Unmarshal] decodes. *)
Class MockFiles := {
  mock_ReadFile : string -> string;
  mock_yaml : string -> list (option MethodTemplate);
}.

Definition AddOverride (template : MethodTemplate) (mh : MockedHandler) : MockedHandler :=
  mkHandler (Overrides mh ++ [Some template]) (Autoload mh) (AutoloadFile mh).

Definition ResetOverrides (mh : MockedHandler) : MockedHandler :=
  mkHandler [] (Autoload mh) (AutoloadFile mh).

(** ** Requests *)

(** Decoding into [interface{}] when the caller ignores the error: a number that is out of
    range is left nil. *)
Fixpoint lenient (j : json) : json :=
  match j with
  | JNum t => match canon_lit t with Some c => JNum c | None => JNull end
  | JArr l => JArr (map lenient l)
  | JObj l => JObj (foldl (fun acc kv => obj_put kv.1 kv.2 acc) [] (map (fun kv => (kv.1, lenient kv.2)) l))
  | _ => j
  end.

(** A value decoded into a [map[string]interface{}]; nil for one that is not an object. *)
Definition as_map (j : json) : list (string * json) :=
  match lenient j with JObj o => o | _ => [] end.

Definition mock_requests (batched : bool) (body : string) : list (list (string * json)) :=
  if batched then
    match parse_json body with Some (JArr l) => map as_map l | _ => [] end
  else [match parse_json body with Some j => as_map j | None => [] end].

(** The method, if it is a string. *)
Definition is_method (r : list (string * json)) (name : string) : bool :=
  match obj_get "method" r with Some (JStr m) => m ==s name | _ => false end.

(** [(r["params"].([]interface{})[0]).(string)]. *)
Definition first_param (r : list (string * json)) : go string :=
  match obj_get "params" r with
  | Some (JArr l) =>
      p ← go_index l 0;
      match p with JStr s => Ret s | _ => Panic "interface conversion: interface {} is not string" end
  | _ => Panic "interface conversion: interface {} is not []interface {}"
  end.

Definition request_block (r : list (string * json)) : go string :=
  if is_method r "eth_getBlockByNumber" || is_method r "debug_getRawReceipts" then first_param r else Ret "".

(** ** The handler *)

(** [ResponseWriter.WriteHeader]: the first status counts, an informational one does not. *)
Definition WriteHeader (code : Z) (status : option Z) : go (option Z) :=
  match status with
  | Some s => Ret (Some s)
  | None =>
      if (code <? 100) || (999 <? code) then Panic "invalid WriteHeader code"
      else if (code <=? 199) && negb (code =? 101) then Ret None
      else Ret (Some code)
  end.

(** The loop over the templates: the last response that matches, the status so far. *)
Definition select_step (r : list (string * json)) (block : string) (st : string * option Z) (t : option MethodTemplate)
  : go (string * option Z) :=
  match t with
  | None => Panic "nil pointer dereference"
  | Some t =>
      if is_method r (tpl_Method t) && (tpl_Block t ==s block) then
        status ← (if tpl_ResponseCode t =? 0 then Ret st.2 else WriteHeader (tpl_ResponseCode t) st.2);
        Ret (tpl_Response t, status)
      else Ret st
  end.

(** What [json.Marshal] writes for an [RPCRes] value; [None] if it fails. *)
Definition struct_json (r : RPCRes) : option json :=
  id ← raw_json (res_ID r);
  res ← match res_Result r with Some (RJson j) => Some j | None => Some JNull | _ => None end;
  Some (JObj [("JSONRPC", JStr (res_JSONRPC r)); ("Result", res);
              ("Error", match res_Error r with Some e => err_json e | None => JNull end); ("ID", id)]).

(** The answer to one request, if a template with a response matches it. *)
Definition mock_answer (template : list (option MethodTemplate)) (r : list (string * json)) (status : option Z)
  : go (list string * option Z) :=
  block ← request_block r;
  '(selectedResponse, status1) ← go_fold (select_step r block) ("", status) template;
  if selectedResponse ==s "" then Ret ([], status1)
  else
    match UnmarshalRPCRes selectedResponse with
    | None => Panic "json"
    | Some rpcRes =>
        let idJson := Marshal (default JNull (obj_get "id" r)) in
        let res := mkRes (res_JSONRPC rpcRes) (res_Result rpcRes) (res_Error rpcRes) idJson in
        Ret ([match struct_json res with Some j => Marshal j | None => "" end], status1)
    end.

Definition mock_answers (template : list (option MethodTemplate)) (rs : list (list (string * json)))
  : go (list string * option Z) :=
  go_fold (fun '(responses, status) r =>
    '(res, status1) ← mock_answer template r status;
    Ret (responses ++ res, status1)) ([], None) rs.

(** [strings.Join(responses, ",")]. *)
Definition Join_comma (l : list string) : string := str (sep_concat (chr 44) (map chars l)).

Section Handler.
Context {MF : MockFiles}.

Definition LoadFromFile (file : string) : list (option MethodTemplate) := mock_yaml (mock_ReadFile file).

Definition templates (mh : MockedHandler) : list (option MethodTemplate) :=
  (if Autoload mh then LoadFromFile (AutoloadFile mh) else []) ++ Overrides mh.

(** The status and the body that [Handler] writes for the bytes it could read. *)
Definition Handler (mh : MockedHandler) (body : string) : go (Z * string) :=
  let batched := IsBatch body in
  '(responses, status) ← mock_answers (templates mh) (mock_requests batched body);
  let resBody :=
    if batched then ("[" +:+ Join_comma responses +:+ "]")
    else match responses with r :: _ => r | [] => "" end in
  Ret (default 200 status, resBody).

End Handler.

(** [Serve] ends with the error of [ListenAndServe], which is nil for a server that was closed. *)
Definition mock_Serve (closed : bool) (err : error) : option error := if closed then None else Some err.

(** ** Decoding requests *)

Lemma iface_lenient j : forall j', iface j = Some j' -> lenient j = j'.
Proof.
  induction j as [|b|t|s|l IH|l IH] using json_nested_ind; intros j' H; try (by simplify_eq/=).
  - simpl in *. destruct (canon_lit t); by simplify_eq/=.
  - simpl in *. apply fmap_Some in H as (l' & H & ->). f_equal. revert l' H.
    induction IH as [|j l Hj _ IHl]; intros l' H; [by simplify_eq|].
    apply bind_Some in H as (v & Hv & H). apply bind_Some in H as (vs & Hvs & [= <-]).
    simpl. by rewrite (Hj v Hv), (IHl vs Hvs).
  - simpl in *. apply fmap_Some in H as (l' & H & ->). f_equal. revert l' H.
    generalize (@nil (string * json)) as acc.
    induction IH as [|[k j] l Hj _ IHl]; intros acc l' H; [by simplify_eq|].
    apply bind_Some in H as (v & Hv & H). simpl. simpl in Hj. rewrite (Hj v Hv). by apply IHl.
Qed.

Lemma lenient_ok j : json_ok j = true -> lenient j = j.
Proof. intros H. by apply iface_lenient, iface_ok. Qed.

Lemma as_map_request v m p i :
  json_ok p = true -> json_ok i = true ->
  as_map (JObj [("jsonrpc", JStr v); ("method", JStr m); ("params", p); ("id", i)])
  = [("id", i); ("jsonrpc", JStr v); ("method", JStr m); ("params", p)].
Proof. intros Hp Hi. unfold as_map. cbn [lenient map fst snd]. by rewrite !lenient_ok. Qed.

(** ** Canned answers *)

(** The response of the last template for a method and a block. *)
Definition last_response (template : list (option MethodTemplate)) (m block : string) : string :=
  foldl (fun text t => match t with
                       | Some t => if (m ==s tpl_Method t) && (tpl_Block t ==s block) then tpl_Response t else text
                       | None => text
                       end) "" template.

(** The first status among the templates for a method and a block. *)
Fixpoint first_code (template : list (option MethodTemplate)) (m block : string) : option Z :=
  match template with
  | [] => None
  | Some t :: ts =>
      if (m ==s tpl_Method t) && (tpl_Block t ==s block) && negb (tpl_ResponseCode t =? 0)
      then Some (tpl_ResponseCode t) else first_code ts m block
  | None :: ts => first_code ts m block
  end.

(** A template without a status, or with a final one. *)
Definition valid_template (t : option MethodTemplate) : Prop :=
  match t with Some t => tpl_ResponseCode t = 0 \/ 200 <= tpl_ResponseCode t <= 999 | None => False end.

(** The status after more is written: the first one stays. *)
Definition keep_first (status code : option Z) : option Z :=
  match status with Some _ => status | None => code end.

Lemma keep_first_assoc a b c : keep_first (keep_first a b) c = keep_first a (keep_first b c).
Proof. by destruct a. Qed.

Lemma WriteHeader_final code status :
  200 <= code <= 999 -> WriteHeader code status = Ret (keep_first status (Some code)).
Proof.
  intros [H1 H2]. destruct status; [done|]. unfold WriteHeader.
  rewrite (proj2 (Z.ltb_ge code 100)), (proj2 (Z.ltb_ge 999 code)), (proj2 (Z.leb_gt code 199)) by lia. done.
Qed.

Lemma select_valid template r m block : forall text status,
  Forall valid_template template -> obj_get "method" r = Some (JStr m) ->
  go_fold (select_step r block) (text, status) template =
  Ret (foldl (fun text t => match t with
                       | Some t => if (m ==s tpl_Method t) && (tpl_Block t ==s block) then tpl_Response t else text
                       | None => text
                       end) text template, keep_first status (first_code template m block)).
Proof.
  intros text status Ht Hm. revert text status. induction Ht as [|[t|] template Ht _ IH]; intros text status; [|..|done].
  { simpl. by destruct status. }
  assert (select_step r block (text, status) (Some t) =
    Ret (if (m ==s tpl_Method t) && (tpl_Block t ==s block) then tpl_Response t else text,
         keep_first status (first_code [Some t] m block))) as E.
  { unfold select_step, is_method, first_code. rewrite Hm. destruct (_ && _); [|by destruct status].
    destruct Ht as [Ht|Ht]; [rewrite Ht; by destruct status|].
    rewrite (proj2 (Z.eqb_neq (tpl_ResponseCode t) 0)) by lia. by rewrite WriteHeader_final. }
  cbn [go_fold foldl]. rewrite E. go_simpl. rewrite IH, keep_first_assoc. do 2 f_equal.
  cbn [first_code]. by destruct ((m ==s _) && (tpl_Block t ==s block) && negb _).
Qed.

(** The status that the templates give to a request, and to the requests of a body. *)
Definition request_code (template : list (option MethodTemplate)) (req : RPCReq) : option Z :=
  match parse_json (req_Params req) with
  | Some p =>
      match request_block [("method", JStr (req_Method req)); ("params", p)] with
      | Ret block => first_code template (req_Method req) block
      | Panic _ => None
      end
  | None => None
  end.

Definition mock_status (template : list (option MethodTemplate)) (reqs : list RPCReq) : Z :=
  default 200 (foldl keep_first None (map (request_code template) reqs)).

(** [res] is the canned answer to [req]. *)
Definition canned (template : list (option MethodTemplate)) (req : RPCReq) (res : RPCRes) : Prop :=
  exists v m p i block tr,
    req = mkReq v m (Marshal p) (Marshal i) /\
    str_ok v = true /\ str_ok m = true /\ json_ok p = true /\ json_ok i = true /\
    request_block [("method", JStr m); ("params", p)] = Ret block /\
    last_response template m block <> "" /\
    UnmarshalRPCRes (last_response template m block) = Some tr /\
    str_ok (res_JSONRPC tr) = true /\ result_ok (res_Result tr) /\ (forall e, res_Error tr = Some e -> err_ok e) /\
    res = mkRes (res_JSONRPC tr) (res_Result tr) (res_Error tr) (Marshal i).

(** An answer in decoded form is written, and read back from its bytes. *)
Lemma struct_roundtrip v r e i :
  str_ok v = true -> result_ok r -> (forall x, e = Some x -> err_ok x) -> syn_ok i = true ->
  let res := mkRes v r e (Marshal i) in
  exists fs, struct_json res = Some (JObj fs) /\ syn_ok (JObj fs) = true /\
    UnmarshalRPCRes (Marshal (JObj fs)) = Some res.
Proof.
  intros Hv Hr He Hi res. unfold struct_json, res. cbn [res_ID res_Result res_Error res_JSONRPC].
  rewrite raw_json_Marshal by done. cbv [mbind option_bind].
  set (err := match e with Some e => err_json e | None => JNull end).
  assert (exists j, match r with Some (RJson j) => Some j | None => Some JNull | _ => None end = Some j /\
    json_ok j = true /\ result_of_json j = r) as (j & -> & Hj & Hres).
  { destruct r as [[j| | |]|]; try done; [|by exists JNull]. exists j. destruct Hr. by destruct j. }
  eexists. split; [reflexivity|].
  assert (syn_ok err = true) as Herr.
  { unfold err. destruct e as [x|]; [|done]. by apply err_json_syn, He. }
  assert (Hs : syn_ok (JObj [("JSONRPC", JStr v); ("Result", j); ("Error", err); ("ID", i)]) = true).
  { apply syn_ok_obj. repeat (apply Forall_cons_2; [split; [done|]|]); [done|by apply json_ok_syn|done|done|constructor]. }
  split; [exact Hs|]. unfold UnmarshalRPCRes. rewrite UnmarshalRawObject_Marshal by exact Hs.
  cbv [mbind option_bind]. cbn [map fst snd].
  erewrite fold_fields_cons; [|reflexivity]. cbn [res_Result res_Error res_ID].
  erewrite fold_fields_cons; [|unfold decode_res_field; change (field_is "JSONRPC" "Result") with false;
    change (field_is "Result" "Result") with true; cbv iota; rewrite (iface_ok j Hj); reflexivity].
  erewrite fold_fields_cons; [|unfold decode_res_field; change (field_is "JSONRPC" "Error") with false;
    change (field_is "Result" "Error") with false; change (field_is "Error" "Error") with true; cbv iota;
    cbn [res_Error]; instantiate (1 := mkRes v r e ""); cbn [res_JSONRPC res_Result res_ID];
    rewrite Hres; unfold err; destruct e as [x|]; [rewrite decode_err_json by auto|]; reflexivity].
  reflexivity.
Qed.

Lemma UnmarshalRawArray_Marshal l :
  forallb syn_ok l = true -> UnmarshalRawArray (Marshal (JArr l)) = Some (map Marshal l).
Proof.
  intros Hok. unfold UnmarshalRawArray, Marshal at 1. rewrite chars_str.
  cbn [print_json]. set (s := sep_concat _ _). set (fuel := parse_fuel _).
  change (skip_ws (chr 91 :: s ++ [chr 93])) with (chr 91 :: s ++ [chr 93]).
  cbv iota. change (code (chr 91) =? 91)%N with true. cbv iota.
  destruct l as [|j l]; [done|].
  assert (Hp : Forall parses (j :: l)).
  { apply Is_true_true, forallb_True in Hok. eapply Forall_impl; [exact Hok|].
    intros x Hx. apply print_json_parses. by apply Is_true_true. }
  pose proof (parse_elems_print (j :: l) true fuel [] Hp Hok ltac:(done)) as H. fold s in H.
  rewrite H; [|unfold fuel, parse_fuel, Marshal; rewrite chars_str; cbn [print_json length]; fold s;
    rewrite length_app; simpl; lia].
  cbv [mbind option_bind]. change (skip_ws []) with (@nil ascii). cbv iota. f_equal. by rewrite map_map.
Qed.

(** A request and its canned answer, with the objects that are sent. *)
Record exchange (template : list (option MethodTemplate)) (req : RPCReq) (res : RPCRes) (jreq jres : json) : Prop := {
  ex_req : req_json req = Some jreq;
  ex_req_ok : syn_ok jreq = true;
  ex_req_obj : exists fs, jreq = JObj fs;
  ex_answer status : mock_answer template (as_map jreq) status
    = Ret ([Marshal jres], keep_first status (request_code template req));
  ex_struct : struct_json res = Some jres;
  ex_res_ok : syn_ok jres = true;
  ex_res_obj : exists fs, jres = JObj fs;
  ex_res : UnmarshalRPCRes (Marshal jres) = Some res;
  ex_id : res_ID res = req_ID req;
}.

Lemma canned_exchange template req res :
  Forall valid_template template -> canned template req res ->
  exists jreq jres, exchange template req res jreq jres.
Proof.
  intros Ht (v & m & p & i & block & tr & -> & Hv & Hm & Hp & Hi & Hb & Hne & Htr & Hv' & Hr & He & ->).
  destruct (struct_roundtrip _ _ _ i Hv' Hr He (json_ok_syn _ Hi)) as (fs & Hj & Hs & Hu).
  exists (JObj [("jsonrpc", JStr v); ("method", JStr m); ("params", p); ("id", i)]), (JObj fs).
  split; [| |by eexists| |done|done|by eexists|done|done].
  - unfold req_json. cbn [req_Params req_ID req_JSONRPC req_Method].
    by rewrite !raw_json_Marshal by (by apply json_ok_syn).
  - apply syn_ok_obj. repeat (apply Forall_cons_2; [split; [done|]|]); [done|done| | |constructor]; by apply json_ok_syn.
  - intros status. rewrite as_map_request by done. unfold mock_answer.
    change (request_block _) with (request_block [("method", JStr m); ("params", p)]). rewrite Hb. go_simpl.
    rewrite (select_valid _ _ m) by done. go_simpl. fold (last_response template m block).
    destruct (streq_spec (last_response template m block) "") as [E|_]; [done|]. rewrite Htr.
    cbn [obj_get]. rewrite decide_True by done. cbn [default from_option id]. rewrite Hj. unfold request_code. cbn [req_Params req_Method].
    by rewrite parse_print_json, Hb by (by apply json_ok_syn).
Qed.

(** What goes over the wire for a list of requests: request, answer, and their objects. *)
Definition wire : Type := RPCReq * RPCRes * json * json.
Definition w_req (w : wire) : RPCReq := w.1.1.1.
Definition w_res (w : wire) : RPCRes := w.1.1.2.
Definition w_jreq (w : wire) : json := w.1.2.
Definition w_jres (w : wire) : json := w.2.
Definition on_wire (template : list (option MethodTemplate)) (w : wire) : Prop :=
  exchange template (w_req w) (w_res w) (w_jreq w) (w_jres w).

Lemma canned_wire template reqs rs :
  Forall valid_template template -> Forall2 (canned template) reqs rs ->
  exists ws, reqs = map w_req ws /\ rs = map w_res ws /\ Forall (on_wire template) ws.
Proof.
  intros Ht. induction 1 as [|req res reqs rs Hc _ (ws & -> & -> & IH)]; [by exists []|].
  destruct (canned_exchange template req res Ht Hc) as (jreq & jres & He).
  exists ((req, res, jreq, jres) :: ws). split; [done|]. split; [done|]. by constructor.
Qed.

Lemma mock_answers_wire template ws :
  Forall (on_wire template) ws ->
  mock_answers template (map as_map (map w_jreq ws)) =
    Ret (map Marshal (map w_jres ws), foldl keep_first None (map (request_code template) (map w_req ws))).
Proof.
  intros Hws. unfold mock_answers. change (map Marshal (map w_jres ws)) with ([] ++ map Marshal (map w_jres ws)).
  generalize (@nil string) as acc, (@None Z) as status. induction Hws as [|w ws Hw _ IH]; intros acc status.
  { simpl. by rewrite app_nil_r. }
  cbn [map go_fold]. rewrite (ex_answer _ _ _ _ _ Hw). go_simpl. rewrite IH, <- app_assoc. done.
Qed.

Lemma mapM_wire template ws : Forall (on_wire template) ws -> mapM req_json (map w_req ws) = Some (map w_jreq ws).
Proof. induction 1 as [|w ws Hw _ IH]; [done|]. cbn. rewrite (ex_req _ _ _ _ _ Hw), IH. done. Qed.

Lemma wire_syn template ws :
  Forall (on_wire template) ws ->
  forallb syn_ok (map w_jreq ws) = true /\ forallb syn_ok (map w_jres ws) = true.
Proof.
  induction 1 as [|w ws Hw _ [IH1 IH2]]; [done|]. cbn.
  by rewrite (ex_req_ok _ _ _ _ _ Hw), (ex_res_ok _ _ _ _ _ Hw).
Qed.

Lemma str_snoc s c : str (s ++ [c]) = (str s +:+ String c "")%string.
Proof. induction s as [|c' s IH]; [done|]. unfold str in *. simpl. by rewrite IH. Qed.

Lemma Join_comma_Marshal l : ("[" +:+ Join_comma (map Marshal l) +:+ "]")%string = Marshal (JArr l).
Proof.
  unfold Join_comma, Marshal. cbn [print_json]. rewrite map_map.
  rewrite (map_ext (fun x => chars (str (print_json x))) print_json) by (intros; apply chars_str).
  set (s := sep_concat _ _). change (str (chr 91 :: s ++ [chr 93])) with (String (chr 91) (str (s ++ [chr 93]))). rewrite str_snoc. done.
Qed.

(** *** The handler *)

Section Served.
Context {MF : MockFiles}.

Lemma Handler_single mh w :
  on_wire (templates mh) w ->
  Handler mh (Marshal (w_jreq w)) = Ret (mock_status (templates mh) [w_req w], Marshal (w_jres w)).
Proof.
  intros Hw. destruct (ex_req_obj _ _ _ _ _ Hw) as [fs E]. unfold Handler.
  assert (IsBatch (Marshal (w_jreq w)) = false) as ->.
  { rewrite E. unfold IsBatch, Marshal. by rewrite chars_str. }
  unfold mock_requests. rewrite parse_print_json by apply (ex_req_ok _ _ _ _ _ Hw).
  pose proof (mock_answers_wire (templates mh) [w] ltac:(by constructor)) as Ha. cbn [map] in Ha. rewrite Ha. done.
Qed.

Lemma Handler_batch mh ws :
  Forall (on_wire (templates mh)) ws ->
  Handler mh (Marshal (JArr (map w_jreq ws))) =
    Ret (mock_status (templates mh) (map w_req ws), Marshal (JArr (map w_jres ws))).
Proof.
  intros Hws. destruct (wire_syn _ _ Hws) as [Hs _]. unfold Handler.
  assert (IsBatch (Marshal (JArr (map w_jreq ws))) = true) as ->.
  { unfold IsBatch, Marshal. by rewrite chars_str. }
  unfold mock_requests. rewrite parse_print_json by exact Hs.
  rewrite (mock_answers_wire (templates mh)) by done. go_simpl. by rewrite Join_comma_Marshal.
Qed.

End Served.

(** ** A backend in front of the mock *)

Lemma perm_same_keys {A B} (f : A -> B) l1 l2 :
  l1 ≡ₚ l2 -> map f l1 = map f l2 -> NoDup (map f l1) -> l1 = l2.
Proof.
  revert l2. induction l1 as [|x l1 IH]; intros [|y l2] Hp Hm Hnd; try done.
  injection Hm as Hxy Hm. cbn in Hnd. apply NoDup_cons in Hnd as [Hx Hnd].
  assert (x = y) as <-.
  { assert (y ∈ x :: l1) as Hy by (rewrite Hp; by left). apply elem_of_cons in Hy as [->|Hy]; [done|].
    destruct Hx. rewrite Hxy. by apply (list_elem_of_fmap_2 f). }
  f_equal. apply IH; [by eapply Permutation_cons_inv|done|done].
Qed.

Lemma sortBatchRPCResponse_aligned reqs rs :
  NoDup (map req_ID reqs) -> map res_ID rs = map req_ID reqs -> sortBatchRPCResponse reqs rs = Ret rs.
Proof.
  intros Hnd Hids. destruct (sortBatchRPCResponse reqs rs) as [out|] eqn:E.
  - apply sortBatchRPCResponse_spec in E as (_ & Hp & Ho). rewrite Hids in Ho. specialize (Ho (reflexivity _)).
    f_equal. apply (perm_same_keys res_ID); [done|congruence|by rewrite Ho].
  - unfold sortBatchRPCResponse in E. destruct (positions_returns reqs 0 [] Hnd) as [out Eo]. by rewrite Eo in E.
Qed.

(** The text that the mock answers to a list of requests. *)
Definition answers_json (rs : list RPCRes) : json :=
  match mapM struct_json rs with
  | Some [j] => j
  | Some js => JArr js
  | None => JNull
  end.

Section Forwarded.
Context {G : Geth} {W : Type} {WO : WindowOps W} {MF : MockFiles}.
Implicit Types (b : Backend (W := W)).

(** An exchange with the mock; a handler that panics closes the connection. *)
Definition mock_attempt (mh : MockedHandler) (start finish : Time) : attempt :=
  mkAttempt start finish None None (fun req =>
    match Handler mh (Marshal (hr_body req)) with
    | Ret (status, body) => Response status (mkSource (chars body) [] false None)
    | Panic _ => NoResponse (EOther "EOF")
    end).

Lemma decode_wire template ws :
  Forall (on_wire template) ws -> (2 <= length ws)%nat ->
  decode_responses false (Marshal (JArr (map w_jres ws))) = inl (map Some (map w_res ws)).
Proof.
  intros Hws _. unfold decode_responses, UnmarshalRPCResBatch.
  rewrite UnmarshalRawArray_Marshal by apply (wire_syn _ _ Hws). cbn [mbind option_bind].
  assert (mapM (fun raw => match parse_json raw with
                 | Some JNull => Some None
                 | _ => r ← UnmarshalRPCRes raw; Some (Some r)
                 end) (map Marshal (map w_jres ws)) = Some (map Some (map w_res ws))) as ->; [|done].
  induction Hws as [|w ws Hw _ IH]; [done|]. cbn [map mapM].
  rewrite parse_print_json by apply (ex_res_ok _ _ _ _ _ Hw). destruct (ex_res_obj _ _ _ _ _ Hw) as [fs E].
  rewrite E, <- E, (ex_res _ _ _ _ _ Hw). cbn [mbind option_bind]. by rewrite IH.
Qed.

Lemma read_body_whole b data :
  Z.of_nat (length data) < maxResponseSize b -> read_body b (mkSource data [] false None) = (data, None).
Proof.
  intros Hl. unfold read_body. rewrite ReadAll_limited. cbn [src_data src_eager src_err default from_option].
  unfold limited. by rewrite (proj2 (Z.ltb_lt _ _) Hl).
Qed.

(** What is sent, and the body that comes back. *)
Lemma mock_reply_wire mh ws url hdr start finish :
  ws <> [] -> Forall (on_wire (templates mh)) ws ->
  exists body, request_body (map w_req ws) = Ret body /\
    DoWithSemaphore (mock_attempt mh start finish) (mkHttpReq url hdr body)
      = Response (mock_status (templates mh) (map w_req ws)) (mkSource (print_json (answers_json (map w_res ws))) [] false None) /\
    decode_responses (Nat.eqb (length (map w_req ws)) 1) (Marshal (answers_json (map w_res ws)))
      = inl (map Some (map w_res ws)).
Proof.
  intros Hne Hws. unfold request_body. rewrite (mapM_wire _ _ Hws).
  assert (mapM struct_json (map w_res ws) = Some (map w_jres ws)) as Hres.
  { clear Hne. induction Hws as [|w ws Hw _ IH]; [done|]. cbn. by rewrite (ex_struct _ _ _ _ _ Hw), IH. }
  unfold answers_json. rewrite Hres. unfold DoWithSemaphore, mock_attempt. cbn [at_acquire at_reply hr_body].
  destruct ws as [|w1 [|w2 ws]]; [done|..]; cbn [map].
  - apply Forall_cons in Hws as [Hw _]. eexists. split; [done|]. cbn [hr_body]. rewrite Handler_single by done.
    unfold Marshal at 1. rewrite chars_str. split; [done|].
    cbn. by rewrite (ex_res _ _ _ _ _ Hw).
  - eexists. split; [done|]. cbn [hr_body].
    pose proof (Handler_batch mh (w1 :: w2 :: ws) Hws) as HH. cbn [map] in HH. rewrite HH.
    unfold Marshal at 1. rewrite chars_str. split; [done|].
    apply (decode_wire _ (w1 :: w2 :: ws) Hws). simpl. lia.
Qed.

(** Every response of a status other than 200 must be an error, and carries the status. *)
Definition with_http (status : Z) (r : RPCRes) : RPCRes :=
  mkRes (res_JSONRPC r) (res_Result r)
    (if status =? 200 then res_Error r
     else option_map (fun e => mkRPCErr (Code e) (Message e) (Data e) status) (res_Error r)) (res_ID r).

Lemma capture_status_http status rs :
  status = 200 \/ Forall (fun r => res_Error r <> None) rs ->
  capture_status status (map Some rs) = Ret (map Some (map (with_http status) rs)).
Proof.
  intros H. unfold capture_status, with_http. destruct (Z.eqb_spec status 200) as [->|Hne].
  { f_equal. induction rs as [|[] rs IH]; [done|]. cbn [map]. rewrite <- IH; [done|by left]. }
  destruct H as [|He]; [done|]. match goal with |- go_fold ?f _ _ = _ => set (step := f) end.
  change (map Some (map ?f rs)) with ([] ++ map Some (map f rs)).
  generalize (@nil (option RPCRes)) as acc. induction He as [|[v r [e|] i] rs H _ IH]; intros acc; [|..|done].
  { simpl. by rewrite app_nil_r. }
  cbn [map go_fold].
  change (step acc _) with (Ret (acc ++ [Some (mkRes v r (Some (mkRPCErr (Code e) (Message e) (Data e) status)) i)])).
  go_simpl. rewrite IH, <- app_assoc. done.
Qed.

(** Forwarding requests that are not translated, up to the answer. *)
Lemma doForward_reply b ctx reqs isBatch a body status stream :
  reqs <> [] -> Forall (fun r => req_Method r <> ConsensusGetReceiptsMethod) reqs ->
  request_body reqs = Ret body -> at_newRequest a = None ->
  DoWithSemaphore a (mkHttpReq (rpcURL b) (request_header b ctx) body) = Response status stream ->
  let b0 := incr_requests (at_start a) b in
  (status <> 200 -> status <> 400 -> doForward b ctx reqs isBatch a =
     Ret (incr_errors (at_end a) b0, reqs, inr (EOther ("response code " +:+ str (dec status))))) /\
  (status = 200 \/ status = 400 -> forall data, read_body b stream = (data, None) -> doForward b ctx reqs isBatch a =
     ('(b1, r) ← handle_body b0 a reqs [] (receiptsTarget b) status (str data); Ret (b1, reqs, r))).
Proof.
  intros Hne Hplain Hbody Hnew Hreply b0.
  unfold doForward. assert (isBatch && existsb (fun r => req_Method r ==s ConsensusGetReceiptsMethod) reqs = false) as ->.
  { apply andb_false_iff. right. apply not_true_iff_false. intros (r & Hin & E)%existsb_exists. bsimp.
    rewrite Forall_forall in Hplain. by apply (Hplain r); [apply list_elem_of_In|]. }
  assert ((if isBatch then Ret (reqs, [], None) else translate (receiptsTarget b) reqs) = Ret (reqs, [], None)) as ->.
  { destruct isBatch; [done|]. by apply translate_plain. }
  go_simpl. rewrite Hbody. go_simpl. rewrite Hnew, Hreply.
  destruct reqs as [|r reqs]; [done|]. cbn [go_index lookup list_lookup]. go_simpl. split.
  - intros H1 H2. by rewrite (proj2 (Z.eqb_neq _ _) H1), (proj2 (Z.eqb_neq _ _) H2).
  - intros [->| ->] data Hread; cbn [Z.eqb Pos.eqb negb andb]; by rewrite Hread.
Qed.

(** C37. End to end with a node. One request, or a batch, is forwarded to the mock server. The
    IDs are distinct and no method is [consensus_getReceipts]. The parameters and IDs are in
    the form the encoder writes, every template has no status or one of 200 to 999, and each
    request has a template whose response is a decodable one. The status is the first one of
    the matching templates, in the order of the requests, and 200 without one. If it is 200,
    or 400 with canned responses that are all errors, and the body is below the size limit,
    then each request gets the response of its last matching template, with its own ID, at its
    own place, the errors of a 400 carrying the status, and the call counts as served. If it
    is neither 200 nor 400, the call fails with that status and counts as an error. In all
    these cases the requests are left unchanged. *)
Theorem backend_serves_canned b ctx mh reqs rs isBatch start finish :
  reqs <> [] -> Forall valid_template (templates mh) -> Forall2 (canned (templates mh)) reqs rs ->
  NoDup (map req_ID reqs) -> Forall (fun r => req_Method r <> ConsensusGetReceiptsMethod) reqs ->
  let status := mock_status (templates mh) reqs in
  let forwarded := doForward b ctx reqs isBatch (mock_attempt mh start finish) in
  (status = 200 \/ status = 400 /\ Forall (fun r => res_Error r <> None) rs ->
   Z.of_nat (length (print_json (answers_json rs))) < maxResponseSize b ->
   forwarded = Ret (add_latency finish (finish - start) (incr_requests start b), reqs, inl (map (with_http status) rs))) /\
  (status <> 200 -> status <> 400 ->
   forwarded = Ret (incr_errors finish (incr_requests start b), reqs, inr (EOther ("response code " +:+ str (dec status))))).
Proof.
  intros Hne Ht Hc Hnd Hplain status forwarded. destruct (canned_wire _ _ _ Ht Hc) as (ws & -> & -> & Hws).
  assert (ws <> []) as Hws' by (by intros ->).
  assert (forall st, map res_ID (map (with_http st) (map w_res ws)) = map req_ID (map w_req ws)) as Hids.
  { clear -Hws. intros st. induction Hws as [|w ws Hw _ IH]; [done|]. cbn. by rewrite (ex_id _ _ _ _ _ Hw), IH. }
  destruct (mock_reply_wire mh ws (rpcURL b) (request_header b ctx) start finish Hws' Hws)
    as (body & Hbody & Hreply & Hdec).
  destruct (doForward_reply b ctx _ isBatch (mock_attempt mh start finish) body status _ Hne Hplain Hbody eq_refl Hreply)
    as [Hfail Hok]. split; [|exact Hfail].
  intros Hst Hsize. unfold forwarded. erewrite Hok; [|tauto|by apply read_body_whole].
  change (str (print_json ?j)) with (Marshal j).
  unfold handle_body. rewrite Hdec, !length_map, Nat.eqb_refl. cbn [negb].
  rewrite capture_status_http by tauto. go_simpl. rewrite enrich_none. go_simpl. by rewrite sortBatchRPCResponse_aligned.
Qed.

End Forwarded.

(** ** The command *)

(** [strconv.ParseInt(s, 10, 32)] with the error ignored: zero for a text that is not a
    number, the nearest bound for one that is out of range. *)
Definition ParseInt32 (s : string) : Z :=
  let '(neg, ds) := match chars s with
                    | c :: ds => if (code c =? 45)%N then (true, ds)
                                 else if (code c =? 43)%N then (false, ds) else (false, c :: ds)
                    | [] => (false, [])
                    end in
  if bool_decide (ds <> []) && forallb is_digit ds then
    if neg then Z.max (- 2 ^ 31) (- digits_val 0 ds) else Z.min (2 ^ 31 - 1) (digits_val 0 ds)
  else 0.

(** The elements of a path. *)
Fixpoint split_slash (cur : bytes) (s : bytes) : list bytes :=
  match s with
  | [] => [rev cur]
  | c :: s' => if (code c =? 47)%N then rev cur :: split_slash [] s' else split_slash (c :: cur) s'
  end.

Definition dot : bytes := chars ".".
Definition dotdot : bytes := chars "..".

(** [path.Clean]: the elements that are left, the last one first. *)
Definition clean_step (rooted : bool) (out : list bytes) (e : bytes) : list bytes :=
  if bool_decide (e = []) || bool_decide (e = dot) then out
  else if bool_decide (e = dotdot) then
    match out with
    | top :: out' => if bool_decide (top = dotdot) then dotdot :: out else out'
    | [] => if rooted then [] else [dotdot]
    end
  else e :: out.

Definition Clean (p : bytes) : bytes :=
  match p with
  | [] => dot
  | c :: _ =>
      let rooted := (code c =? 47)%N in
      let out := rev (foldl (clean_step rooted) [] (split_slash [] p)) in
      if rooted then chr 47 :: sep_concat (chr 47) out
      else match out with [] => dot | _ => sep_concat (chr 47) out end
  end.

(** [path.Join(dir, file)]: empty elements are skipped. *)
Definition path_Join (dir file : string) : string :=
  match chars dir, chars file with
  | [], [] => ""
  | [], f => str (Clean f)
  | d, [] => str (Clean d)
  | d, f => str (Clean (d ++ chr 47 :: f))
  end.

(** What the command does: it ends with status 1 when an argument is missing, and otherwise
    serves on a port. *)
Inductive mock_run := MockExit (status : Z) | MockServe (mh : MockedHandler) (port : Z).

Definition mock_main (args : list string) (dir : string) : mock_run :=
  match args with
  | _ :: port :: file :: _ => MockServe (mkHandler [] true (path_Join dir file)) (ParseInt32 port)
  | _ => MockExit 1
  end.

(** ** Witnesses *)

#[local] Instance demo_files : MockFiles := {
  mock_ReadFile f := f;
  mock_yaml _ := [Some (mkTemplate "eth_chainId" "" (Marshal (JObj [("result", JStr "0x38")])) 0);
                  Some (mkTemplate "eth_getBlockByNumber" "latest" (Marshal (JObj [("result", JStr "old")])) 0)];
}.

(** The override replaces the second template of the file. *)
Definition demo_mock : MockedHandler :=
  AddOverride (mkTemplate "eth_getBlockByNumber" "latest" (Marshal (JObj [("jsonrpc", JStr "2.0"); ("result", JStr "new")])) 0)
    (mkHandler [] true "mocks.yml").

(** The first status that is written counts: an override changes the response of a template but
    not its status. *)
Lemma override_status_ignored :
  Handler (mkHandler [Some (mkTemplate "m" "" "{}" 500); Some (mkTemplate "m" "" (Marshal (JObj [("result", JNum "1")])) 429)] false "")
    (Marshal (JObj [("method", JStr "m"); ("id", JNum "1")]))
  = Ret (500, Marshal (JObj [("JSONRPC", JStr ""); ("Result", JNum "1"); ("Error", JNull); ("ID", JNum "1")])).
Proof. vm_compute. reflexivity. Qed.

Definition mock_reqs : list RPCReq :=
  [demo_request "7" "eth_getBlockByNumber" (JArr [JStr "latest"; JBool false]); demo_request "1" "eth_chainId" (JArr [])].

Definition mock_rs : list RPCRes :=
  [mkRes "2.0" (Some (RJson (JStr "new"))) None "7"; mkRes "" (Some (RJson (JStr "0x38"))) None "1"].

Ltac solve_canned :=
  split_and!; try (intros e E; discriminate E); vm_compute; (reflexivity || discriminate || (split; [reflexivity|discriminate])).

Lemma mock_rs_canned : Forall2 (canned (templates demo_mock)) mock_reqs mock_rs.
Proof.
  constructor; [|constructor; [|constructor]].
  - exists "2.0", "eth_getBlockByNumber", (JArr [JStr "latest"; JBool false]), (JNum "7"), "latest",
      (mkRes "2.0" (Some (RJson (JStr "new"))) None "").
    solve_canned.
  - exists "2.0", "eth_chainId", (JArr []), (JNum "1"), "", (mkRes "" (Some (RJson (JStr "0x38"))) None "").
    solve_canned.
Qed.

(** The same file with a template that fails: its requests are refused. *)
Definition demo_failing : MockedHandler :=
  AddOverride (mkTemplate "eth_chainId" "" (Marshal (JObj [("result", JStr "0x38")])) 503) demo_mock.

Lemma failing_rs_canned : Forall2 (canned (templates demo_failing)) mock_reqs mock_rs.
Proof.
  constructor; [|constructor; [|constructor]].
  - exists "2.0", "eth_getBlockByNumber", (JArr [JStr "latest"; JBool false]), (JNum "7"), "latest",
      (mkRes "2.0" (Some (RJson (JStr "new"))) None "").
    solve_canned.
  - exists "2.0", "eth_chainId", (JArr []), (JNum "1"), "", (mkRes "" (Some (RJson (JStr "0x38"))) None "").
    solve_canned.
Qed.

Lemma backend_serves_canned_witness :
  (exists b', doForward demo_backend demo_ctx mock_reqs true (mock_attempt demo_mock 0 Second) = Ret (b', mock_reqs, inl mock_rs)) /\
  (exists b', doForward demo_backend demo_ctx mock_reqs true (mock_attempt demo_failing 0 Second)
     = Ret (b', mock_reqs, inr (EOther "response code 503"))).
Proof.
  assert (mock_reqs <> []) as Hne by discriminate.
  assert (NoDup (map req_ID mock_reqs)) as Hnd by (apply (bool_decide_unpack _); vm_compute; exact I).
  assert (Forall (fun r => req_Method r <> ConsensusGetReceiptsMethod) mock_reqs) as Hp by (repeat constructor; discriminate).
  split; eexists.
  - refine (proj1 (backend_serves_canned demo_backend demo_ctx demo_mock mock_reqs mock_rs true 0 Second
      Hne _ mock_rs_canned Hnd Hp) _ _); [repeat constructor|left; by vm_compute|by vm_compute].
  - refine (proj2 (backend_serves_canned demo_backend demo_ctx demo_failing mock_reqs mock_rs true 0 Second
      Hne _ failing_rs_canned Hnd Hp) _ _); [|by vm_compute..].
    repeat (apply Forall_cons; split; [cbn; lia|]). constructor.
Defined.
