(* ===== verification/Tracker.v ===== *)
(** * Consensus trackers: [consensus_tracker.go]

    Where the agreed block numbers are kept: in memory, or shared through Redis by
    several proxies that elect a leader with a lock. Redis and the lock library are
    parameters: the class [Redis] with the laws [RedisLaws]. *)

From stdpp Require Import base list strings gmap.
From Stdlib Require Import ZArith Lia Ascii.
From Stdlib Require Strings.String.
From S2P Require Import Prelude Json JsonRoundtrip Geth Rpc.

Local Open Scope Z_scope.

Record ConsensusTrackerState := mkState {
  Latest : Z;
  Safe : Z;
  Finalized : Z;
}.

#[export] Instance tracker_state_eq_dec : EqDecision ConsensusTrackerState.
Proof. solve_decision. Defined.

(** What the poller asks of a tracker. *)
Class ConsensusTracker (T : Type) := {
  GetLatestBlockNumber : T -> Z;
  SetLatestBlockNumber : Z -> T -> T;
  GetSafeBlockNumber : T -> Z;
  SetSafeBlockNumber : Z -> T -> T;
  GetFinalizedBlockNumber : T -> Z;
  SetFinalizedBlockNumber : Z -> T -> T;
}.

(** ** In memory *)

Definition update (o st : ConsensusTrackerState) : ConsensusTrackerState :=
  mkState (Latest o) (Safe o) (Finalized o).

Definition NewInMemoryConsensusTracker : ConsensusTrackerState := mkState 0 0 0.

#[export] Instance in_memory : ConsensusTracker ConsensusTrackerState := {
  GetLatestBlockNumber := Latest;
  SetLatestBlockNumber n st := mkState n (Safe st) (Finalized st);
  GetSafeBlockNumber := Safe;
  SetSafeBlockNumber n st := mkState (Latest st) n (Finalized st);
  GetFinalizedBlockNumber := Finalized;
  SetFinalizedBlockNumber n st := mkState (Latest st) (Safe st) n;
}.

Definition Valid (ct : ConsensusTrackerState) : bool :=
  (0 <? Latest ct) && (0 <? Safe ct) && (0 <? Finalized ct).

Definition Behind (ct other : ConsensusTrackerState) : bool :=
  (Latest ct <? Latest other) || (Safe ct <? Safe other) || (Finalized ct <? Finalized other).

(** ** Redis *)

(** A Redis client and the redsync lock on a key; [inl None] is a missing key. *)
Class Redis (R : Type) := {
  r_Get : string -> R -> option string + error;
  r_Set : string -> string -> Duration -> R -> R * option error;
  m_Lock : string -> Duration -> R -> R * (string + error);
  m_Extend : string -> string -> R -> R * bool * option error;
  m_Unlock : string -> string -> R -> R * bool * option error;
}.

Class RedisLaws (R : Type) {RO : Redis R} : Prop := {
  (** a key that has been written reads back, and the other keys are not affected *)
  r_Set_get k v d r r' : r_Set k v d r = (r', None) -> r_Get k r' = inl (Some v);
  r_Set_other k k' v d r r' e : r_Set k v d r = (r', e) -> k' <> k -> r_Get k' r' = r_Get k' r;
  (** a lock is a fresh non-empty value under its key *)
  m_Lock_get k d r r' v : m_Lock k d r = (r', inl v) -> v <> "" /\ r_Get k r' = inl (Some v);
  (** extending and unlocking need the value that was written by the lock, else they report that it is taken *)
  m_Extend_other k v v' r : r_Get k r = inl (Some v') -> v' <> v -> exists e, m_Extend k v r = (r, false, Some e);
  m_Unlock_other k v v' r : r_Get k r = inl (Some v') -> v' <> v -> exists e, m_Unlock k v r = (r, false, Some e);
}.

Record RedisConsensusTracker := mkRedis {
  namespace : string;
  lockPeriod : Duration;
  heartbeatInterval : Duration;
  hostname : string;
  redlock : option string;
  leader : bool;
  leaderName : string;
  local : ConsensusTrackerState;
  remote : ConsensusTrackerState;
}.

Definition NewRedisConsensusTracker (ns host : string) (opts : list (RedisConsensusTracker -> RedisConsensusTracker))
  : RedisConsensusTracker :=
  foldl (fun ct opt => opt ct)
    (mkRedis ns (30 * Second) (2 * Second) host None false ""
       NewInMemoryConsensusTracker NewInMemoryConsensusTracker) opts.

Definition WithLockPeriod (d : Duration) (ct : RedisConsensusTracker) : RedisConsensusTracker :=
  mkRedis (namespace ct) d (heartbeatInterval ct) (hostname ct) (redlock ct) (leader ct) (leaderName ct)
    (local ct) (remote ct).

Definition WithHeartbeatInterval (d : Duration) (ct : RedisConsensusTracker) : RedisConsensusTracker :=
  mkRedis (namespace ct) (lockPeriod ct) d (hostname ct) (redlock ct) (leader ct) (leaderName ct)
    (local ct) (remote ct).

Definition set_leader (b : bool) (ct : RedisConsensusTracker) : RedisConsensusTracker :=
  mkRedis (namespace ct) (lockPeriod ct) (heartbeatInterval ct) (hostname ct) (redlock ct) b (leaderName ct)
    (local ct) (remote ct).

Definition set_redlock (v : string) (ct : RedisConsensusTracker) : RedisConsensusTracker :=
  mkRedis (namespace ct) (lockPeriod ct) (heartbeatInterval ct) (hostname ct) (Some v) (leader ct)
    (leaderName ct) (local ct) (remote ct).

Definition set_leaderName (n : string) (ct : RedisConsensusTracker) : RedisConsensusTracker :=
  mkRedis (namespace ct) (lockPeriod ct) (heartbeatInterval ct) (hostname ct) (redlock ct) (leader ct) n
    (local ct) (remote ct).

Definition set_local (st : ConsensusTrackerState) (ct : RedisConsensusTracker) : RedisConsensusTracker :=
  mkRedis (namespace ct) (lockPeriod ct) (heartbeatInterval ct) (hostname ct) (redlock ct) (leader ct)
    (leaderName ct) st (remote ct).

Definition set_remote (st : ConsensusTrackerState) (ct : RedisConsensusTracker) : RedisConsensusTracker :=
  mkRedis (namespace ct) (lockPeriod ct) (heartbeatInterval ct) (hostname ct) (redlock ct) (leader ct)
    (leaderName ct) (local ct) st.

(** Reads see the shared state, writes go to the local one. *)
#[export] Instance redis_tracker : ConsensusTracker RedisConsensusTracker := {
  GetLatestBlockNumber ct := Latest (remote ct);
  SetLatestBlockNumber n ct := set_local (SetLatestBlockNumber n (local ct)) ct;
  GetSafeBlockNumber ct := Safe (remote ct);
  SetSafeBlockNumber n ct := set_local (SetSafeBlockNumber n (local ct)) ct;
  GetFinalizedBlockNumber ct := Finalized (remote ct);
  SetFinalizedBlockNumber n ct := set_local (SetFinalizedBlockNumber n (local ct)) ct;
}.

Definition key (ct : RedisConsensusTracker) (tag : string) : string :=
  ("consensus:" +:+ namespace ct +:+ ":" +:+ tag).

Section Heartbeat.
Context {G : Geth} {R : Type} {RO : Redis R}.

Definition state_json (st : ConsensusTrackerState) : json :=
  JObj [("latest", JStr (Uint64_String (Latest st))); ("safe", JStr (Uint64_String (Safe st)));
        ("finalized", JStr (Uint64_String (Finalized st)))].

Definition decode_state_field (st : ConsensusTrackerState) (f : string * json * string)
  : option ConsensusTrackerState :=
  let '(k, _, raw) := f in
  if field_is "latest" k then n ← Uint64_UnmarshalJSON raw; Some (mkState n (Safe st) (Finalized st))
  else if field_is "safe" k then n ← Uint64_UnmarshalJSON raw; Some (mkState (Latest st) n (Finalized st))
  else if field_is "finalized" k then n ← Uint64_UnmarshalJSON raw; Some (mkState (Latest st) (Safe st) n)
  else Some st.

(** [json.Unmarshal] into a [ConsensusTrackerState]. *)
Definition UnmarshalState (data : string) : option ConsensusTrackerState :=
  fs ← UnmarshalRawObject data; fold_fields decode_state_field (mkState 0 0 0) fs.

Definition postPayload (mutexVal : string) (r : R) (ct : RedisConsensusTracker) : R * RedisConsensusTracker :=
  match r_Set (key ct ("state:" +:+ mutexVal)) (Marshal (state_json (local ct))) (lockPeriod ct) r with
  | (r1, Some _) => (r1, set_leader false ct)
  | (r1, None) =>
      match r_Set (key ct ("leader:" +:+ mutexVal)) (hostname ct) (lockPeriod ct) r1 with
      | (r2, Some _) => (r2, set_leader false ct)
      | (r2, None) =>
          (r2, set_remote (update (local ct) (remote ct)) (set_leaderName (hostname ct) ct))
      end
  end.

(** Recording an error calls its method [Error], which panics on a nil error. *)
Definition record_error (err : option error) : go unit :=
  match err with
  | Some _ => Ret ()
  | None => Panic "nil pointer dereference"
  end.

(** Giving up the lock after an error: the flag is only cleared when it works. *)
Definition release (r : R) (ct : RedisConsensusTracker) : go (R * RedisConsensusTracker) :=
  match redlock ct with
  | None => Panic "nil pointer dereference"
  | Some lv =>
      match m_Unlock (key ct "mutex") lv r with
      | (r1, true, None) => Ret (r1, set_leader false ct)
      | (r1, _, err) => _ ← record_error err; Ret (r1, ct)
      end
  end.

(** A follower copies the state of the leader that holds the lock value [val]. A missing state is
    reported with the error of the read, which is nil when the state is there but empty. *)
Definition follow (val : string) (r : R) (ct : RedisConsensusTracker) : go RedisConsensusTracker :=
  match r_Get (key ct ("leader:" +:+ val)) r with
  | inr _ => Ret ct
  | inl name =>
      let ct1 := set_leaderName (default "" name) ct in
      match r_Get (key ct ("state:" +:+ val)) r with
      | inr _ => Ret ct1
      | inl None => Ret ct1
      | inl (Some st) =>
          if st ==s "" then _ ← record_error None; Ret ct1
          else match UnmarshalState st with
               | None => Ret ct1
               | Some state => Ret (set_remote (update state (remote ct1)) ct1)
               end
      end
  end.

Definition stateHeartbeat (r : R) (ct : RedisConsensusTracker) : go (R * RedisConsensusTracker) :=
  match r_Get (key ct "mutex") r with
  | inr _ => if leader ct then release r ct else Ret (r, ct)
  | inl v =>
      let val := default "" v in
      if negb (val ==s "") then
        if leader ct then
          match redlock ct with
          | None => Panic "nil pointer dereference"
          | Some lv =>
              match m_Extend (key ct "mutex") lv r with
              | (r1, true, None) => Ret (postPayload val r1 ct)
              | (r1, _, err) => _ ← record_error err; release r1 ct
              end
          end
        else ct1 ← follow val r ct; Ret (r, ct1)
      else if negb (Valid (local ct)) then Ret (r, ct)
      else if Valid (remote ct) && Behind (local ct) (remote ct) then Ret (r, ct)
      else
        match m_Lock (key ct "mutex") (lockPeriod ct) r with
        | (r1, inr _) => Ret (r1, set_leader false ct)
        | (r1, inl lv) => Ret (postPayload lv r1 (set_leader true (set_redlock lv ct)))
        end
  end.

(** The goroutine of [Init]: a heartbeat, then the timer that was started before it, or the end of the context. *)
Inductive heartbeat_loop := HStart | HWait (deadline : Time) | HEnd.

Definition tracker_Init : heartbeat_loop := HStart.

Definition heartbeat_step (now : Time) (g : heartbeat_loop) (r : R) (ct : RedisConsensusTracker)
  : go (option (heartbeat_loop * R * RedisConsensusTracker)) :=
  match g with
  | HStart =>
      '(r1, ct1) ← stateHeartbeat r ct;
      Ret (Some (HWait (now + heartbeatInterval ct), r1, ct1))
  | HWait deadline => Ret (if deadline <=? now then Some (HStart, r, ct) else None)
  | HEnd => Ret None
  end.

Definition heartbeat_done (cancelled : bool) (g : heartbeat_loop) : option heartbeat_loop :=
  match g with
  | HWait _ => if cancelled then Some HEnd else None
  | _ => None
  end.

End Heartbeat.

(** ** Properties *)

Section Properties.
Context {G : Geth} {GL : GethLaws} {R : Type} {RO : Redis R} {RL : RedisLaws R}.

Definition state_ok (st : ConsensusTrackerState) : Prop :=
  is_u64 (Latest st) /\ is_u64 (Safe st) /\ is_u64 (Finalized st).

Lemma state_roundtrip st : state_ok st -> UnmarshalState (Marshal (state_json st)) = Some st.
Proof.
  destruct st as [l s f]. intros (Hl & Hs & Hf). cbn [Latest Safe Finalized] in *. unfold UnmarshalState, state_json.
  rewrite UnmarshalRawObject_Marshal; [|apply syn_ok_obj; repeat constructor; apply Uint64_String_ok].
  cbv [mbind option_bind]. cbn [map fst snd Latest Safe Finalized].
  assert (forall st v n, Uint64_UnmarshalJSON v = Some n -> forall j,
    decode_state_field st ("latest", j, v) = Some (mkState n (Safe st) (Finalized st)) /\
    decode_state_field st ("safe", j, v) = Some (mkState (Latest st) n (Finalized st)) /\
    decode_state_field st ("finalized", j, v) = Some (mkState (Latest st) (Safe st) n)) as Hd.
  { intros st v n Hv j. unfold decode_state_field. by rewrite Hv. }
  erewrite fold_fields_cons; [|apply (Hd _ _ _ (Uint64_JSON l Hl))].
  erewrite fold_fields_cons; [|apply (Hd _ _ _ (Uint64_JSON s Hs))].
  erewrite fold_fields_cons; [|apply (Hd _ _ _ (Uint64_JSON f Hf))]. done.
Qed.

Lemma key_inj ct t1 t2 : key ct t1 = key ct t2 -> t1 = t2.
Proof. unfold key. intros H. by simplify_eq. Qed.

Lemma tag_ne (p1 p2 : string) v1 v2 :
  match p1, p2 with String c1 _, String c2 _ => c1 <> c2 | _, _ => False end -> (p1 +:+ v1) <> (p2 +:+ v2).
Proof. destruct p1, p2; cbn; try done. intros Hc H. simplify_eq. Qed.

(** A payload that was posted: the state and the leader are in the store, the lock key is as before. *)
Lemma postPayload_spec val r ct r' ct' :
  postPayload val r ct = (r', ct') ->
  r_Get (key ct "mutex") r' = r_Get (key ct "mutex") r /\
  (leader ct' = false /\ ct' = set_leader false ct \/
   ct' = set_remote (local ct) (set_leaderName (hostname ct) ct) /\
   r_Get (key ct ("state:" +:+ val)) r' = inl (Some (Marshal (state_json (local ct)))) /\
   r_Get (key ct ("leader:" +:+ val)) r' = inl (Some (hostname ct))).
Proof.
  unfold postPayload.
  destruct (r_Set (key ct ("state:" +:+ val)) _ _ r) as [r1 e1] eqn:H1.
  assert (Hm1 : r_Get (key ct "mutex") r1 = r_Get (key ct "mutex") r).
  { eapply r_Set_other; [exact H1|]. intros E%key_inj. by apply (tag_ne "m" "state:" "utex" val) in E. }
  destruct e1 as [e1|]; [intros [= <- <-]; by auto|].
  destruct (r_Set (key ct ("leader:" +:+ val)) _ _ r1) as [r2 e2] eqn:H2.
  assert (Hm2 : r_Get (key ct "mutex") r2 = r_Get (key ct "mutex") r).
  { rewrite <- Hm1. eapply r_Set_other; [exact H2|]. intros E%key_inj.
    by apply (tag_ne "m" "leader:" "utex" val) in E. }
  destruct e2 as [e2|]; [intros [= <- <-]; by auto|]. intros [= <- <-]. split; [done|]. right.
  split; [by unfold update; destruct (local ct)|]. split; [|by eapply r_Set_get].
  rewrite <- (r_Set_get _ _ _ _ _ H1). eapply r_Set_other; [exact H2|]. intros E%key_inj.
  by apply (tag_ne "state:" "leader:" val val) in E.
Qed.

Lemma heartbeat_follow r ct val :
  r_Get (key ct "mutex") r = inl (Some val) -> val <> "" -> leader ct = false ->
  stateHeartbeat r ct = (ct1 ← follow val r ct; Ret (r, ct1)).
Proof.
  intros Hm Hv Hl. unfold stateHeartbeat. rewrite Hm. cbn [from_option id].
  destruct (streq_spec val "") as [|_]; [done|]. cbn [negb]. by rewrite Hl.
Qed.

Lemma follow_leader val r ct ct' : follow val r ct = Ret ct' -> leader ct' = leader ct.
Proof. unfold follow. repeat case_match; go_simpl; intros H'; by try injection H' as <-. Qed.

(** A follower of the leader that has posted [st] under the lock value [lv] adopts it. *)
Lemma follow_posted r b lv host st :
  r_Get (key b "mutex") r = inl (Some lv) -> lv <> "" -> leader b = false -> state_ok st ->
  r_Get (key b ("state:" +:+ lv)) r = inl (Some (Marshal (state_json st))) ->
  r_Get (key b ("leader:" +:+ lv)) r = inl (Some host) ->
  exists b1, stateHeartbeat r b = Ret (r, b1) /\ remote b1 = st /\ leader b1 = false /\ leaderName b1 = host /\
    namespace b1 = namespace b.
Proof.
  intros Hm Hlv Hb Hok Hst Hld. rewrite (heartbeat_follow _ _ _ Hm Hlv Hb). unfold follow. rewrite Hld, Hst. cbn [from_option id].
  destruct (streq_spec (Marshal (state_json st)) "") as [E|_].
  { exfalso. pose proof (state_roundtrip _ Hok) as Hrt. rewrite E in Hrt. discriminate Hrt. }
  rewrite state_roundtrip by done. go_simpl. eexists. split; [done|]. cbn. split; [by destruct st|done].
Qed.

(** What a proxy that has become the leader leaves in the store. *)
Lemma new_leader_posts r a r1 a1 :
  leader a = false -> stateHeartbeat r a = Ret (r1, a1) -> leader a1 = true ->
  remote a1 = local a /\ exists lv, lv <> "" /\ r_Get (key a "mutex") r1 = inl (Some lv) /\
    r_Get (key a ("state:" +:+ lv)) r1 = inl (Some (Marshal (state_json (local a)))) /\
    r_Get (key a ("leader:" +:+ lv)) r1 = inl (Some (hostname a)).
Proof.
  intros Ha H Ha1. unfold stateHeartbeat in H. rewrite Ha in H.
  destruct (r_Get (key a "mutex") r) as [v|err]; [|simplify_eq; congruence].
  destruct (negb (default "" v ==s "")).
  { apply go_bind_ret in H as (ct1 & Hf & [= <- <-]). apply follow_leader in Hf. congruence. }
  destruct (negb (Valid (local a))); [simplify_eq; congruence|].
  destruct (_ && _); [simplify_eq; congruence|].
  destruct (m_Lock (key a "mutex") (lockPeriod a) r) as [r0 [lv|e]] eqn:Hlock; [|simplify_eq; done].
  apply m_Lock_get in Hlock as [Hlv Hmut]. injection H as H.
  apply postPayload_spec in H as [Hm [[Hf _]|(-> & Hst & Hld)]]; [congruence|].
  cbn [local set_leader set_redlock set_remote set_leaderName remote hostname] in *.
  change (key (set_leader true (set_redlock lv a))) with (key a) in *.
  split; [done|]. exists lv. split; [done|]. split; [etransitivity; [exact Hm|exact Hmut]|done].
Qed.

(** The heartbeats of several proxies, one after the other. *)
Fixpoint heartbeats (r : R) (cts : list RedisConsensusTracker) : go (R * list RedisConsensusTracker) :=
  match cts with
  | [] => Ret (r, [])
  | ct :: cts' =>
      '(r1, ct1) ← stateHeartbeat r ct;
      '(r2, cts1) ← heartbeats r1 cts';
      Ret (r2, ct1 :: cts1)
  end.

Lemma followers_adopt r lv host st ns bs :
  lv <> "" -> state_ok st -> (forall b, namespace b = ns -> r_Get (key b "mutex") r = inl (Some lv) /\
    r_Get (key b ("state:" +:+ lv)) r = inl (Some (Marshal (state_json st))) /\
    r_Get (key b ("leader:" +:+ lv)) r = inl (Some host)) ->
  Forall (fun b => leader b = false /\ namespace b = ns) bs ->
  exists bs1, heartbeats r bs = Ret (r, bs1) /\
    Forall2 (fun b b1 => remote b1 = st /\ leader b1 = false /\ leaderName b1 = host) bs bs1.
Proof.
  intros Hlv Hok Hst. induction 1 as [|b bs [Hb Hns] _ IH]; cbn [heartbeats]; [by eauto|].
  destruct (Hst b Hns) as (Hm & Hs & Hl).
  destruct (follow_posted r b lv host st Hm Hlv Hb Hok Hs Hl) as (b1 & -> & H1 & H2 & H3 & _). go_simpl.
  destruct IH as (bs1 & -> & HF). go_simpl. eexists. split; [done|]. by constructor.
Qed.

(** C27. An election converges in one round. When the lock is gone and Redis answers, the first proxy
    whose heartbeat runs with a valid local state that is not behind the shared state it last saw
    becomes the leader and serves its own block numbers; all the followers of the same
    namespace whose heartbeats run after it, however many, serve exactly those and know its name. *)
Theorem election_converges r c bs r0 lv :
  r_Get (key c "mutex") r = inl None -> leader c = false -> Valid (local c) = true -> state_ok (local c) ->
  Valid (remote c) && Behind (local c) (remote c) = false ->
  m_Lock (key c "mutex") (lockPeriod c) r = (r0, inl lv) -> (forall k v d s, (r_Set k v d s).2 = None) ->
  Forall (fun b => leader b = false /\ namespace b = namespace c) bs ->
  exists r1 c1 bs1, heartbeats r (c :: bs) = Ret (r1, c1 :: bs1) /\ leader c1 = true /\ remote c1 = local c /\
    Forall2 (fun b b1 => remote b1 = local c /\ leader b1 = false /\ leaderName b1 = hostname c) bs bs1.
Proof.
  intros Hm Hl Hv Hok Hb Hlock Hset Hbs. cbn [heartbeats].
  assert (Hlead : exists r1 c1, stateHeartbeat r c = Ret (r1, c1) /\ leader c1 = true).
  { unfold stateHeartbeat. rewrite Hm, Hv, Hb, Hlock. cbn [from_option id negb]. unfold postPayload.
    match goal with |- context [r_Set ?k ?v ?d ?s] => pose proof (Hset k v d s); destruct (r_Set k v d s) as [s1 e1] end.
    cbn in *. subst e1.
    match goal with |- context [r_Set ?k ?v ?d ?s] => pose proof (Hset k v d s); destruct (r_Set k v d s) as [s2 e2] end.
    cbn in *. subst e2. eauto. }
  destruct Hlead as (r1 & c1 & Hhb & Hc1). rewrite Hhb. go_simpl.
  destruct (new_leader_posts r c r1 c1 Hl Hhb Hc1) as (Hrem & lv1 & Hlv1 & H1 & H2 & H3).
  destruct (followers_adopt r1 lv1 (hostname c) (local c) (namespace c) bs Hlv1 Hok) as (bs1 & -> & HF); [|done|].
  - intros b Hns. assert (Hk : forall tag, key b tag = key c tag) by (intros tag; unfold key; by rewrite Hns).
    rewrite !Hk. auto.
  - go_simpl. eexists _, _, _. split; [done|]. auto.
Qed.

(** C35. Taking the lead never moves the served block numbers back: a proxy only becomes the leader
    with a valid local state that is not behind a valid shared state it last saw. A heartbeat
    is one step: the local state does not change while it runs. *)
Theorem new_leader_not_behind r ct r1 ct1 :
  leader ct = false -> stateHeartbeat r ct = Ret (r1, ct1) -> leader ct1 = true ->
  remote ct1 = local ct /\ Valid (remote ct1) = true /\
  (Valid (remote ct) = true ->
   Latest (remote ct) <= Latest (remote ct1) /\ Safe (remote ct) <= Safe (remote ct1) /\
   Finalized (remote ct) <= Finalized (remote ct1)).
Proof.
  intros Hl H H1. unfold stateHeartbeat in H. rewrite Hl in H.
  destruct (r_Get (key ct "mutex") r) as [v|err]; [|simplify_eq; congruence].
  destruct (negb (default "" v ==s "")).
  { apply go_bind_ret in H as (ct0 & Hf & [= <- <-]). apply follow_leader in Hf. congruence. }
  destruct (Valid (local ct)) eqn:Hv; cbn [negb] in H; [|simplify_eq; congruence].
  destruct (Valid (remote ct) && Behind (local ct) (remote ct)) eqn:Hb; [simplify_eq; congruence|].
  destruct (m_Lock _ _ r) as [r0 [lv|e]]; [|simplify_eq; done]. injection H as H.
  apply postPayload_spec in H as [_ [[Hf _]|(-> & _)]]; [congruence|]. cbn. split; [done|]. split; [done|].
  intros Hvr. rewrite Hvr in Hb. unfold Behind in Hb. cbn [andb] in Hb. bsimp. lia.
Qed.

(** A stale leader is stuck: when a proxy still believes it leads but another one holds the
    lock, a heartbeat changes nothing. It keeps the flag, cannot release a lock that
    is not its own, and so never follows the new leader: it goes on serving its old
    block numbers. *)
Theorem stale_leader_stuck r ct lv val :
  leader ct = true -> redlock ct = Some lv -> r_Get (key ct "mutex") r = inl (Some val) ->
  val <> "" -> val <> lv ->
  stateHeartbeat r ct = Ret (r, ct).
Proof.
  intros Hl Hr Hm Hv Hne. unfold stateHeartbeat. rewrite Hm. cbn [from_option id].
  destruct (streq_spec val "") as [|_]; [done|]. cbn [negb]. rewrite Hl, Hr.
  destruct (m_Extend_other _ lv val r Hm Hne) as [e1 ->]. cbn [record_error]. go_simpl. unfold release. rewrite Hr.
  destruct (m_Unlock_other _ lv val r Hm Hne) as [e2 ->]. done.
Qed.

End Properties.

(** ** A Redis server *)

(** A map from keys to values whose calls all succeed; lock values are numbered. *)
Record mem_redis := mkMem { mem : gmap string string; next_lock : nat }.

Definition lock_value (n : nat) : string := ("lock" +:+ str (replicate n (chr 49))).

#[export] Instance mem_redis_ops : Redis mem_redis := {
  r_Get k r := inl (mem r !! k);
  r_Set k v _ r := (mkMem (<[k := v]> (mem r)) (next_lock r), None);
  m_Lock k _ r :=
    match mem r !! k with
    | Some _ => (r, inr (EOther "lock already taken"))
    | None => (mkMem (<[k := lock_value (next_lock r)]> (mem r)) (S (next_lock r)), inl (lock_value (next_lock r)))
    end;
  m_Extend k v r := if decide (mem r !! k = Some v) then (r, true, None) else (r, false, Some (EOther "lock already taken"));
  m_Unlock k v r := if decide (mem r !! k = Some v) then (mkMem (delete k (mem r)) (next_lock r), true, None)
                    else (r, false, Some (EOther "lock already taken"));
}.

#[export] Instance mem_redis_laws : RedisLaws mem_redis.
Proof.
  split; cbn.
  - intros k v d r r' [= <-]. cbn. by rewrite lookup_insert_eq.
  - intros k k' v d r r' e [= <- <-] Hne. cbn. by rewrite lookup_insert_ne.
  - intros k d r r' v. destruct (mem r !! k); [done|]. intros [= <- <-]. split; [done|]. cbn. by rewrite lookup_insert_eq.
  - intros k v v' r [= ->] Hne. rewrite decide_False; [by eauto|]. congruence.
  - intros k v v' r [= ->] Hne. rewrite decide_False; [by eauto|]. congruence.
Qed.

(** ** Witnesses *)

Definition demo_tracker (host : string) (st : ConsensusTrackerState) : RedisConsensusTracker :=
  set_local st (NewRedisConsensusTracker "main" host [WithLockPeriod (10 * Second)]).

Definition demo_redis : mem_redis := mkMem ∅ 0.

Definition demo_a : RedisConsensusTracker := demo_tracker "a" (mkState 100 90 80).

Lemma election_converges_witness :
  exists r1 a1 b1 c1, heartbeats demo_redis [demo_a; demo_tracker "b" (mkState 99 90 80); demo_tracker "c" (mkState 7 6 5)]
    = Ret (r1, [a1; b1; c1]) /\ leader a1 = true /\ remote b1 = mkState 100 90 80 /\ remote c1 = mkState 100 90 80.
Proof.
  destruct (election_converges demo_redis demo_a [demo_tracker "b" (mkState 99 90 80); demo_tracker "c" (mkState 7 6 5)]
    (m_Lock (key demo_a "mutex") (lockPeriod demo_a) demo_redis).1 (lock_value 0)) as (r1 & a1 & bs1 & H & Hl & _ & HF).
  - reflexivity.
  - reflexivity.
  - reflexivity.
  - vm_compute. intuition discriminate.
  - reflexivity.
  - reflexivity.
  - reflexivity.
  - repeat constructor.
  - inversion HF as [|? b1 ? ? (Hb & _) HF']; subst. inversion HF' as [|? c1 ? ? (Hc & _) HF'']; subst. inversion HF''; subst.
    exists r1, a1, b1, c1. auto.
Defined.

Lemma new_leader_not_behind_witness :
  exists r1 a1, stateHeartbeat demo_redis demo_a = Ret (r1, a1) /\ remote a1 = mkState 100 90 80.
Proof.
  destruct (stateHeartbeat demo_redis demo_a) as [[r1 a1]|] eqn:E; [|vm_compute in E; discriminate E].
  assert (leader a1 = true) as Hl by (vm_compute in E; injection E as _ <-; reflexivity).
  destruct (new_leader_not_behind demo_redis demo_a r1 a1) as (Hr & _); [reflexivity|exact E|exact Hl|].
  exists r1, a1. split; [reflexivity|exact Hr].
Defined.

Definition demo_stale : RedisConsensusTracker := set_leader true (set_redlock "old" demo_a).

Lemma stale_leader_stuck_witness :
  let r := mkMem {[ "consensus:main:mutex" := "new" ]} 7 in stateHeartbeat r demo_stale = Ret (r, demo_stale).
Proof. apply (stale_leader_stuck _ demo_stale "old" "new"); [reflexivity|reflexivity|reflexivity|discriminate|discriminate]. Defined.
