(* ===== verification/Poller.v ===== *)
(** * The consensus poller: [consensus_poller.go]

    Each backend of a group is polled for its sync state, its peers and its latest,
    safe and finalized blocks; the group then agrees on the highest block that all
    the candidates report alike. The backends are identified by their names. The
    clock, the replies of the backends and the iteration order of Go maps are arguments. *)

From stdpp Require Import base list strings gmap.
From Stdlib Require Import ZArith Lia Ascii.
From Stdlib Require Strings.String.
From S2P Require Import Prelude SlidingWindow SlidingWindowRefinement Json JsonRoundtrip Geth Rpc Reader Backend Tracker.

Local Open Scope Z_scope.

Record backendState := mkBS {
  latestBlockNumber : Z;
  latestBlockHash : string;
  safeBlockNumber : Z;
  finalizedBlockNumber : Z;
  peerCount : Z;
  inSync : bool;
  lastUpdate : Time;
  bannedUntil : Time;
}.

Definition zero_state : backendState := mkBS 0 "" 0 0 0 false 0 0.

Definition bs_IsBanned (now : Time) (bs : backendState) : bool := now <? bannedUntil bs.

Section Poller.
Context {G : Geth} {W : Type} {WO : WindowOps W} {T : Type} {TO : ConsensusTracker T}.
Notation Backend := (Backend (W := W)).

(** The members of a group: its backends in order, and which of them are fallbacks. *)
Record members := mkMembers {
  Backends : list Backend;
  FallbackBackends : gmap string bool;
}.

Definition Fallbacks (ms : members) : list Backend :=
  List.filter (fun b => match FallbackBackends ms !! Name b with Some fb => fb | None => false end) (Backends ms).

Definition Primaries (ms : members) : list Backend :=
  List.filter (fun b => match FallbackBackends ms !! Name b with Some fb => negb fb | None => false end) (Backends ms).

(** Writing to a shared backend. *)
Definition set_backend (b : Backend) (ms : members) : members :=
  mkMembers (map (fun b' => if Name b' ==s Name b then b else b') (Backends ms)) (FallbackBackends ms).

Record ConsensusPoller := mkPoller {
  cp_state : gmap string backendState;
  consensusGroup : list string;
  tracker : T;
  listeners : list string;      (* the functions to call when the consensus breaks, by name *)
  notified : list string;       (* the calls made to them *)
  minPeerCount : Z;
  banPeriod : Duration;
  maxUpdateThreshold : Duration;
  maxBlockLag : Z;
  cp_maxBlockRange : Z;
  interval : Duration;
}.

Definition ConsensusOpt : Type := ConsensusPoller -> ConsensusPoller.

Definition set_cp_state (st : gmap string backendState) (cp : ConsensusPoller) : ConsensusPoller :=
  mkPoller st (consensusGroup cp) (tracker cp) (listeners cp) (notified cp) (minPeerCount cp) (banPeriod cp)
    (maxUpdateThreshold cp) (maxBlockLag cp) (cp_maxBlockRange cp) (interval cp).

Definition WithTracker (t : T) : ConsensusOpt := fun cp =>
  mkPoller (cp_state cp) (consensusGroup cp) t (listeners cp) (notified cp) (minPeerCount cp) (banPeriod cp)
    (maxUpdateThreshold cp) (maxBlockLag cp) (cp_maxBlockRange cp) (interval cp).

Definition WithBanPeriod (d : Duration) : ConsensusOpt := fun cp =>
  mkPoller (cp_state cp) (consensusGroup cp) (tracker cp) (listeners cp) (notified cp) (minPeerCount cp) d
    (maxUpdateThreshold cp) (maxBlockLag cp) (cp_maxBlockRange cp) (interval cp).

Definition WithMaxUpdateThreshold (d : Duration) : ConsensusOpt := fun cp =>
  mkPoller (cp_state cp) (consensusGroup cp) (tracker cp) (listeners cp) (notified cp) (minPeerCount cp) (banPeriod cp)
    d (maxBlockLag cp) (cp_maxBlockRange cp) (interval cp).

Definition WithMaxBlockLag (n : Z) : ConsensusOpt := fun cp =>
  mkPoller (cp_state cp) (consensusGroup cp) (tracker cp) (listeners cp) (notified cp) (minPeerCount cp) (banPeriod cp)
    (maxUpdateThreshold cp) n (cp_maxBlockRange cp) (interval cp).

Definition WithMaxBlockRange (n : Z) : ConsensusOpt := fun cp =>
  mkPoller (cp_state cp) (consensusGroup cp) (tracker cp) (listeners cp) (notified cp) (minPeerCount cp) (banPeriod cp)
    (maxUpdateThreshold cp) (maxBlockLag cp) n (interval cp).

Definition WithMinPeerCount (n : Z) : ConsensusOpt := fun cp =>
  mkPoller (cp_state cp) (consensusGroup cp) (tracker cp) (listeners cp) (notified cp) n (banPeriod cp)
    (maxUpdateThreshold cp) (maxBlockLag cp) (cp_maxBlockRange cp) (interval cp).

Definition WithPollerInterval (d : Duration) : ConsensusOpt := fun cp =>
  mkPoller (cp_state cp) (consensusGroup cp) (tracker cp) (listeners cp) (notified cp) (minPeerCount cp) (banPeriod cp)
    (maxUpdateThreshold cp) (maxBlockLag cp) (cp_maxBlockRange cp) d.

Definition set_listeners (ls : list string) (cp : ConsensusPoller) : ConsensusPoller :=
  mkPoller (cp_state cp) (consensusGroup cp) (tracker cp) ls (notified cp) (minPeerCount cp) (banPeriod cp)
    (maxUpdateThreshold cp) (maxBlockLag cp) (cp_maxBlockRange cp) (interval cp).

Definition AddListener (listener : string) : ConsensusPoller -> ConsensusPoller :=
  fun cp => set_listeners (listeners cp ++ [listener]) cp.

Definition ClearListeners : ConsensusPoller -> ConsensusPoller := set_listeners [].

Definition WithListener (listener : string) : ConsensusOpt := fun cp => AddListener listener cp.

Definition DefaultPollerInterval : Duration := Second.

(** [Reset] gives every backend a fresh state, so an entry is never missing afterwards. *)
Definition Reset (ms : members) (cp : ConsensusPoller) : ConsensusPoller :=
  set_cp_state (foldl (fun st b => <[Name b := zero_state]> st) (cp_state cp) (Backends ms)) cp.

Definition NewConsensusPoller (t : T) (ms : members) (opts : list ConsensusOpt) : ConsensusPoller :=
  Reset ms (foldl (fun cp opt => opt cp)
    (mkPoller ∅ [] t [] [] 3 (5 * Minute) (30 * Second) 8 0 DefaultPollerInterval) opts).

Definition GetBackendState (cp : ConsensusPoller) (be : Backend) : backendState :=
  default zero_state (cp_state cp !! Name be).

Definition IsBanned (now : Time) (cp : ConsensusPoller) (be : Backend) : bool :=
  bs_IsBanned now (GetBackendState cp be).

Definition BannedUntil (cp : ConsensusPoller) (be : Backend) : Time := bannedUntil (GetBackendState cp be).

Definition GetLastUpdate (cp : ConsensusPoller) (be : Backend) : Time := lastUpdate (GetBackendState cp be).

Definition GetLatestBlock (bs : backendState) : Z * string := (latestBlockNumber bs, latestBlockHash bs).

Definition GetConsensusGroup (cp : ConsensusPoller) : list string := consensusGroup cp.

Definition poller_GetLatestBlockNumber (cp : ConsensusPoller) : Z := GetLatestBlockNumber (tracker cp).
Definition poller_GetSafeBlockNumber (cp : ConsensusPoller) : Z := GetSafeBlockNumber (tracker cp).
Definition poller_GetFinalizedBlockNumber (cp : ConsensusPoller) : Z := GetFinalizedBlockNumber (tracker cp).

Definition Ban (now : Time) (be : Backend) (cp : ConsensusPoller) : ConsensusPoller :=
  if forcedCandidate be then cp
  else
    let bs := GetBackendState cp be in
    set_cp_state (<[Name be := mkBS 0 (latestBlockHash bs) 0 0 (peerCount bs) (inSync bs) (lastUpdate bs)
                                 (now + banPeriod cp)]> (cp_state cp)) cp.

Definition Unban (now : Time) (be : Backend) (cp : ConsensusPoller) : ConsensusPoller :=
  let bs := GetBackendState cp be in
  set_cp_state (<[Name be := mkBS (latestBlockNumber bs) (latestBlockHash bs) (safeBlockNumber bs)
                               (finalizedBlockNumber bs) (peerCount bs) (inSync bs) (lastUpdate bs)
                               (now - 10 * Hour)]> (cp_state cp)) cp.

Definition setBackendState (now : Time) (be : Backend) (peers : Z) (sync : bool) (latestN : Z) (latestH : string)
    (safeN finalizedN : Z) (cp : ConsensusPoller) : ConsensusPoller :=
  let bs := GetBackendState cp be in
  set_cp_state (<[Name be := mkBS latestN latestH safeN finalizedN peers sync now (bannedUntil bs)]>
                  (cp_state cp)) cp.

Definition checkExpectedBlockTags (currentLatest oldSafe currentSafe oldFinalized currentFinalized : Z) : bool :=
  (oldFinalized <=? currentFinalized) && (oldSafe <=? currentSafe) && (currentFinalized <=? currentSafe)
  && (currentSafe <=? currentLatest).

(** ** Calls to a backend *)

Definition no_ctx : Ctx := mkCtx "" "" "" None None.

(** A type assertion to [string], and [hexutil.MustDecodeUint64]. *)
Definition as_string (j : option json) : go string :=
  match j with
  | Some (JStr s) => Ret s
  | _ => Panic "interface conversion: interface is not string"
  end.

Definition MustDecodeUint64 (s : string) : go Z :=
  match DecodeUint64 s with
  | Some n => Ret n
  | None => Panic "invalid hex number"
  end.

Definition fetchBlock (be : Backend) (block : string) (a : attempt) : go (Backend * (Z * string + error)) :=
  '(be1, r) ← ForwardRPC be no_ctx "67" "eth_getBlockByNumber" [JStr block; JBool false] a;
  match r with
  | inr err => Ret (be1, inr err)
  | inl res =>
      match res_Result res with
      | Some (RJson (JObj jsonMap)) =>
          s ← as_string (obj_get "number" jsonMap);
          n ← MustDecodeUint64 s;
          h ← as_string (obj_get "hash" jsonMap);
          Ret (be1, inl (n, h))
      | _ => Ret (be1, inr (EOther "unexpected response to eth_getBlockByNumber"))
      end
  end.

Definition getPeerCount (be : Backend) (a : attempt) : go (Backend * (Z + error)) :=
  '(be1, r) ← ForwardRPC be no_ctx "67" "net_peerCount" [] a;
  match r with
  | inr err => Ret (be1, inr err)
  | inl res =>
      match res_Result res with
      | Some (RJson (JStr s)) => n ← MustDecodeUint64 s; Ret (be1, inl n)
      | _ => Ret (be1, inr (EOther "unexpected response to net_peerCount"))
      end
  end.

(** [strconv.ParseBool]. *)
Definition ParseBool (s : string) : option bool :=
  if existsb (fun t => s ==s t) ["1"; "t"; "T"; "TRUE"; "true"; "True"] then Some true
  else if existsb (fun t => s ==s t) ["0"; "f"; "F"; "FALSE"; "false"; "False"] then Some false
  else None.

Definition isInSync (be : Backend) (a : attempt) : go (Backend * (bool + error)) :=
  '(be1, r) ← ForwardRPC be no_ctx "67" "eth_syncing" [] a;
  match r with
  | inr err => Ret (be1, inr err)
  | inl res =>
      match res_Result res with
      | Some (RJson (JBool syncing)) => Ret (be1, inl (negb syncing))
      | Some (RJson (JStr typed)) =>
          match ParseBool typed with
          | Some syncing => Ret (be1, inl (negb syncing))
          | None => Ret (be1, inr (EOther "strconv.ParseBool: invalid syntax"))
          end
      | _ => Ret (be1, inl false)
      end
  end.

(** What polling a backend finds: nothing usable, or its sync state, peers and blocks. *)
Record poll_result := mkPoll {
  pr_inSync : bool;
  pr_peers : Z;
  pr_latest : Z;
  pr_hash : string;
  pr_safe : Z;
  pr_finalized : Z;
}.

(** The five calls of [UpdateBackend], [net i] the exchange of the [i]-th; an answer
    of zero peers or block zero counts as a network error of the backend. *)
Definition poll_backend (be : Backend) (net : nat -> attempt) : go (Backend * option poll_result) :=
  '(be, r) ← isInSync be (net 0%nat);
  match r with
  | inr _ => Ret (be, None)
  | inl sync =>
      '(be, peers) ← (if skipPeerCountCheck be then Ret (be, Some 0)
                      else '(be, r) ← getPeerCount be (net 1%nat);
                           match r with
                           | inr _ => Ret (be, None)
                           | inl n => if n =? 0 then Ret (incr_errors (at_end (net 1%nat)) be, None)
                                      else Ret (be, Some n)
                           end);
      match peers with
      | None => Ret (be, None)
      | Some peers =>
          '(be, r) ← fetchBlock be "latest" (net 2%nat);
          match r with
          | inr _ => Ret (be, None)
          | inl (latestN, latestH) =>
              if latestN =? 0 then Ret (incr_errors (at_end (net 2%nat)) be, None) else
              '(be, r) ← fetchBlock be "safe" (net 3%nat);
              match r with
              | inr _ => Ret (be, None)
              | inl (safeN, _) =>
                  if safeN =? 0 then Ret (incr_errors (at_end (net 3%nat)) be, None) else
                  '(be, r) ← fetchBlock be "finalized" (net 4%nat);
                  match r with
                  | inr _ => Ret (be, None)
                  | inl (finalizedN, _) =>
                      if finalizedN =? 0 then Ret (incr_errors (at_end (net 4%nat)) be, None)
                      else Ret (be, Some (mkPoll sync peers latestN latestH safeN finalizedN))
                  end
              end
          end
      end
  end.

(** [UpdateBackend], the checks before the calls at [now] and the updates after them at [later]. *)
Definition UpdateBackend (now later : Time) (be : Backend) (net : nat -> attempt) (ms : members) (cp : ConsensusPoller)
  : go (members * ConsensusPoller) :=
  let bs := GetBackendState cp be in
  if bs_IsBanned now bs then Ret (ms, cp)
  else if negb (IsHealthy now be) && negb (forcedCandidate be) then Ret (ms, Ban now be cp)
  else
    '(be1, found) ← poll_backend be net;
    let ms1 := set_backend be1 ms in
    match found with
    | None => Ret (ms1, cp)
    | Some p =>
        let cp1 := setBackendState later be (pr_peers p) (pr_inSync p) (pr_latest p) (pr_hash p)
                     (pr_safe p) (pr_finalized p) cp in
        if negb (checkExpectedBlockTags (pr_latest p) (safeBlockNumber bs) (pr_safe p)
                   (finalizedBlockNumber bs) (pr_finalized p)) && negb (forcedCandidate be)
        then Ret (ms1, Ban later be cp1)
        else Ret (ms1, cp1)
    end.

(** ** Candidates *)

Definition is_candidate (now : Time) (cp : ConsensusPoller) (be : Backend) : bool :=
  let bs := GetBackendState cp be in
  if forcedCandidate be then true
  else if bs_IsBanned now bs then false
  else if negb (IsHealthy now be) then false
  else if negb (skipPeerCountCheck be) && (peerCount bs <? minPeerCount cp) then false
  else if negb (inSync bs) then false
  else if lastUpdate bs + maxUpdateThreshold cp <? now then false
  else true.

Definition highest_latest (cs : list (Backend * backendState)) : Z :=
  foldl (fun h c => if h <? latestBlockNumber c.2 then latestBlockNumber c.2 else h) 0 cs.

Definition FilterCandidates (now : Time) (cp : ConsensusPoller) (backends : list Backend)
  : list (Backend * backendState) :=
  let candidates := map (fun be => (be, GetBackendState cp be)) (List.filter (is_candidate now cp) backends) in
  let highest := highest_latest candidates in
  List.filter (fun c => negb (maxBlockLag cp <? u64 (highest - latestBlockNumber c.2))) candidates.

Definition getConsensusCandidates (now : Time) (ms : members) (cp : ConsensusPoller)
  : list (Backend * backendState) :=
  match FilterCandidates now cp (Primaries ms) with
  | [] => FilterCandidates now cp (Fallbacks ms)
  | healthyPrimaries => healthyPrimaries
  end.

(** ** Agreement *)

Record lowest := mkLowest {
  lowestLatestBlock : Z;
  lowestLatestBlockHash : string;
  lowestFinalizedBlock : Z;
  lowestSafeBlock : Z;
}.

Definition lowest_step (lo : lowest) (c : Backend * backendState) : lowest :=
  let bs := c.2 in
  let '(l, h) := if (lowestLatestBlock lo =? 0) || (latestBlockNumber bs <? lowestLatestBlock lo)
                 then (latestBlockNumber bs, latestBlockHash bs)
                 else (lowestLatestBlock lo, lowestLatestBlockHash lo) in
  let f := if (lowestFinalizedBlock lo =? 0) || (finalizedBlockNumber bs <? lowestFinalizedBlock lo)
           then finalizedBlockNumber bs else lowestFinalizedBlock lo in
  let s := if (lowestSafeBlock lo =? 0) || (safeBlockNumber bs <? lowestSafeBlock lo)
           then safeBlockNumber bs else lowestSafeBlock lo in
  mkLowest l h f s.

Definition lowest_of (cs : list (Backend * backendState)) : lowest := foldl lowest_step (mkLowest 0 "" 0 0) cs.

End Poller.

(** The agreement loop over any way of fetching a block from a backend. *)
Section Agreement.
Context {S : Type} (fetch : nat -> string -> Z -> S -> go (S * (Z * string + error))).

(** One pass over the candidates: whether all agreed, the proposed hash, and whether
    the consensus broke. An error of a backend is skipped. *)
Fixpoint check_round (i : nat) (current proposed : Z) (cands : list string) (hash : string) (broken : bool) (s : S)
  : go (S * bool * string * bool) :=
  match cands with
  | [] => Ret (s, true, hash, broken)
  | be :: cands' =>
      '(s1, r) ← fetch i be proposed s;
      match r with
      | inr _ => check_round i current proposed cands' hash broken s1
      | inl (n, h) =>
          let hash := if hash ==s "" then h else hash in
          if negb (n =? proposed) || negb (h ==s hash)
          then Ret (s1, false, hash, broken || (n <=? current))
          else check_round i current proposed cands' hash broken s1
      end
  end.

(** The rounds from the [i]-th on, each with its own iteration order; [None] when the fuel runs out. *)
Fixpoint agree (fuel i : nat) (order : nat -> list string) (current proposed : Z) (hash : string) (broken : bool)
    (s : S) : go (option (S * Z * bool)) :=
  match fuel with
  | O => Ret None
  | Datatypes.S fuel =>
      '(s1, allAgreed, hash1, broken1) ← check_round i current proposed (order i) hash broken s;
      if allAgreed : bool then Ret (Some (s1, proposed, broken1))
      else agree fuel (Datatypes.S i) order current (u64 (proposed - 1)) "" broken1 s1
  end.

End Agreement.

Section Consensus.
Context {G : Geth} {W : Type} {WO : WindowOps W} {T : Type} {TO : ConsensusTracker T}.
Notation Backend := (Backend (W := W)).

(** [fetchBlock] on a member of the group, which it changes. *)
Definition fetch_member (net : nat -> string -> attempt) (i : nat) (name : string) (n : Z) (ms : members (W := W))
  : go (members * (Z * string + error)) :=
  match List.find (fun b => Name b ==s name) (Backends ms) with
  | None => Panic "nil pointer dereference"
  | Some be =>
      '(be1, r) ← fetchBlock be (Uint64_String n) (net i name);
      Ret (set_backend be1 ms, r)
  end.

(** What follows the agreement: the listeners are told of a break, the tracker gets the
    blocks, and the consensus group becomes the candidates. *)
Definition publish (ms : members (W := W)) (candidates : list (Backend * backendState)) (lo : lowest) (proposed : Z)
    (broken : bool) (cp : ConsensusPoller (T := T)) : ConsensusPoller (T := T) :=
  let t := SetFinalizedBlockNumber (lowestFinalizedBlock lo)
             (SetSafeBlockNumber (lowestSafeBlock lo) (SetLatestBlockNumber proposed (tracker cp))) in
  let group := List.filter (fun name => existsb (fun c => Name c.1 ==s name) candidates)
                 (map Name (Backends ms)) in
  mkPoller (cp_state cp) group t (listeners cp) (if broken : bool then notified cp ++ listeners cp else notified cp)
    (minPeerCount cp) (banPeriod cp) (maxUpdateThreshold cp) (maxBlockLag cp) (cp_maxBlockRange cp) (interval cp).

(** [order i] is the iteration order of the candidates in the [i]-th loop over them. *)
Definition UpdateBackendGroupConsensus (fuel : nat) (now : Time) (order : nat -> list (Backend * backendState) -> list (Backend * backendState))
    (net : nat -> string -> attempt) (ms : members) (cp : ConsensusPoller (T := T))
  : go (option (members * ConsensusPoller (T := T))) :=
  let current := GetLatestBlockNumber (tracker cp) in
  let candidates := getConsensusCandidates now ms cp in
  let lo := lowest_of (order 0%nat candidates) in
  out ← (if 0 <? lowestLatestBlock lo then
           agree (fetch_member net) fuel 1 (fun i => map (fun c => Name c.1) (order i candidates))
             current (lowestLatestBlock lo) (lowestLatestBlockHash lo) false ms
         else Ret (Some (ms, lowestLatestBlock lo, false)));
  match out with
  | None => Ret None
  | Some (ms1, proposed, broken) => Ret (Some (ms1, publish ms candidates lo proposed broken cp))
  end.

End Consensus.
