(* ===== verification/PollerCorrect.v ===== *)
(** * Properties of the consensus poller

    Which backends are candidates, what polling a backend does to its recorded
    state, and that the group agrees on the highest block its candidates share. *)

From stdpp Require Import base list strings gmap.
From Stdlib Require Import ZArith QArith Lia Ascii.
From Stdlib Require Strings.String.
From S2P Require Import Prelude SlidingWindow SlidingWindowRefinement Json JsonRoundtrip Geth Rpc Reader Backend Tracker Poller.

Local Open Scope Z_scope.

(** ** Candidates *)

Section Candidates.
Context {W : Type} {WO : WindowOps W} {T : Type}.
Notation Backend := (Backend (W := W)).
Notation ConsensusPoller := (ConsensusPoller (T := T)).
Implicit Types (cp : ConsensusPoller) (be : Backend).

(** The conditions on a candidate other than its lag. *)
Definition eligible (now : Time) cp be : Prop :=
  let bs := GetBackendState cp be in
  forcedCandidate be = true \/
  bannedUntil bs <= now /\ IsHealthy now be = true /\
  (skipPeerCountCheck be = true \/ minPeerCount cp <= peerCount bs) /\
  inSync bs = true /\ now <= lastUpdate bs + maxUpdateThreshold cp.

Lemma is_candidate_eligible now cp be : is_candidate now cp be = true <-> eligible now cp be.
Proof.
  unfold is_candidate, eligible, bs_IsBanned. destruct (forcedCandidate be); [naive_solver|].
  destruct (Z.ltb_spec now (bannedUntil (GetBackendState cp be))); [naive_solver lia|].
  destruct (IsHealthy now be); cbn [negb]; [|naive_solver].
  destruct (skipPeerCountCheck be); cbn [negb andb];
    destruct (Z.ltb_spec (peerCount (GetBackendState cp be)) (minPeerCount cp));
    destruct (inSync (GetBackendState cp be)); cbn [negb];
    destruct (Z.ltb_spec (lastUpdate (GetBackendState cp be) + maxUpdateThreshold cp) now); naive_solver lia.
Qed.

Lemma highest_latest_spec (cs : list (Backend * backendState)) :
  (forall c, c ∈ cs -> latestBlockNumber c.2 <= highest_latest cs) /\ 0 <= highest_latest cs /\
  (highest_latest cs = 0 \/ exists c, c ∈ cs /\ highest_latest cs = latestBlockNumber c.2).
Proof.
  unfold highest_latest.
  assert (forall h, 0 <= h -> let r := foldl (fun h c => if h <? latestBlockNumber c.2 then latestBlockNumber c.2 else h) h cs in
    (forall c, c ∈ cs -> latestBlockNumber c.2 <= r) /\ h <= r /\ (r = h \/ exists c, c ∈ cs /\ r = latestBlockNumber c.2)) as Hg.
  { induction cs as [|c cs IH]; intros h Hh; cbn.
    { split; [by intros c ?%elem_of_nil|]. split; [lia|by left]. }
    destruct (IH (if h <? latestBlockNumber c.2 then latestBlockNumber c.2 else h)) as (H1 & H2 & H3);
      [destruct (Z.ltb_spec h (latestBlockNumber c.2)); lia|].
    split; [|split].
    - intros d [->|Hd]%elem_of_cons; [|by apply H1].
      destruct (Z.ltb_spec h (latestBlockNumber c.2)); lia.
    - destruct (Z.ltb_spec h (latestBlockNumber c.2)); lia.
    - destruct H3 as [->|(d & Hd & ->)]; [|right; exists d; split; [by right|done]].
      destruct (Z.ltb_spec h (latestBlockNumber c.2)); [right; exists c; split; [by left|done]|by left]. }
  destruct (Hg 0) as (H1 & H2 & H3); [lia|]. auto.
Qed.

Lemma FilterCandidates_spec now cp backends be bs :
  (forall b, b ∈ backends -> is_u64 (latestBlockNumber (GetBackendState cp b))) -> 0 <= maxBlockLag cp ->
  (be, bs) ∈ FilterCandidates now cp backends <->
  be ∈ backends /\ bs = GetBackendState cp be /\ eligible now cp be /\
  forall be', be' ∈ backends -> eligible now cp be' ->
    latestBlockNumber (GetBackendState cp be') - latestBlockNumber bs <= maxBlockLag cp.
Proof.
  intros Hu Hlag. unfold FilterCandidates. set (cs := map _ (List.filter _ backends)).
  assert (Hcs : forall b s, (b, s) ∈ cs <-> b ∈ backends /\ s = GetBackendState cp b /\ eligible now cp b).
  { intros b s. unfold cs. rewrite list_elem_of_In, in_map_iff. split.
    - intros (x & [= <- <-] & [Hx He]%filter_In). by rewrite list_elem_of_In, <- is_candidate_eligible.
    - intros (Hb & -> & He). exists b. split; [done|]. apply filter_In.
      by rewrite <- list_elem_of_In, is_candidate_eligible. }
  destruct (highest_latest_spec cs) as (Hmax & Hpos & Hatt).
  rewrite list_elem_of_In, filter_In, <- list_elem_of_In, Hcs. cbn [snd].
  assert (Hdiff : forall b, b ∈ backends -> (b, GetBackendState cp b) ∈ cs ->
    u64 (highest_latest cs - latestBlockNumber (GetBackendState cp b)) =
    highest_latest cs - latestBlockNumber (GetBackendState cp b)).
  { intros b Hb Hin. apply u64_small. pose proof (Hmax _ Hin) as Hle. cbn in Hle. destruct (Hu b Hb).
    unfold is_u64, two64 in *. split; [lia|]. destruct Hatt as [->|([b2 s2] & Hc & ->)]; [lia|].
    apply Hcs in Hc as (Hb2 & -> & _). destruct (Hu b2 Hb2). cbn. lia. }
  split.
  - intros [(Hb & -> & He) Hle]. split; [done|]. split; [done|]. split; [done|]. intros be' Hb' He'.
    rewrite (Hdiff be) in Hle; [|done|by apply Hcs].
    bsimp. pose proof (Hmax (be', GetBackendState cp be') (proj2 (Hcs _ _) (conj Hb' (conj eq_refl He')))) as Hm.
    cbn in Hm. lia.
  - intros (Hb & -> & He & Hall). split; [done|]. rewrite (Hdiff be); [|done|by apply Hcs]. apply negb_true_iff, Z.ltb_ge.
    destruct Hatt as [Hz|([b2 s2] & Hc & Hh)].
    + destruct (Hu be Hb). lia.
    + apply Hcs in Hc as (Hb2 & -> & He2). rewrite Hh. cbn. by apply Hall.
Qed.

(** Some backend of the list is a candidate exactly when one is eligible: the highest eligible
    one does not lag. *)
Lemma FilterCandidates_nil now cp backends :
  (forall b, b ∈ backends -> is_u64 (latestBlockNumber (GetBackendState cp b))) -> 0 <= maxBlockLag cp ->
  FilterCandidates now cp backends = [] <-> forall b, b ∈ backends -> ~ eligible now cp b.
Proof.
  intros Hu Hlag. split.
  - intros Hnil b Hb He.
    set (cs := map (fun b => (b, GetBackendState cp b)) (List.filter (is_candidate now cp) backends)).
    assert (Hcs : forall c, c ∈ cs <-> c.1 ∈ backends /\ c.2 = GetBackendState cp c.1 /\ eligible now cp c.1).
    { intros [x s]. unfold cs. rewrite list_elem_of_In, in_map_iff. split.
      - intros (y & [= <- <-] & [Hy Hc]%filter_In). by rewrite list_elem_of_In, <- is_candidate_eligible.
      - intros (Hx & Hs & Hc). cbn in *. exists x. split; [by rewrite Hs|]. apply filter_In.
        by rewrite <- list_elem_of_In, is_candidate_eligible. }
    assert (exists c, c ∈ backends /\ eligible now cp c /\ forall d, d ∈ backends -> eligible now cp d ->
      latestBlockNumber (GetBackendState cp d) <= latestBlockNumber (GetBackendState cp c)) as (c & Hc & Hce & Hmax).
    { destruct (highest_latest_spec cs) as (Hmax & Hpos & Hatt).
      assert (Hle : forall d, d ∈ backends -> eligible now cp d -> latestBlockNumber (GetBackendState cp d) <= highest_latest cs)
        by (intros d Hd Hde; exact (Hmax (d, _) (proj2 (Hcs (d, _)) (conj Hd (conj eq_refl Hde))))).
      destruct Hatt as [Hz|([c s] & Hc & Hh)].
      - exists b. split; [done|]. split; [done|]. intros d Hd Hde. specialize (Hle d Hd Hde). destruct (Hu b Hb). lia.
      - apply Hcs in Hc as (Hc & Hs & Hce). cbn in *. exists c. rewrite <- Hs, <- Hh. auto. }
    apply (not_elem_of_nil (A := Backend * backendState) (c, GetBackendState cp c)). rewrite <- Hnil.
    apply FilterCandidates_spec; [done|done|]. split; [done|]. split; [done|]. split; [done|].
    intros d Hd Hde. specialize (Hmax d Hd Hde). lia.
  - intros Hno. destruct (FilterCandidates now cp backends) as [|[b s] l] eqn:E; [done|]. exfalso.
    assert (Hin : (b, s) ∈ FilterCandidates now cp backends) by (rewrite E; by left).
    apply FilterCandidates_spec in Hin as (Hb & _ & He & _); [|done|done]. by apply (Hno b).
Qed.

(** The backends that may be candidates: the primaries, and the fallbacks while no primary is eligible. *)
Definition in_pool (now : Time) cp (ms : members) be : Prop :=
  be ∈ Primaries ms \/ be ∈ Fallbacks ms /\ forall p, p ∈ Primaries ms -> ~ eligible now cp p.

(** C10. The candidates of a group are exactly its eligible backends (forced, or not banned, healthy,
    with enough peers, in sync and recently updated) that are not more than the allowed
    number of blocks behind any other eligible backend; among the primaries if one of them
    is eligible, and among the fallbacks otherwise. The allowed lag is not negative and the
    recorded block numbers are 64-bit. *)
Theorem candidates_exact now cp (ms : members) be bs :
  (forall b, b ∈ Backends ms -> is_u64 (latestBlockNumber (GetBackendState cp b))) ->
  0 <= maxBlockLag cp ->
  (be, bs) ∈ getConsensusCandidates now ms cp <->
  in_pool now cp ms be /\ bs = GetBackendState cp be /\ eligible now cp be /\
  forall be', in_pool now cp ms be' -> eligible now cp be' ->
    latestBlockNumber (GetBackendState cp be') - latestBlockNumber bs <= maxBlockLag cp.
Proof.
  intros Hu Hlag. unfold getConsensusCandidates, in_pool.
  assert (Hp : forall b, b ∈ Primaries ms -> is_u64 (latestBlockNumber (GetBackendState cp b)))
    by (intros b [Hb _]%list_elem_of_In%filter_In; by apply Hu, list_elem_of_In).
  assert (Hf : forall b, b ∈ Fallbacks ms -> is_u64 (latestBlockNumber (GetBackendState cp b)))
    by (intros b [Hb _]%list_elem_of_In%filter_In; by apply Hu, list_elem_of_In).
  pose proof (FilterCandidates_nil now cp (Primaries ms) Hp Hlag) as Hnil.
  destruct (FilterCandidates now cp (Primaries ms)) as [|c cs] eqn:E.
  - rewrite FilterCandidates_spec by done. pose proof (proj1 Hnil eq_refl). naive_solver.
  - rewrite <- E, FilterCandidates_spec by done.
    assert (Hsome : ~ forall p, p ∈ Primaries ms -> ~ eligible now cp p) by (by rewrite <- Hnil). naive_solver.
Qed.

End Candidates.

(** ** Polling one backend *)

Section Polling.
Context {G : Geth} {W : Type} {WO : WindowOps W} {T : Type} {TO : ConsensusTracker T}.
Notation Backend := (Backend (W := W)).
Notation ConsensusPoller := (ConsensusPoller (T := T)).
Implicit Types (cp : ConsensusPoller) (be : Backend).

(** The block numbers of a state are consistent: finalized, then safe, then latest. *)
Definition tags_ok (bs : backendState) : Prop :=
  0 <= finalizedBlockNumber bs <= safeBlockNumber bs /\ safeBlockNumber bs <= latestBlockNumber bs.

Lemma GetBackendState_set cp be st : GetBackendState (set_cp_state (<[Name be := st]> (cp_state cp)) cp) be = st.
Proof. unfold GetBackendState. cbn. by rewrite lookup_insert_eq. Qed.

Lemma Ban_state t be cp :
  forcedCandidate be = false ->
  let bs := GetBackendState (Ban t be cp) be in
  bannedUntil bs = t + banPeriod cp /\ latestBlockNumber bs = 0 /\ safeBlockNumber bs = 0 /\ finalizedBlockNumber bs = 0.
Proof. intros Hf bs. unfold bs, Ban. by rewrite Hf, GetBackendState_set. Qed.

Lemma Ban_other t be cp name : name <> Name be -> cp_state (Ban t be cp) !! name = cp_state cp !! name.
Proof. intros Hn. unfold Ban. destruct (forcedCandidate be); [done|]. cbn. by rewrite lookup_insert_ne. Qed.

(** C23. Polling keeps the recorded block numbers of a backend consistent. After an update of a
    backend that is not a forced candidate, either nothing was learnt and its state
    is unchanged, or it is banned for the ban period with its block numbers
    cleared, or it has a fresh state whose safe and finalized blocks did not go
    back; always finalized <= safe <= latest. No other backend is affected. *)
Theorem UpdateBackend_state now later be net ms cp ms' cp' :
  forcedCandidate be = false -> tags_ok (GetBackendState cp be) ->
  UpdateBackend now later be net ms cp = Ret (ms', cp') ->
  let old := GetBackendState cp be in
  let new := GetBackendState cp' be in
  tags_ok new /\
  (forall name, name <> Name be -> cp_state cp' !! name = cp_state cp !! name) /\
  (cp' = cp \/
   (latestBlockNumber new = 0 /\ safeBlockNumber new = 0 /\ finalizedBlockNumber new = 0 /\
    (bannedUntil new = now + banPeriod cp \/ bannedUntil new = later + banPeriod cp)) \/
   (lastUpdate new = later /\ bannedUntil new = bannedUntil old /\
    safeBlockNumber old <= safeBlockNumber new /\ finalizedBlockNumber old <= finalizedBlockNumber new)).
Proof.
  intros Hf Hold H old new. unfold UpdateBackend in H. rewrite Hf in H. fold old in H.
  assert (Hban : forall t cp0, cp' = Ban t be cp0 -> banPeriod cp0 = banPeriod cp ->
    (forall name, name <> Name be -> cp_state cp0 !! name = cp_state cp !! name) -> t = now \/ t = later ->
    tags_ok new /\ (forall name, name <> Name be -> cp_state cp' !! name = cp_state cp !! name) /\
    (latestBlockNumber new = 0 /\ safeBlockNumber new = 0 /\ finalizedBlockNumber new = 0 /\
      (bannedUntil new = now + banPeriod cp \/ bannedUntil new = later + banPeriod cp))).
  { intros t cp0 -> Hp Ho Ht. destruct (Ban_state t be cp0 Hf) as (H1 & H2 & H3 & H4). rewrite Hp in H1.
    unfold new, tags_ok. rewrite H1, H2, H3, H4. split; [lia|]. split; [intros; rewrite Ban_other; auto|].
    destruct Ht as [-> | ->]; auto. }
  destruct (bs_IsBanned now old); [simplify_eq; by auto|].
  destruct (IsHealthy now be); cbn [negb andb] in H.
  2: { injection H as <- <-. destruct (Hban now cp) as (? & ? & ?); by auto 10. }
  apply go_bind_ret in H as ([be1 [p|]] & _ & H); [|simplify_eq; by auto].
  set (cp1 := setBackendState _ _ _ _ _ _ _ _ _) in H.
  assert (Hcp1 : forall name, name <> Name be -> cp_state cp1 !! name = cp_state cp !! name).
  { intros name Hn. unfold cp1, setBackendState. cbn. by rewrite lookup_insert_ne. }
  destruct (checkExpectedBlockTags _ _ _ _ _) eqn:Hc; cbn [negb andb] in H; simplify_eq.
  - unfold checkExpectedBlockTags in Hc. bsimp.
    assert (Hnew : new = mkBS (pr_latest p) (pr_hash p) (pr_safe p) (pr_finalized p) (pr_peers p) (pr_inSync p)
              later (bannedUntil old)) by apply GetBackendState_set.
    destruct Hold as [Ho _]. rewrite Hnew. unfold tags_ok. cbn. fold old in Ho. split; [lia|]. split; [done|]. right; right. auto.
  - destruct (Hban later cp1) as (? & ? & ?); [done|done|done|by right|]. by auto 10.
Qed.

End Polling.

(** ** Agreement *)

Section Agreement.
Context {S : Type} (fetch : nat -> string -> Z -> S -> go (S * (Z * string + error))).
(** What each backend answers about each block while the loop runs. *)
Context (names : list string) (view : string -> Z -> Z * string + error) (Inv : S -> Prop).
Hypothesis fetch_view : forall i be n s, be ∈ names -> Inv s ->
  exists s', fetch i be n s = Ret (s', view be n) /\ Inv s'.
Hypothesis hash_nonempty : forall be n m h, view be n = inl (m, h) -> h <> "".

(** Every backend of [l] that answers about block [n] reports that block, with one hash;
    the hash is [hash] unless that is empty. *)
Definition agreed_on (l : list string) (hash : string) (n : Z) : Prop :=
  exists h, (hash = "" \/ h = hash) /\
    forall be, be ∈ l -> match view be n with inr _ => True | inl (m, h') => m = n /\ h' = h end.

Lemma agreed_on_perm l l' hash n : l ≡ₚ l' -> agreed_on l hash n <-> agreed_on l' hash n.
Proof.
  intros Hp. split; intros (h & Hh & Hall); exists h; (split; [done|]); intros be Hbe; apply Hall;
    [by rewrite Hp|by rewrite <- Hp].
Qed.

Lemma check_round_spec i current n l : forall hash broken s,
  (forall be, be ∈ l -> be ∈ names) -> Inv s ->
  exists s' ok hash' broken', check_round fetch i current n l hash broken s = Ret (s', ok, hash', broken') /\
    Inv s' /\ (ok = true <-> agreed_on l hash n).
Proof.
  induction l as [|be l IH]; intros hash broken s Hl Hs.
  { eexists _, _, _, _. split; [done|]. split; [done|]. split; [intros _|done].
    destruct (decide (hash = "")) as [->|]; [exists ""|exists hash]; (split; [by auto|]); by intros be ?%elem_of_nil. }
  cbn [check_round]. destruct (fetch_view i be n s) as (s1 & -> & Hs1); [apply Hl; by left|done|]. go_simpl.
  assert (Hl' : forall x, x ∈ l -> x ∈ names) by (intros x Hx; apply Hl; by right).
  destruct (view be n) as [[m h]|err] eqn:Hv.
  - set (hash1 := if hash ==s "" then h else hash).
    assert (Hh1 : hash1 <> "" /\ (hash = "" /\ hash1 = h \/ hash <> "" /\ hash1 = hash)).
    { unfold hash1. pose proof (hash_nonempty _ _ _ _ Hv). destruct (streq_spec hash ""); auto. }
    destruct Hh1 as [Hne Hh1].
    destruct (Z.eqb_spec m n) as [->|Hm]; cbn [negb orb].
    2: { eexists _, _, _, _. split; [done|]. split; [done|]. split; [done|]. intros (h0 & _ & Hall).
         specialize (Hall be ltac:(by left)). rewrite Hv in Hall. tauto. }
    destruct (streq_spec h hash1) as [Eh|Hh]; cbn [negb].
    + destruct (IH hash1 broken s1 Hl' Hs1) as (s2 & ok & h2 & b2 & -> & Hs2 & Hok).
      eexists _, _, _, _. split; [done|]. split; [done|]. rewrite Hok. split.
      * intros (h0 & [Hb|Hb] & Hall); [done|]. subst h0. exists hash1. split; [destruct Hh1 as [[-> _]|[_ ->]]; auto|].
        intros x [->|Hx]%elem_of_cons; [rewrite Hv; auto|by apply Hall].
      * intros (h0 & Hb & Hall). exists hash1. split; [by right|]. pose proof (Hall be ltac:(by left)) as Hbe.
        rewrite Hv in Hbe. destruct Hbe as [_ <-]. intros x Hx. rewrite <- Eh. apply Hall. by right.
    + eexists _, _, _, _. split; [done|]. split; [done|]. split; [done|]. intros (h0 & Hb & Hall).
      specialize (Hall be ltac:(by left)). rewrite Hv in Hall. destruct Hall as [_ <-].
      destruct Hh1 as [[_ E]|[Hn E]]; [congruence|]. destruct Hb; congruence.
  - destruct (IH hash broken s1 Hl' Hs1) as (s2 & ok & h2 & b2 & -> & Hs2 & Hok).
    eexists _, _, _, _. split; [done|]. split; [done|]. rewrite Hok. split; intros (h0 & Hb & Hall); exists h0;
      (split; [done|]).
    + intros x [->|Hx]%elem_of_cons; [by rewrite Hv|by apply Hall].
    + intros x Hx. apply Hall. by right.
Qed.

(** The loop ends at the highest block, at or below the proposed one, that the
    backends agree on; as many rounds as blocks walked back, and one, are enough fuel. *)
Lemma agree_spec order current k : forall fuel i proposed hash broken s m,
  (forall j, order j ≡ₚ names) -> Inv s -> 0 <= m <= proposed -> is_u64 proposed ->
  k = Z.to_nat (proposed - m) -> (k < fuel)%nat ->
  agreed_on names (if decide (m = proposed) then hash else "") m ->
  (forall j, m < j <= proposed -> ~ agreed_on names (if decide (j = proposed) then hash else "") j) ->
  exists s' broken', agree fetch fuel i order current proposed hash broken s = Ret (Some (s', m, broken')) /\ Inv s'.
Proof.
  induction k as [|k IH]; intros fuel i proposed hash broken s m Hord Hs Hm Hu Hk Hf Hag Hmax;
    (destruct fuel as [|fuel]; [lia|]); cbn [agree];
    destruct (check_round_spec i current proposed (order i) hash broken s) as (s1 & ok & h1 & b1 & -> & Hs1 & Hok);
    [by intros be Hbe; rewrite <- (Hord i)|done| |by intros be Hbe; rewrite <- (Hord i)|done|]; go_simpl;
    rewrite (agreed_on_perm _ names) in Hok by done.
  - assert (m = proposed) as -> by lia. rewrite decide_True in Hag by done. apply Hok in Hag as ->. eauto.
  - destruct ok.
    { exfalso. apply (Hmax proposed); [lia|]. rewrite decide_True by done. by apply Hok. }
    assert (Hp : u64 (proposed - 1) = proposed - 1) by (apply u64_small; unfold is_u64 in *; lia). rewrite Hp.
    apply IH; try done; [lia|unfold is_u64 in *; lia|lia|lia| |].
    + rewrite decide_False in Hag by lia. by destruct (decide (m = proposed - 1)).
    + intros j Hj. specialize (Hmax j ltac:(lia)). rewrite decide_False in Hmax by lia. by destruct (decide (j = proposed - 1)).
Qed.

End Agreement.

(** ** What a backend answers does not depend on its windows *)

Section Windows.
Context {G : Geth} {W : Type} {WO : WindowOps W}.
Notation Backend := (Backend (W := W)).

Definition strip (b : Backend) : Backend := set_windows win_new win_new win_new b.

(** The result of a call without the backend it leaves behind. *)
Definition answer {A} (m : go (Backend * A)) : go A :=
  match m with Ret (_, a) => Ret a | Panic s => Panic s end.

Definition answer2 {A B} (m : go (Backend * A * B)) : go (A * B) :=
  match m with Ret (_, a, b) => Ret (a, b) | Panic s => Panic s end.

Lemma handle_body_strip b1 b2 a reqs ids target status data :
  answer (handle_body b1 a reqs ids target status data) = answer (handle_body b2 a reqs ids target status data).
Proof.
  unfold handle_body. destruct (decode_responses _ data) as [rs|[err counted]]; [|done].
  destruct (negb _); [done|]. destruct (capture_status status rs); [|done]. go_simpl.
  destruct (enrich target ids _); [|done]. go_simpl. by destruct (sortBatchRPCResponse reqs _).
Qed.

Lemma doForward_strip b1 b2 ctx reqs isBatch a :
  strip b1 = strip b2 -> answer2 (doForward b1 ctx reqs isBatch a) = answer2 (doForward b2 ctx reqs isBatch a).
Proof.
  intros Hs.
  assert (Hb : receiptsTarget b1 = receiptsTarget b2 /\ rpcURL b1 = rpcURL b2 /\
    request_header b1 ctx = request_header b2 ctx /\ (forall s, read_body b1 s = read_body b2 s)).
  { destruct b1, b2. injection Hs. intros. subst. done. }
  destruct Hb as (Ht & Hu & Hh & Hr). unfold doForward. rewrite Ht, Hu, Hh.
  destruct (isBatch && _); [done|].
  destruct (if isBatch then _ else _) as [[[reqs1 ids] [err|]]|]; [done| |done]. go_simpl.
  destruct (request_body reqs1) as [body|]; [|done]. go_simpl. destruct (at_newRequest a); [done|].
  destruct (DoWithSemaphore a _) as [|status stream]; [done|].
  destruct (go_index reqs1 0); [|done]. go_simpl. destruct (_ && _); [done|]. rewrite Hr.
  destruct (read_body b2 stream) as [data [err|]]; [by destruct (is_base _ err)|].
  pose proof (handle_body_strip (incr_requests (at_start a) b1) (incr_requests (at_start a) b2) a reqs1 ids
    (receiptsTarget b2) status (str data)) as H.
  destruct (handle_body (incr_requests _ b1) _ _ _ _ _ _) as [[]|],
    (handle_body (incr_requests _ b2) _ _ _ _ _ _) as [[]|]; cbn in *; congruence.
Qed.

Lemma doForward_keeps b ctx reqs isBatch a b' reqs' r :
  doForward b ctx reqs isBatch a = Ret (b', reqs', r) -> strip b' = strip b.
Proof.
  intros H. apply doForward_accounting in H. rewrite H. destruct b, r; [done|]. by destruct (network_error _ _).
Qed.

Lemma ForwardRPC_strip b1 b2 ctx id method params a :
  strip b1 = strip b2 ->
  answer (ForwardRPC b1 ctx id method params a) = answer (ForwardRPC b2 ctx id method params a).
Proof.
  intros Hs. unfold ForwardRPC. pose proof (doForward_strip b1 b2 ctx
    [mkReq JSONRPCVersion method (Marshal (JArr params)) id] false a Hs) as H.
  destruct (doForward b1 _ _ _ _) as [[[? ?] r1]|], (doForward b2 _ _ _ _) as [[[? ?] r2]|];
    unfold answer2 in H; simplify_eq; go_simpl; [|done].
  destruct r2 as [[|res [|]]|]; try done. by destruct (res_Error res).
Qed.

Lemma ForwardRPC_keeps b ctx id method params a b' r :
  ForwardRPC b ctx id method params a = Ret (b', r) -> strip b' = strip b.
Proof.
  unfold ForwardRPC. intros H. apply go_bind_ret in H as ([[b1 reqs1] r1] & Hf & H).
  apply doForward_keeps in Hf. destruct r1 as [[|res [|]]|]; try (by simplify_eq).
  destruct (res_Error res); by simplify_eq.
Qed.

Lemma fetchBlock_strip b1 b2 block a b' r :
  strip b1 = strip b2 -> fetchBlock b1 block a = Ret (b', r) ->
  exists b2', fetchBlock b2 block a = Ret (b2', r) /\ strip b2' = strip b2.
Proof.
  intros Hs H. unfold fetchBlock in *.
  pose proof (ForwardRPC_strip b1 b2 no_ctx "67" "eth_getBlockByNumber" [JStr block; JBool false] a Hs) as Ha.
  apply go_bind_ret in H as ([b1' r1] & Hf & H). rewrite Hf in Ha.
  destruct (ForwardRPC b2 _ _ _ _ _) as [[b2' r2]|] eqn:Hf2; [|done]. cbn in Ha. injection Ha as <-.
  apply ForwardRPC_keeps in Hf2. go_simpl. destruct r1 as [res|err]; [|simplify_eq; eauto].
  destruct (res_Result res) as [[[| | | | |m]| | |]|]; simplify_eq; try (by eauto).
  apply go_bind_ret in H as (s & -> & H). go_simpl. apply go_bind_ret in H as (n & -> & H). go_simpl.
  apply go_bind_ret in H as (h & -> & H). go_simpl. simplify_eq. eauto.
Qed.

Lemma strip_Name b1 b2 : strip b1 = strip b2 -> Name b1 = Name b2.
Proof. destruct b1, b2. intros H. injection H. intros. subst. done. Qed.

(** Members that differ from [ms0] only in their windows. *)
Definition same_members (ms0 ms : members (W := W)) : Prop := map strip (Backends ms) = map strip (Backends ms0).

Lemma find_same l1 l2 name :
  map strip l1 = map strip l2 -> 
  fmap strip (List.find (fun b : Backend => Name b ==s name) l1) = fmap strip (List.find (fun b => Name b ==s name) l2).
Proof.
  revert l2. induction l1 as [|b1 l1 IH]; intros [|b2 l2] H; try done. cbn in H. injection H as Hb H. cbn.
  rewrite (strip_Name _ _ Hb). destruct (Name b2 ==s name); [cbn; by rewrite Hb|by apply IH].
Qed.

Lemma set_backend_same ms0 ms b b1 name :
  same_members ms0 ms -> NoDup (map Name (Backends ms)) ->
  List.find (fun b => Name b ==s name) (Backends ms) = Some b -> strip b1 = strip b ->
  same_members ms0 (set_backend b1 ms).
Proof.
  intros Hsame Hnd Hfind Hb. unfold same_members in *. rewrite <- Hsame. cbn [Backends set_backend].
  apply find_some in Hfind as [Hin _]. rewrite map_map. apply map_ext_in. intros b' Hb'.
  rewrite (strip_Name _ _ Hb). destruct (streq_spec (Name b') (Name b)) as [E|]; [|done].
  rewrite Hb. f_equal. apply list_elem_of_In in Hin, Hb'.
  apply list_elem_of_lookup_1 in Hin as [i Hi]. apply list_elem_of_lookup_1 in Hb' as [j Hj].
  assert (i = j) as ->; [|congruence]. apply (NoDup_lookup (map Name (Backends ms)) i j (Name b)); [done|..].
  - by rewrite (list_lookup_fmap Name), Hi.
  - rewrite (list_lookup_fmap Name), Hj. cbn. by rewrite E.
Qed.

End Windows.

(** ** The consensus of a group *)

Section Group.
Context {G : Geth} {W : Type} {WO : WindowOps W}.
Notation Backend := (Backend (W := W)).
Notation Poller := (ConsensusPoller (T := ConsensusTrackerState)).

(** [x] is the least value of [f] on [l]. *)
Definition least {A} (f : A -> Z) (l : list A) (x : Z) : Prop :=
  (exists c, c ∈ l /\ f c = x) /\ forall c, c ∈ l -> x <= f c.

Lemma least_snoc {A} (f : A -> Z) l c x :
  least f l x -> least f (l ++ [c]) (if f c <? x then f c else x).
Proof.
  intros [(c0 & H0 & <-) Hle]. split.
  - destruct (f c <? f c0); [exists c|exists c0]; (split; [apply elem_of_app; rewrite ?list_elem_of_singleton; auto|done]).
  - intros d [Hd|Hd%list_elem_of_singleton]%elem_of_app; [specialize (Hle d Hd)|subst d];
      destruct (Z.ltb_spec (f c) (f c0)); lia.
Qed.

Lemma least_perm {A} (f : A -> Z) l l' x : l ≡ₚ l' -> least f l x -> least f l' x.
Proof. intros Hp [(c & Hc & <-) Hle]. split; [exists c; by rewrite <- Hp|]. intros d Hd. apply Hle. by rewrite Hp. Qed.

(** The block numbers of a candidate that has been polled. *)
Definition polled (c : Backend * backendState) : Prop :=
  tags_ok c.2 /\ 0 < finalizedBlockNumber c.2 /\ is_u64 (latestBlockNumber c.2).

Lemma lowest_of_least cs : cs <> [] -> Forall polled cs ->
  let lo := lowest_of cs in
  least (fun c => latestBlockNumber c.2) cs (lowestLatestBlock lo) /\
  least (fun c => safeBlockNumber c.2) cs (lowestSafeBlock lo) /\
  least (fun c => finalizedBlockNumber c.2) cs (lowestFinalizedBlock lo).
Proof.
  intros Hne Hp. cbn zeta. induction cs as [|c cs IH] using rev_ind; [done|].
  apply Forall_app in Hp as [Hp _]. unfold lowest_of in *. rewrite foldl_snoc.
  destruct (decide (cs = [])) as [->|Hcs].
  - cbn. repeat split; try (exists c; split; [by left|done]); intros d ->%list_elem_of_singleton; lia.
  - destruct (IH Hcs Hp) as (Hl & Hs & Hf). set (lo := foldl lowest_step _ cs) in *.
    assert (H0 : forall (f : Backend * backendState -> Z) x, least f cs x -> (forall c, polled c -> 0 < f c) ->
              (x =? 0) = false).
    { intros f x [(d & Hd & <-) _] Hf0. apply Z.eqb_neq. rewrite Forall_forall in Hp. specialize (Hf0 d (Hp d Hd)). lia. }
    unfold lowest_step.
    rewrite (H0 _ _ Hl) by (intros d [[] []]; lia). rewrite (H0 _ _ Hs) by (intros d [[] []]; lia).
    rewrite (H0 _ _ Hf) by (intros d [[] []]; lia). cbn [orb].
    apply (least_snoc _ _ c) in Hl, Hs, Hf. cbn beta in *.
    destruct (latestBlockNumber c.2 <? lowestLatestBlock lo);
      cbn [lowestLatestBlock lowestSafeBlock lowestFinalizedBlock]; auto.
Qed.

Lemma find_name (l : list Backend) be :
  NoDup (map Name l) -> be ∈ l -> List.find (fun b => Name b ==s Name be) l = Some be.
Proof.
  induction l as [|b l IH]; [by intros _ ?%elem_of_nil|]. cbn. intros [Hn Hnd]%NoDup_cons [->|Hb]%elem_of_cons.
  - by rewrite streq_refl.
  - destruct (streq_spec (Name b) (Name be)) as [E|_]; [|by apply IH].
    exfalso. apply Hn. rewrite E. by apply (list_elem_of_fmap_2 Name).
Qed.

(** Fetching from a member whose windows have changed since [ms0]. *)
Lemma fetch_member_view net (ms0 : members (W := W)) view :
  NoDup (map Name (Backends ms0)) ->
  (forall i be n, be ∈ Backends ms0 ->
    exists be', fetchBlock be (Uint64_String n) (net i (Name be)) = Ret (be', view (Name be) n)) ->
  forall i name n ms, name ∈ map Name (Backends ms0) -> same_members ms0 ms ->
    exists ms', fetch_member net i name n ms = Ret (ms', view name n) /\ same_members ms0 ms'.
Proof.
  intros Hnd Hview i name n ms Hname Hsame.
  apply list_elem_of_fmap in Hname as (be & -> & Hbe). unfold fetch_member.
  pose proof (find_same _ _ (Name be) Hsame) as Hfind. rewrite (find_name _ be Hnd Hbe) in Hfind. cbn in Hfind.
  destruct (List.find _ (Backends ms)) as [be1|] eqn:Hf1; [|done]. cbn in Hfind. injection Hfind as Hstrip.
  destruct (Hview i be n Hbe) as (be' & Hfetch). apply (fetchBlock_strip be be1) in Hfetch as (be2 & -> & H2); [|done].
  go_simpl. eexists. split; [done|]. eapply set_backend_same; [done| |exact Hf1|done].
  assert (Hn : map Name (Backends ms) = map Name (Backends ms0)); [|by rewrite Hn].
  assert (Hmap : forall l : list Backend, map Name l = map Name (map strip l)).
  { intros l. rewrite map_map. apply map_ext. by intros []. }
  rewrite (Hmap (Backends ms)), (Hmap (Backends ms0)). unfold same_members in Hsame. by rewrite Hsame.
Qed.

Lemma candidates_in {T : Type} now (ms : members (W := W)) (cp : ConsensusPoller (T := T)) c :
  c ∈ getConsensusCandidates now ms cp -> c.1 ∈ Backends ms /\ c.2 = GetBackendState cp c.1.
Proof.
  assert (Hf : forall l, c ∈ FilterCandidates now cp l -> c.1 ∈ l /\ c.2 = GetBackendState cp c.1).
  { intros l. unfold FilterCandidates. rewrite list_elem_of_In, filter_In, in_map_iff.
    intros [(b & <- & [Hb _]%filter_In) _]. split; [by apply list_elem_of_In|done]. }
  assert (Hsub : forall f b, b ∈ List.filter f (Backends ms) -> b ∈ Backends ms).
  { intros f b. rewrite !list_elem_of_In, filter_In. tauto. }
  unfold getConsensusCandidates. destruct (FilterCandidates now cp (Primaries ms)) eqn:E.
  - intros [H ?]%Hf. unfold Fallbacks in H. by eauto.
  - rewrite <- E. intros [H ?]%Hf. unfold Primaries in H. by eauto.
Qed.

Lemma publish_group {T : Type} {TO : ConsensusTracker T} (ms : members (W := W)) cands lo proposed broken
    (cp : ConsensusPoller (T := T)) name :
  name ∈ consensusGroup (publish ms cands lo proposed broken cp) <->
  name ∈ map Name (Backends ms) /\ name ∈ map (fun c => Name c.1) cands.
Proof.
  cbn [publish consensusGroup]. rewrite list_elem_of_In, filter_In, existsb_exists, <- list_elem_of_In. split.
  - intros (Hn & c & Hc & E). bsimp. split; [done|]. apply list_elem_of_fmap. exists c. by rewrite list_elem_of_In.
  - intros (Hn & (c & -> & Hc)%list_elem_of_fmap). split; [done|]. exists c. split; [by apply list_elem_of_In|apply streq_refl].
Qed.

(** C1. The group agrees on the highest common block. Take a poll of a group with distinct backends
    whose candidates have been polled, while the backends' answers do not change and have a hash. If
    [m] is the highest block, at or below every candidate's latest, on which all
    the candidates that answer report the same block and hash, then, in whatever
    order the candidates are visited, the poll ends, the consensus latest block is
    [m], and the safe and finalized blocks are the lowest of the candidates. Walking back one
    block per round bounds the number of rounds. The consensus group is the candidates. *)
Theorem group_consensus_correct fuel now order net (ms : members (W := W)) (cp : Poller) view m :
  let cands := getConsensusCandidates now ms cp in
  let names := map (fun c => Name c.1) cands in
  let lo := lowest_of (order 0%nat cands) in
  let hash j := if decide (j = lowestLatestBlock lo) then lowestLatestBlockHash lo else "" in
  NoDup (map Name (Backends ms)) -> (forall i l, order i l ≡ₚ l) -> cands <> [] -> Forall polled cands ->
  (forall i be n, be ∈ Backends ms ->
    exists be', fetchBlock be (Uint64_String n) (net i (Name be)) = Ret (be', view (Name be) n)) ->
  (forall name n k h, view name n = inl (k, h) -> h <> "") ->
  0 <= m <= lowestLatestBlock lo -> agreed_on view names (hash m) m ->
  (forall j, m < j <= lowestLatestBlock lo -> ~ agreed_on view names (hash j) j) ->
  lowestLatestBlock lo - m < Z.of_nat fuel ->
  exists ms' cp', UpdateBackendGroupConsensus fuel now order net ms cp = Ret (Some (ms', cp')) /\
    Latest (tracker cp') = m /\ least (fun c => latestBlockNumber c.2) cands (lowestLatestBlock lo) /\
    least (fun c => safeBlockNumber c.2) cands (Safe (tracker cp')) /\
    least (fun c => finalizedBlockNumber c.2) cands (Finalized (tracker cp')) /\
    Finalized (tracker cp') <= Safe (tracker cp') <= lowestLatestBlock lo /\
    (forall be, be ∈ Backends ms -> Name be ∈ consensusGroup cp' <-> Name be ∈ names).
Proof.
  intros cands names lo hash Hnd Hord Hne Hpolled Hview Hhash Hm Hag Hmax Hfuel.
  destruct (lowest_of_least (order 0%nat cands)) as (Hl & Hs & Hf).
  { intros E. apply Hne, Permutation_nil. by rewrite <- (Hord 0%nat cands), E. }
  { by rewrite (Hord 0%nat cands). }
  fold lo in Hl, Hs, Hf. apply (least_perm _ _ cands) in Hl, Hs, Hf; [|done..].
  pose proof Hl as [(cl & Hcl & El) Hlle]. pose proof Hs as [(cs & Hcs & Es) Hsle]. pose proof Hf as [(cf & Hcf & Ef) Hfle].
  rewrite Forall_forall in Hpolled. unfold UpdateBackendGroupConsensus. fold cands lo.
  destruct (Hpolled cl Hcl) as ((Ht1 & Ht2) & Hp & Hu).
  destruct (Z.ltb_spec 0 (lowestLatestBlock lo)); [|lia].
  assert (Hnames : forall name, name ∈ names -> name ∈ map Name (Backends ms)).
  { intros name (c & -> & Hc)%list_elem_of_fmap. apply (list_elem_of_fmap_2 Name). by eapply candidates_in in Hc as [? _]. }
  destruct (agree_spec (fetch_member net) names view (same_members ms)
    (fun i be n s Hbe Hs => fetch_member_view net ms view Hnd Hview i be n s (Hnames be Hbe) Hs) Hhash
    (fun i => map (fun c => Name c.1) (order i cands)) (GetLatestBlockNumber (tracker cp))
    (Z.to_nat (lowestLatestBlock lo - m)) fuel 1%nat (lowestLatestBlock lo) (lowestLatestBlockHash lo) false ms m)
    as (ms' & broken & -> & _); [|done|done|by rewrite <- El|done|lia|exact Hag|exact Hmax|].
  { intros j. unfold names. by rewrite (Hord j cands). }
  go_simpl. eexists _, _. split; [done|]. cbn [tracker Latest Safe Finalized consensusGroup].
  split; [done|]. split; [done|]. split; [done|]. split; [done|]. split.
  { specialize (Hfle cs Hcs). specialize (Hsle cl Hcl). destruct (Hpolled cs Hcs) as ((? & ?) & _).
    cbn beta in *. cbn. lia. }
  intros be Hbe. rewrite publish_group. split; [by intros [_ Hin]|]. intros Hin. split; [|done].
  by apply (list_elem_of_fmap_2 Name).
Qed.

End Group.

(** ** What a reply means for [fetchBlock] *)

Section Reply.
Context {G : Geth} {GL : GethLaws} {W : Type} {WO : WindowOps W}.

Lemma ForwardRPC_reply (be : Backend (W := W)) ctx method params a stream data res :
  method <> ConsensusGetReceiptsMethod -> str_ok method = true -> forallb syn_ok params = true ->
  at_newRequest a = None -> at_acquire a = None -> (forall hr, at_reply a hr = Response 200 stream) ->
  read_body be stream = (data, None) -> UnmarshalRPCRes (str data) = Some res -> res_Error res = None ->
  exists be', ForwardRPC be ctx "67" method params a = Ret (be', inl res).
Proof.
  intros Hm Hms Hp Hn Ha Hr Hb Hu He. unfold ForwardRPC, doForward. cbn [andb].
  cbn [translate req_Method]. destruct (streq_spec method ConsensusGetReceiptsMethod) as [|_]; [done|]. go_simpl.
  unfold request_body. cbn [mapM]. unfold req_json. cbn [req_Params req_ID].
  rewrite raw_json_Marshal by done. cbv [mbind option_bind mret option_ret]. 
  change (raw_json "67") with (Some (JNum "67")). cbv iota beta. go_simpl. rewrite Hn.
  unfold DoWithSemaphore. rewrite Ha, Hr. change (go_index [mkReq JSONRPCVersion method (Marshal (JArr params)) "67"] 0)
    with (Ret (mkReq JSONRPCVersion method (Marshal (JArr params)) "67")). go_simpl. cbn [Z.eqb Pos.eqb negb andb].
  rewrite Hb. unfold handle_body, decode_responses. cbn [length Nat.eqb]. rewrite Hu. cbn [length Nat.eqb negb].
  unfold capture_status. cbn [Z.eqb Pos.eqb]. go_simpl. unfold enrich. cbn [go_fold existsb app]. go_simpl.
  unfold sortBatchRPCResponse. cbn [positions existsb app req_ID]. go_simpl. cbn [sort_by foldr insert_by].
  rewrite He. eauto.
Qed.

Lemma fetchBlock_reply (be : Backend (W := W)) n a stream data res m s k h :
  at_newRequest a = None -> at_acquire a = None -> (forall hr, at_reply a hr = Response 200 stream) ->
  read_body be stream = (data, None) -> UnmarshalRPCRes (str data) = Some res -> res_Error res = None ->
  res_Result res = Some (RJson (JObj m)) -> obj_get "number" m = Some (JStr s) -> DecodeUint64 s = Some k ->
  obj_get "hash" m = Some (JStr h) ->
  exists be', fetchBlock be (Uint64_String n) a = Ret (be', inl (k, h)).
Proof.
  intros Hn Ha Hr Hb Hu He Hres Hnum Hk Hh. unfold fetchBlock.
  destruct (ForwardRPC_reply be no_ctx "eth_getBlockByNumber" [JStr (Uint64_String n); JBool false] a stream data res)
    as [be' ->]; [done|done| |done..|].
  { cbn. by rewrite Uint64_String_ok. }
  go_simpl. rewrite Hres, Hnum, Hh. cbn [as_string]. go_simpl. unfold MustDecodeUint64. rewrite Hk. go_simpl. eauto.
Qed.

End Reply.

(** ** Witnesses *)

Notation demo_be name := (NewBackend (W := demo_window) name "" "" []) (only parsing).

Definition demo_members : members (W := demo_window) :=
  mkMembers [demo_be "a"; demo_be "b"] {[ "a" := false; "b" := false ]}.

Definition demo_bs (n : Z) : backendState := mkBS n "0xaa" 90 80 5 true Hour 0.

Definition demo_poller (sa sb : backendState) : ConsensusPoller :=
  set_cp_state {[ "a" := sa; "b" := sb ]} (NewConsensusPoller NewInMemoryConsensusTracker demo_members [WithMaxBlockLag 4]).

Definition demo_cp : ConsensusPoller := demo_poller (demo_bs 100) (demo_bs 102).

Lemma candidates_exact_witness :
  (demo_be "a", demo_bs 100) ∈ getConsensusCandidates Hour demo_members demo_cp <->
  in_pool Hour demo_cp demo_members (demo_be "a") /\ demo_bs 100 = GetBackendState demo_cp (demo_be "a") /\
  eligible Hour demo_cp (demo_be "a") /\
  forall be', in_pool Hour demo_cp demo_members be' -> eligible Hour demo_cp be' ->
    latestBlockNumber (GetBackendState demo_cp be') - 100 <= 4.
Proof.
  apply (candidates_exact Hour demo_cp demo_members); [|vm_compute; discriminate].
  intros b Hb. cbn in Hb. rewrite !elem_of_cons, elem_of_nil in Hb.
  destruct Hb as [->|[->|[]]]; vm_compute; split; congruence.
Defined.

(** A backend that is down: every call fails. *)
Lemma UpdateBackend_state_witness :
  exists ms' cp', UpdateBackend Hour (Hour + Second) (demo_be "a") (fun _ => failed_attempt Hour) demo_members demo_cp
    = Ret (ms', cp') /\ tags_ok (GetBackendState cp' (demo_be "a")).
Proof.
  destruct (UpdateBackend Hour (Hour + Second) (demo_be "a") (fun _ => failed_attempt Hour) demo_members demo_cp)
    as [[ms' cp']|] eqn:E; [|vm_compute in E; discriminate E].
  exists ms', cp'. split; [reflexivity|].
  apply (UpdateBackend_state Hour (Hour + Second) (demo_be "a") (fun _ => failed_attempt Hour) demo_members demo_cp ms' cp');
    [reflexivity|vm_compute; intuition discriminate|exact E].
Defined.

(** Two backends that both report block 100 with the same hash. *)
Definition demo_block : RPCRes := demo_response "67" (JObj [("hash", JStr "0xaa"); ("number", JStr "0x64")]).
Definition demo_blocks (_ : nat) (_ : string) : attempt := demo_attempt Hour 200 [demo_block].
Definition demo_view (_ : string) (_ : Z) : Z * string + error := inl (100, "0xaa").

Lemma demo_fetch i be n : be ∈ Backends demo_members ->
  exists be', fetchBlock be (Uint64_String n) (demo_blocks i (Name be)) = Ret (be', demo_view (Name be) n).
Proof.
  intros Hb. eapply (fetchBlock_reply be n (demo_blocks i (Name be))); [reflexivity|reflexivity|intros; reflexivity|..].
  - cbn in Hb. rewrite !elem_of_cons, elem_of_nil in Hb. destruct Hb as [->|[->|[]]]; vm_compute; reflexivity.
  - vm_compute. reflexivity.
  - reflexivity.
  - reflexivity.
  - reflexivity.
  - reflexivity.
  - reflexivity.
Qed.

Lemma demo_polled : Forall polled (getConsensusCandidates Hour demo_members demo_cp).
Proof.
  assert (E : (getConsensusCandidates Hour demo_members demo_cp).*2 = [demo_bs 100; demo_bs 102])
    by (vm_compute; reflexivity).
  assert (H : forall n, 90 <= n < 200 -> forall be : Backend (W := demo_window), polled (be, demo_bs n)).
  { intros n Hn be. unfold polled, tags_ok, is_u64, two64. cbn. lia. }
  destruct (getConsensusCandidates _ _ _) as [|[b1 s1] [|[b2 s2] [|]]]; try discriminate E.
  cbn in E. injection E as -> ->. constructor; [apply H; lia|]. constructor; [apply H; lia|]. constructor.
Qed.

Lemma group_consensus_correct_witness :
  exists ms' cp', UpdateBackendGroupConsensus 1 Hour (fun _ l => l) demo_blocks demo_members demo_cp = Ret (Some (ms', cp'))
    /\ Latest (tracker cp') = 100.
Proof.
  destruct (group_consensus_correct 1 Hour (fun _ l => l) demo_blocks demo_members demo_cp demo_view 100)
    as (ms' & cp' & H & Hl & _).
  - repeat (apply NoDup_cons; split; [rewrite ?elem_of_cons, elem_of_nil; intuition discriminate|]). apply NoDup_nil_2.
  - reflexivity.
  - vm_compute. discriminate.
  - exact demo_polled.
  - exact demo_fetch.
  - intros name n k h [= <- <-]. discriminate.
  - vm_compute. split; discriminate.
  - exists "0xaa". split; [by right|]. intros be _. by split.
  - intros j Hj. exfalso. assert (lowestLatestBlock (lowest_of (getConsensusCandidates Hour demo_members demo_cp)) = 100)
      as E by (vm_compute; reflexivity). rewrite E in Hj. lia.
  - vm_compute. reflexivity.
  - exists ms', cp'. auto.
Defined.

(** The lowest block depends on the order in which Go visits the candidates when one of them
    has not reported a block yet (a forced candidate before its first update): its
    block number 0 is also the marker for "none yet". *)
Theorem lowest_depends_on_order :
  let a := (demo_be "a", zero_state) in
  let b := (demo_be "b", demo_bs 100) in
  lowestLatestBlock (lowest_of [a; b]) = 100 /\ lowestLatestBlock (lowest_of [b; a]) = 0.
Proof. split; reflexivity. Qed.

Definition demo_fork : ConsensusPoller :=
  demo_poller (mkBS 100 "0xaa" 90 80 5 true Hour 0) (mkBS 100 "0xbb" 90 80 5 true Hour 0).

(** Backends that cannot be asked count as agreeing: two candidates that last reported different
    hashes for block 100 and then fail to answer still make block 100 the consensus. *)
Theorem errors_count_as_agreement :
  match UpdateBackendGroupConsensus 1 Hour (fun _ l => l) (fun _ _ => failed_attempt Hour) demo_members demo_fork with
  | Ret (Some (_, cp')) => Latest (tracker cp') = 100 /\ consensusGroup cp' = ["a"; "b"]
  | _ => False
  end.
Proof. vm_compute. split; reflexivity. Qed.

Definition forked_block (n h : string) : attempt :=
  demo_attempt Hour 200 [demo_response "67" (JObj [("hash", JStr h); ("number", JStr n)])].

(** The latest block may end up below the safe one: two candidates that have block 100 as latest and
    safe block, with different hashes, walk back to block 99, but the safe block stays. *)
Theorem walk_back_below_safe :
  match UpdateBackendGroupConsensus 2 Hour (fun _ l => l)
          (fun i name => if (i =? 1)%nat then forked_block "0x64" (if name ==s "a" then "0xaa" else "0xbb") else forked_block "0x63" "0xcc")
          demo_members (demo_poller (mkBS 100 "0xaa" 100 90 5 true Hour 0) (mkBS 100 "0xbb" 100 90 5 true Hour 0)) with
  | Ret (Some (_, cp')) => Latest (tracker cp') = 99 /\ Safe (tracker cp') = 100
  | _ => False
  end.
Proof. vm_compute. split; reflexivity. Qed.
