(* ===== verification/Async.v ===== *)
(** * The goroutines of the consensus poller: [PollerAsyncHandler] of [consensus_poller.go]

    [Init] starts one goroutine per backend, which updates its state, and one that
    updates the consensus of the group; each waits for its timer between two rounds.
    They share the poller and the backends. A world is the shared state and where each
    goroutine is; a step is one goroutine between two accesses to the shared state, the
    clock, the traffic of requests, or the shutdown. *)

From stdpp Require Import base list strings gmap.
From Stdlib Require Import ZArith Lia.
From Stdlib Require Strings.String.
From S2P Require Import Prelude SlidingWindow SlidingWindowRefinement Json JsonRoundtrip Geth Rpc Reader Backend Tracker Poller PollerCorrect.

Local Open Scope Z_scope.

Section Async.
Context {G : Geth} {W : Type} {WO : WindowOps W} {T : Type} {TO : ConsensusTracker T}.
Notation Backend := (Backend (W := W)).
Notation members := (members (W := W)).
Notation ConsensusPoller := (ConsensusPoller (T := T)).

(** ** The goroutine of a backend *)

(** Where it is: at the start of a round; with a poll to record; with a recorded poll
    whose block tags it has yet to check against the state it read before; waiting
    for its timer; returned. *)
Inductive updater :=
| UStart
| USet (deadline : Time) (bs : backendState) (p : poll_result)
| UCheck (deadline : Time) (bs : backendState) (p : poll_result)
| UWait (deadline : Time)
| UEnd.

(** [UpdateBackend] up to the recording of what it found. *)
Definition begin_update (now : Time) (be : Backend) (net : nat -> attempt) (ms : members) (cp : ConsensusPoller)
  : go (members * ConsensusPoller * option (backendState * poll_result)) :=
  let bs := GetBackendState cp be in
  if bs_IsBanned now bs then Ret (ms, cp, None)
  else if negb (IsHealthy now be) && negb (forcedCandidate be) then Ret (ms, Ban now be cp, None)
  else
    '(be1, found) ← poll_backend be net;
    Ret (set_backend be1 ms, cp, match found with Some p => Some (bs, p) | None => None end).

Definition record_update (now : Time) (be : Backend) (p : poll_result) (cp : ConsensusPoller) : ConsensusPoller :=
  setBackendState now be (pr_peers p) (pr_inSync p) (pr_latest p) (pr_hash p) (pr_safe p) (pr_finalized p) cp.

Definition expected (bs : backendState) (p : poll_result) : bool :=
  checkExpectedBlockTags (pr_latest p) (safeBlockNumber bs) (pr_safe p) (finalizedBlockNumber bs) (pr_finalized p).

Definition check_update (now : Time) (be : Backend) (bs : backendState) (p : poll_result) (cp : ConsensusPoller)
  : ConsensusPoller :=
  if negb (expected bs p) && negb (forcedCandidate be) then Ban now be cp else cp.

(** ** The goroutine of the group *)

Inductive consensus_loop :=
| GStart
| GRound (deadline : Time) (current : Z) (cands : list (Backend * backendState)) (lo : lowest) (i : nat)
    (proposed : Z) (hash : string) (broken : bool)
| GPublish (deadline : Time) (cands : list (Backend * backendState)) (lo : lowest) (proposed : Z) (broken : bool)
| GWait (deadline : Time)
| GEnd.

(** ** Worlds *)

Record world := mkWorld {
  w_now : Time;
  w_cancelled : bool;
  w_ms : members;
  w_cp : ConsensusPoller;
  w_updaters : gmap string updater;
  w_loop : consensus_loop;
}.

Definition set_shared (ms : members) (cp : ConsensusPoller) (w : world) : world :=
  mkWorld (w_now w) (w_cancelled w) ms cp (w_updaters w) (w_loop w).

Definition set_updater (name : string) (u : updater) (w : world) : world :=
  mkWorld (w_now w) (w_cancelled w) (w_ms w) (w_cp w) (<[name := u]> (w_updaters w)) (w_loop w).

Definition set_loop (g : consensus_loop) (w : world) : world :=
  mkWorld (w_now w) (w_cancelled w) (w_ms w) (w_cp w) (w_updaters w) g.

Definition set_now (t : Time) (w : world) : world :=
  mkWorld t (w_cancelled w) (w_ms w) (w_cp w) (w_updaters w) (w_loop w).

(** [Init]: a goroutine per primary and per fallback, and one for the group. *)
Definition Init (now : Time) (ms : members) (cp : ConsensusPoller) : world :=
  mkWorld now false ms cp
    (foldr (fun b us => <[Name b := UStart]> us) ∅ (Primaries ms ++ Fallbacks ms)) GStart.

(** [NoopAsyncHandler.Init] starts nothing. *)
Definition Noop_Init (now : Time) (ms : members) (cp : ConsensusPoller) : world := mkWorld now false ms cp ∅ GEnd.

(** [Shutdown] cancels the context. *)
Definition Shutdown (w : world) : world :=
  mkWorld (w_now w) true (w_ms w) (w_cp w) (w_updaters w) (w_loop w).

Definition member (w : world) (name : string) : option Backend :=
  List.find (fun b => Name b ==s name) (Backends (w_ms w)).

Definition is_fallback (w : world) (name : string) : bool :=
  match FallbackBackends (w_ms w) !! name with Some fb => fb | None => false end.

(** A step of the goroutine of a backend; [None] when it has nothing to do. A fallback
    is only updated while no primary is a candidate. *)
Definition updater_step (name : string) (net : nat -> attempt) (w : world) : go (option world) :=
  match w_updaters w !! name, member w name with
  | Some UStart, Some be =>
      let deadline := w_now w + interval (w_cp w) in
      if is_fallback w name && negb (length (FilterCandidates (w_now w) (w_cp w) (Primaries (w_ms w))) =? 0)%nat
      then Ret (Some (set_updater name (UWait deadline) w))
      else
        '(ms1, cp1, found) ← begin_update (w_now w) be net (w_ms w) (w_cp w);
        Ret (Some (set_updater name
                     match found with Some (bs, p) => USet deadline bs p | None => UWait deadline end
                     (set_shared ms1 cp1 w)))
  | Some (USet deadline bs p), Some be =>
      Ret (Some (set_updater name (UCheck deadline bs p)
                   (set_shared (w_ms w) (record_update (w_now w) be p (w_cp w)) w)))
  | Some (UCheck deadline bs p), Some be =>
      Ret (Some (set_updater name (UWait deadline)
                   (set_shared (w_ms w) (check_update (w_now w) be bs p (w_cp w)) w)))
  | Some (UWait deadline), _ =>
      Ret (if deadline <=? w_now w then Some (set_updater name UStart w) else None)
  | _, _ => Ret None
  end.

(** A step of the goroutine of the group: the candidates and their lowest blocks, one
    round over the candidates, or the publication. *)
Definition loop_step (order : list (Backend * backendState) -> list (Backend * backendState))
    (net : nat -> string -> attempt) (w : world) : go (option world) :=
  match w_loop w with
  | GStart =>
      let deadline := w_now w + interval (w_cp w) in
      let current := GetLatestBlockNumber (tracker (w_cp w)) in
      let cands := getConsensusCandidates (w_now w) (w_ms w) (w_cp w) in
      let lo := lowest_of (order cands) in
      Ret (Some (set_loop
        (if 0 <? lowestLatestBlock lo
         then GRound deadline current cands lo 1 (lowestLatestBlock lo) (lowestLatestBlockHash lo) false
         else GPublish deadline cands lo (lowestLatestBlock lo) false) w))
  | GRound deadline current cands lo i proposed hash broken =>
      '(ms1, allAgreed, hash1, broken1) ←
        check_round (fetch_member net) i current proposed (map (fun c => Name c.1) (order cands)) hash broken (w_ms w);
      Ret (Some (set_loop
        (if allAgreed : bool then GPublish deadline cands lo proposed broken1
         else GRound deadline current cands lo (S i) (u64 (proposed - 1)) "" broken1)
        (set_shared ms1 (w_cp w) w)))
  | GPublish deadline cands lo proposed broken =>
      Ret (Some (set_loop (GWait deadline)
                   (set_shared (w_ms w) (publish (w_ms w) cands lo proposed broken (w_cp w)) w)))
  | GWait deadline => Ret (if deadline <=? w_now w then Some (set_loop GStart w) else None)
  | GEnd => Ret None
  end.

(** The steps of a world, with their inputs. Of the two cases of a [select], the timer is part
    of the goroutine's step and the end of the context is a step of its own; traffic
    replaces the windows of a backend, and the heartbeat of a shared tracker replaces
    the state of the tracker. *)
Inductive label :=
| LTick (t : Time)
| LTraffic (name : string) (lw nw ew : W)
| LShutdown
| LUpdater (name : string) (net : nat -> attempt)
| LUpdaterDone (name : string)
| LLoop (order : list (Backend * backendState) -> list (Backend * backendState)) (net : nat -> string -> attempt)
| LLoopDone
| LTracker (t : T).

Definition exec (l : label) (w : world) : go (option world) :=
  match l with
  | LTick t => Ret (if w_now w <=? t then Some (set_now t w) else None)
  | LTraffic name lw nw ew =>
      Ret match member w name with
          | Some be => Some (set_shared (set_backend (set_windows lw nw ew be) (w_ms w)) (w_cp w) w)
          | None => None
          end
  | LShutdown => Ret (Some (Shutdown w))
  | LUpdater name net => updater_step name net w
  | LUpdaterDone name =>
      Ret match w_updaters w !! name with
          | Some (UWait _) => if w_cancelled w then Some (set_updater name UEnd w) else None
          | _ => None
          end
  | LLoop order net => loop_step order net w
  | LLoopDone =>
      Ret match w_loop w with
          | GWait _ => if w_cancelled w then Some (set_loop GEnd w) else None
          | _ => None
          end
  | LTracker t => Ret (Some (set_shared (w_ms w) (WithTracker t (w_cp w)) w))
  end.

Fixpoint exec_all (ls : list label) (w : world) : go (option world) :=
  match ls with
  | [] => Ret (Some w)
  | l :: ls' =>
      r ← exec l w;
      match r with Some w' => exec_all ls' w' | None => Ret None end
  end.

(** The iteration order of a map is some order of its entries. *)
Definition allowed (l : label) : Prop :=
  match l with
  | LLoop order _ => forall cs, order cs ≡ₚ cs
  | _ => True
  end.

Inductive reachable (w0 : world) : world -> Prop :=
| reach_start : reachable w0 w0
| reach_step w w' l : reachable w0 w -> allowed l -> exec l w = Ret (Some w') -> reachable w0 w'.

End Async.
