(* ===== verification/AsyncCorrect.v ===== *)
(** * Properties of the goroutines of the consensus poller

    The goroutines perform the updates that [Poller] defines, and what holds of the
    shared state under every interleaving of their steps. *)

From stdpp Require Import base list strings gmap.
From Stdlib Require Import ZArith QArith Lia Ascii.
From Stdlib Require Strings.String.
From S2P Require Import Prelude SlidingWindow SlidingWindowRefinement Json JsonRoundtrip Geth Rpc Reader Backend Tracker Poller PollerCorrect Async.

Local Open Scope Z_scope.

(** ** What a call to a backend leaves unchanged *)

Section Calls.
Context {G : Geth} {GL : GethLaws} {W : Type} {WO : WindowOps W}.
Notation Backend := (Backend (W := W)).
Notation members := (members (W := W)).
Implicit Types (b be : Backend) (ms : members).

Lemma MustDecodeUint64_range s n : MustDecodeUint64 s = Ret n -> is_u64 n.
Proof. unfold MustDecodeUint64. destruct (DecodeUint64 s) eqn:E; [|done]. intros [= ->]. by eapply DecodeUint64_range. Qed.

Lemma fetchBlock_keeps b block a b' r :
  fetchBlock b block a = Ret (b', r) -> strip b' = strip b /\ forall n h, r = inl (n, h) -> is_u64 n.
Proof.
  unfold fetchBlock. intros H. apply go_bind_ret in H as ([b1 r1] & Hf & H). apply ForwardRPC_keeps in Hf.
  destruct r1 as [res|err]; [|by injection H as <- <-].
  destruct (res_Result res) as [[[| | | | |m]| | |]|]; try (by injection H as <- <-).
  inv_ret. match goal with H : MustDecodeUint64 _ = _ |- _ => apply MustDecodeUint64_range in H end.
  subst. split; [done|]. by intros n h [= <- <-].
Qed.

Lemma getPeerCount_keeps b a b' r :
  getPeerCount b a = Ret (b', r) -> strip b' = strip b /\ forall n, r = inl n -> is_u64 n.
Proof.
  unfold getPeerCount. intros H. apply go_bind_ret in H as ([b1 r1] & Hf & H). apply ForwardRPC_keeps in Hf.
  destruct r1 as [res|err]; [|by injection H as <- <-].
  destruct (res_Result res) as [[[| | |s| |]| | |]|]; try (by injection H as <- <-).
  inv_ret. match goal with H : MustDecodeUint64 _ = _ |- _ => apply MustDecodeUint64_range in H end.
  subst. split; [done|]. by intros n [= <-].
Qed.

Lemma isInSync_keeps b a b' r : isInSync b a = Ret (b', r) -> strip b' = strip b.
Proof.
  unfold isInSync. intros H. apply go_bind_ret in H as ([b1 r1] & Hf & H). apply ForwardRPC_keeps in Hf.
  destruct r1 as [res|err]; [|by injection H as <- <-].
  destruct (res_Result res) as [[[| | |s| |]| | |]|]; try (by injection H as <- <-).
  by destruct (ParseBool s); injection H as <- <-.
Qed.

Lemma strip_incr_errors t b : strip (incr_errors t b) = strip b.
Proof. by destruct b. Qed.

(** The numbers of a poll are those of blocks that exist. *)
Definition poll_ok (p : poll_result) : Prop :=
  is_u64 (pr_peers p) /\ (0 < pr_latest p < two64) /\ (0 < pr_safe p < two64) /\ (0 < pr_finalized p < two64).

Lemma poll_backend_keeps b net b' found :
  poll_backend b net = Ret (b', found) -> strip b' = strip b /\ forall p, found = Some p -> poll_ok p.
Proof.
  unfold poll_backend. intros H. apply go_bind_ret in H as ([b1 r] & Hs%isInSync_keeps & H).
  destruct r as [sync|]; [|by injection H as <- <-]. apply go_bind_ret in H as ([b2 peers] & Hp & H).
  assert (Hb2 : strip b2 = strip b /\ forall n, peers = Some n -> is_u64 n).
  { destruct (skipPeerCountCheck b1); [injection Hp as <- <-; split; [done|by intros n [= <-]]|].
    apply go_bind_ret in Hp as ([b3 r] & (Hb3 & Hn)%getPeerCount_keeps & Hp).
    destruct r as [n|]; [|injection Hp as <- <-; split; [congruence|done]].
    destruct (n =? 0); injection Hp as <- <-; rewrite ?strip_incr_errors; (split; [congruence|]); [done|].
    intros m [= <-]. by apply Hn. }
  destruct Hb2 as [Hb2 Hpeers]. destruct peers as [peers|]; [|by injection H as <- <-]. specialize (Hpeers peers eq_refl).
  assert (Hfetch : forall c block a k,
    (forall b3 n h, strip b3 = strip b -> 0 < n < two64 -> k b3 n h = Ret (b', found) ->
       strip b' = strip b /\ forall p, found = Some p -> poll_ok p) -> strip c = strip b ->
    ('(be, r) ← fetchBlock c block a;
     match r with
     | inr _ => Ret (be, None)
     | inl (n, h) => if n =? 0 then Ret (incr_errors (at_end a) be, None) else k be n h
     end) = Ret (b', found) -> strip b' = strip b /\ forall p, found = Some p -> poll_ok p).
  { intros c block a k Hk Hc Hf. apply go_bind_ret in Hf as ([b3 r] & (Hb3 & Hn)%fetchBlock_keeps & Hf).
    destruct r as [[n h]|]; [|injection Hf as <- <-; split; [congruence|done]].
    destruct (Z.eqb_spec n 0); [injection Hf as <- <-; rewrite strip_incr_errors; split; [congruence|done]|].
    apply (Hk b3 n h); [congruence| |done]. specialize (Hn n h eq_refl). unfold is_u64 in Hn. lia. }
  revert H. apply Hfetch; [|done]. intros b3 n h Hb3 Hn. apply Hfetch; [|done]. intros b4 n4 h4 Hb4 Hn4.
  apply Hfetch; [|done]. intros b5 n5 h5 Hb5 Hn5 [= <- <-]. split; [done|]. by intros p [= <-].
Qed.

(** Members that differ only in their windows. *)
Lemma same_members_names ms0 ms : same_members ms0 ms -> map Name (Backends ms) = map Name (Backends ms0).
Proof.
  assert (Hmap : forall l : list Backend, map Name l = map Name (map strip l)).
  { intros l. rewrite map_map. apply map_ext. by intros []. }
  intros H. rewrite (Hmap (Backends ms)), (Hmap (Backends ms0)). unfold same_members in H. by rewrite H.
Qed.

Lemma same_members_find ms0 ms name b :
  same_members ms0 ms -> List.find (fun b => Name b ==s name) (Backends ms) = Some b ->
  Name b = name /\ exists b0, b0 ∈ Backends ms0 /\ strip b = strip b0 /\ Name b0 = name.
Proof.
  intros Hs Hf. pose proof (find_some _ _ Hf) as [_ Hn]. bsimp. split; [done|].
  pose proof (find_same _ _ name Hs) as H. rewrite Hf in H. cbn in H.
  destruct (List.find _ (Backends ms0)) as [b0|] eqn:Hf0; [|done]. injection H as H.
  apply find_some in Hf0 as [Hin Hn0]. bsimp. exists b0. by rewrite list_elem_of_In.
Qed.

Lemma same_members_set ms0 ms name b b1 :
  NoDup (map Name (Backends ms0)) -> same_members ms0 ms ->
  List.find (fun b => Name b ==s name) (Backends ms) = Some b -> strip b1 = strip b -> same_members ms0 (set_backend b1 ms).
Proof. intros Hnd Hs. apply set_backend_same; [done|]. by rewrite (same_members_names ms0). Qed.

Lemma check_round_keeps net ms0 i current n l : NoDup (map Name (Backends ms0)) ->
  forall hash broken ms ms' ok hash' broken', same_members ms0 ms ->
  check_round (fetch_member net) i current n l hash broken ms = Ret (ms', ok, hash', broken') ->
  same_members ms0 ms' /\ FallbackBackends ms' = FallbackBackends ms.
Proof.
  intros Hnd. induction l as [|name l IH]; intros hash broken ms ms' ok hash' broken' Hs H; cbn [check_round] in H.
  { by injection H as <- _ _ _. }
  apply go_bind_ret in H as ([ms1 r] & Hf & H).
  assert (Hs1 : same_members ms0 ms1 /\ FallbackBackends ms1 = FallbackBackends ms).
  { unfold fetch_member in Hf. destruct (List.find _ _) as [b|] eqn:E; [|done].
    apply go_bind_ret in Hf as ([b1 r1] & [Hb _]%fetchBlock_keeps & [= <- _]). split; [|done]. by eapply same_members_set. }
  destruct Hs1 as [Hs1 Hf1]. rewrite <- Hf1. destruct r as [[m h]|]; [|by eapply IH].
  destruct (_ || _); [by injection H as <- _ _ _|by eapply IH].
Qed.

End Calls.

(** ** An invariant of all interleavings *)

Section Invariant.
Context {G : Geth} {GL : GethLaws} {W : Type} {WO : WindowOps W} {T : Type} {TO : ConsensusTracker T}.
Notation Backend := (Backend (W := W)).
Notation members := (members (W := W)).
Notation world := (world (W := W) (T := T)).
Implicit Types (be : Backend) (ms : members) (w : world).

Definition state_u64 (bs : backendState) : Prop :=
  is_u64 (latestBlockNumber bs) /\ is_u64 (safeBlockNumber bs) /\ is_u64 (finalizedBlockNumber bs).

(** A recorded state, of a backend that is not a forced candidate, has consistent blocks. *)
Definition state_ok be (bs : backendState) : Prop := state_u64 bs /\ (forcedCandidate be = true \/ tags_ok bs).

(** The state of a backend, by where its goroutine is. Before it records a poll, the state
    is the one it read; after, the numbers are those of the poll. *)
Definition backend_inv w be : Prop :=
  let bs := GetBackendState (w_cp w) be in
  match w_updaters w !! Name be with
  | Some (USet _ old p) => old = bs /\ state_ok be bs /\ poll_ok p
  | Some (UCheck _ old p) => state_ok be old /\ poll_ok p /\
      latestBlockNumber bs = pr_latest p /\ safeBlockNumber bs = pr_safe p /\ finalizedBlockNumber bs = pr_finalized p
  | _ => state_ok be bs
  end.

(** What the group works on while it looks for an agreement. *)
Definition loop_inv w : Prop :=
  match w_loop w with
  | GRound _ _ _ _ _ proposed hash _ => is_u64 proposed /\ (hash = "" \/ 0 < proposed)
  | _ => True
  end.

Record async_inv ms0 w : Prop := {
  ai_members : same_members ms0 (w_ms w);
  ai_fallbacks : FallbackBackends (w_ms w) = FallbackBackends ms0;
  ai_group : consensusGroup (w_cp w) `sublist_of` map Name (Backends ms0);
  ai_backend : forall be, be ∈ Backends ms0 -> backend_inv w be;
  ai_loop : loop_inv w;
}.

Lemma backend_inv_frame w w' be :
  cp_state (w_cp w') !! Name be = cp_state (w_cp w) !! Name be -> w_updaters w' !! Name be = w_updaters w !! Name be ->
  backend_inv w be -> backend_inv w' be.
Proof. unfold backend_inv, GetBackendState. by intros -> ->. Qed.

Lemma strip_flags (b b0 : Backend) : strip b = strip b0 ->
  forcedCandidate b = forcedCandidate b0 /\ skipPeerCountCheck b = skipPeerCountCheck b0.
Proof. destruct b, b0. intros H. injection H. intros. by subst. Qed.

Lemma Ban_state_ok t (b be : Backend) (cp : ConsensusPoller (T := T)) :
  strip b = strip be -> state_ok be (GetBackendState cp be) -> state_ok be (GetBackendState (Ban t b cp) be).
Proof.
  intros Hs Hok. destruct (strip_flags _ _ Hs) as [Hf _]. pose proof (strip_Name _ _ Hs) as Hn. unfold Ban. rewrite Hf.
  destruct (forcedCandidate be) eqn:E; [done|]. unfold GetBackendState at 1. cbn. rewrite Hn, lookup_insert_eq. cbn.
  unfold state_ok, state_u64, tags_ok, is_u64, two64. cbn. lia.
Qed.

Lemma Ban_frame t (b : Backend) (cp : ConsensusPoller (T := T)) :
  consensusGroup (Ban t b cp) = consensusGroup cp /\
  forall name, name <> Name b -> cp_state (Ban t b cp) !! name = cp_state cp !! name.
Proof. split; [unfold Ban; by destruct (forcedCandidate b)|]. intros name Hn. by apply Ban_other. Qed.

Lemma begin_update_spec now ms0 ms (b be : Backend) net (cp : ConsensusPoller (T := T)) ms' cp' found :
  NoDup (map Name (Backends ms0)) -> same_members ms0 ms ->
  List.find (fun b => Name b ==s Name be) (Backends ms) = Some b -> strip b = strip be ->
  state_ok be (GetBackendState cp be) -> begin_update now b net ms cp = Ret (ms', cp', found) ->
  same_members ms0 ms' /\ FallbackBackends ms' = FallbackBackends ms /\ consensusGroup cp' = consensusGroup cp /\
  (forall name, name <> Name be -> cp_state cp' !! name = cp_state cp !! name) /\
  state_ok be (GetBackendState cp' be) /\
  match found with
  | Some (bs, p) => bs = GetBackendState cp' be /\ poll_ok p
  | None => True
  end.
Proof.
  intros Hnd Hs Hfind Hb Hok H. pose proof (strip_Name _ _ Hb) as Hn. unfold begin_update in H.
  destruct (bs_IsBanned _ _); [by injection H as <- <- <-|].
  destruct (negb (IsHealthy now b) && negb (forcedCandidate b)).
  { injection H as <- <- <-. destruct (Ban_frame now b cp) as [Hg Hst]. rewrite Hn in Hst.
    repeat split; try done; by apply Ban_state_ok. }
  apply go_bind_ret in H as ([b1 r] & [Hb1 Hp]%poll_backend_keeps & [= <- <- <-]).
  split; [by eapply same_members_set|]. split; [done|]. split; [done|]. split; [done|]. split; [done|].
  destruct r as [p|]; [|done]. split; [by unfold GetBackendState; rewrite Hn|by apply Hp].
Qed.

Lemma record_update_state now (b be : Backend) p (cp : ConsensusPoller (T := T)) : Name b = Name be ->
  GetBackendState (record_update now b p cp) be =
    mkBS (pr_latest p) (pr_hash p) (pr_safe p) (pr_finalized p) (pr_peers p) (pr_inSync p) now
      (bannedUntil (GetBackendState cp be)) /\
  consensusGroup (record_update now b p cp) = consensusGroup cp /\
  forall name, name <> Name be -> cp_state (record_update now b p cp) !! name = cp_state cp !! name.
Proof.
  intros Hn. unfold record_update, setBackendState, GetBackendState. cbn. rewrite Hn, lookup_insert_eq. cbn.
  split; [done|]. split; [done|]. intros name Hne. by rewrite lookup_insert_ne.
Qed.

(** A poll that passes the check leaves consistent blocks; one that does not bans. *)
Lemma check_update_state_ok now (b be : Backend) old p (cp : ConsensusPoller (T := T)) :
  strip b = strip be -> state_ok be old -> poll_ok p ->
  let bs := GetBackendState cp be in
  latestBlockNumber bs = pr_latest p -> safeBlockNumber bs = pr_safe p -> finalizedBlockNumber bs = pr_finalized p ->
  state_ok be (GetBackendState (check_update now b old p cp) be).
Proof.
  intros Hb [_ Hold] (_ & Hl & Hs & Hf) bs El Es Ef. destruct (strip_flags _ _ Hb) as [Hforced _].
  assert (Hu : state_u64 bs) by (unfold state_u64, is_u64; lia).
  unfold check_update. destruct (negb (expected old p) && negb (forcedCandidate b)) eqn:E.
  - apply andb_prop in E as [_ E0%negb_true_iff]. unfold Ban. rewrite E0. unfold GetBackendState. cbn. rewrite (strip_Name _ _ Hb), lookup_insert_eq. cbn.
    unfold state_ok, state_u64, tags_ok, is_u64, two64. cbn. lia.
  - split; [done|]. rewrite <- Hforced. destruct (forcedCandidate b); [by left|]. right. rewrite andb_true_r in E. bsimp.
    unfold expected, checkExpectedBlockTags in E. bsimp. unfold tags_ok. fold bs. lia.
Qed.

Lemma check_update_frame now (b be : Backend) old p (cp : ConsensusPoller (T := T)) : Name b = Name be ->
  consensusGroup (check_update now b old p cp) = consensusGroup cp /\
  forall name, name <> Name be -> cp_state (check_update now b old p cp) !! name = cp_state cp !! name.
Proof.
  intros Hn. unfold check_update. destruct (_ && _); [|done]. rewrite <- Hn. apply Ban_frame.
Qed.

Lemma filter_sublist {A} (f : A -> bool) l : List.filter f l `sublist_of` l.
Proof. induction l as [|a l IH]; [constructor|]. cbn. destruct (f a); by constructor. Qed.

Lemma backend_inv_u64 w be : backend_inv w be -> state_u64 (GetBackendState (w_cp w) be).
Proof.
  unfold backend_inv. destruct (w_updaters w !! Name be) as [[|d old p|d old p|d|]|]; try (by intros [H _]).
  - by intros (_ & [H _] & _).
  - intros (_ & (_ & ? & ? & ?) & E1 & E2 & E3). unfold state_u64, is_u64. lia.
Qed.

Lemma lowest_of_u64 (cs : list (Backend * backendState)) :
  Forall (fun c => state_u64 c.2) cs -> is_u64 (lowestLatestBlock (lowest_of cs)).
Proof.
  unfold lowest_of. assert (H0 : is_u64 (lowestLatestBlock (mkLowest 0 "" 0 0))) by done. revert H0.
  generalize (mkLowest 0 "" 0 0). induction cs as [|c cs IH]; intros lo Hlo H; [done|].
  apply Forall_cons in H as [[Hc _] H]. cbn [foldl]. apply IH; [|done].
  unfold lowest_step. by destruct (_ || _).
Qed.

(** The member of a name and the one it was at first. *)
Lemma member_spec ms0 w name b :
  async_inv ms0 w -> member w name = Some b ->
  Name b = name /\ exists be, be ∈ Backends ms0 /\ strip b = strip be /\ Name be = name.
Proof. intros Hinv H. by eapply same_members_find; [apply ai_members|]. Qed.

(** A step of the goroutine of [be], which writes nobody else's state. *)
Lemma updater_inv ms0 w be ms' cp' u :
  NoDup (map Name (Backends ms0)) -> be ∈ Backends ms0 -> async_inv ms0 w ->
  same_members ms0 ms' -> FallbackBackends ms' = FallbackBackends (w_ms w) ->
  consensusGroup cp' = consensusGroup (w_cp w) ->
  (forall name, name <> Name be -> cp_state cp' !! name = cp_state (w_cp w) !! name) ->
  let w' := set_updater (Name be) u (set_shared ms' cp' w) in
  backend_inv w' be -> async_inv ms0 w'.
Proof.
  intros Hnd Hbe Hinv Hs Hf Hg Ho w' Hb. split.
  - done.
  - cbn. rewrite Hf. by apply ai_fallbacks.
  - cbn. rewrite Hg. by apply ai_group.
  - intros be' Hbe'. destruct (decide (Name be' = Name be)) as [E|E].
    + replace be' with be; [done|]. pose proof (find_name _ _ Hnd Hbe') as H1. rewrite E, (find_name _ _ Hnd Hbe) in H1. congruence.
    + apply (backend_inv_frame w); [by apply Ho|cbn; by rewrite lookup_insert_ne|by apply (ai_backend ms0)].
  - exact (ai_loop ms0 w Hinv).
Qed.

Lemma updater_step_inv ms0 w name net w' :
  NoDup (map Name (Backends ms0)) -> async_inv ms0 w -> updater_step name net w = Ret (Some w') -> async_inv ms0 w'.
Proof.
  intros Hnd Hinv H. unfold updater_step in H. destruct (w_updaters w !! name) as [u|] eqn:Hu; [|done].
  assert (Hself : set_shared (w_ms w) (w_cp w) w = w) by (by destruct w).
  destruct (member w name) as [b|] eqn:Hm.
  2: { destruct u; try done. destruct (_ <=? _); [|done]. injection H as <-. destruct Hinv as [H1 H2 H3 H4 H5].
       split; try done. intros be Hbe. apply (backend_inv_frame w); [done| |by apply H4]. cbn. rewrite lookup_insert_ne; [done|].
       intros ->. unfold member in Hm. pose proof (find_same _ _ (Name be) H1) as E. rewrite Hm in E.
       rewrite (find_name _ _ Hnd Hbe) in E. done. }
  destruct (member_spec ms0 w name b Hinv Hm) as (Hn & be & Hbe & Hs & <-).
  pose proof (ai_backend ms0 w Hinv be Hbe) as Hb. pose proof Hb as Hb0. unfold backend_inv in Hb. rewrite Hu in Hb.
  assert (Hkeep : forall v, state_ok be (GetBackendState (w_cp w) be) -> v = UStart \/ (exists d, v = UWait d) ->
    async_inv ms0 (set_updater (Name be) v w)).
  { intros v Hok Hv. rewrite <- Hself. apply (updater_inv ms0 w be); try done; [by apply ai_members|].
    unfold backend_inv. cbn. rewrite lookup_insert_eq. by destruct Hv as [->|[d ->]]. }
  destruct u as [|d old p|d old p|d|]; [..|done].
  - destruct (_ && _); [injection H as <-; by eauto|]. apply go_bind_ret in H as ([[ms1 cp1] found] & Hbeg & [= <-]).
    destruct (begin_update_spec (w_now w) ms0 (w_ms w) b be net (w_cp w) ms1 cp1 found) as (H1 & H2 & H3 & H4 & H5 & H6);
      [done|by apply ai_members|done..|].
    apply (updater_inv ms0 w be); try done. unfold backend_inv. cbn. rewrite lookup_insert_eq.
    destruct found as [[bs p]|]; [|done]. destruct H6 as [-> H6]. done.
  - injection H as <-. destruct (record_update_state (w_now w) b be p (w_cp w) Hn) as (E1 & E2 & E3).
    apply (updater_inv ms0 w be); try done; [by apply ai_members|]. unfold backend_inv. cbn [w_updaters w_cp set_updater set_shared].
    rewrite lookup_insert_eq, E1. cbn. destruct Hb as (-> & ? & ?). done.
  - injection H as <-. destruct Hb as (? & ? & ? & ? & ?).
    destruct (check_update_frame (w_now w) b be old p (w_cp w) Hn) as [E1 E2].
    apply (updater_inv ms0 w be); try done; [by apply ai_members|]. unfold backend_inv. cbn [w_updaters w_cp set_updater set_shared].
    rewrite lookup_insert_eq. by apply check_update_state_ok.
  - destruct (d <=? w_now w); [|done]. injection H as <-. by eauto.
Qed.

(** A change of the shared backends or of the clock, which no state depends on. *)
Lemma shared_inv ms0 w t c ms' g :
  async_inv ms0 w -> same_members ms0 ms' -> FallbackBackends ms' = FallbackBackends (w_ms w) ->
  loop_inv (mkWorld t c ms' (w_cp w) (w_updaters w) g) ->
  async_inv ms0 (mkWorld t c ms' (w_cp w) (w_updaters w) g).
Proof.
  intros Hinv Hs Hf Hl. split; cbn; [done|rewrite Hf; by apply ai_fallbacks|by apply ai_group| |done].
  intros be Hbe. apply (backend_inv_frame w); [done..|by apply (ai_backend ms0)].
Qed.

Lemma candidates_u64 ms0 w order :
  async_inv ms0 w -> (forall cs, order cs ≡ₚ cs) ->
  Forall (fun c : Backend * backendState => state_u64 c.2) (order (getConsensusCandidates (w_now w) (w_ms w) (w_cp w))).
Proof.
  intros Hinv Ho. rewrite Ho. apply Forall_forall. intros c [Hc ->]%candidates_in.
  apply (list_elem_of_fmap_2 strip) in Hc. change (strip c.1 ∈ map strip (Backends (w_ms w))) in Hc.
  pose proof (ai_members ms0 w Hinv) as Hm. unfold same_members in Hm. rewrite Hm in Hc.
  apply list_elem_of_fmap in Hc as (be & Hs & Hbe). apply strip_Name in Hs. unfold GetBackendState. rewrite Hs.
  by apply (backend_inv_u64 w be), (ai_backend ms0).
Qed.

Lemma loop_step_inv ms0 w order net w' :
  NoDup (map Name (Backends ms0)) -> (forall cs, order cs ≡ₚ cs) ->
  async_inv ms0 w -> loop_step order net w = Ret (Some w') -> async_inv ms0 w'.
Proof.
  intros Hnd Ho Hinv H. unfold loop_step in H. pose proof (ai_loop _ _ Hinv) as Hl. unfold loop_inv in Hl.
  destruct (w_loop w) as [|d current cands lo i proposed hash broken|d cands lo proposed broken|d|]; [..|done].
  - injection H as <-. apply shared_inv; [done|by apply ai_members|done|]. unfold loop_inv. cbn [w_loop].
    destruct (Z.ltb_spec 0 (lowestLatestBlock (lowest_of (order (getConsensusCandidates (w_now w) (w_ms w) (w_cp w)))))); [|done].
    split; [|by right]. apply lowest_of_u64. by apply (candidates_u64 ms0).
  - apply go_bind_ret in H as ([[[ms1 ok] hash1] broken1] & Hc & [= <-]).
    destruct (check_round_keeps net ms0 i current proposed _ Hnd _ _ _ _ _ _ _ (ai_members ms0 w Hinv) Hc) as [Hs Hf].
    apply (shared_inv ms0 w); [done..|]. unfold loop_inv. cbn [w_loop]. destruct ok; [done|]. split; [apply u64_bounds|by left].
  - injection H as <-. split; cbn; [by apply ai_members|by apply ai_fallbacks| | |done].
    + rewrite <- (same_members_names ms0 (w_ms w)) by (by apply ai_members). apply filter_sublist.
    + intros be Hbe. apply (backend_inv_frame w); [done..|by apply (ai_backend ms0)].
  - destruct (_ <=? _); [|done]. injection H as <-. apply shared_inv; [done|by apply ai_members|done|done].
Qed.

Lemma exec_inv ms0 w l w' :
  NoDup (map Name (Backends ms0)) -> allowed l -> async_inv ms0 w -> exec l w = Ret (Some w') -> async_inv ms0 w'.
Proof.
  intros Hnd Ha Hinv H. destruct l as [t|name lw nw ew| |name net|name|order net| |t]; cbn in H.
  - destruct (_ <=? _); [|done]. injection H as <-. apply shared_inv; [done|by apply ai_members|done|by apply (ai_loop ms0 w)].
  - destruct (member w name) as [b|] eqn:Hm; [|done]. injection H as <-.
    apply shared_inv; [done| |done|by apply (ai_loop ms0 w)].
    eapply same_members_set; [done|by apply ai_members|exact Hm|]. by destruct b.
  - injection H as <-. apply shared_inv; [done|by apply ai_members|done|by apply (ai_loop ms0 w)].
  - by eapply updater_step_inv.
  - destruct (w_updaters w !! name) as [[| | |d|]|] eqn:Hu; try done. destruct (w_cancelled w); [|done]. injection H as <-.
    destruct Hinv as [H1 H2 H3 H4 H5]. split; try done. intros be Hbe. specialize (H4 be Hbe).
    unfold backend_inv in *. cbn. destruct (decide (name = Name be)) as [->|Hne].
    + rewrite lookup_insert_eq. by rewrite Hu in H4.
    + by rewrite lookup_insert_ne.
  - by eapply loop_step_inv.
  - destruct (w_loop w); try done. destruct (w_cancelled w); [|done]. injection H as <-.
    apply shared_inv; [done|by apply ai_members|done|done].
  - injection H as <-. destruct Hinv as [H1 H2 H3 H4 H5]. by split.
Qed.

Lemma reachable_inv ms0 w0 w :
  NoDup (map Name (Backends ms0)) -> async_inv ms0 w0 -> reachable w0 w -> async_inv ms0 w.
Proof. intros Hnd H0. induction 1 as [|w w' l _ IH Ha H]; [done|]. by eapply exec_inv. Qed.

(** ** The start *)

Lemma Reset_state ms (cp : ConsensusPoller (T := T)) be : be ∈ Backends ms -> GetBackendState (Reset ms cp) be = zero_state.
Proof.
  intros Hbe. unfold Reset, GetBackendState. cbn [cp_state set_cp_state].
  assert (H : forall (l : list Backend) (st : gmap string backendState), (Name be ∈ map Name l \/ st !! Name be = Some zero_state) ->
    foldl (fun st (b : Backend) => <[Name b := zero_state]> st) st l !! Name be = Some zero_state).
  { induction l as [|b l IH]; intros st [Hin|Hst]; cbn [foldl].
    - by apply elem_of_nil in Hin.
    - done.
    - apply IH. apply elem_of_cons in Hin as [E|Hin]; [right; rewrite E; apply lookup_insert_eq|by left].
    - apply IH. right. destruct (decide (Name b = Name be)) as [->|]; [apply lookup_insert_eq|by rewrite lookup_insert_ne]. }
  rewrite H; [done|]. left. by apply (list_elem_of_fmap_2 Name).
Qed.

(** An option of the poller does not touch its consensus group. *)
Definition keeps_group (opt : ConsensusOpt (T := T)) : Prop := forall cp, consensusGroup (opt cp) = consensusGroup cp.

Lemma NewConsensusPoller_group t ms opts : Forall keeps_group opts -> consensusGroup (NewConsensusPoller t ms opts) = [].
Proof.
  intros H. unfold NewConsensusPoller, Reset. cbn [consensusGroup set_cp_state].
  enough (E : forall cp, consensusGroup (foldl (fun cp opt => opt cp) cp opts) = consensusGroup cp) by apply E.
  induction H as [|opt opts Ho _ IH]; intros cp; [done|]. cbn. by rewrite IH.
Qed.

Lemma Init_inv now t ms opts : Forall keeps_group opts -> async_inv ms (Init now ms (NewConsensusPoller t ms opts)).
Proof.
  intros Ho. split; [done|done| | |done].
  - cbn [Init w_cp]. rewrite NewConsensusPoller_group by done. apply sublist_nil_l.
  - intros be Hbe. unfold backend_inv, Init. cbn [w_cp w_updaters].
    assert (Hst : state_ok be (GetBackendState (NewConsensusPoller t ms opts) be)).
    { unfold NewConsensusPoller. rewrite Reset_state by done. split; [done|]. right. done. }
    assert (Hu : forall l : list Backend, (foldr (fun b us => <[Name b := UStart]> us) ∅ l : gmap string updater) !! Name be = None \/
      (foldr (fun b us => <[Name b := UStart]> us) ∅ l : gmap string updater) !! Name be = Some UStart).
    { induction l as [|b l IH]; [by left|]. cbn. destruct (decide (Name b = Name be)) as [->|Hne].
      - right. by rewrite lookup_insert_eq.
      - by rewrite lookup_insert_ne. }
    by destruct (Hu (Primaries ms ++ Fallbacks ms)) as [-> | ->].
Qed.

Lemma Noop_inv now t ms opts : Forall keeps_group opts -> async_inv ms (Noop_Init now ms (NewConsensusPoller t ms opts)).
Proof.
  intros Ho. destruct (Init_inv now t ms opts Ho) as [H1 H2 H3 _ _]. split; [done|done|done| |done].
  intros be Hbe. unfold backend_inv, NewConsensusPoller. cbn [w_updaters Noop_Init w_cp]. rewrite lookup_empty, Reset_state by done.
  split; [done|]. by right.
Qed.

(** C18. The goroutines keep the recorded states consistent under every interleaving. In every
    world reachable from the start of the poller, the consensus group is a sublist of the
    backends of the group, and the recorded blocks of a backend that is not a forced
    candidate satisfy finalized <= safe <= latest, except between the moment its goroutine
    records a poll that fails the check of the block tags and the moment it bans the backend. *)
Theorem async_states_consistent now t ms opts w be :
  NoDup (map Name (Backends ms)) -> Forall keeps_group opts ->
  reachable (Init now ms (NewConsensusPoller t ms opts)) w -> be ∈ Backends ms -> forcedCandidate be = false ->
  consensusGroup (w_cp w) `sublist_of` map Name (Backends ms) /\
  (tags_ok (GetBackendState (w_cp w) be) \/
   exists deadline old p, w_updaters w !! Name be = Some (UCheck deadline old p) /\ expected old p = false).
Proof.
  intros Hnd Ho Hr Hbe Hf. pose proof (reachable_inv ms _ w Hnd (Init_inv now t ms opts Ho) Hr) as Hinv.
  split; [by apply ai_group|]. pose proof (ai_backend ms w Hinv be Hbe) as H. unfold backend_inv, state_ok in H. rewrite Hf in H.
  destruct (w_updaters w !! Name be) as [[|d old p|d old p|d|]|]; try naive_solver.
  destruct H as ((_ & [?|Hold]) & _ & E1 & E2 & E3); [done|]. destruct (expected old p) eqn:E; [left|by right; eauto].
  unfold expected, checkExpectedBlockTags in E. bsimp. unfold tags_ok in *. lia.
Qed.

End Invariant.

(** ** The goroutines perform the updates *)

Section Simulation.
Context {G : Geth} {GL : GethLaws} {W : Type} {WO : WindowOps W} {T : Type} {TO : ConsensusTracker T}.
Notation Backend := (Backend (W := W)).
Notation members := (members (W := W)).
Notation ConsensusPoller := (ConsensusPoller (T := T)).
Notation world := (world (W := W) (T := T)).
Implicit Types (be : Backend) (ms : members) (w : world) (cp : ConsensusPoller).

Lemma exec_all_app ls1 : forall ls2 w w1,
  exec_all ls1 w = Ret (Some w1) -> exec_all (ls1 ++ ls2) w = exec_all ls2 w1.
Proof.
  induction ls1 as [|l ls1 IH]; intros ls2 w w1 H; [by injection H as ->|]. cbn [exec_all app] in *.
  apply go_bind_ret in H as ([w2|] & -> & H); [|done]. go_simpl. by apply IH.
Qed.

(** The rounds of an agreement are steps of the goroutine of the group. *)
Lemma agree_exec net (order : nat -> list (Backend * backendState) -> list (Backend * backendState)) d current cands lo cp fuel : forall i proposed hash broken ms ms' m broken' w,
  agree (fetch_member net) fuel i (fun i => map (fun c => Name c.1) (order i cands)) current proposed hash broken ms
    = Ret (Some (ms', m, broken')) ->
  w_loop w = GRound d current cands lo i proposed hash broken -> w_ms w = ms -> w_cp w = cp ->
  exists ls, exec_all ls w = Ret (Some (set_loop (GPublish d cands lo m broken') (set_shared ms' cp w))).
Proof.
  induction fuel as [|fuel IH]; intros i proposed hash broken ms ms' m broken' w H Hl Hms Hcp; [done|]. cbn [agree] in H.
  apply go_bind_ret in H as ([[[ms1 ok] hash1] broken1] & Hc & H).
  assert (Hstep : exec (LLoop (order i) net) w = Ret (Some (set_loop
    (if ok then GPublish d cands lo proposed broken1 else GRound d current cands lo (S i) (u64 (proposed - 1)) "" broken1)
    (set_shared ms1 cp w)))).
  { cbn [exec]. unfold loop_step. by rewrite Hl, Hms, Hc, Hcp. }
  destruct ok.
  - injection H as <- <- <-. exists [LLoop (order i) net]. cbn [exec_all]. rewrite Hstep. done.
  - destruct (IH _ _ _ _ _ _ _ _ (set_loop (GRound d current cands lo (S i) (u64 (proposed - 1)) "" broken1)
      (set_shared ms1 cp w)) H) as [ls Hls]; [done..|].
    exists (LLoop (order i) net :: ls). cbn [exec_all]. rewrite Hstep. go_simpl. by rewrite Hls.
Qed.

Lemma agree_keeps net ms0 cands (order : nat -> list (Backend * backendState) -> list (Backend * backendState)) current fuel :
  NoDup (map Name (Backends ms0)) ->
  forall i proposed hash broken ms ms' m broken', same_members ms0 ms ->
  agree (fetch_member net) fuel i (fun i => map (fun c => Name c.1) (order i cands)) current proposed hash broken ms
    = Ret (Some (ms', m, broken')) -> same_members ms0 ms'.
Proof.
  intros Hnd. induction fuel as [|fuel IH]; intros i proposed hash broken ms ms' m broken' Hs H; [done|]. cbn [agree] in H.
  apply go_bind_ret in H as ([[[ms1 ok] hash1] broken1] & Hc & H).
  destruct (check_round_keeps net ms0 i current proposed _ Hnd _ _ _ _ _ _ _ Hs Hc) as [Hs1 _].
  destruct ok; [by injection H as <- _ _|by eapply IH].
Qed.

Lemma group_update_exec fuel order net w ms' cp' :
  NoDup (map Name (Backends (w_ms w))) -> w_loop w = GStart ->
  UpdateBackendGroupConsensus fuel (w_now w) order net (w_ms w) (w_cp w) = Ret (Some (ms', cp')) ->
  exists ls, exec_all ls w = Ret (Some (set_loop (GWait (w_now w + interval (w_cp w))) (set_shared ms' cp' w))).
Proof.
  intros Hnd Hl H. unfold UpdateBackendGroupConsensus in H. set (cands := getConsensusCandidates _ _ _) in H.
  set (lo := lowest_of _) in H. apply go_bind_ret in H as ([[[ms1 m] broken]|] & Ha & [= <- <-]).
  set (d := w_now w + interval (w_cp w)). set (current := GetLatestBlockNumber (tracker (w_cp w))) in Ha.
  assert (Hrounds : exists ls, exec_all ls w = Ret (Some (set_loop (GPublish d cands lo m broken) (set_shared ms1 (w_cp w) w)))
    /\ same_members (w_ms w) ms1).
  { assert (Hstart : exec (LLoop (order 0%nat) net) w = Ret (Some (set_loop
      (if 0 <? lowestLatestBlock lo then GRound d current cands lo 1 (lowestLatestBlock lo) (lowestLatestBlockHash lo) false
       else GPublish d cands lo (lowestLatestBlock lo) false) w))).
    { cbn [exec]. unfold loop_step. by rewrite Hl. }
    destruct (0 <? lowestLatestBlock lo).
    - pose proof (agree_keeps net (w_ms w) cands order current fuel Hnd _ _ _ _ _ _ _ _ eq_refl Ha) as Hs.
      eapply (agree_exec net order d current cands lo (w_cp w)) in Ha as [ls Hls];
        [|by instantiate (1 := set_loop (GRound d current cands lo 1 (lowestLatestBlock lo) (lowestLatestBlockHash lo) false) w)|done..].
      exists (LLoop (order 0%nat) net :: ls). cbn [exec_all]. rewrite Hstart. go_simpl. by rewrite Hls.
    - injection Ha as <- <- <-. exists [LLoop (order 0%nat) net]. cbn [exec_all]. rewrite Hstart. by destruct w. }
  destruct Hrounds as (ls & Hls & Hs). exists (ls ++ [LLoop (order 0%nat) net]). rewrite (exec_all_app _ _ _ _ Hls).
  cbn [exec_all exec loop_step set_loop w_loop]. go_simpl. unfold publish.
  cbn [w_ms set_shared set_loop w_cp]. by rewrite (same_members_names _ _ Hs).
Qed.

(** The member after its windows have changed. *)
Lemma find_set_backend be be1 (l : list Backend) :
  List.find (fun b => Name b ==s Name be) l = Some be -> Name be1 = Name be ->
  List.find (fun b => Name b ==s Name be) (map (fun b => if Name b ==s Name be1 then be1 else b) l) = Some be1.
Proof.
  intros Hf Hn. induction l as [|b l IH]; [done|]. cbn in *. rewrite Hn in *. destruct (streq_spec (Name b) (Name be)) as [E|E].
  - by rewrite Hn, streq_refl.
  - destruct (streq_spec (Name b) (Name be)); [done|]. by apply IH.
Qed.

Lemma exec_USet w name net d bs p b :
  w_updaters w !! name = Some (USet d bs p) -> member w name = Some b ->
  exec (LUpdater name net) w = Ret (Some (set_updater name (UCheck d bs p)
    (set_shared (w_ms w) (record_update (w_now w) b p (w_cp w)) w))).
Proof. intros Hu Hm. cbn [exec]. unfold updater_step. by rewrite Hu, Hm. Qed.

Lemma exec_UCheck w name net d bs p b :
  w_updaters w !! name = Some (UCheck d bs p) -> member w name = Some b ->
  exec (LUpdater name net) w = Ret (Some (set_updater name (UWait d)
    (set_shared (w_ms w) (check_update (w_now w) b bs p (w_cp w)) w))).
Proof. intros Hu Hm. cbn [exec]. unfold updater_step. by rewrite Hu, Hm. Qed.

Lemma backend_update_exec later net be w ms' cp' :
  member w (Name be) = Some be -> w_updaters w !! Name be = Some UStart -> w_now w <= later ->
  (is_fallback w (Name be) = true -> FilterCandidates (w_now w) (w_cp w) (Primaries (w_ms w)) = []) ->
  UpdateBackend (w_now w) later be net (w_ms w) (w_cp w) = Ret (ms', cp') ->
  exists ls w', exec_all ls w = Ret (Some w') /\ w_ms w' = ms' /\ w_cp w' = cp' /\
    w_updaters w' !! Name be = Some (UWait (w_now w + interval (w_cp w))).
Proof.
  intros Hm Hu Hle Hfb H. set (d := w_now w + interval (w_cp w)).
  assert (Hfb' : is_fallback w (Name be) && negb (length (FilterCandidates (w_now w) (w_cp w) (Primaries (w_ms w))) =? 0)%nat = false).
  { destruct (is_fallback w (Name be)); [|done]. by rewrite Hfb. }
  assert (Hbegin : forall ms1 cp1 found, begin_update (w_now w) be net (w_ms w) (w_cp w) = Ret (ms1, cp1, found) ->
    exec (LUpdater (Name be) net) w = Ret (Some (set_updater (Name be)
      match found with Some (bs, p) => USet d bs p | None => UWait d end (set_shared ms1 cp1 w)))).
  { intros ms1 cp1 found Hb. cbn [exec]. unfold updater_step. by rewrite Hu, Hm, Hfb', Hb. }
  assert (Hone : forall ms1 cp1, begin_update (w_now w) be net (w_ms w) (w_cp w) = Ret (ms1, cp1, None) ->
    exists ls w', exec_all ls w = Ret (Some w') /\ w_ms w' = ms1 /\ w_cp w' = cp1 /\ w_updaters w' !! Name be = Some (UWait d)).
  { intros ms1 cp1 Hb. exists [LUpdater (Name be) net]. cbn [exec_all]. rewrite (Hbegin _ _ _ Hb). eexists. split; [done|].
    cbn. by rewrite lookup_insert_eq. }
  unfold UpdateBackend in H. unfold begin_update in Hbegin, Hone. set (bs := GetBackendState _ _) in *.
  destruct (bs_IsBanned (w_now w) bs); [injection H as <- <-; by apply Hone|].
  destruct (negb _ && negb _); [injection H as <- <-; by apply Hone|].
  apply go_bind_ret in H as ([be1 found] & Hp & H). rewrite Hp in Hbegin, Hone.
  destruct found as [p|]; [|injection H as <- <-; by apply Hone].
  apply poll_backend_keeps in Hp as [Hs _]. pose proof (strip_Name _ _ Hs) as Hn. destruct (strip_flags _ _ Hs) as [Hf _].
  assert (Hm1 : forall t c cp1 us g, member (mkWorld t c (set_backend be1 (w_ms w)) cp1 us g) (Name be) = Some be1).
  { intros. by apply find_set_backend. }
  assert (Hstep : forall t c cp1 us g bs p, us !! Name be = Some (USet d bs p) ->
    let w1 := mkWorld t c (set_backend be1 (w_ms w)) cp1 us g in
    exec_all [LUpdater (Name be) net; LUpdater (Name be) net] w1 = Ret (Some (set_updater (Name be) (UWait d)
      (set_shared (set_backend be1 (w_ms w)) (check_update t be bs p (record_update t be p cp1))
        (set_updater (Name be) (UCheck d bs p) w1))))).
  { intros t c cp1 us g bs' p' Hus w1. cbn [exec_all]. rewrite (exec_USet w1 (Name be) net d bs' p' be1 Hus (Hm1 _ _ _ _ _)). go_simpl.
    erewrite exec_UCheck; [|cbn; by rewrite lookup_insert_eq|by apply Hm1]. go_simpl. do 3 f_equal. cbn.
    unfold check_update, record_update, setBackendState, Ban, GetBackendState. by rewrite Hf, Hn. }
  exists [LUpdater (Name be) net; LTick later; LUpdater (Name be) net; LUpdater (Name be) net].
  eexists. split; [|split; [|split]].
  - cbn [exec_all]. rewrite (Hbegin _ _ _ eq_refl). go_simpl. cbn [exec w_now set_updater set_shared].
    rewrite (proj2 (Z.leb_le _ _) Hle). go_simpl. apply (Hstep later _ _ _ _ bs p). apply lookup_insert_eq.
  - cbn. by destruct (negb _ && negb _); injection H as <- <-.
  - cbn. unfold check_update, expected, record_update. by destruct (negb _ && negb _); injection H as <- <-.
  - cbn. by rewrite lookup_insert_eq.
Qed.

(** The goroutines can carry out the updates that the poller defines. From any world in which
    the goroutine of a backend (a primary, or a fallback while no primary is a candidate)
    is at the start of a round, some steps lead to exactly the poller and backends that
    [UpdateBackend] returns, with the goroutine waiting for its timer; and from any world in which the
    goroutine of the group is at the start of a round, some steps lead to exactly what
    [UpdateBackendGroupConsensus] returns. *)
Theorem async_performs_updates w :
  (forall later net be ms' cp',
    member w (Name be) = Some be -> w_updaters w !! Name be = Some UStart -> w_now w <= later ->
    (is_fallback w (Name be) = true -> FilterCandidates (w_now w) (w_cp w) (Primaries (w_ms w)) = []) ->
    UpdateBackend (w_now w) later be net (w_ms w) (w_cp w) = Ret (ms', cp') ->
    exists ls w', exec_all ls w = Ret (Some w') /\ w_ms w' = ms' /\ w_cp w' = cp' /\
      w_updaters w' !! Name be = Some (UWait (w_now w + interval (w_cp w)))) /\
  (forall fuel order net ms' cp',
    NoDup (map Name (Backends (w_ms w))) -> w_loop w = GStart ->
    UpdateBackendGroupConsensus fuel (w_now w) order net (w_ms w) (w_cp w) = Ret (Some (ms', cp')) ->
    exists ls, exec_all ls w = Ret (Some (set_loop (GWait (w_now w + interval (w_cp w))) (set_shared ms' cp' w)))).
Proof. split; intros *; [apply backend_update_exec|apply group_update_exec]. Qed.

End Simulation.

(** ** Witnesses *)

Notation demo_init := (Init Hour demo_members (NewConsensusPoller NewInMemoryConsensusTracker demo_members [WithMaxBlockLag 4])).

Lemma demo_members_nodup : NoDup (map Name (Backends demo_members)).
Proof. repeat (apply NoDup_cons; split; [rewrite ?elem_of_cons, elem_of_nil; intuition discriminate|]). apply NoDup_nil_2. Qed.

(** The goroutine of a backend that is down makes its first step. *)
Lemma async_states_consistent_witness :
  exists w, exec (LUpdater "a" (fun _ => failed_attempt Hour)) demo_init = Ret (Some w) /\
    consensusGroup (w_cp w) `sublist_of` ["a"; "b"] /\
    (tags_ok (GetBackendState (w_cp w) (NewBackend (W := AvgSlidingWindow Z (AL Time (bucket Z))) "a" "" "" [])) \/
     exists deadline old p, w_updaters w !! "a" = Some (UCheck deadline old p) /\ expected old p = false).
Proof.
  destruct (exec (LUpdater "a" (fun _ => failed_attempt Hour)) demo_init) as [[w|]|] eqn:E;
    [|vm_compute in E; discriminate E|vm_compute in E; discriminate E].
  exists w. split; [reflexivity|].
  refine (async_states_consistent Hour NewInMemoryConsensusTracker demo_members [WithMaxBlockLag 4] w (NewBackend "a" "" "" []) demo_members_nodup _
    (reach_step _ _ _ (LUpdater "a" (fun _ => failed_attempt Hour)) (reach_start _) Logic.I E) _ _).
  - constructor; [done|constructor].
  - by left.
  - reflexivity.
Defined.

(** A world in which both goroutines are at the start of a round. *)
Definition demo_world : world := mkWorld Hour false demo_members demo_cp {[ "a" := UStart ]} GStart.

Lemma async_performs_updates_witness :
  (exists ls w', exec_all ls demo_world = Ret (Some w') /\ w_updaters w' !! "a" = Some (UWait (Hour + Second))) /\
  (exists ls w', exec_all ls demo_world = Ret (Some w') /\ w_loop w' = GWait (Hour + Second) /\ consensusGroup (w_cp w') = ["a"; "b"]).
Proof.
  destruct (async_performs_updates demo_world) as [Hb Hg]. split.
  - destruct (UpdateBackend Hour (Hour + Second) (NewBackend "a" "" "" []) (fun _ => failed_attempt Hour) demo_members demo_cp)
      as [[ms' cp']|] eqn:E; [|vm_compute in E; discriminate E].
    destruct (Hb (Hour + Second) (fun _ => failed_attempt Hour) (NewBackend "a" "" "" []) ms' cp') as (ls & w' & H & _ & _ & Hu);
      [reflexivity|reflexivity|vm_compute; discriminate|discriminate|exact E|]. exists ls, w'. split; [exact H|exact Hu].
  - destruct (UpdateBackendGroupConsensus 1 Hour (fun _ l => l) demo_blocks demo_members demo_cp) as [[[ms' cp']|]|] eqn:E;
      [|vm_compute in E; discriminate E|vm_compute in E; discriminate E].
    destruct (Hg 1%nat (fun _ l => l) demo_blocks ms' cp' demo_members_nodup eq_refl E) as [ls H]. eexists ls, _.
    split; [exact H|]. split; [reflexivity|]. vm_compute in E. injection E as _ <-. reflexivity.
Defined.

(** Replies of a node to its polls, with a given safe block, and to the agreement. *)
Definition demo_polls (safe : string) (i : nat) : attempt :=
  demo_attempt Hour 200 [demo_response "67"
    match i with
    | 0 => JBool false
    | 1 => JStr "0x5"
    | 2 => JObj [("hash", JStr "0xaa"); ("number", JStr "0x64")]
    | 3 => JObj [("hash", JStr "0xbb"); ("number", JStr safe)]
    | _ => JObj [("hash", JStr "0xcc"); ("number", JStr "0x28")]
    end%nat].

Notation update safe := (LUpdater "a" (demo_polls safe)) (only parsing).
Notation agreement := (LLoop (fun cs => cs) demo_blocks) (only parsing).

(** Two rounds: in the second, the safe block of the node goes back from 90 to 50, and the
    group computes the consensus after that poll is recorded and before it is checked. *)
Definition demo_rounds : list (label (W := AvgSlidingWindow Z (AL Time (bucket Z))) (T := ConsensusTrackerState)) := [update "0x5a"; update "0x5a"; update "0x5a"; agreement; agreement; agreement].
Definition demo_race : list (label (W := AvgSlidingWindow Z (AL Time (bucket Z))) (T := ConsensusTrackerState)) :=
  [LTick (Hour + Second); update ""; agreement; update "0x32"; update ""; agreement; agreement; agreement; update ""].

(** A poll is visible before it is checked: there is an interleaving in which the safe block of
    the consensus goes back, from 90 to 50, to that of a poll whose block tags make the
    backend's own goroutine ban it, and the banned backend is the consensus group. *)
Theorem unchecked_poll_published :
  match exec_all demo_rounds demo_init with
  | Ret (Some w1) =>
      consensusGroup (w_cp w1) = ["a"] /\ Safe (tracker (w_cp w1)) = 90 /\
      match exec_all demo_race w1 with
      | Ret (Some w2) => consensusGroup (w_cp w2) = ["a"] /\ Safe (tracker (w_cp w2)) = 50 /\
          IsBanned (w_now w2) (w_cp w2) (NewBackend (W := AvgSlidingWindow Z (AL Time (bucket Z))) "a" "" "" []) = true
      | _ => False
      end
  | _ => False
  end.
Proof. vm_compute. repeat split. Qed.
