(* ===== verification/AsyncLive.v ===== *)
(** * Liveness of the consensus poller

    In every fair execution of the goroutines, a primary backend that from some moment
    on answers its polls well ends up in the consensus group and stays there, whatever
    happened before and whatever the other backends do. *)

From stdpp Require Import base list strings gmap.
From Stdlib Require Import ZArith QArith Lia Ascii.
From Stdlib Require Strings.String.
From S2P Require Import Prelude SlidingWindow SlidingWindowRefinement Json JsonRoundtrip Geth Rpc Reader Backend Tracker Poller PollerCorrect Async AsyncCorrect.

Local Open Scope Z_scope.

(** ** What a step leaves alone *)

Section Frames.
Context {G : Geth} {GL : GethLaws} {W : Type} {WO : WindowOps W} {T : Type} {TO : ConsensusTracker T}.
Notation Backend := (Backend (W := W)).
Notation members := (members (W := W)).
Notation world := (world (W := W) (T := T)).
Implicit Types (be : Backend) (ms : members) (w : world).

(** The recorded state of a backend, by name. *)
Definition state_of w (name : string) : backendState := default zero_state (cp_state (w_cp w) !! name).

(** The settings of the poller. *)
Definition settings (cp : ConsensusPoller (T := T)) : Z * Duration * Duration * Z :=
  (minPeerCount cp, banPeriod cp, maxUpdateThreshold cp, maxBlockLag cp).

Lemma Ban_settings t be (cp : ConsensusPoller (T := T)) : settings (Ban t be cp) = settings cp.
Proof. unfold Ban. by destruct (forcedCandidate be). Qed.

Lemma begin_update_frame now be net ms (cp : ConsensusPoller (T := T)) ms' cp' found :
  begin_update now be net ms cp = Ret (ms', cp', found) ->
  settings cp' = settings cp /\ consensusGroup cp' = consensusGroup cp /\
  forall name, name <> Name be -> cp_state cp' !! name = cp_state cp !! name.
Proof.
  unfold begin_update. intros H. destruct (bs_IsBanned _ _); [by injection H as <- <- <-|].
  destruct (_ && _); [injection H as <- <- <-; split; [apply Ban_settings|apply Ban_frame]|].
  apply go_bind_ret in H as ([b r] & _ & [= <- <- <-]). done.
Qed.

(** What a step of the updater of [name] changes: the shared backends, and its own place and state. *)
Record own_step (name : string) w w' : Prop := {
  os_settings : settings (w_cp w') = settings (w_cp w);
  os_group : consensusGroup (w_cp w') = consensusGroup (w_cp w);
  os_now : w_now w' = w_now w;
  os_cancelled : w_cancelled w' = w_cancelled w;
  os_loop : w_loop w' = w_loop w;
  os_others : forall name', name' <> name ->
    w_updaters w' !! name' = w_updaters w !! name' /\ state_of w' name' = state_of w name';
}.

Lemma own_step_set name v ms1 cp1 w :
  settings cp1 = settings (w_cp w) -> consensusGroup cp1 = consensusGroup (w_cp w) ->
  (forall name', name' <> name -> cp_state cp1 !! name' = cp_state (w_cp w) !! name') ->
  own_step name w (set_updater name v (set_shared ms1 cp1 w)).
Proof. intros H1 H2 H3. split; try done. intros name' Hne. unfold state_of. cbn. by rewrite lookup_insert_ne, H3. Qed.

Lemma updater_step_frame ms0 w name net w' : async_inv ms0 w -> updater_step name net w = Ret (Some w') -> own_step name w w'.
Proof.
  intros Hinv H. unfold updater_step in H. destruct (w_updaters w !! name) as [u|]; [|done].
  assert (Hself : forall v, own_step name w (set_updater name v w)).
  { intros v. split; try done. intros name' Hne. cbn. by rewrite lookup_insert_ne. }
  destruct (member w name) as [b|] eqn:Hm.
  2: { destruct u; try done. destruct (_ <=? _); [|done]. by injection H as <-. }
  destruct (member_spec ms0 w name b Hinv Hm) as [Hn _].
  destruct u as [|d old p|d old p|d|]; [..|done].
  - destruct (_ && _); [by injection H as <-|].
    apply go_bind_ret in H as ([[ms1 cp1] found] & Hb & [= <-]).
    apply begin_update_frame in Hb as (H1 & H2 & H3). rewrite Hn in H3. by apply own_step_set.
  - injection H as <-. destruct (record_update_state (w_now w) b b p (w_cp w) eq_refl) as (_ & H2 & H3). rewrite Hn in H3.
    by apply own_step_set.
  - injection H as <-. destruct (check_update_frame (w_now w) b b old p (w_cp w) eq_refl) as (H2 & H3). rewrite Hn in H3.
    apply own_step_set; [|done..]. unfold check_update. destruct (_ && _); [apply Ban_settings|done].
  - destruct (_ <=? _); [|done]. by injection H as <-.
Qed.

(** A step of the group changes no state, and the consensus group only when it publishes. *)
Lemma loop_step_frame w order net w' : loop_step order net w = Ret (Some w') ->
  settings (w_cp w') = settings (w_cp w) /\ w_now w' = w_now w /\ w_cancelled w' = w_cancelled w /\
  w_updaters w' = w_updaters w /\ cp_state (w_cp w') = cp_state (w_cp w).
Proof.
  unfold loop_step. intros H. destruct (w_loop w); [| | | |done].
  - by injection H as <-.
  - apply go_bind_ret in H as ([[[ms1 ok] hash1] broken1] & _ & [= <-]). done.
  - by injection H as <-.
  - destruct (_ <=? _); [|done]. by injection H as <-.
Qed.

Lemma exec_frame ms0 w l w' : async_inv ms0 w -> exec l w = Ret (Some w') ->
  settings (w_cp w') = settings (w_cp w) /\ w_now w <= w_now w' /\ (l <> LShutdown -> w_cancelled w' = w_cancelled w).
Proof.
  intros Hinv H. destruct l as [t|name lw nw ew| |name net|name|order net| |t]; cbn in H.
  - destruct (Z.leb_spec (w_now w) t); [|done]. injection H as <-. done.
  - destruct (member w name); [|done]. injection H as <-. (split; [done|]; split; [cbn; lia|done]).
  - injection H as <-. (split; [done|]; split; [cbn; lia|done]).
  - destruct (updater_step_frame ms0 w name net w' Hinv H) as [? _ -> -> _ _]. (split; [done|]; split; [lia|done]).
  - destruct (w_updaters w !! name) as [[]|]; try done. destruct (w_cancelled w) eqn:E; [|done]. injection H as <-. (split; [done|]; split; [cbn; lia|done]).
  - destruct (loop_step_frame w order net w' H) as (? & -> & -> & _). (split; [done|]; split; [lia|done]).
  - destruct (w_loop w); try done. destruct (w_cancelled w) eqn:E; [|done]. injection H as <-. (split; [done|]; split; [cbn; lia|done]).
  - injection H as <-. (split; [done|]; split; [cbn; lia|done]).
Qed.

(** Only the goroutine of a backend touches its state; a world that is not shut down has no ending goroutine. *)
Lemma exec_other ms0 w l w' name : async_inv ms0 w -> exec l w = Ret (Some w') -> w_cancelled w = false ->
  (forall net, l <> LUpdater name net) ->
  w_updaters w' !! name = w_updaters w !! name /\ state_of w' name = state_of w name.
Proof.
  intros Hinv H Hc Hl. destruct l as [t|name' lw nw ew| |name' net|name'|order net| |t]; cbn in H.
  - destruct (_ <=? _); [|done]. by injection H as <-.
  - destruct (member w name'); [|done]. by injection H as <-.
  - by injection H as <-.
  - apply (os_others _ _ _ (updater_step_frame ms0 w name' net w' Hinv H)). intros ->. by apply (Hl net).
  - destruct (w_updaters w !! name') as [[]|]; try done. by rewrite Hc in H.
  - destruct (loop_step_frame w order net w' H) as (_ & _ & _ & Hu & Hs). unfold state_of. by rewrite Hu, Hs.
  - destruct (w_loop w); try done. by rewrite Hc in H.
  - by injection H as <-.
Qed.

Lemma exec_other_loop ms0 w l w' : async_inv ms0 w -> exec l w = Ret (Some w') -> w_cancelled w = false ->
  (forall order net, l <> LLoop order net) ->
  w_loop w' = w_loop w /\ consensusGroup (w_cp w') = consensusGroup (w_cp w).
Proof.
  intros Hinv H Hc Hl. destruct l as [t|name lw nw ew| |name net|name|order net| |t]; cbn in H.
  - destruct (_ <=? _); [|done]. by injection H as <-.
  - destruct (member w name); [|done]. by injection H as <-.
  - by injection H as <-.
  - by destruct (updater_step_frame ms0 w name net w' Hinv H).
  - destruct (w_updaters w !! name) as [[]|]; try done. by rewrite Hc in H.
  - by destruct (Hl order net).
  - destruct (w_loop w); try done. by rewrite Hc in H.
  - by injection H as <-.
Qed.

End Frames.

(** ** Executions *)

Section Live.
Context {G : Geth} {GL : GethLaws} {W : Type} {WO : WindowOps W} {T : Type} {TO : ConsensusTracker T}.
Notation Backend := (Backend (W := W)).
Notation members := (members (W := W)).
Notation world := (world (W := W) (T := T)).
Notation label := (label (W := W) (T := T)).
Context (ms0 : members) (l : nat -> label) (w : nat -> world).

(** An execution of the goroutines that is never shut down, in which time passes. *)
Record execution : Prop := {
  ex_names : NoDup (map Name (Backends ms0));
  ex_start : async_inv ms0 (w 0%nat);
  ex_running : w_cancelled (w 0%nat) = false;
  ex_lag : 0 <= maxBlockLag (w_cp (w 0%nat));
  ex_step n : allowed (l n) /\ l n <> LShutdown /\ exec (l n) (w n) = Ret (Some (w (S n)));
  ex_time t : exists n, t <= w_now (w n);
}.

(** Each goroutine keeps running. *)
Definition updater_runs (name : string) : Prop := forall n, exists m net, (n <= m)%nat /\ l m = LUpdater name net.
Definition loop_runs : Prop := forall n, exists m order net, (n <= m)%nat /\ l m = LLoop order net.

(** From [N] on, the primary [name] is healthy, its polls succeed and follow a chain [head] whose safe
    and finalized blocks do not go back; while it has a block on record, its updates come in time
    and no candidate is further ahead of it than the allowed lag. *)
Record good_backend (name : string) (N : nat) (head : nat -> poll_result) : Prop := {
  gb_primary : name ∈ map Name (Backends ms0) /\ FallbackBackends ms0 !! name = Some false;
  gb_healthy n be : (N <= n)%nat -> member (w n) name = Some be -> IsHealthy (w_now (w n)) be = true;
  gb_polls n net be : (N <= n)%nat -> l n = LUpdater name net -> member (w n) name = Some be ->
    w_updaters (w n) !! name = Some UStart -> bs_IsBanned (w_now (w n)) (state_of (w n) name) = false ->
    exists be', poll_backend be net = Ret (be', Some (head n));
  gb_head n : pr_inSync (head n) = true /\ minPeerCount (w_cp (w 0%nat)) <= pr_peers (head n) /\
    0 < pr_finalized (head n) <= pr_safe (head n) /\ pr_safe (head n) <= pr_latest (head n);
  gb_forward m n : (m <= n)%nat -> pr_safe (head m) <= pr_safe (head n) /\ pr_finalized (head m) <= pr_finalized (head n);
  gb_timely n : (N <= n)%nat -> 0 < latestBlockNumber (state_of (w n) name) ->
    w_now (w N) <= lastUpdate (state_of (w n) name) ->
    w_now (w n) <= lastUpdate (state_of (w n) name) + maxUpdateThreshold (w_cp (w n));
  gb_close n be : (N <= n)%nat -> 0 < latestBlockNumber (state_of (w n) name) ->
    be ∈ Primaries (w_ms (w n)) -> eligible (w_now (w n)) (w_cp (w n)) be ->
    latestBlockNumber (GetBackendState (w_cp (w n)) be) - latestBlockNumber (state_of (w n) name) <= maxBlockLag (w_cp (w n));
}.

(** Every node that answers about block zero reports the same genesis block. *)
Definition same_genesis (N : nat) (genesis : string) : Prop :=
  genesis <> "" /\
  forall n order net i be, (N <= n)%nat -> l n = LLoop order net -> be ∈ Backends (w_ms (w n)) ->
    exists be' r, fetchBlock be (Uint64_String 0) (net i (Name be)) = Ret (be', r) /\
      match r with inl (m, h) => m = 0 /\ h = genesis | inr _ => True end.

Hypothesis Hex : execution.

Lemma inv_at n : async_inv ms0 (w n).
Proof.
  induction n as [|n IH]; [apply ex_start, Hex|]. destruct (ex_step Hex n) as (Ha & _ & H).
  eapply exec_inv; [apply ex_names, Hex|exact Ha|exact IH|exact H].
Qed.

Lemma frame_at n : settings (w_cp (w (S n))) = settings (w_cp (w n)) /\ w_now (w n) <= w_now (w (S n)) /\
  w_cancelled (w (S n)) = w_cancelled (w n).
Proof.
  destruct (ex_step Hex n) as (_ & Hs & H). destruct (exec_frame ms0 _ _ _ (inv_at n) H) as (? & ? & Hc). auto.
Qed.

Lemma running n : w_cancelled (w n) = false.
Proof. induction n as [|n IH]; [apply ex_running, Hex|]. destruct (frame_at n) as (_ & _ & ->). done. Qed.

Lemma settings_at n : settings (w_cp (w n)) = settings (w_cp (w 0%nat)).
Proof. induction n as [|n IH]; [done|]. by destruct (frame_at n) as (-> & _). Qed.

Lemma now_mono m n : (m <= n)%nat -> w_now (w m) <= w_now (w n).
Proof. induction 1 as [|n _ IH]; [lia|]. destruct (frame_at n) as (_ & ? & _). lia. Qed.

(** ** The goroutine of a good backend *)

Section Backend.
Context (name : string) (N : nat) (head : nat -> poll_result).
Hypothesis Hgood : good_backend name N head.
Hypothesis Hruns : updater_runs name.

Notation pc n := (w_updaters (w n) !! name).
Notation st n := (state_of (w n) name).

Lemma member_at n : exists be be0, member (w n) name = Some be /\ Name be = name /\ be0 ∈ Backends ms0 /\
  strip be = strip be0 /\ Name be0 = name.
Proof.
  destruct (gb_primary _ _ _ Hgood) as [Hin _]. rewrite <- (same_members_names ms0 (w_ms (w n))) in Hin by apply ai_members, inv_at.
  destruct (member (w n) name) as [be|] eqn:Hm.
  - destruct (member_spec ms0 _ _ _ (inv_at n) Hm) as (Hn & be0 & Hbe0 & Hs & Hn0). eauto 10.
  - apply list_elem_of_fmap in Hin as (b & -> & Hb). unfold member in Hm. apply list_elem_of_In in Hb.
    pose proof (find_none _ _ Hm b Hb) as E. cbn in E. by rewrite streq_refl in E.
Qed.

Lemma not_fallback n : is_fallback (w n) name = false.
Proof. unfold is_fallback. rewrite (ai_fallbacks _ _ (inv_at n)). by rewrite (proj2 (gb_primary _ _ _ Hgood)). Qed.

(** What a step does to the place and state of the backend. *)
Inductive local (n : nat) : Prop :=
| loc_other : pc (S n) = pc n -> st (S n) = st n -> local n
| loc_banned d : pc n = Some UStart -> bs_IsBanned (w_now (w n)) (st n) = true ->
    pc (S n) = Some (UWait d) -> st (S n) = st n -> local n
| loc_poll d : pc n = Some UStart -> bs_IsBanned (w_now (w n)) (st n) = false ->
    pc (S n) = Some (USet d (st n) (head n)) -> st (S n) = st n -> local n
| loc_record d bs p : pc n = Some (USet d bs p) -> pc (S n) = Some (UCheck d bs p) ->
    st (S n) = mkBS (pr_latest p) (pr_hash p) (pr_safe p) (pr_finalized p) (pr_peers p) (pr_inSync p)
                 (w_now (w n)) (bannedUntil (st n)) -> local n
| loc_pass d bs p : pc n = Some (UCheck d bs p) -> pc (S n) = Some (UWait d) -> st (S n) = st n -> local n
| loc_ban d bs p : pc n = Some (UCheck d bs p) -> expected bs p = false -> pc (S n) = Some (UWait d) ->
    latestBlockNumber (st (S n)) = 0 -> safeBlockNumber (st (S n)) = 0 -> finalizedBlockNumber (st (S n)) = 0 -> local n
| loc_timer d : pc n = Some (UWait d) -> pc (S n) = Some UStart -> st (S n) = st n -> local n.

Lemma own_local n net : (N <= n)%nat -> l n = LUpdater name net -> local n /\ pc (S n) <> pc n.
Proof.
  intros Hn Hl. destruct (ex_step Hex n) as (_ & _ & H). rewrite Hl in H. cbn [exec] in H.
  destruct (member_at n) as (be & be0 & Hm & Hname & _).
  unfold updater_step in H. rewrite Hm, not_fallback in H. cbn [andb] in H.
  destruct (pc n) as [[|d bs p|d bs p|d|]|] eqn:Hpc; [..|done|done].
  - apply go_bind_ret in H as ([[ms1 cp1] found] & Hb & [= Hw]).
    pose proof (gb_healthy _ _ _ Hgood n be Hn Hm) as Hh. pose proof (gb_polls _ _ _ Hgood n net be Hn Hl Hm Hpc) as Hp.
    unfold begin_update in Hb. rewrite Hh in Hb. cbn [negb andb] in Hb.
    change (GetBackendState (w_cp (w n)) be) with (state_of (w n) (Name be)) in Hb. rewrite Hname in Hb.
    destruct (bs_IsBanned (w_now (w n)) (st n)) eqn:Eb.
    + injection Hb as <- <- <-. split; [|rewrite <- Hw; cbn; by rewrite lookup_insert_eq].
      eapply loc_banned; [done|done|rewrite <- Hw; cbn; by rewrite lookup_insert_eq|by rewrite <- Hw].
    + destruct (Hp eq_refl) as [be' Hpoll]. rewrite Hpoll in Hb. injection Hb as <- <- <-. 
      split; [|rewrite <- Hw; cbn; by rewrite lookup_insert_eq].
      eapply loc_poll; [done|done|rewrite <- Hw; cbn; by rewrite lookup_insert_eq|by rewrite <- Hw].
  - injection H as Hw. split; [|rewrite <- Hw; cbn; rewrite lookup_insert_eq; by intros [=]].
    eapply loc_record; [done|rewrite <- Hw; cbn; by rewrite lookup_insert_eq|].
    destruct (record_update_state (w_now (w n)) be be p (w_cp (w n)) eq_refl) as [E _].
    rewrite <- Hw. unfold state_of. cbn [w_cp set_updater set_shared]. unfold GetBackendState in E. by rewrite Hname in E.
  - injection H as Hw. split; [|rewrite <- Hw; cbn; rewrite lookup_insert_eq; by intros [=]].
    assert (Hpc' : pc (S n) = Some (UWait d)) by (rewrite <- Hw; cbn; by rewrite lookup_insert_eq).
    destruct (negb (expected bs p) && negb (forcedCandidate be)) eqn:E.
    + eapply loc_ban; [done|apply andb_prop in E as [E%negb_true_iff _]; exact E|done|..];
        rewrite <- Hw; unfold state_of, check_update; cbn [w_cp set_updater set_shared]; rewrite E;
        apply andb_prop in E as [_ E%negb_true_iff]; unfold Ban; rewrite E; cbn; by rewrite Hname, lookup_insert_eq.
    + eapply loc_pass; [done|done|]. rewrite <- Hw. unfold state_of, check_update. cbn [w_cp set_updater set_shared]. by rewrite E.
  - destruct (d <=? w_now (w n)); [|done]. injection H as Hw. split; [|rewrite <- Hw; cbn; rewrite lookup_insert_eq; by intros [=]].
    eapply loc_timer; [done|rewrite <- Hw; cbn; by rewrite lookup_insert_eq|by rewrite <- Hw].
Qed.

Lemma other_local n : (forall net, l n <> LUpdater name net) -> pc (S n) = pc n /\ st (S n) = st n.
Proof. intros Hl. destruct (ex_step Hex n) as (_ & _ & H). exact (exec_other ms0 _ _ _ name (inv_at n) H (running n) Hl). Qed.

Lemma local_at n : (N <= n)%nat -> local n.
Proof.
  intros Hn. assert (Hd : (exists net, l n = LUpdater name net) \/ forall net, l n <> LUpdater name net).
  { destruct (l n) as [t|nm lw nw ew| |nm net|nm|order net| |t]; try (by right).
    destruct (decide (nm = name)) as [->|]; [by left; eauto|]. right. intros net' [= ? _]. done. }
  destruct Hd as [[net Hl]|Hl]; [by apply (own_local n net)|]. destruct (other_local n Hl). by apply loc_other.
Qed.

Lemma own_or_other n : (exists net, l n = LUpdater name net) \/ forall net, l n <> LUpdater name net.
Proof.
  destruct (l n) as [t|nm lw nw ew| |nm net|nm|order net| |t]; try (by right).
  destruct (decide (nm = name)) as [->|]; [by left; eauto|]. right. intros net' [= ? _]. done.
Qed.

(** The next step of the goroutine, before which nothing changes for it. *)
Lemma next_own n : (N <= n)%nat -> exists m net, (n <= m)%nat /\ l m = LUpdater name net /\
  forall j, (n <= j <= m)%nat -> pc j = pc n /\ st j = st n.
Proof.
  intros Hn. destruct (Hruns n) as (m & net & Hle & Hl). remember (m - n)%nat as k eqn:Hk. revert n Hn Hle Hk.
  induction k as [|k IH]; intros n Hn Hle Hk.
  - exists n, net. replace m with n in Hl by lia. split; [lia|]. split; [done|]. intros j Hj. by replace j with n by lia.
  - destruct (own_or_other n) as [[net' Hl']|Ho].
    + exists n, net'. split; [lia|]. split; [done|]. intros j Hj. by replace j with n by lia.
    + destruct (other_local n Ho) as [Hp Hs]. destruct (IH (S n)) as (m' & net' & Hm & Hl' & Hc); [lia..|].
      exists m', net'. split; [lia|]. split; [done|]. intros j Hj. destruct (decide (j = n)) as [->|]; [done|].
      destruct (Hc j) as [-> ->]; [lia|done].
Qed.

(** Going round: the goroutine gets back to the start. *)
Definition rank (u : option updater) : nat :=
  match u with
  | Some UStart => 0
  | Some (UWait _) => 1
  | Some (UCheck _ _ _) => 2
  | Some (USet _ _ _) => 3
  | _ => 4
  end%nat.

Lemma next_start n : (N <= n)%nat -> exists m net, (n <= m)%nat /\ l m = LUpdater name net /\ pc m = Some UStart.
Proof.
  remember (rank (pc n)) as r eqn:Hr. revert n Hr. induction (lt_wf r) as [r _ IH]. intros n -> Hn.
  destruct (next_own n Hn) as (m & net & Hm & Hl & Hc). destruct (Hc m) as [Hpc _]; [lia|].
  assert (Hstart : pc m = Some UStart \/ pc m <> Some UStart) by (destruct (pc m) as [[]|]; [by left|by right..]).
  destruct Hstart as [E|E]; [by exists m, net|].
  assert (Hlt : (rank (pc (S m)) < rank (pc n))%nat).
  { rewrite <- Hpc. destruct (own_local m net ltac:(lia) Hl) as [Hloc Hne].
    destruct Hloc; try done; repeat match goal with H : pc _ = _ |- _ => rewrite H; clear H end; cbn; lia. }
  destruct (IH _ Hlt (S m) eq_refl) as (m' & net' & Hm' & H); [lia|]. exists m', net'. split; [lia|done].
Qed.

Lemma unbanned_start n : (N <= n)%nat -> exists m net, (n <= m)%nat /\ l m = LUpdater name net /\ pc m = Some UStart /\
  bs_IsBanned (w_now (w m)) (st m) = false.
Proof.
  intros Hn. destruct (next_start n Hn) as (n0 & net0 & Hn0 & Hl0 & Hp0).
  destruct (ex_time Hex (bannedUntil (st n0))) as [nb Hb].
  destruct (next_start (n0 + nb)) as (m & net & Hm & Hl & Hp); [lia|].
  assert (Hclaim : forall j, (n0 <= j)%nat ->
    (exists n' net', (n0 <= n' < j)%nat /\ l n' = LUpdater name net' /\ pc n' = Some UStart /\
       bs_IsBanned (w_now (w n')) (st n') = false) \/
    (st j = st n0 /\ (pc j = Some UStart \/ exists d, pc j = Some (UWait d)))).
  { intros j Hj. induction Hj as [|j Hj IH]; [by auto|].
    destruct IH as [(n' & net' & Hlt & H)|[Hs Hpc]]; [left; exists n', net'; split; [lia|done]|].
    destruct (own_or_other j) as [[net' Hl']|Ho]; [|destruct (other_local j Ho) as [-> ->]; by right].
    destruct (own_local j net' ltac:(lia) Hl') as [Hloc Hne]. rewrite <- Hs.
    destruct Hloc as [| |d H1 H2 H3 H4| | | |]; try (by right; eauto); try (by destruct Hpc as [?|[? ?]]; congruence).
    left. exists j, net'. split; [lia|]. auto. }
  destruct (Hclaim m) as [(n' & net' & Hlt & H)|[Hs _]]; [lia|exists n', net'; split; [lia|done]|].
  exists m, net. split; [lia|]. split; [done|]. split; [done|]. unfold bs_IsBanned. rewrite Hs.
  apply Z.ltb_ge. pose proof (now_mono nb m ltac:(lia)). lia.
Qed.

(** A poll that starts is recorded and checked. *)
Lemma poll_recorded n net : (N <= n)%nat -> l n = LUpdater name net -> pc n = Some UStart ->
  bs_IsBanned (w_now (w n)) (st n) = false ->
  exists d m, (n < m)%nat /\ pc m = Some (UCheck d (st n) (head n)) /\
    st m = mkBS (pr_latest (head n)) (pr_hash (head n)) (pr_safe (head n)) (pr_finalized (head n)) (pr_peers (head n))
             (pr_inSync (head n)) (lastUpdate (st m)) (bannedUntil (st n)) /\
    w_now (w n) <= lastUpdate (st m).
Proof.
  intros Hn Hl Hp Hb. destruct (own_local n net Hn Hl) as [Hloc Hne].
  destruct Hloc as [| |d _ _ Hp1 Hs1| | | |]; try congruence.
  destruct (next_own (S n)) as (m & net' & Hm & Hl' & Hc); [lia|]. destruct (Hc m) as [Hpm Hsm]; [lia|].
  rewrite Hp1 in Hpm. destruct (own_local m net' ltac:(lia) Hl') as [Hloc' Hne'].
  destruct Hloc' as [|? Hx|? Hx|d' bs p Hx Hp2 Hs2|? ? ? Hx|? ? ? Hx|? Hx]; try congruence. rewrite Hpm in Hx. injection Hx as <- <- <-.
  exists d, (S m). split; [lia|]. split; [done|]. rewrite Hs2. cbn. rewrite Hsm, Hs1. split; [done|].
  apply now_mono. lia.
Qed.

(** The recorded safe and finalized blocks are not ahead of any poll from [n] on. *)
Definition clean (n : nat) (bs : backendState) : Prop := forall m, (n <= m)%nat ->
  safeBlockNumber bs <= pr_safe (head m) /\ finalizedBlockNumber bs <= pr_finalized (head m).

(** The goroutine works on polls of the chain only, and its checks pass. *)
Definition on_chain (n : nat) : Prop :=
  match pc n with
  | Some (USet _ bs p) => bs = st n /\ exists k, (k <= n)%nat /\ p = head k /\
      safeBlockNumber bs <= pr_safe p /\ finalizedBlockNumber bs <= pr_finalized p
  | Some (UCheck _ bs p) => expected bs p = true /\ exists k, (k <= n)%nat /\ p = head k /\
      safeBlockNumber (st n) = pr_safe p /\ finalizedBlockNumber (st n) = pr_finalized p
  | _ => clean n (st n)
  end.

Lemma clean_head n k bs : (k <= n)%nat -> safeBlockNumber bs = pr_safe (head k) ->
  finalizedBlockNumber bs = pr_finalized (head k) -> clean n bs.
Proof. intros Hk E1 E2 m Hm. rewrite E1, E2. apply (gb_forward _ _ _ Hgood). lia. Qed.

Lemma on_chain_step n : (N <= n)%nat -> on_chain n ->
  on_chain (S n) /\ bannedUntil (st (S n)) = bannedUntil (st n).
Proof.
  intros Hn Hj. unfold on_chain in *.
  assert (Hsucc : forall bs, clean n bs -> clean (S n) bs) by (intros bs Hc m Hm; apply Hc; lia).
  destruct (local_at n Hn) as [Hp Hs|d Hp Hb Hp' Hs|d Hp Hb Hp' Hs|d bs p Hp Hp' Hs|d bs p Hp Hp' Hs|d bs p Hp He Hp' H1 H2 H3|d Hp Hp' Hs].
  - rewrite Hp, Hs. split; [|done]. destruct (pc n) as [[]|]; try by apply Hsucc.
    + destruct Hj as (-> & k & Hk & H). split; [done|]. exists k. split; [lia|done].
    + destruct Hj as (He & k & Hk & H). split; [done|]. exists k. split; [lia|done].
  - rewrite Hp in Hj. rewrite Hp', Hs. auto.
  - rewrite Hp in Hj. rewrite Hp', Hs. split; [|done]. split; [done|]. exists n. split; [lia|]. split; [done|]. apply Hj. lia.
  - rewrite Hp in Hj. destruct Hj as (-> & k & Hk & -> & H1 & H2). rewrite Hp', Hs. cbn. split; [|done]. split.
    + unfold expected, checkExpectedBlockTags. destruct (gb_head _ _ _ Hgood k) as (_ & _ & H3 & H4).
      rewrite !andb_true_iff, !Z.leb_le. lia.
    + exists k. split; [lia|done].
  - rewrite Hp in Hj. rewrite Hp', Hs. destruct Hj as (_ & k & Hk & -> & H1 & H2). split; [|done].
    apply (clean_head _ k); [lia|done..].
  - rewrite Hp in Hj. destruct Hj as [E _]. congruence.
  - rewrite Hp in Hj. rewrite Hp', Hs. auto.
Qed.

Lemma on_chain_reached : exists n, (N <= n)%nat /\ on_chain n.
Proof.
  destruct (unbanned_start N) as (n & net & Hn & Hl & Hp & Hb); [lia|].
  destruct (poll_recorded n net Hn Hl Hp Hb) as (d & m & Hm & Hpm & Hsm & _).
  destruct (next_own m) as (m' & net' & Hm' & Hl' & Hc); [lia|]. destruct (Hc m') as [Hpm' Hsm']; [lia|]. rewrite Hpm in Hpm'.
  exists (S m'). split; [lia|]. unfold on_chain.
  destruct (own_local m' net' ltac:(lia) Hl') as [Hloc Hne].
  destruct Hloc as [|? Hx|? Hx|? ? ? Hx|d' bs p Hx Hp' Hs'|d' bs p Hx He Hp' H1 H2 H3|? Hx]; try congruence; rewrite Hp'.
  - rewrite Hs', Hsm'. apply (clean_head _ n); [lia|by rewrite Hsm..].
  - intros k Hk. destruct (gb_head _ _ _ Hgood k) as (_ & _ & H4 & H5). lia.
Qed.

Lemma on_chain_from n : (N <= n)%nat -> on_chain n -> forall m, (n <= m)%nat ->
  on_chain m /\ bannedUntil (st m) = bannedUntil (st n).
Proof.
  intros Hn Hj m. induction 1 as [|m Hm [IH1 IH2]]; [done|]. destruct (on_chain_step m ltac:(lia) IH1) as [H1 ->]. done.
Qed.

(** The record of the backend is that of a poll of the chain since [N]. *)
Definition fresh (n : nat) : Prop := exists k, latestBlockNumber (st n) = pr_latest (head k) /\
  peerCount (st n) = pr_peers (head k) /\ inSync (st n) = pr_inSync (head k) /\ w_now (w N) <= lastUpdate (st n).

Lemma fresh_step n : (N <= n)%nat -> on_chain n -> fresh n -> fresh (S n).
Proof.
  intros Hn Hj Hf. unfold fresh in *. unfold on_chain in Hj.
  destruct (local_at n Hn) as [Hp Hs|d Hp Hb Hp' Hs|d Hp Hb Hp' Hs|d bs p Hp Hp' Hs|d bs p Hp Hp' Hs|d bs p Hp He Hp' H1 H2 H3|d Hp Hp' Hs];
    try (by rewrite Hs); rewrite Hp in Hj.
  - destruct Hj as (_ & k & Hk & -> & _). exists k. rewrite Hs. cbn. split; [done|]. split; [done|]. split; [done|].
    by apply now_mono.
  - destruct Hj as [E _]. congruence.
Qed.

(** From some moment on, the backend is eligible and has a block on record. *)
Lemma eventually_eligible : exists M, (N <= M)%nat /\ forall n be, (M <= n)%nat -> member (w n) name = Some be ->
  eligible (w_now (w n)) (w_cp (w n)) be /\ 0 < latestBlockNumber (st n).
Proof.
  destruct on_chain_reached as (n1 & Hn1 & Hj1). pose proof (on_chain_from n1 Hn1 Hj1) as Hj.
  destruct (ex_time Hex (bannedUntil (st n1))) as [nb Hb].
  destruct (unbanned_start (n1 + nb)) as (m & net & Hm & Hl & Hp & Hban); [lia|].
  destruct (poll_recorded m net ltac:(lia) Hl Hp Hban) as (d & M & HM & _ & Hs & Hlast).
  assert (Hfresh : forall n, (M <= n)%nat -> fresh n).
  { induction 1 as [|n Hn IH]; [|apply fresh_step; [lia|apply Hj; lia|done]].
    exists m. rewrite Hs. cbn. pose proof (now_mono N m ltac:(lia)). split; [done|]. split; [done|]. split; [done|]. lia. }
  exists M. split; [lia|]. intros n be Hn Hmem. destruct (Hfresh n Hn) as (k & E1 & E2 & E3 & E4).
  destruct (gb_head _ _ _ Hgood k) as (H1 & H2 & H3 & H4).
  destruct (member_spec ms0 _ _ _ (inv_at n) Hmem) as [Hname _].
  assert (Hpos : 0 < latestBlockNumber (st n)) by (rewrite E1; lia). split; [|done]. right.
  change (GetBackendState (w_cp (w n)) be) with (state_of (w n) (Name be)). rewrite Hname.
  pose proof (settings_at n) as Hset. injection Hset as S1 S2 S3 S4.
  split; [|split; [|split; [|split]]].
  - destruct (Hj n) as [_ ->]; [lia|]. pose proof (now_mono nb n ltac:(lia)). lia.
  - apply (gb_healthy _ _ _ Hgood n); [lia|done].
  - right. rewrite E2, S1. done.
  - by rewrite E3.
  - apply (gb_timely _ _ _ Hgood); [lia|done..].
Qed.

End Backend.

(** ** The goroutine of the group *)

Section Loop.
Context (N : nat) (genesis : string).
Hypothesis Hruns : loop_runs.
Hypothesis Hgenesis : same_genesis N genesis.

Lemma loop_or_other n : (exists order net, l n = LLoop order net) \/ forall order net, l n <> LLoop order net.
Proof. destruct (l n); try (by right). left. eauto. Qed.

Lemma other_loop n : (forall order net, l n <> LLoop order net) ->
  w_loop (w (S n)) = w_loop (w n) /\ consensusGroup (w_cp (w (S n))) = consensusGroup (w_cp (w n)).
Proof. intros Hl. destruct (ex_step Hex n) as (_ & _ & H). exact (exec_other_loop ms0 _ _ _ (inv_at n) H (running n) Hl). Qed.

Lemma next_loop n : exists m order net, (n <= m)%nat /\ l m = LLoop order net /\ w_loop (w m) = w_loop (w n).
Proof.
  destruct (Hruns n) as (m & order & net & Hle & Hl). remember (m - n)%nat as k eqn:Hk. revert n Hle Hk.
  induction k as [|k IH]; intros n Hle Hk.
  - exists n, order, net. by replace m with n in Hl by lia.
  - destruct (loop_or_other n) as [(o & nt & Hl')|Ho]; [by exists n, o, nt|].
    destruct (other_loop n Ho) as [Hp _]. destruct (IH (S n)) as (m' & o & nt & Hm & Hl' & Hc); [lia..|].
    exists m', o, nt. split; [lia|]. split; [done|]. by rewrite Hc.
Qed.

(** All agree on block zero. *)
Lemma check_round_genesis {S} (fetch : nat -> string -> Z -> S -> go (S * (Z * string + error))) (Inv : S -> Prop) i current cs :
  genesis <> "" ->
  (forall be s s1 r, Inv s -> fetch i be 0 s = Ret (s1, r) ->
     Inv s1 /\ match r with inl (m, h) => m = 0 /\ h = genesis | inr _ => True end) ->
  forall hash broken s s' ok hash' broken', hash = "" \/ hash = genesis -> Inv s ->
  check_round fetch i current 0 cs hash broken s = Ret (s', ok, hash', broken') -> ok = true.
Proof.
  intros Hne Hf. induction cs as [|be cs IH]; intros hash broken s s' ok hash' broken' Hh Hs H; cbn [check_round] in H.
  { by injection H as _ <- _ _. }
  apply go_bind_ret in H as ([s1 r] & Hfe & H). destruct (Hf _ _ _ _ Hs Hfe) as [Hs1 Hr].
  destruct r as [[m h]|err]; [|by eapply IH]. destruct Hr as [-> ->].
  assert (E : (if hash ==s "" then genesis else hash) = genesis).
  { destruct Hh as [-> | ->]; [done|]. by destruct (streq_spec genesis ""). }
  rewrite E, streq_refl in H. cbn [Z.eqb negb orb] in H. exact (IH _ _ _ _ _ _ _ (or_intror eq_refl) Hs1 H).
Qed.

Lemma fetch_member_genesis n order net i name ms ms1 r :
  (N <= n)%nat -> l n = LLoop order net -> same_members (w_ms (w n)) ms ->
  fetch_member net i name 0 ms = Ret (ms1, r) ->
  same_members (w_ms (w n)) ms1 /\ match r with inl (m, h) => m = 0 /\ h = genesis | inr _ => True end.
Proof.
  intros Hn Hl Hs H. unfold fetch_member in H. destruct (List.find _ _) as [b|] eqn:E; [|done].
  apply go_bind_ret in H as ([b1 r1] & Hf & [= <- <-]).
  destruct (same_members_find _ _ _ _ Hs E) as (Hb & b0 & Hb0 & Hstrip & Hn0).
  destruct (proj2 Hgenesis n order net i b0 Hn Hl Hb0) as (b0' & r0 & Hf0 & Hr0). rewrite Hn0 in Hf0.
  apply (fetchBlock_strip b0 b) in Hf0 as (b2 & Hf2 & Hb2); [|done]. rewrite Hf in Hf2. injection Hf2 as <- <-.
  split; [|done]. eapply same_members_set; [|exact Hs|exact E|done].
  rewrite (same_members_names ms0) by apply ai_members, inv_at. apply ex_names, Hex.
Qed.

(** The walk back ends, at block zero at the latest. *)
Lemma reach_publish n d current cands lo i proposed hash broken :
  (N <= n)%nat -> w_loop (w n) = GRound d current cands lo i proposed hash broken ->
  exists m p' b', (n <= m)%nat /\ w_loop (w m) = GPublish d cands lo p' b'.
Proof.
  remember (Z.to_nat proposed) as k eqn:Hk. revert n i proposed hash broken Hk.
  induction k as [|k IH]; intros n i proposed hash broken Hk Hn Hp;
    destruct (next_loop n) as (m & order & net & Hm & Hl & Hpm); rewrite Hp in Hpm;
    destruct (ex_step Hex m) as (_ & _ & H); rewrite Hl in H; cbn [exec] in H; unfold loop_step in H; rewrite Hpm in H;
    apply go_bind_ret in H as ([[[ms1 ok] hash1] broken1] & Hc & [= Hw]);
    pose proof (ai_loop _ _ (inv_at m)) as Hinv; unfold loop_inv in Hinv; rewrite Hpm in Hinv; destruct Hinv as [Hu Hh].
  - assert (proposed = 0) as -> by (unfold is_u64 in Hu; lia). destruct Hh as [-> |]; [|lia].
    apply (check_round_genesis _ (same_members (w_ms (w m)))) in Hc as ->; [|apply Hgenesis| |by left|done].
    + exists (S m), 0, broken1. split; [lia|]. by rewrite <- Hw.
    + intros be s s1 r Hs Hf. eapply fetch_member_genesis; [|exact Hl|exact Hs|exact Hf]. lia.
  - destruct ok; [exists (S m), proposed, broken1; split; [lia|by rewrite <- Hw]|].
    assert (E : u64 (proposed - 1) = proposed - 1) by (apply u64_small; unfold is_u64 in *; lia). rewrite E in Hw.
    destruct (IH (S m) (S i) (proposed - 1) "" broken1) as (m' & p' & b' & Hm' & H'); [lia|lia|by rewrite <- Hw|].
    exists m', p', b'. split; [lia|done].
Qed.

Lemma next_round n : (N <= n)%nat -> exists m order net, (n <= m)%nat /\ l m = LLoop order net /\ w_loop (w m) = GStart.
Proof.
  assert (Hwait : forall n d, w_loop (w n) = GWait d ->
    exists m order net, (n <= m)%nat /\ l m = LLoop order net /\ w_loop (w m) = GStart).
  { intros k d Hp. destruct (next_loop k) as (m & o & nt & Hm & Hl & Hpm). rewrite Hp in Hpm.
    destruct (ex_step Hex m) as (_ & _ & H). rewrite Hl in H. cbn [exec] in H. unfold loop_step in H. rewrite Hpm in H.
    destruct (d <=? w_now (w m)); [|done]. injection H as Hw.
    destruct (next_loop (S m)) as (m' & o' & nt' & Hm' & Hl' & Hpm'). exists m', o', nt'. split; [lia|]. split; [done|].
    by rewrite Hpm', <- Hw. }
  assert (Hpub : forall n d cands lo p b, w_loop (w n) = GPublish d cands lo p b ->
    exists m order net, (n <= m)%nat /\ l m = LLoop order net /\ w_loop (w m) = GStart).
  { intros k d cands lo p b Hp. destruct (next_loop k) as (m & o & nt & Hm & Hl & Hpm). rewrite Hp in Hpm.
    destruct (ex_step Hex m) as (_ & _ & H). rewrite Hl in H. cbn [exec] in H. unfold loop_step in H. rewrite Hpm in H.
    injection H as Hw. destruct (Hwait (S m) d) as (m' & o' & nt' & Hm' & H'); [by rewrite <- Hw|].
    exists m', o', nt'. split; [lia|done]. }
  intros Hn. destruct (next_loop n) as (m & o & nt & Hm & Hl & Hpm).
  destruct (w_loop (w n)) as [|d current cands lo i proposed hash broken|d cands lo p b|d|] eqn:Hp.
  - exists m, o, nt. done.
  - destruct (reach_publish n _ _ _ _ _ _ _ _ Hn Hp) as (m' & p' & b' & Hm' & Hp').
    destruct (Hpub m' _ _ _ _ _ Hp') as (m2 & o2 & nt2 & Hm2 & H2). exists m2, o2, nt2. split; [lia|done].
  - by eapply Hpub.
  - by eapply Hwait.
  - exfalso. destruct (ex_step Hex m) as (_ & _ & H). rewrite Hl in H. cbn [exec] in H. unfold loop_step in H. by rewrite Hpm in H.
Qed.

(** ** The good backend is in the group *)

Context (name : string) (M : nat).
Hypothesis HM : (N <= M)%nat.
Hypothesis Hin : forall n, (M <= n)%nat -> let cands := getConsensusCandidates (w_now (w n)) (w_ms (w n)) (w_cp (w n)) in
  name ∈ map (fun c => Name c.1) cands /\ forall c, c ∈ cands -> FallbackBackends ms0 !! Name c.1 = Some false.
Hypothesis Hname : name ∈ map Name (Backends ms0).

Definition cands_ok (cands : list (Backend * backendState)) : Prop :=
  name ∈ map (fun c => Name c.1) cands /\ forall c, c ∈ cands -> FallbackBackends ms0 !! Name c.1 = Some false.

Definition loop_ok (n : nat) : Prop :=
  match w_loop (w n) with
  | GRound _ _ cands _ _ _ _ _ | GPublish _ cands _ _ _ => cands_ok cands
  | _ => True
  end.

Definition group_ok (n : nat) : Prop :=
  name ∈ consensusGroup (w_cp (w n)) /\
  forall x, x ∈ consensusGroup (w_cp (w n)) -> FallbackBackends ms0 !! x = Some false.

Lemma publish_ok n lo p b cp : cands_ok cp -> forall cp0 : ConsensusPoller (T := T),
  name ∈ consensusGroup (publish (w_ms (w n)) cp lo p b cp0) /\
  forall x, x ∈ consensusGroup (publish (w_ms (w n)) cp lo p b cp0) -> FallbackBackends ms0 !! x = Some false.
Proof.
  intros [H1 H2] cp0. rewrite publish_group. split.
  - split; [|done]. by rewrite (same_members_names ms0) by apply ai_members, inv_at.
  - intros x. rewrite publish_group. intros [_ (c & -> & Hc)%list_elem_of_fmap]. by apply H2.
Qed.

Lemma loop_ok_step n : (M <= n)%nat -> loop_ok n -> loop_ok (S n) /\ (group_ok n -> group_ok (S n)).
Proof.
  intros Hn Hok. unfold loop_ok, group_ok in *. destruct (loop_or_other n) as [(order & net & Hl)|Ho].
  2: { by destruct (other_loop n Ho) as [-> ->]. }
  destruct (ex_step Hex n) as (_ & _ & H). rewrite Hl in H. cbn [exec] in H. unfold loop_step in H.
  destruct (w_loop (w n)) as [|d current cands lo i proposed hash broken|d cands lo p b|d|]; [..|done].
  - injection H as <-. split; [|done]. cbn [w_loop set_loop]. destruct (_ <? _); by apply Hin.
  - apply go_bind_ret in H as ([[[ms1 ok] hash1] broken1] & _ & [= <-]). split; [|done]. by destruct ok.
  - injection H as <-. split; [done|]. intros _. by apply publish_ok.
  - destruct (_ <=? _); [|done]. by injection H as <-.
Qed.

Lemma loop_ok_from n : (M <= n)%nat -> loop_ok n -> forall m, (n <= m)%nat -> loop_ok m /\ (group_ok n -> group_ok m).
Proof.
  intros Hn Hok m. induction 1 as [|m Hm [IH1 IH2]]; [done|]. destruct (loop_ok_step m ltac:(lia) IH1) as [H1 H2]. auto.
Qed.

Lemma publish_step m d cands lo p b order net : w_loop (w m) = GPublish d cands lo p b -> l m = LLoop order net ->
  cands_ok cands -> group_ok (S m).
Proof.
  intros Hp Hl Hok. destruct (ex_step Hex m) as (_ & _ & H). rewrite Hl in H. cbn [exec] in H. unfold loop_step in H.
  rewrite Hp in H. injection H as Hw. unfold group_ok. rewrite <- Hw. by apply publish_ok.
Qed.

Lemma eventually_in_group : exists K, forall n, (K <= n)%nat -> group_ok n.
Proof.
  destruct (next_round M HM) as (m & order & net & Hm & Hl & Hp).
  assert (Hok : loop_ok m) by (unfold loop_ok; by rewrite Hp). pose proof (loop_ok_from m Hm Hok) as Hall.
  assert (Hpub : exists k d cands lo p b, (m < k)%nat /\ w_loop (w k) = GPublish d cands lo p b).
  { destruct (ex_step Hex m) as (_ & _ & H). rewrite Hl in H. cbn [exec] in H. unfold loop_step in H. rewrite Hp in H.
    injection H as Hw. destruct (0 <? _) eqn:E.
    - destruct (reach_publish (S m) (w_now (w m) + interval (w_cp (w m))) (GetLatestBlockNumber (tracker (w_cp (w m))))
        (getConsensusCandidates (w_now (w m)) (w_ms (w m)) (w_cp (w m)))
        (lowest_of (order (getConsensusCandidates (w_now (w m)) (w_ms (w m)) (w_cp (w m))))) 1
        (lowestLatestBlock (lowest_of (order (getConsensusCandidates (w_now (w m)) (w_ms (w m)) (w_cp (w m))))))
        (lowestLatestBlockHash (lowest_of (order (getConsensusCandidates (w_now (w m)) (w_ms (w m)) (w_cp (w m)))))) false)
        as (k & p & b & Hk & Hpk); [lia|by rewrite <- Hw|]. eexists k, _, _, _, _, _. split; [lia|exact Hpk].
    - eexists (S m), _, _, _, _, _. split; [lia|]. by rewrite <- Hw. }
  destruct Hpub as (k & d & cands & lo & p & b & Hk & Hpk).
  destruct (next_loop k) as (k' & o & nt & Hk' & Hl' & Hpk'). rewrite Hpk in Hpk'.
  destruct (Hall k') as [Hokk _]; [lia|]. exists (S k'). unfold loop_ok in Hokk. rewrite Hpk' in Hokk.
  intros n Hn. destruct (Hall (S k')) as [Hok' _]; [lia|].
  apply (loop_ok_from (S k') ltac:(lia) Hok' n Hn). by eapply publish_step.
Qed.

End Loop.

(** A backend that is eligible and close to the others is a candidate, and the fallbacks are not. *)
Lemma good_candidate name N head n be :
  good_backend name N head -> (N <= n)%nat -> member (w n) name = Some be -> eligible (w_now (w n)) (w_cp (w n)) be ->
  0 < latestBlockNumber (state_of (w n) name) ->
  let cands := getConsensusCandidates (w_now (w n)) (w_ms (w n)) (w_cp (w n)) in
  name ∈ map (fun c => Name c.1) cands /\ forall c, c ∈ cands -> FallbackBackends ms0 !! Name c.1 = Some false.
Proof.
  intros Hgood Hn Hm He Hpos cands. destruct (member_spec ms0 _ _ _ (inv_at n) Hm) as [Hname _].
  pose proof (ai_fallbacks _ _ (inv_at n)) as Hfb.
  assert (Hprim : be ∈ Primaries (w_ms (w n))).
  { unfold Primaries. rewrite list_elem_of_In, filter_In, Hname, Hfb, (proj2 (gb_primary _ _ _ Hgood)). split; [|done].
    exact (proj1 (find_some _ _ Hm)). }
  assert (Hc : (be, GetBackendState (w_cp (w n)) be) ∈ FilterCandidates (w_now (w n)) (w_cp (w n)) (Primaries (w_ms (w n)))).
  { pose proof (settings_at n) as Hset. injection Hset as _ _ _ Hlag. apply FilterCandidates_spec.
    - intros b Hb. assert (Hin : b ∈ Backends (w_ms (w n))).
      { unfold Primaries in Hb. apply list_elem_of_In, filter_In in Hb as [Hb _]. by apply list_elem_of_In. }
      apply (list_elem_of_fmap_2 strip) in Hin. change (strip b ∈ map strip (Backends (w_ms (w n)))) in Hin.
      pose proof (ai_members _ _ (inv_at n)) as Hs. unfold same_members in Hs. rewrite Hs in Hin.
      apply list_elem_of_fmap in Hin as (b0 & Hb0%strip_Name & Hin0). unfold GetBackendState. rewrite Hb0.
      apply (backend_inv_u64 (w n) b0). exact (ai_backend ms0 (w n) (inv_at n) b0 Hin0).
    - rewrite Hlag. apply ex_lag, Hex.
    - split; [done|]. split; [done|]. split; [done|]. intros be' Hb' He'.
      pose proof (gb_close _ _ _ Hgood n be' Hn Hpos Hb' He') as Hcl. unfold state_of in Hcl. rewrite <- Hname in Hcl. exact Hcl. }
  assert (E : cands = FilterCandidates (w_now (w n)) (w_cp (w n)) (Primaries (w_ms (w n)))).
  { unfold cands, getConsensusCandidates. destruct (FilterCandidates _ _ (Primaries _)); [by apply elem_of_nil in Hc|done]. }
  rewrite E. split.
  - apply (list_elem_of_fmap_2 (fun c => Name c.1)) in Hc. cbn [fst] in Hc. by rewrite Hname in Hc.
  - intros c Hcc. unfold FilterCandidates in Hcc. rewrite list_elem_of_In, filter_In, in_map_iff in Hcc.
    destruct Hcc as [(b & <- & [Hb _]%filter_In) _]. unfold Primaries in Hb. apply filter_In in Hb as [_ Hb]. cbn [fst].
    rewrite Hfb in Hb. by destruct (FallbackBackends ms0 !! Name b) as [[]|].
Qed.

Lemma consensus_converges name N head genesis :
  good_backend name N head -> updater_runs name -> loop_runs -> same_genesis N genesis ->
  exists K, forall n, (K <= n)%nat -> group_ok name n.
Proof.
  intros Hgood Hu Hl Hgen. destruct (eventually_eligible name N head Hgood Hu) as (M & HM & Hel).
  apply (eventually_in_group N genesis Hl Hgen name M HM); [|by apply (gb_primary _ _ _ Hgood)].
  intros n Hn. destruct (member_at name N head Hgood Hu n) as (be & _ & Hm & _).
  destruct (Hel n be Hn Hm) as [He Hpos]. eapply good_candidate; [exact Hgood|lia|exact Hm|done|done].
Qed.

End Live.

(** C16. A good backend is eventually in the consensus group, and stays there. Take any fair
    execution of the goroutines from the start of the poller, with any traffic and any
    behaviour of the other backends. If from some moment on a primary is healthy, in sync and has its peers,
    its polls succeed with consistent blocks that do not go back, come in time and
    do not lag, then, even if it was banned or behind before, from some moment on it
    is in the consensus group, and no fallback is. The agreement loop needs that
    the nodes that answer about block zero report the same genesis block. *)
Theorem good_backend_joins {G : Geth} {GL : GethLaws} {W : Type} {WO : WindowOps W} {T : Type} {TO : ConsensusTracker T}
    t0 t (ms : members (W := W)) opts (l : nat -> label) (w : nat -> world (T := T)) name N head genesis :
  NoDup (map Name (Backends ms)) -> Forall keeps_group opts -> 0 <= maxBlockLag (NewConsensusPoller t ms opts) ->
  w 0%nat = Init t0 ms (NewConsensusPoller t ms opts) ->
  (forall n, allowed (l n) /\ l n <> LShutdown /\ exec (l n) (w n) = Ret (Some (w (S n)))) ->
  (forall time, exists n, time <= w_now (w n)) ->
  updater_runs l name -> loop_runs l -> same_genesis l w N genesis -> good_backend ms l w name N head ->
  exists K, forall n, (K <= n)%nat -> name ∈ consensusGroup (w_cp (w n)) /\
    forall x, x ∈ consensusGroup (w_cp (w n)) -> FallbackBackends ms !! x = Some false.
Proof.
  intros Hnd Ho Hlag H0 Hstep Htime Hu Hl Hgen Hgood.
  apply (consensus_converges ms l w) with N head genesis; try done. split; try done; rewrite H0; [by apply Init_inv|done|done].
Qed.

(** ** A fair execution

    One backend that answers every poll alike, in rounds of one second: nine steps for
    its goroutine, the goroutine of the group and the clock. *)

Section Demo.

(** Windows that stay empty. *)
#[local] Instance empty_window : WindowOps unit :=
  { win_new := (); win_add _ _ w := w; win_clear w := w; win_sum _ _ := 0; win_avg _ _ := 0 }.

Definition live_be : Backend (W := unit) := NewBackend "a" "" "" [].
Definition live_ms : members (W := unit) := mkMembers [live_be] {[ "a" := false ]}.

Definition live_reply (j : json) : http_reply :=
  Response 200 (mkSource (chars (body_of [MarshalJSON (demo_response "67" j)])) [] false None).

Definition live_block (number hash : string) : http_reply := live_reply (JObj [("hash", JStr hash); ("number", JStr number)]).

Definition live_net (i : nat) : attempt :=
  mkAttempt Hour Hour None None (fun _ =>
    match i with
    | 0 => live_reply (JBool false)
    | 1 => live_reply (JStr "0x5")
    | 2 => live_block "0x64" "0xaa"
    | 3 => live_block "0x5a" "0xbb"
    | _ => live_block "0x50" "0xcc"
    end%nat).

(** The node knows block 100 and the genesis block. *)
Definition live_blocks (_ : nat) (_ : string) : attempt :=
  mkAttempt Hour Hour None None (fun req =>
    match hr_body req with
    | JObj fs =>
        match obj_get "params" fs with
        | Some (JArr (JStr n :: _)) => if n ==s "0x0" then live_block "0x0" "0x00" else live_block "0x64" "0xaa"
        | _ => live_block "0x64" "0xaa"
        end
    | _ => live_block "0x64" "0xaa"
    end).

Definition live_poll : poll_result := mkPoll true 5 100 "0xaa" 90 80.

Definition live_time (k : nat) : Time := Hour + Z.of_nat k * Second.

(** The record of the backend before and after the poll of round [k]. *)
Definition live_bs (t : Time) : backendState := mkBS 100 "0xaa" 90 80 5 true t 0.
Definition live_before (k : nat) : backendState := match k with O => zero_state | S j => live_bs (live_time j) end.

Definition live_cp (bs : backendState) (k : nat) : ConsensusPoller :=
  mkPoller {[ "a" := bs ]} (match k with O => [] | S _ => ["a"] end)
    (match k with O => NewInMemoryConsensusTracker | S _ => mkState 100 90 80 end) [] [] 3 (5 * Minute) (30 * Second) 8 0 Second.

Definition live_lo : lowest := mkLowest 100 "0xaa" 80 90.
Definition live_current (k : nat) : Z := match k with O => 0 | S _ => 100 end.

(** The world at step [r] of round [k], and the label of that step. *)
Definition live_at (k r : nat) : world :=
  let t := live_time k in
  let d := t + Second in
  let old := live_before k in
  let new := live_bs t in
  let cands := [(live_be, new)] in
  match r with
  | 0 => mkWorld t false live_ms (live_cp old k) {[ "a" := UStart ]} GStart
  | 1 => mkWorld t false live_ms (live_cp old k) {[ "a" := USet d old live_poll ]} GStart
  | 2 => mkWorld t false live_ms (live_cp new k) {[ "a" := UCheck d old live_poll ]} GStart
  | 3 => mkWorld t false live_ms (live_cp new k) {[ "a" := UWait d ]} GStart
  | 4 => mkWorld t false live_ms (live_cp new k) {[ "a" := UWait d ]}
           (GRound d (live_current k) cands live_lo 1 100 "0xaa" false)
  | 5 => mkWorld t false live_ms (live_cp new k) {[ "a" := UWait d ]} (GPublish d cands live_lo 100 false)
  | 6 => mkWorld t false live_ms (live_cp new (S k)) {[ "a" := UWait d ]} (GWait d)
  | 7 => mkWorld (live_time (S k)) false live_ms (live_cp new (S k)) {[ "a" := UWait d ]} (GWait d)
  | _ => mkWorld (live_time (S k)) false live_ms (live_cp new (S k)) {[ "a" := UStart ]} (GWait d)
  end%nat.

Definition live_label_at (k r : nat) : label (W := unit) (T := ConsensusTrackerState) :=
  match r with
  | 0 | 1 | 2 | 7 => LUpdater "a" live_net
  | 6 => LTick (live_time (S k))
  | _ => LLoop (fun cs => cs) live_blocks
  end%nat.

Fixpoint live_pos (n : nat) : nat * nat :=
  match n with
  | O => (0, 0)
  | S n => let '(k, r) := live_pos n in if (r =? 8)%nat then (S k, 0) else (k, S r)
  end%nat.

Definition live_world (n : nat) : world := live_at (live_pos n).1 (live_pos n).2.
Definition live_label (n : nat) : label (W := unit) (T := ConsensusTrackerState) := live_label_at (live_pos n).1 (live_pos n).2.

Lemma live_pos_spec n : (n = 9 * (live_pos n).1 + (live_pos n).2 /\ (live_pos n).2 < 9)%nat.
Proof.
  induction n as [|n IH]; [cbn; lia|]. cbn [live_pos]. destruct (live_pos n) as [k r]. cbn [fst snd] in IH.
  destruct (Nat.eqb_spec r 8); cbn [fst snd]; lia.
Qed.

Lemma live_time_succ k : live_time (S k) = live_time k + Second.
Proof. unfold live_time. lia. Qed.

Lemma live_polls : poll_backend live_be live_net = Ret (live_be, Some live_poll).
Proof. vm_compute. reflexivity. Qed.

Lemma live_healthy t : IsHealthy t live_be = true.
Proof. reflexivity. Qed.

Lemma live_unbanned k : bs_IsBanned (live_time k) (live_before k) = false.
Proof. apply Z.ltb_ge. destruct k; cbn; unfold live_time, Hour, Minute, Second, Millisecond; lia. Qed.

Lemma live_candidates k : getConsensusCandidates (live_time k) live_ms (live_cp (live_bs (live_time k)) k)
  = [(live_be, live_bs (live_time k))].
Proof.
  assert (Hc : is_candidate (live_time k) (live_cp (live_bs (live_time k)) k) live_be = true).
  { apply is_candidate_eligible. right. change (GetBackendState _ live_be) with (live_bs (live_time k)). cbn.
    unfold live_time, Hour, Minute, Second, Millisecond. repeat split; try (right; lia); lia. }
  unfold getConsensusCandidates. change (Primaries live_ms) with [live_be]. unfold FilterCandidates. cbn [List.filter].
  rewrite Hc. reflexivity.
Qed.

Lemma live_round k : check_round (fetch_member live_blocks) 1 (live_current k) 100 ["a"] "0xaa" false live_ms
  = Ret (live_ms, true, "0xaa", false).
Proof. destruct k; vm_compute; reflexivity. Qed.

Lemma live_begin k : begin_update (live_time k) live_be live_net live_ms (live_cp (live_before k) k)
  = Ret (live_ms, live_cp (live_before k) k, Some (live_before k, live_poll)).
Proof.
  unfold begin_update. change (GetBackendState (live_cp (live_before k) k) live_be) with (live_before k).
  rewrite live_unbanned, live_healthy. cbn [negb andb]. rewrite live_polls. reflexivity.
Qed.

Lemma live_exec k r : (r < 9)%nat ->
  exec (live_label_at k r) (live_at k r) = Ret (Some (if (r =? 8)%nat then live_at (S k) 0 else live_at k (S r))).
Proof.
  assert (Hdue : (live_time k + Second <=? live_time (S k)) = true) by (rewrite live_time_succ; apply Z.leb_refl).
  intros Hr. destruct r as [|[|[|[|[|[|[|[|[|r]]]]]]]]]; [..|lia].
  - change (exec (live_label_at k 0) (live_at k 0)) with
      ('(ms1, cp1, found) ← begin_update (live_time k) live_be live_net live_ms (live_cp (live_before k) k);
       Ret (Some (set_updater "a" match found with
                                  | Some (bs, p) => USet (live_time k + Second) bs p
                                  | None => UWait (live_time k + Second)
                                  end (set_shared ms1 cp1 (live_at k 0))))).
    rewrite live_begin. reflexivity.
  - destruct k; reflexivity.
  - destruct k; reflexivity.
  - cbn [exec live_label_at live_at Nat.eqb]. unfold loop_step. cbn [w_loop w_now w_ms w_cp]. rewrite live_candidates. destruct k; reflexivity.
  - cbn [exec live_label_at live_at Nat.eqb]. unfold loop_step. cbn [w_loop w_ms map fst]. 
    change (Name live_be) with "a". rewrite live_round. reflexivity.
  - destruct k; reflexivity.
  - cbn [exec live_label_at live_at Nat.eqb w_now]. rewrite (proj2 (Z.leb_le _ _)); [reflexivity|].
    rewrite live_time_succ. unfold Second, Millisecond. lia.
  - change (exec (live_label_at k 7) (live_at k 7)) with (Ret (if live_time k + Second <=? live_time (S k)
      then Some (set_updater "a" UStart (live_at k 7)) else None)). rewrite Hdue. reflexivity.
  - change (exec (live_label_at k 8) (live_at k 8)) with (Ret (if live_time k + Second <=? live_time (S k)
      then Some (set_loop GStart (live_at k 8)) else None)). rewrite Hdue. reflexivity.
Qed.

Lemma live_step n : exec (live_label n) (live_world n) = Ret (Some (live_world (S n))).
Proof.
  unfold live_label, live_world. cbn [live_pos]. destruct (live_pos_spec n) as [_ Hr].
  destruct (live_pos n) as [k r]. cbn [fst snd] in *. rewrite live_exec by done. by destruct (r =? 8)%nat.
Qed.

Lemma live_pos_mul k r : (r < 9)%nat -> live_pos (9 * k + r) = (k, r).
Proof.
  intros Hr. destruct (live_pos_spec (9 * k + r)) as [H1 H2]. destruct (live_pos (9 * k + r)) as [k' r']. cbn [fst snd] in *.
  assert (k' = k) by lia. f_equal; lia.
Qed.

Lemma live_member n : member (live_world n) "a" = Some live_be.
Proof. unfold live_world. by destruct (live_pos n) as [k [|[|[|[|[|[|[|[|r]]]]]]]]]. Qed.

(** The record is that of this round or of the one before, and of the current second. *)
Lemma live_state n : 0 < latestBlockNumber (state_of (live_world n) "a") ->
  exists t, state_of (live_world n) "a" = live_bs t /\ w_now (live_world n) <= t + 30 * Second.
Proof.
  unfold live_world. destruct (live_pos n) as [k r]. cbn [fst snd].
  assert (Hnew : forall w : world (W := unit) (T := ConsensusTrackerState), state_of w "a" = live_bs (live_time k) -> w_now w <= live_time (S k) ->
    exists t, state_of w "a" = live_bs t /\ w_now w <= t + 30 * Second).
  { intros w Hs Hn. exists (live_time k). split; [done|]. rewrite live_time_succ in Hn. unfold Second, Millisecond in *. lia. }
  assert (Hold : forall w : world (W := unit) (T := ConsensusTrackerState), state_of w "a" = live_before k -> w_now w = live_time k ->
    0 < latestBlockNumber (state_of w "a") -> exists t, state_of w "a" = live_bs t /\ w_now w <= t + 30 * Second).
  { intros w Hs Hn. rewrite Hs. destruct k as [|k]; [cbn; lia|]. intros _. exists (live_time k). split; [done|].
    rewrite Hn, live_time_succ. unfold Second, Millisecond. lia. }
  pose proof (live_time_succ k) as Hk. unfold Second, Millisecond in Hk.
  destruct r as [|[|[|[|[|[|[|[|r]]]]]]]]; [by apply Hold|by apply Hold|intros _; apply Hnew; [reflexivity|cbn [live_at w_now]; lia]..].
Qed.

Lemma live_good : good_backend live_ms live_label live_world "a" 0 (fun _ => live_poll).
Proof.
  split.
  - split; [by left|reflexivity].
  - intros n be _ Hm. rewrite live_member in Hm. injection Hm as <-. apply live_healthy.
  - intros n net be _ Hl Hm _ _. rewrite live_member in Hm. injection Hm as <-. exists live_be.
    unfold live_label in Hl. destruct (live_pos n) as [k [|[|[|[|[|[|[|[|[|r]]]]]]]]]]; try discriminate Hl; injection Hl as <-; apply live_polls.
  - intros _. vm_compute. intuition discriminate.
  - intros m n _. vm_compute. intuition discriminate.
  - intros n _ Hpos _. destruct (live_state n Hpos) as (t & -> & Hn). cbn [lastUpdate live_bs].
    replace (maxUpdateThreshold (w_cp (live_world n))) with (30 * Second); [done|].
    unfold live_world. by destruct (live_pos n) as [k [|[|[|[|[|[|[|[|r]]]]]]]]].
  - intros n be _ _ Hbe _.
    assert (E : Primaries (w_ms (live_world n)) = [live_be] /\ maxBlockLag (w_cp (live_world n)) = 8)
      by (unfold live_world; by destruct (live_pos n) as [k [|[|[|[|[|[|[|[|r]]]]]]]]]).
    destruct E as [E ->]. rewrite E in Hbe. apply list_elem_of_singleton in Hbe as ->.
    change (GetBackendState (w_cp (live_world n)) live_be) with (state_of (live_world n) "a"). lia.
Qed.

Lemma live_genesis : same_genesis live_label live_world 0 "0x00".
Proof.
  split; [discriminate|]. intros n order net i be _ Hl Hbe. exists live_be, (inl (0, "0x00")).
  assert (E : Backends (w_ms (live_world n)) = [live_be])
    by (unfold live_world; by destruct (live_pos n) as [k [|[|[|[|[|[|[|[|r]]]]]]]]]).
  rewrite E in Hbe. apply list_elem_of_singleton in Hbe as ->. split; [|done].
  unfold live_label in Hl. destruct (live_pos n) as [k [|[|[|[|[|[|[|[|[|r]]]]]]]]]]; try discriminate Hl;
    injection Hl as _ <-; vm_compute; reflexivity.
Qed.

Lemma good_backend_joins_witness :
  exists K, forall n, (K <= n)%nat -> "a" ∈ consensusGroup (w_cp (live_world n)) /\
    forall x, x ∈ consensusGroup (w_cp (live_world n)) -> FallbackBackends live_ms !! x = Some false.
Proof.
  apply (good_backend_joins Hour NewInMemoryConsensusTracker live_ms [] live_label live_world "a" 0 (fun _ => live_poll) "0x00").
  - apply NoDup_singleton.
  - constructor.
  - vm_compute. discriminate.
  - vm_compute. reflexivity.
  - intros n. split; [|split; [|apply live_step]].
    + unfold live_label. destruct (live_pos n) as [k [|[|[|[|[|[|[|[|[|r]]]]]]]]]]; try exact Logic.I; intros cs; reflexivity.
    + unfold live_label. destruct (live_pos n) as [k [|[|[|[|[|[|[|[|[|r]]]]]]]]]]; discriminate.
  - intros time. exists (9 * Z.to_nat time + 0)%nat. unfold live_world. rewrite live_pos_mul by lia. cbn [fst snd live_at w_now].
    unfold live_time, Hour, Minute, Second, Millisecond. lia.
  - intros n. exists (9 * n + 0)%nat, live_net. split; [lia|]. unfold live_label. rewrite live_pos_mul by lia. reflexivity.
  - intros n. exists (9 * n + 3)%nat, (fun cs => cs), live_blocks. split; [lia|]. unfold live_label. rewrite live_pos_mul by lia. reflexivity.
  - exact live_genesis.
  - exact live_good.
Defined.

End Demo.
