(* ===== verification/Group.v ===== *)
(** * Backend groups: the [BackendGroup] type of [backend.go]

    A group orders its backends for each request, rewrites the requests in consensus mode, forwards
    them with failover or to all backends at once (multicall), and puts the
    responses the proxy made itself back in their places. Shuffles, clock readings
    and replies are arguments. *)

From stdpp Require Import base list strings gmap.
From Stdlib Require Import ZArith Lia Ascii.
From Stdlib Require Strings.String.
From S2P Require Import Prelude SlidingWindow SlidingWindowRefinement Json JsonRoundtrip Geth Rpc Reader Rewriter Backend Tracker Poller.

Local Open Scope Z_scope.

Definition ConsensusAwareRoutingStrategy : string := "consensus_aware".
Definition MulticallRoutingStrategy : string := "multicall".
Definition FallbackRoutingStrategy : string := "fallback".

Record indexedReqRes := mkIndexed {
  index : nat;
  ov_req : RPCReq;
  ov_res : RPCRes;
}.

(** [OverrideResponses]: each response the proxy made is inserted at the position of its request. *)
Fixpoint OverrideResponses (res : list RPCRes) (overriddenResponses : list indexedReqRes) : go (list RPCRes) :=
  match overriddenResponses with
  | [] => Ret res
  | ov :: rest =>
      if (0 <? length res)%nat then
        if (length res <? index ov)%nat then Panic "slice bounds out of range"
        else OverrideResponses (take (index ov) res ++ ov_res ov :: drop (index ov) res) rest
      else OverrideResponses (res ++ [ov_res ov]) rest
  end.

Definition isValidMulticallTx (rpcReqs : list RPCReq) : bool :=
  match rpcReqs with
  | [req] => (req_Method req ==s "eth_sendRawTransaction") || (req_Method req ==s "eth_sendBundle")
  | _ => false
  end.

Record BackendGroupRPCResponse := mkResp {
  RPCRes_ : list RPCRes;
  ServedBy : string;
  resp_error : option error;
}.

(** [ProcessMulticallResponses] on the responses in the order in which they arrive. *)
Fixpoint ProcessMulticallResponses (check : bool) (finalResp : option BackendGroupRPCResponse)
    (ch : list BackendGroupRPCResponse) : go BackendGroupRPCResponse :=
  match ch with
  | [] => Ret (default (mkResp [] "" (Some (EOther "no multicall response received"))) finalResp)
  | resp :: ch' =>
      match resp_error resp with
      | Some _ => ProcessMulticallResponses check (Some resp) ch'
      | None =>
          if check : bool then
            r ← go_index (RPCRes_ resp) 0;
            if IsError r then ProcessMulticallResponses check (Some resp) ch' else Ret resp
          else Ret resp
      end
  end.

Section Group.
Context {EM : ErrorMessages} {G : Geth} {W : Type} {WO : WindowOps W} {T : Type} {TO : ConsensusTracker T}.
Notation Backend := (Backend (W := W)).
Notation members := (members (W := W)).

Record BackendGroup := mkGroup {
  bg_Name : string;
  bg_members : members;
  WeightedRouting : bool;
  Consensus : option (ConsensusPoller (T := T));
  routingStrategy : string;
  multicallRPCErrorCheck : bool;
}.

(** The shuffles of one request: of the standard library and of the weighted shuffle package. *)
Record shuffles := mkShuffles {
  Shuffle_healthy : list Backend -> list Backend;
  Shuffle_degraded : list Backend -> list Backend;
  weightedShuffle : list Backend -> list Backend;
}.

Definition GetConsensusGroup (ms : members) (cp : ConsensusPoller (T := T)) : list Backend :=
  List.filter (fun b => existsb (fun n => n ==s Name b) (GetConsensusGroup cp)) (Backends ms).

Definition loadBalancedConsensusGroup (now : Time) (sh : shuffles) (weighted : bool) (cg : list Backend)
  : list Backend :=
  let usable := List.filter (IsHealthy now) cg in
  let backendsDegraded := Shuffle_degraded sh (List.filter (IsDegraded now) usable) in
  let backendsHealthy := Shuffle_healthy sh (List.filter (fun b => negb (IsDegraded now b)) usable) in
  (if weighted then weightedShuffle sh backendsHealthy else backendsHealthy) ++ backendsDegraded.

Definition orderedBackendsForRequest (now : Time) (sh : shuffles) (bg : BackendGroup) : list Backend :=
  match Consensus bg with
  | Some cp => loadBalancedConsensusGroup now sh (WeightedRouting bg) (GetConsensusGroup (bg_members bg) cp)
  | None =>
      let healthy := List.filter (IsHealthy now) (Backends (bg_members bg)) in
      let unhealthy := List.filter (fun b => negb (IsHealthy now b)) (Backends (bg_members bg)) in
      if WeightedRouting bg then weightedShuffle sh healthy ++ weightedShuffle sh unhealthy
      else healthy ++ unhealthy
  end.

(** The response for a request that could not be rewritten. *)
Definition override_error (rctx : RewriteContext) (err : option error) : RPCErr :=
  match err with
  | Some err =>
      if is_base ErrRewriteBlockOutOfRange err then sentinel_value ErrBlockOutOfRange
      else if is_base ErrRewriteRangeTooLarge err then
        mkRPCErr (-32602) ("block range greater than " +:+ str (dec (maxBlockRange rctx)) +:+ " max") "" 400
      else sentinel_value ErrParseErr
  | None => sentinel_value ErrParseErr
  end.

Definition set_res_error (r : RPCRes) (e : RPCErr) : RPCRes :=
  mkRes (res_JSONRPC r) (res_Result r) (Some e) (res_ID r).

(** The requests to forward, and the responses made for the others; [i] is the position of the first. *)
Fixpoint OverwriteConsensusResponses (rctx : RewriteContext) (i : nat) (rpcReqs : list RPCReq)
  : go (list RPCReq * list indexedReqRes) :=
  match rpcReqs with
  | [] => Ret ([], [])
  | req :: rpcReqs' =>
      '(result, err, req1, res) ← RewriteTags rctx req (mkRes JSONRPCVersion None None (req_ID req));
      '(reqs, ovs) ← OverwriteConsensusResponses rctx (S i) rpcReqs';
      match result with
      | RewriteOverrideError => Ret (reqs, mkIndexed i req1 (set_res_error res (override_error rctx err)) :: ovs)
      | RewriteOverrideResponse => Ret (reqs, mkIndexed i req1 res :: ovs)
      | RewriteOverrideRequest | RewriteNone => Ret (req1 :: reqs, ovs)
      end
  end.

Definition rewrite_context (cp : ConsensusPoller (T := T)) : RewriteContext :=
  mkRctx (poller_GetLatestBlockNumber cp) (poller_GetSafeBlockNumber cp)
    (poller_GetFinalizedBlockNumber cp) (cp_maxBlockRange cp).

(** Errors that end the failover. *)
Definition is_terminal (err : error) : bool :=
  is_base ErrConsensusGetReceiptsCantBeBatched err || is_base ErrConsensusGetReceiptsInvalidTarget err
  || is_sentinel ErrMethodNotWhitelisted err || is_sentinel ErrBackendResponseTooLarge err.

(** Failover over the backends in order; [net name] are the exchanges with a backend. *)
Fixpoint ForwardRequestToBackendGroup (name : string) (ctx : Ctx) (rpcReqs : list RPCReq) (backends : list Backend)
    (isBatch : bool) (net : string -> nat -> attempt) (ms : members)
  : go (members * list RPCReq * BackendGroupRPCResponse) :=
  match backends with
  | [] => Ret (ms, rpcReqs, mkResp [] "" (Some (ESentinel ErrNoBackends)))
  | back :: backends' =>
      let servedBy := (name +:+ "/" +:+ Name back) in
      if (0 <? length rpcReqs)%nat then
        '(back1, reqs1, r) ← Forward back ctx rpcReqs isBatch (net (Name back));
        let ms1 := set_backend back1 ms in
        match r with
        | inl res => Ret (ms1, reqs1, mkResp res servedBy None)
        | inr err =>
            if is_terminal err then Ret (ms1, reqs1, mkResp [] "" (Some err))
            else ForwardRequestToBackendGroup name ctx reqs1 backends' isBatch net ms1
        end
      else Ret (ms, rpcReqs, mkResp [] servedBy None)
  end.

(** The backends a multicall goes to. *)
Definition multicall_targets (now : Time) (ms : members) : list Backend :=
  match List.filter (IsHealthy now) (Backends ms) with
  | [] => Backends ms
  | targets => targets
  end.

(** Every target gets the request; the responses arrive in the order that [arrival] gives them. *)
Fixpoint multicall_requests (name : string) (ctx : Ctx) (rpcReqs : list RPCReq) (targets : list Backend)
    (net : string -> nat -> attempt) (ms : members) : go (members * list BackendGroupRPCResponse) :=
  match targets with
  | [] => Ret (ms, [])
  | b :: targets' =>
      '(ms1, _, resp) ← ForwardRequestToBackendGroup name ctx rpcReqs [b] false net ms;
      '(ms2, resps) ← multicall_requests name ctx rpcReqs targets' net ms1;
      Ret (ms2, resp :: resps)
  end.

Definition ExecuteMulticall (now : Time) (bg : BackendGroup) (ctx : Ctx) (rpcReqs : list RPCReq)
    (net : string -> nat -> attempt) (arrival : list BackendGroupRPCResponse -> list BackendGroupRPCResponse)
  : go (members * BackendGroupRPCResponse) :=
  '(ms1, resps) ← multicall_requests (bg_Name bg) ctx rpcReqs (multicall_targets now (bg_members bg)) net (bg_members bg);
  resp ← ProcessMulticallResponses (multicallRPCErrorCheck bg) None (arrival resps);
  Ret (ms1, resp).

(** The client's requests as the group leaves them: a rewritten or translated request is changed in place. *)
Fixpoint merge_requests (i : nat) (rpcReqs reqs : list RPCReq) (ovs : list indexedReqRes) : list RPCReq :=
  match rpcReqs with
  | [] => []
  | req :: rpcReqs' =>
      match ovs with
      | ov :: ovs' =>
          if (index ov =? i)%nat then ov_req ov :: merge_requests (S i) rpcReqs' reqs ovs'
          else default req (head reqs) :: merge_requests (S i) rpcReqs' (tail reqs) ovs
      | [] => default req (head reqs) :: merge_requests (S i) rpcReqs' (tail reqs) []
      end
  end.

Definition group_Forward (now : Time) (sh : shuffles) (bg : BackendGroup) (ctx : Ctx) (rpcReqs : list RPCReq)
    (isBatch : bool) (net : string -> nat -> attempt)
    (arrival : list BackendGroupRPCResponse -> list BackendGroupRPCResponse)
  : go (members * list RPCReq * BackendGroupRPCResponse) :=
  match rpcReqs with
  | [] => Ret (bg_members bg, [], mkResp [] "" None)
  | _ =>
      let backends := orderedBackendsForRequest now sh bg in
      '(reqs, overriddenResponses) ←
        match Consensus bg with
        | Some cp => OverwriteConsensusResponses (rewrite_context cp) 0 rpcReqs
        | None => Ret (rpcReqs, [])
        end;
      if (routingStrategy bg ==s MulticallRoutingStrategy) && isValidMulticallTx reqs && negb isBatch then
        '(ms1, resp) ← ExecuteMulticall now bg ctx reqs net arrival;
        Ret (ms1, merge_requests 0 rpcReqs reqs overriddenResponses, resp)
      else
        '(ms1, reqs1, resp) ← ForwardRequestToBackendGroup (bg_Name bg) ctx reqs backends isBatch net (bg_members bg);
        let left := merge_requests 0 rpcReqs reqs1 overriddenResponses in
        match resp_error resp with
        | Some _ => Ret (ms1, left, resp)
        | None =>
            res ← OverrideResponses (RPCRes_ resp) overriddenResponses;
            Ret (ms1, left, mkResp res (ServedBy resp) None)
        end
  end.

End Group.

(** ** Properties *)

Section Rewriting.
Context {EM : ErrorMessages} {G : Geth}.

Lemma rewriteRange_ids rctx req res pos rw err req' res' :
  rewriteRange rctx req res pos = Ret (rw, err, req', res') -> req_ID req' = req_ID req /\ res' = res.
Proof.
  unfold rewriteRange. destruct (UnmarshalMaps _); [|intros; by simplify_eq]. intros H.
  apply go_bind_ret in H as (m & _ & H). apply go_bind_ret in H as (m1 & _ & H).
  apply go_bind_ret in H as ([[m2 b2]|] & _ & H); [|by simplify_eq].
  apply go_bind_ret in H as ([[m3 b3]|] & _ & H); [|by simplify_eq].
  destruct (check_range _ _ _); [by simplify_eq|]. destruct (b2 || b3); by simplify_eq.
Qed.

Lemma rewriteParam_ids rctx req res pos required nh rw err req' res' :
  rewriteParam rctx req res pos required nh = Ret (rw, err, req', res') -> req_ID req' = req_ID req /\ res' = res.
Proof.
  unfold rewriteParam. destruct (UnmarshalSlice _) as [p|]; [|intros; by simplify_eq]. cbv zeta.
  destruct (_ && _); [intros; by simplify_eq|]. intros H. apply go_bind_ret in H as (v & _ & H).
  destruct (rewrite_value _ _ _) as [[? []]|]; by simplify_eq.
Qed.

(** Rewriting keeps the IDs. *)
Lemma RewriteTags_ids rctx req res rw err req' res' :
  RewriteTags rctx req res = Ret (rw, err, req', res') -> req_ID req' = req_ID req /\ res_ID res' = res_ID res.
Proof.
  unfold RewriteTags, RewriteResponse. destruct (req_Method req ==s "eth_blockNumber"); [intros; by simplify_eq|].
  unfold RewriteRequest. intros H.
  assert (Hr : req_ID req' = req_ID req /\ res' = res); [|by destruct Hr as [? ->]].
  repeat case_match; first [by simplify_eq|by eapply rewriteRange_ids|by eapply rewriteParam_ids].
Qed.

Lemma override_step acc rs ov ovs :
  index ov = length acc ->
  OverrideResponses (acc ++ rs) (ov :: ovs) = OverrideResponses ((acc ++ [ov_res ov]) ++ rs) ovs.
Proof.
  intros Hi. cbn [OverrideResponses]. rewrite Hi, length_app.
  destruct (Nat.ltb_spec 0 (length acc + length rs)).
  - destruct (Nat.ltb_spec (length acc + length rs) (length acc)); [lia|].
    rewrite take_app_length', drop_app_length' by done. by rewrite <- app_assoc.
  - destruct acc; [|simpl in *; lia]. destruct rs; [|simpl in *; lia]. done.
Qed.

Lemma override_placed rctx rpcReqs : forall i acc rs reqs ovs,
  length acc = i -> OverwriteConsensusResponses rctx i rpcReqs = Ret (reqs, ovs) -> length rs = length reqs ->
  exists out, OverrideResponses (acc ++ rs) ovs = Ret (acc ++ out) /\ length out = length rpcReqs /\
    (map res_ID rs = map req_ID reqs -> map res_ID out = map req_ID rpcReqs) /\
    (forall ov, ov ∈ ovs -> (i <= index ov)%nat /\ out !! (index ov - i)%nat = Some (ov_res ov)).
Proof.
  induction rpcReqs as [|req rpcReqs IH]; intros i acc rs reqs ovs Hi H Hlen; cbn [OverwriteConsensusResponses] in H.
  { simplify_eq. destruct rs; [|done]. exists []. rewrite app_nil_r. cbn.
    split; [done|]. split; [done|]. split; [done|]. by intros ov ?%elem_of_nil. }
  apply go_bind_ret in H as ([[[result err] req1] res] & Hrw & H).
  apply go_bind_ret in H as ([reqs0 ovs0] & Hrest & H). apply RewriteTags_ids in Hrw as [Hreq Hres]. cbn in Hres.
  assert (Hov : forall r, reqs = reqs0 -> ovs = mkIndexed i req1 r :: ovs0 -> res_ID r = req_ID req ->
    exists out, OverrideResponses (acc ++ rs) ovs = Ret (acc ++ out) /\ length out = S (length rpcReqs) /\
    (map res_ID rs = map req_ID reqs -> map res_ID out = req_ID req :: map req_ID rpcReqs) /\
    (forall ov, ov ∈ ovs -> (i <= index ov)%nat /\ out !! (index ov - i)%nat = Some (ov_res ov))).
  { intros r -> -> Hid. destruct (IH (S i) (acc ++ [r]) rs reqs0 ovs0) as (out & Ho & Hl & Hids & Hpos);
      [rewrite length_app; cbn; lia|done|done|].
    exists (r :: out). rewrite override_step by done. cbn [ov_res]. rewrite Ho, <- app_assoc. split; [done|].
    split; [cbn; lia|]. split; [intros E; cbn; rewrite Hid, Hids; done|].
    intros ov [->|Hin]%elem_of_cons; cbn [index ov_res].
    - split; [lia|]. by rewrite Nat.sub_diag.
    - destruct (Hpos ov Hin) as [Hle Hlk]. split; [lia|].
      replace (index ov - i)%nat with (S (index ov - S i)) by lia. done. }
  destruct result; simplify_eq; try (by eapply Hov).
  all: destruct rs as [|r rs]; [done|]; destruct (IH (S (length acc)) (acc ++ [r]) rs reqs0 ovs) as (out & Ho & Hl & Hids & Hpos);
    [rewrite length_app; cbn; lia|done|by injection Hlen|].
  all: exists (r :: out); rewrite <- app_assoc in Ho; cbn [app] in Ho; rewrite Ho, <- app_assoc; split; [done|];
    split; [cbn; lia|]; split; [cbn; intros E; injection E as E1 E2; by rewrite E1, Hreq, Hids|].
  all: intros ov Hin; destruct (Hpos ov Hin) as [Hle Hlk]; split; [lia|];
    replace (index ov - length acc)%nat with (S (index ov - S (length acc))) by lia; done.
Qed.

(** Responses made by the proxy go back to the places of their requests: when the requests that
    are forwarded are answered in order, the merged responses match the client's
    requests one to one and in order, and each overridden response is at the
    position of its request. *)
Theorem overridden_responses_placed rctx rpcReqs reqs ovs rs :
  OverwriteConsensusResponses rctx 0 rpcReqs = Ret (reqs, ovs) -> map res_ID rs = map req_ID reqs ->
  exists out, OverrideResponses rs ovs = Ret out /\ map res_ID out = map req_ID rpcReqs /\
    (forall ov, ov ∈ ovs -> out !! index ov = Some (ov_res ov)).
Proof.
  intros H Hids. destruct (override_placed rctx rpcReqs 0 [] rs reqs ovs) as (out & Ho & _ & Hmap & Hpos); [done|done| |].
  { by rewrite <- (length_map res_ID rs), Hids, length_map. }
  exists out. split; [done|]. split; [by apply Hmap|]. intros ov Hin. destruct (Hpos ov Hin) as [_ Hlk].
  by rewrite Nat.sub_0_r in Hlk.
Qed.

End Rewriting.

(** A response that a multicall accepts. *)
Definition accepted (check : bool) (resp : BackendGroupRPCResponse) : bool :=
  match resp_error resp with
  | Some _ => false
  | None => negb (check && match RPCRes_ resp with r :: _ => IsError r | [] => false end)
  end.

(** The responses are read until the first accepted one. *)
Lemma multicall_find check (ch : list BackendGroupRPCResponse) : forall final,
  (forall resp, resp ∈ ch -> resp_error resp = None -> RPCRes_ resp <> []) -> (ch <> [] \/ final <> None) ->
  exists resp, ProcessMulticallResponses check final ch = Ret resp /\
    match List.find (accepted check) ch with
    | Some r => resp = r
    | None => match last ch with Some r => Some resp = Some r | None => Some resp = final end
    end.
Proof.
  induction ch as [|r ch IH]; intros final Hres Hne; cbn [ProcessMulticallResponses List.find].
  { destruct final as [f|]; [by exists f|naive_solver]. }
  assert (Hskip : accepted check r = false -> exists resp, ProcessMulticallResponses check (Some r) ch = Ret resp /\
    match (if accepted check r then Some r else List.find (accepted check) ch) with
    | Some r => resp = r
    | None => match last (r :: ch) with Some r => Some resp = Some r | None => Some resp = final end
    end).
  { intros ->. destruct (IH (Some r)) as (resp & Hp & H); [intros x Hx; by apply Hres, list_elem_of_further|by right|].
    exists resp. split; [done|]. destruct (List.find _ ch); [done|]. rewrite last_cons. by destruct (last ch). }
  unfold accepted in Hskip |- * at 1. destruct (resp_error r) eqn:He; [by apply Hskip|].
  destruct check; [|by exists r].
  destruct (RPCRes_ r) as [|x xs] eqn:Hx; [by destruct (Hres r (list_elem_of_here _ _) He)|].
  change (go_index (x :: xs) 0) with (Ret x). go_simpl. destruct (IsError x) eqn:Hie; [by apply Hskip|]. by exists r.
Qed.

(** C25. A multicall succeeds when any backend does: whatever the order in which the responses
    arrive, the result is the first of them that is accepted, all before it having failed;
    and if none is, the last failure. A response that is not an error has at least one
    result. *)
Theorem multicall_first_accepted check (ch : list BackendGroupRPCResponse) :
  (forall resp, resp ∈ ch -> resp_error resp = None -> RPCRes_ resp <> []) -> ch <> [] ->
  exists resp, ProcessMulticallResponses check None ch = Ret resp /\
    ((exists before after, ch = before ++ resp :: after /\ accepted check resp = true /\
        Forall (fun r => accepted check r = false) before) \/
     Forall (fun r => accepted check r = false) ch /\ last ch = Some resp).
Proof.
  intros Hres Hne. destruct (multicall_find check ch None Hres (or_introl Hne)) as (resp & Hp & H). exists resp.
  split; [done|]. clear Hp Hres Hne. revert resp H. induction ch as [|r ch IH]; intros resp H; [done|]. cbn [List.find] in H.
  destruct (accepted check r) eqn:Hr; [subst; left; by exists [], ch|].
  rewrite last_cons in H |- *. destruct (last ch) as [l|] eqn:El.
  - destruct (IH resp H) as [(before & after & -> & Ha & Hb)|[Hf Hl]]; [left|right].
    + exists (r :: before), after. split; [done|]. split; [done|]. by constructor.
    + split; [by constructor|]. by rewrite Hl.
  - apply last_None in El as ->. cbn in H. right. split; [by repeat constructor|]. by rewrite H.
Qed.

(** ** Forwarding *)

(** The IDs of the requests are those of the overridden and of the forwarded ones. *)
Lemma override_ids_perm {EM : ErrorMessages} {G : Geth} rctx rpcReqs : forall i reqs ovs,
  OverwriteConsensusResponses rctx i rpcReqs = Ret (reqs, ovs) ->
  map req_ID rpcReqs ≡ₚ map (fun ov => res_ID (ov_res ov)) ovs ++ map req_ID reqs.
Proof.
  induction rpcReqs as [|req rpcReqs IH]; intros i reqs ovs H; cbn [OverwriteConsensusResponses] in H; [by simplify_eq|].
  apply go_bind_ret in H as ([[[result err] req1] res] & Hrw & H).
  apply go_bind_ret in H as ([reqs0 ovs0] & Hrest & H). apply RewriteTags_ids in Hrw as [Hreq Hres]. cbn in Hres.
  apply IH in Hrest. destruct result; simplify_eq; cbn; rewrite Hrest, ?Hres, ?Hreq; [|done| |done];
    by rewrite Permutation_middle.
Qed.

Lemma override_indices {EM : ErrorMessages} {G : Geth} rctx rpcReqs : forall i reqs ovs,
  OverwriteConsensusResponses rctx i rpcReqs = Ret (reqs, ovs) -> forall ov, ov ∈ ovs -> (i <= index ov)%nat.
Proof.
  induction rpcReqs as [|req rpcReqs IH]; intros i reqs ovs H ov Hin; cbn [OverwriteConsensusResponses] in H.
  { simplify_eq. by apply elem_of_nil in Hin. }
  apply go_bind_ret in H as ([[[result err] req1] res] & _ & H). apply go_bind_ret in H as ([reqs0 ovs0] & Hrest & H).
  assert (Hov : ov ∈ ovs0 -> (i <= index ov)%nat) by (intros H0; apply (IH _ _ _ Hrest) in H0; lia).
  destruct result; simplify_eq; auto; (apply elem_of_cons in Hin as [->|Hin]; [done|auto]).
Qed.

(** Whatever the group does to the requests, they keep their IDs. *)
Lemma merge_requests_ids {EM : ErrorMessages} {G : Geth} rctx rpcReqs : forall i reqs reqs1 ovs,
  OverwriteConsensusResponses rctx i rpcReqs = Ret (reqs, ovs) -> map req_ID reqs1 = map req_ID reqs ->
  map req_ID (merge_requests i rpcReqs reqs1 ovs) = map req_ID rpcReqs.
Proof.
  induction rpcReqs as [|req rpcReqs IH]; intros i reqs reqs1 ovs H Hids; [done|].
  cbn [OverwriteConsensusResponses] in H. apply go_bind_ret in H as ([[[result err] req1] res] & Hrw & H).
  apply go_bind_ret in H as ([reqs0 ovs0] & Hrest & H). apply RewriteTags_ids in Hrw as [Hreq _].
  assert (Hfwd : reqs = req1 :: reqs0 -> ovs = ovs0 ->
    map req_ID (merge_requests i (req :: rpcReqs) reqs1 ovs) = map req_ID (req :: rpcReqs)).
  { intros -> ->. destruct reqs1 as [|r reqs1]; [done|]. cbn in Hids. injection Hids as Hr Hids.
    pose proof (IH _ _ _ _ Hrest Hids) as Htl. cbn. destruct ovs0 as [|ov ovs0].
    { cbn. by rewrite Hr, Hreq, Htl. }
    pose proof (override_indices _ _ _ _ _ Hrest ov (list_elem_of_here _ _)).
    destruct (Nat.eqb_spec (index ov) i); [lia|]. cbn. by rewrite Hr, Hreq, Htl. }
  destruct result; simplify_eq; auto; cbn; rewrite Nat.eqb_refl; cbn; by rewrite Hreq, (IH _ _ _ _ Hrest Hids).
Qed.

Lemma merge_nil rpcReqs : forall i reqs, length reqs = length rpcReqs -> merge_requests i rpcReqs reqs [] = reqs.
Proof.
  induction rpcReqs as [|req rpcReqs IH]; intros i [|r reqs] H; try done. cbn. by rewrite IH by (by injection H).
Qed.

Lemma OverrideResponses_perm ovs : forall rs out,
  OverrideResponses rs ovs = Ret out -> out ≡ₚ map ov_res ovs ++ rs.
Proof.
  induction ovs as [|ov ovs IH]; intros rs out H; cbn [OverrideResponses] in H; [by simplify_eq|].
  destruct (0 <? length rs)%nat.
  - destruct (_ <? _)%nat; [done|]. apply IH in H. rewrite H, <- Permutation_middle, take_drop. cbn.
    by rewrite <- Permutation_middle.
  - apply IH in H. rewrite H. cbn. rewrite (Permutation_app_comm rs). cbn. by rewrite <- Permutation_middle.
Qed.

Section Forwarding.
Context {EM : ErrorMessages} {G : Geth} {W : Type} {WO : WindowOps W} {T : Type} {TO : ConsensusTracker T}.
Notation Backend := (Backend (W := W)).
Notation members := (members (W := W)).

Lemma forward_group_ordered name ctx isBatch net backends : forall rpcReqs (ms : members) ms' reqs' resp,
  ForwardRequestToBackendGroup name ctx rpcReqs backends isBatch net ms = Ret (ms', reqs', resp) ->
  resp_error resp = None ->
  length (RPCRes_ resp) = length rpcReqs /\
  (map res_ID (RPCRes_ resp) ≡ₚ map req_ID rpcReqs -> map res_ID (RPCRes_ resp) = map req_ID rpcReqs) /\
  exists back, back ∈ backends /\ ServedBy resp = (name +:+ "/" +:+ Name back).
Proof.
  induction backends as [|back backends IH]; intros rpcReqs ms ms' reqs' resp H Hok;
    cbn [ForwardRequestToBackendGroup] in H; [by simplify_eq|].
  destruct (Nat.ltb_spec 0 (length rpcReqs)).
  - apply go_bind_ret in H as ([[back1 reqs1] r] & Hf & H). apply Forward_ordered in Hf as [Hids Hr].
    assert (Hlen : length reqs1 = length rpcReqs) by by rewrite <- (length_map req_ID reqs1), Hids, length_map.
    destruct r as [res|err].
    + simplify_eq. cbn. destruct (Hr res eq_refl) as [Hl Ho]. split; [done|]. split; [done|].
      exists back. split; [by left|done].
    + destruct (is_terminal err); [by simplify_eq|]. apply IH in H as (Hl & Ho & b & Hb & Hs); [|done].
      rewrite Hlen in Hl. rewrite Hids in Ho. split; [done|]. split; [done|]. exists b. split; [by right|done].
  - destruct rpcReqs; [|simpl in *; lia]. simplify_eq. cbn. split; [done|]. split; [done|].
    exists back. split; [by left|done].
Qed.

(** C9. The responses of a group match the requests, end to end: when a request or a batch is
    served (not by multicall), through rewriting, failover, retries and the
    responses made by the proxy, there is one response per request, the group says
    which of the chosen backends served it, and if the responses carry the IDs of
    the requests they are in the order of the requests. *)
Theorem group_responses_aligned now sh (bg : BackendGroup (W := W) (T := T)) ctx rpcReqs isBatch net arrival ms' left resp :
  rpcReqs <> [] -> routingStrategy bg <> MulticallRoutingStrategy ->
  group_Forward now sh bg ctx rpcReqs isBatch net arrival = Ret (ms', left, resp) -> resp_error resp = None ->
  length (RPCRes_ resp) = length rpcReqs /\
  (map res_ID (RPCRes_ resp) ≡ₚ map req_ID rpcReqs -> map res_ID (RPCRes_ resp) = map req_ID rpcReqs) /\
  exists back, back ∈ orderedBackendsForRequest now sh bg /\ ServedBy resp = (bg_Name bg +:+ "/" +:+ Name back).
Proof.
  intros Hne Hmc H Hok. unfold group_Forward in H. destruct rpcReqs as [|req0 rpcReqs0] eqn:E; [done|].
  rewrite <- E in *. clear E. apply go_bind_ret in H as ([reqs ovs] & Hov & H).
  destruct (streq_spec (routingStrategy bg) MulticallRoutingStrategy) as [|_]; [done|]. cbn [andb] in H.
  apply go_bind_ret in H as ([[ms1 reqs1] resp1] & Hf & H).
  destruct (resp_error resp1) eqn:He; [simplify_eq; congruence|].
  apply go_bind_ret in H as (res & Hres & H). simplify_eq. cbn [RPCRes_ ServedBy].
  apply forward_group_ordered in Hf as (Hl & Ho & Hserved); [|done].
  destruct (Consensus bg) as [cp|].
  - destruct (override_placed _ _ 0 [] (RPCRes_ resp1) _ _ eq_refl Hov Hl) as (out & Hout & Hlen & Hids & _).
    cbn [app] in Hout. rewrite Hres in Hout. injection Hout as <-. split; [done|]. split; [|done].
    intros Hp. apply Hids, Ho.
    rewrite (override_ids_perm _ _ _ _ _ Hov), (Permutation_map res_ID (OverrideResponses_perm _ _ _ Hres)), map_app, map_map in Hp.
    by apply Permutation_app_inv_l in Hp.
  - simplify_eq. cbn in Hres. by simplify_eq.
Qed.

(** *** What a group promises to the server *)

Lemma forward_group_ids name ctx isBatch net backends : forall rpcReqs (ms : members) ms' reqs' resp,
  ForwardRequestToBackendGroup name ctx rpcReqs backends isBatch net ms = Ret (ms', reqs', resp) ->
  map req_ID reqs' = map req_ID rpcReqs.
Proof.
  induction backends as [|back backends IH]; intros rpcReqs ms ms' reqs' resp H;
    cbn [ForwardRequestToBackendGroup] in H; [by simplify_eq|].
  destruct (_ <? _)%nat; [|by simplify_eq].
  apply go_bind_ret in H as ([[back1 reqs1] r] & Hf & H). apply Forward_ordered in Hf as [Hids _].
  destruct r as [res|err]; [by simplify_eq|]. destruct (is_terminal err); [by simplify_eq|].
  by rewrite (IH _ _ _ _ _ H).
Qed.

Lemma multicall_result check ch : forall final resp,
  ProcessMulticallResponses check final ch = Ret resp -> resp_error resp = None -> resp ∈ ch \/ final = Some resp.
Proof.
  induction ch as [|r ch IH]; intros final resp H Hok; cbn [ProcessMulticallResponses] in H.
  { destruct final; simplify_eq. by right. }
  assert (Hrec : ProcessMulticallResponses check (Some r) ch = Ret resp -> resp ∈ r :: ch).
  { intros Hp. destruct (IH _ _ Hp Hok) as [?|[= <-]]; [by right|by left]. }
  destruct (resp_error r); [left; auto|]. destruct check; [|simplify_eq; left; by left].
  apply go_bind_ret in H as (x & _ & H). destruct (IsError x); [left; auto|]. simplify_eq. left. by left.
Qed.

Lemma multicall_lengths name ctx net targets : forall rpcReqs (ms : members) ms' resps,
  multicall_requests name ctx rpcReqs targets net ms = Ret (ms', resps) ->
  forall resp, resp ∈ resps -> resp_error resp = None -> length (RPCRes_ resp) = length rpcReqs.
Proof.
  induction targets as [|b targets IH]; intros rpcReqs ms ms' resps H resp Hin Hok; cbn [multicall_requests] in H.
  { simplify_eq. by apply elem_of_nil in Hin. }
  apply go_bind_ret in H as ([[ms1 reqs1] r1] & Hf & H). apply go_bind_ret in H as ([ms2 rs] & Hm & H). simplify_eq.
  apply elem_of_cons in Hin as [->|Hin]; [by apply forward_group_ordered in Hf as [? _]|by eapply IH].
Qed.

(** One response per request if there is no error, and the requests keep their IDs, whatever the strategy. *)
Lemma group_Forward_promise now sh (bg : BackendGroup (W := W) (T := T)) ctx rpcReqs isBatch net arrival ms' left resp :
  (routingStrategy bg = MulticallRoutingStrategy -> Consensus bg = None) ->
  (forall l x, x ∈ arrival l -> x ∈ l) ->
  group_Forward now sh bg ctx rpcReqs isBatch net arrival = Ret (ms', left, resp) ->
  map req_ID left = map req_ID rpcReqs /\ (resp_error resp = None -> length (RPCRes_ resp) = length rpcReqs).
Proof.
  intros Hmc Harr H. unfold group_Forward in H. destruct rpcReqs as [|req0 rpcReqs0] eqn:E; [by simplify_eq|].
  rewrite <- E in *. clear E. apply go_bind_ret in H as ([reqs ovs] & Hov & H).
  assert (Hmerge : forall reqs1, map req_ID reqs1 = map req_ID reqs ->
    map req_ID (merge_requests 0 rpcReqs reqs1 ovs) = map req_ID rpcReqs).
  { intros reqs1 Hids. destruct (Consensus bg); [by eapply merge_requests_ids|]. simplify_eq.
    rewrite merge_nil; [done|]. by rewrite <- (length_map req_ID reqs1), Hids, length_map. }
  destruct (streq_spec (routingStrategy bg) MulticallRoutingStrategy) as [Hs|_]; cbn [andb] in H.
  destruct (isValidMulticallTx reqs && negb isBatch).
  { apply go_bind_ret in H as ([ms1 resp1] & Hx & H). simplify_eq. split; [by apply Hmerge|]. intros Hok.
    unfold ExecuteMulticall in Hx. apply go_bind_ret in Hx as ([ms2 resps] & Hm & Hx).
    apply go_bind_ret in Hx as (r & Hp & Hx). simplify_eq. rewrite (Hmc Hs) in Hov. simplify_eq.
    destruct (multicall_result _ _ _ _ Hp Hok) as [Hin|]; [|done]. eapply multicall_lengths; eauto. }
  all: apply go_bind_ret in H as ([[ms1 reqs1] resp1] & Hf & H); pose proof (forward_group_ids _ _ _ _ _ _ _ _ _ _ Hf) as Hids;
    destruct (resp_error resp1) eqn:He; [simplify_eq; split; [by apply Hmerge|congruence]|];
    apply go_bind_ret in H as (res & Hres & H); simplify_eq; (split; [by apply Hmerge|]); intros _; cbn [RPCRes_];
    apply forward_group_ordered in Hf as (Hl & _ & _); [|done]; destruct (Consensus bg) as [cp|];
    [destruct (override_placed _ _ 0 [] (RPCRes_ resp1) _ _ eq_refl Hov Hl) as (out & Hout & Hlen & _);
     cbn [app] in Hout; rewrite Hres in Hout; by injection Hout as <-|simplify_eq; cbn in Hres; by simplify_eq].
Qed.

(** Shuffling returns the same backends. *)
Record shuffles_ok (sh : shuffles (W := W)) : Prop := {
  Shuffle_healthy_perm l : Shuffle_healthy sh l ≡ₚ l;
  Shuffle_degraded_perm l : Shuffle_degraded sh l ≡ₚ l;
  weightedShuffle_perm l : weightedShuffle sh l ≡ₚ l;
}.

Lemma elem_of_filter_bool {A} (f : A -> bool) l x : x ∈ List.filter f l <-> x ∈ l /\ f x = true.
Proof. by rewrite !list_elem_of_In, filter_In. Qed.

Lemma filter_split {A} (f : A -> bool) l : List.filter f l ++ List.filter (fun x => negb (f x)) l ≡ₚ l.
Proof.
  induction l as [|x l IH]; [done|]. cbn. destruct (f x); cbn; [by rewrite IH|].
  by rewrite <- Permutation_middle, IH.
Qed.

(** The order in which backends are tried: without consensus, every backend of the group, the healthy
    ones first; with consensus, exactly the healthy members of the consensus
    group, those that are not degraded first. *)
Theorem ordered_backends now sh (bg : BackendGroup (W := W) (T := T)) :
  shuffles_ok sh ->
  let out := orderedBackendsForRequest now sh bg in
  exists first rest, out = first ++ rest /\
  match Consensus bg with
  | None =>
      out ≡ₚ Backends (bg_members bg) /\
      (forall b, b ∈ first -> IsHealthy now b = true) /\ (forall b, b ∈ rest -> IsHealthy now b = false)
  | Some cp =>
      (forall b, b ∈ out <-> b ∈ GetConsensusGroup (bg_members bg) cp /\ IsHealthy now b = true) /\
      (forall b, b ∈ first -> IsDegraded now b = false) /\ (forall b, b ∈ rest -> IsDegraded now b = true)
  end.
Proof.
  intros [Hh Hd Hw] out. unfold out, orderedBackendsForRequest.
  destruct (Consensus bg) as [cp|].
  - unfold loadBalancedConsensusGroup. set (usable := List.filter (IsHealthy now) _).
    set (first := if WeightedRouting bg then _ else _). set (rest := Shuffle_degraded sh _). exists first, rest.
    assert (Hfirst : first ≡ₚ List.filter (fun b => negb (IsDegraded now b)) usable).
    { unfold first. destruct (WeightedRouting bg); by rewrite ?Hw, Hh. }
    assert (Hrest : rest ≡ₚ List.filter (IsDegraded now) usable) by apply Hd.
    split; [done|]. split; [|split].
    + intros b. rewrite Hfirst, Hrest, Permutation_app_comm, filter_split. unfold usable. apply elem_of_filter_bool.
    + intros b Hb. rewrite Hfirst, elem_of_filter_bool in Hb. by destruct Hb as [_ ?%negb_true_iff].
    + intros b Hb. rewrite Hrest, elem_of_filter_bool in Hb. tauto.
  - set (h := List.filter (IsHealthy now) _). set (u := List.filter _ _).
    exists (if WeightedRouting bg then weightedShuffle sh h else h), (if WeightedRouting bg then weightedShuffle sh u else u).
    assert (Hhp : (if WeightedRouting bg then weightedShuffle sh h else h) ≡ₚ h) by (destruct (WeightedRouting bg); by rewrite ?Hw).
    assert (Hup : (if WeightedRouting bg then weightedShuffle sh u else u) ≡ₚ u) by (destruct (WeightedRouting bg); by rewrite ?Hw).
    split; [by destruct (WeightedRouting bg)|]. split; [|split].
    + transitivity (h ++ u); [destruct (WeightedRouting bg); by rewrite ?Hw|apply filter_split].
    + intros b Hb. rewrite Hhp in Hb. by apply elem_of_filter_bool in Hb as [_ ?].
    + intros b Hb. rewrite Hup in Hb. by apply elem_of_filter_bool in Hb as [_ ?%negb_true_iff].
Qed.

(** *** Failover *)

(** The backends [pre] were tried in turn and failed with errors that do not end the failover. *)
Inductive all_failed (name : string) (ctx : Ctx) (isBatch : bool) (net : string -> nat -> attempt)
  : list Backend -> list RPCReq -> members -> list RPCReq -> members -> Prop :=
| failed_nil reqs ms : all_failed name ctx isBatch net [] reqs ms reqs ms
| failed_cons back pre reqs ms back1 reqs1 err reqs2 ms2 :
    Forward back ctx reqs isBatch (net (Name back)) = Ret (back1, reqs1, inr err) -> is_terminal err = false ->
    all_failed name ctx isBatch net pre reqs1 (set_backend back1 ms) reqs2 ms2 ->
    all_failed name ctx isBatch net (back :: pre) reqs ms reqs2 ms2.

(** C24. Failover: a request goes to the backends in order until one serves it or fails for good; the
    group reports "no backends" only when every backend of the list was tried and failed. *)
Theorem failover name ctx isBatch net backends reqs (ms : members) ms' reqs' resp :
  reqs <> [] -> ForwardRequestToBackendGroup name ctx reqs backends isBatch net ms = Ret (ms', reqs', resp) ->
  exists pre post reqs1 ms1, backends = pre ++ post /\ all_failed name ctx isBatch net pre reqs ms reqs1 ms1 /\
  match post with
  | [] => reqs' = reqs1 /\ ms' = ms1 /\ resp = mkResp [] "" (Some (ESentinel ErrNoBackends))
  | back :: _ => exists back1 r,
      Forward back ctx reqs1 isBatch (net (Name back)) = Ret (back1, reqs', r) /\ ms' = set_backend back1 ms1 /\
      match r with
      | inl res => resp = mkResp res (name +:+ "/" +:+ Name back) None
      | inr err => is_terminal err = true /\ resp = mkResp [] "" (Some err)
      end
  end.
Proof.
  intros Hne. revert reqs ms Hne. induction backends as [|back backends IH]; intros reqs ms Hne H;
    cbn [ForwardRequestToBackendGroup] in H.
  { exists [], [], reqs, ms. simplify_eq. split; [done|]. split; [constructor|done]. }
  destruct (Nat.ltb_spec 0 (length reqs)); [|destruct reqs; [done|simpl in *; lia]].
  apply go_bind_ret in H as ([[back1 reqs1] r] & Hf & H). pose proof (Forward_ordered _ _ _ _ _ _ _ _ Hf) as [Hids _].
  destruct r as [res|err].
  { exists [], (back :: backends), reqs, ms. split; [done|]. split; [constructor|]. simplify_eq. eauto 10. }
  destruct (is_terminal err) eqn:Ht.
  { exists [], (back :: backends), reqs, ms. split; [done|]. split; [constructor|]. simplify_eq. eauto 10. }
  apply IH in H as (pre & post & reqs2 & ms2 & -> & Hall & Hpost).
  - exists (back :: pre), post, reqs2, ms2. split; [done|]. split; [|done]. by econstructor.
  - intros ->. by destruct reqs.
Qed.

End Forwarding.

(** ** Witnesses *)

#[local] Existing Instance default_messages.

Definition demo_batch : list RPCReq :=
  [demo_request "1" "eth_blockNumber" (JArr []); demo_request "2" "eth_chainId" (JArr [])].

Lemma overridden_responses_placed_witness :
  exists reqs ovs out, OverwriteConsensusResponses demo_rctx 0 demo_batch = Ret (reqs, ovs) /\
    OverrideResponses [demo_response "2" (JStr "0x38")] ovs = Ret out /\ map res_ID out = ["1"; "2"].
Proof.
  destruct (OverwriteConsensusResponses demo_rctx 0 demo_batch) as [[reqs ovs]|] eqn:E; [|vm_compute in E; discriminate E].
  destruct (overridden_responses_placed demo_rctx demo_batch reqs ovs [demo_response "2" (JStr "0x38")]) as (out & Ho & Hids & _).
  - exact E.
  - vm_compute in E. injection E as <- _. reflexivity.
  - exists reqs, ovs, out. auto.
Defined.

Definition demo_fail : BackendGroupRPCResponse := mkResp [] "" (Some (ESentinel ErrNoBackends)).
Definition demo_success : BackendGroupRPCResponse := mkResp [demo_response "1" (JStr "0x1")] "g/b" None.

Lemma multicall_first_accepted_witness :
  exists resp, ProcessMulticallResponses true None [demo_fail; demo_success; demo_fail] = Ret resp /\
    accepted true resp = true.
Proof.
  destruct (multicall_first_accepted true [demo_fail; demo_success; demo_fail]) as (resp & H & Hr).
  - intros resp Hin. rewrite !elem_of_cons, elem_of_nil in Hin. destruct Hin as [->|[->|[->|[]]]]; discriminate.
  - discriminate.
  - exists resp. split; [exact H|]. destruct Hr as [(before & after & _ & Ha & _)|[Hf _]]; [exact Ha|].
    apply Forall_cons in Hf as [_ Hf]. apply Forall_cons in Hf as [Hf _]. vm_compute in Hf. discriminate Hf.
Defined.

Definition id_shuffles : shuffles (W := demo_window) := mkShuffles id id id.

Definition demo_group : BackendGroup (W := demo_window) :=
  mkGroup "main" (mkMembers [NewBackend "a" "" "" []; NewBackend "b" "" "" []] {[ "a" := false; "b" := false ]})
    false
    (Some (mkPoller ∅ ["a"; "b"] (mkState 100 90 80) [] [] 3 (5 * Minute) (30 * Second) 8 0 Second))
    ConsensusAwareRoutingStrategy false.

Definition demo_group_net (name : string) (i : nat) : attempt :=
  if name ==s "a" then failed_attempt Hour
  else demo_attempt (Hour + Second) 200 [demo_response "2" (JStr "0x38")].

Lemma group_responses_aligned_witness :
  exists ms' left resp, group_Forward Hour id_shuffles demo_group demo_ctx demo_batch true demo_group_net id = Ret (ms', left, resp) /\
    map res_ID (RPCRes_ resp) = ["1"; "2"].
Proof.
  destruct (group_Forward Hour id_shuffles demo_group demo_ctx demo_batch true demo_group_net id) as [[[ms' left] resp]|] eqn:E;
    [|vm_compute in E; discriminate E].
  assert (Hr : resp_error resp = None /\ map res_ID (RPCRes_ resp) ≡ₚ map req_ID demo_batch).
  { vm_compute in E. injection E as _ _ <-. split; reflexivity. }
  destruct Hr as [He Hp].
  destruct (group_responses_aligned Hour id_shuffles demo_group demo_ctx demo_batch true demo_group_net id ms' left resp)
    as (_ & H & _); [discriminate|discriminate|exact E|exact He|].
  exists ms', left, resp. split; [reflexivity|]. exact (H Hp).
Defined.

Lemma ordered_backends_witness :
  exists first rest, orderedBackendsForRequest Hour id_shuffles demo_group = first ++ rest /\
    forall b, b ∈ first -> IsDegraded Hour b = false.
Proof.
  destruct (ordered_backends Hour id_shuffles demo_group) as (first & rest & H & _ & Hf & _); [by split|].
  exists first, rest. split; [exact H|exact Hf].
Defined.

Lemma failover_witness :
  exists ms' reqs' resp pre,
    ForwardRequestToBackendGroup "main" demo_ctx [demo_request "2" "eth_chainId" (JArr [])]
      (Backends (bg_members demo_group)) false demo_group_net (bg_members demo_group) = Ret (ms', reqs', resp) /\
    exists reqs1 ms1, all_failed "main" demo_ctx false demo_group_net pre [demo_request "2" "eth_chainId" (JArr [])]
      (bg_members demo_group) reqs1 ms1.
Proof.
  destruct (ForwardRequestToBackendGroup "main" demo_ctx [demo_request "2" "eth_chainId" (JArr [])]
    (Backends (bg_members demo_group)) false demo_group_net (bg_members demo_group)) as [[[ms' reqs'] resp]|] eqn:E;
    [|vm_compute in E; discriminate E].
  destruct (failover "main" demo_ctx false demo_group_net (Backends (bg_members demo_group))
    [demo_request "2" "eth_chainId" (JArr [])] (bg_members demo_group) ms' reqs' resp) as (pre & post & reqs1 & ms1 & _ & H & _);
    [discriminate|exact E|].
  exists ms', reqs', resp, pre. split; [reflexivity|]. exists reqs1, ms1. exact H.
Defined.

(** With no backend in consensus, even a request that the proxy answers itself fails: a batch of
    [eth_blockNumber] alone is refused with "no backends". *)
Theorem overridden_request_needs_backend :
  let bg := mkGroup (W := demo_window) "main" (bg_members demo_group) false
    (Some (mkPoller ∅ [] (mkState 100 90 80) [] [] 3 (5 * Minute) (30 * Second) 8 0 Second)) ConsensusAwareRoutingStrategy false in
  match group_Forward Hour id_shuffles bg demo_ctx [demo_request "1" "eth_blockNumber" (JArr [])] false demo_group_net id with
  | Ret (_, _, resp) => resp_error resp = Some (ESentinel ErrNoBackends)
  | Panic _ => False
  end.
Proof. reflexivity. Qed.
