(* ===== verification/GroupSafe.v ===== *)
(** * What the backends of a consensus-aware group get to see

    The network of a group is a function from the requests that are sent to what comes
    back. Two networks that behave alike on some requests and differ on all the others
    cannot be told apart by code that only sends those requests. The theorem of this
    file is of that form: a consensus-aware group only contacts members of its
    consensus group, and only with requests that went through the rewriter. *)

From stdpp Require Import base list strings gmap.
From Stdlib Require Import ZArith Lia Ascii.
From Stdlib Require Strings.String.
From S2P Require Import Prelude SlidingWindow SlidingWindowRefinement Json JsonRoundtrip Geth Rpc Rewriter Reader Backend Tracker Poller PollerCorrect Group.

Local Open Scope Z_scope.

Section Alike.
Context {EM : ErrorMessages} {G : Geth} {W : Type} {WO : WindowOps W} {T : Type} {TO : ConsensusTracker T}.
Notation Backend := (Backend (W := W)).
Notation members := (members (W := W)).

(** ** Requests that may be sent *)

(** A request that the rewriter let through, and what the translation of
    [consensus_getReceipts] makes of it, possibly in several attempts. *)
Inductive sendable (rctx : RewriteContext) : RPCReq -> Prop :=
| sendable_rewritten req0 res0 rw req res :
    RewriteTags rctx req0 res0 = Ret (rw, None, req, res) -> sendable rctx req
| sendable_translated target req req' ids err :
    sendable rctx req -> translate target [req] = Ret ([req'], ids, err) -> sendable rctx req'.

Definition sendable_body (rctx : RewriteContext) (r : http_request) : Prop :=
  exists reqs, Forall (sendable rctx) reqs /\ request_body reqs = Ret (hr_body r).

Lemma sendable_translate rctx target reqs : forall reqs' ids err,
  Forall (sendable rctx) reqs -> translate target reqs = Ret (reqs', ids, err) -> Forall (sendable rctx) reqs'.
Proof.
  induction reqs as [|req reqs IH]; intros reqs' ids err Hall H; [cbn in H; by simplify_eq|].
  apply Forall_cons in Hall as [Hreq Hall]. pose proof (sendable_translated rctx target req) as Hone.
  cbn [translate] in H, Hone. destruct (_ ==s ConsensusGetReceiptsMethod).
  - destruct (_ ≫= _) as [ps|]; cycle 1.
    { simplify_eq. constructor; [|done]. by eapply Hone. }
    apply go_bind_ret in H as (p & Hp & H). rewrite Hp in Hone. go_simpl in Hone. destruct p as [params|err0]; cycle 1.
    { simplify_eq. constructor; [|done]. by eapply Hone. }
    apply go_bind_ret in H as ([[reqs2 ids2] err2] & Ht & H). simplify_eq. constructor; [|by eapply IH]. by eapply Hone.
  - apply go_bind_ret in H as ([[reqs2 ids2] err2] & Ht & H). simplify_eq. constructor; [done|by eapply IH].
Qed.

(** ** Networks that agree *)

Record alike (P : http_request -> Prop) (a1 a2 : attempt) : Prop := {
  alike_start : at_start a1 = at_start a2;
  alike_end : at_end a1 = at_end a2;
  alike_newRequest : at_newRequest a1 = at_newRequest a2;
  alike_acquire : at_acquire a1 = at_acquire a2;
  alike_reply r : P r -> at_reply a1 r = at_reply a2 r;
}.

Lemma handle_body_alike P a1 a2 b reqs ids target status body :
  alike P a1 a2 -> handle_body b a1 reqs ids target status body = handle_body (W := W) b a2 reqs ids target status body.
Proof. intros [Hs He _ _ _]. unfold handle_body. by rewrite ?Hs, ?He. Qed.

Lemma doForward_alike rctx (b : Backend) ctx reqs isBatch a1 a2 :
  Forall (sendable rctx) reqs -> alike (sendable_body rctx) a1 a2 ->
  doForward b ctx reqs isBatch a1 = doForward b ctx reqs isBatch a2.
Proof.
  intros Hall Ha. pose proof Ha as [Hs He Hn Hq Hr]. unfold doForward. rewrite Hs, He, Hn.
  destruct (isBatch && _); [done|].
  destruct (if isBatch then _ else _) as [[[reqs1 ids] [err|]]|] eqn:Ht; go_simpl; [done| |done].
  assert (Hall1 : Forall (sendable rctx) reqs1).
  { destruct isBatch; [by simplify_eq|]. by eapply sendable_translate. }
  destruct (request_body reqs1) as [body|] eqn:Hb; go_simpl; [|done]. destruct (at_newRequest a2); [done|].
  unfold DoWithSemaphore. rewrite Hq. destruct (at_acquire a2); [done|].
  rewrite (Hr (mkHttpReq _ _ body)) by by exists reqs1.
  destruct (at_reply _ _) as [|status stream]; [done|]. destruct (go_index reqs1 0); go_simpl; [|done].
  destruct (_ && _); [done|]. destruct (read_body b stream) as [resB [err|]]; [done|].
  by rewrite (handle_body_alike _ _ _ _ _ _ _ _ _ Ha).
Qed.

(** A request that was sent once may be sent again as it was left. *)
Lemma doForward_sendable rctx (b b' : Backend) ctx reqs reqs' isBatch a r :
  Forall (sendable rctx) reqs -> doForward b ctx reqs isBatch a = Ret (b', reqs', r) -> Forall (sendable rctx) reqs'.
Proof.
  intros Hall H. unfold doForward in H. destruct (isBatch && _); [by simplify_eq|].
  apply go_bind_ret in H as ([[reqs1 ids] err] & Ht & H).
  assert (Hall1 : Forall (sendable rctx) reqs1).
  { destruct isBatch; [by simplify_eq|]. by eapply sendable_translate. }
  destruct err; [by simplify_eq|]. apply go_bind_ret in H as (body & _ & H). destruct (at_newRequest a); [by simplify_eq|].
  destruct (DoWithSemaphore _ _); [by simplify_eq|]. apply go_bind_ret in H as (x & _ & H).
  destruct (_ && _); [by simplify_eq|]. destruct (read_body _ _) as [resB [err|]]; [destruct (is_base _ _); by simplify_eq|].
  apply go_bind_ret in H as ([b1 r1] & _ & H). by simplify_eq.
Qed.

Lemma forward_loop_alike rctx ctx isBatch net1 net2 :
  (forall i, alike (sendable_body rctx) (net1 i) (net2 i)) -> forall n (b : Backend) reqs i lastError,
  Forall (sendable rctx) reqs ->
  forward_loop n b ctx reqs isBatch net1 i lastError = forward_loop n b ctx reqs isBatch net2 i lastError /\
  forall b' reqs' r, forward_loop n b ctx reqs isBatch net2 i lastError = Ret (b', reqs', r) -> Forall (sendable rctx) reqs'.
Proof.
  intros Ha. induction n as [|n IH]; intros b reqs i lastError Hall; cbn [forward_loop].
  { split; [done|]. intros ??? H. by simplify_eq. }
  destruct (go_index reqs 0); go_simpl; [|done].
  rewrite (doForward_alike rctx b ctx reqs isBatch (net1 i) (net2 i)) by done.
  destruct (doForward b ctx reqs isBatch (net2 i)) as [[[b1 reqs1] [rs|err]]|] eqn:Hf; go_simpl; [| |done];
    pose proof (doForward_sendable rctx _ _ _ _ _ _ _ _ Hall Hf) as Hall1.
  { split; [done|]. intros ??? H. by simplify_eq. }
  destruct (not_retried err); [|by apply IH]. split; [done|]. intros ??? H. by simplify_eq.
Qed.

Lemma failover_alike rctx name ctx isBatch net1 net2 backends : forall reqs (ms : members),
  (forall b i, b ∈ backends -> alike (sendable_body rctx) (net1 (Name b) i) (net2 (Name b) i)) ->
  Forall (sendable rctx) reqs ->
  ForwardRequestToBackendGroup name ctx reqs backends isBatch net1 ms
  = ForwardRequestToBackendGroup name ctx reqs backends isBatch net2 ms.
Proof.
  induction backends as [|b backends IH]; intros reqs ms Ha Hall; [done|]. cbn [ForwardRequestToBackendGroup].
  destruct (0 <? length reqs)%nat; [|done]. unfold Forward.
  destruct (forward_loop_alike rctx ctx isBatch (net1 (Name b)) (net2 (Name b)) (fun i => Ha b i (list_elem_of_here _ _))
    (Z.to_nat (maxRetries b + 1)) b reqs 0 None Hall) as [-> Hleft].
  destruct (forward_loop _ _ _ _ _ _ _ _) as [[[b1 reqs1] [res|err]]|]; go_simpl; [done| |done].
  destruct (is_terminal err); [done|]. apply IH; [|by eapply Hleft].
  intros b' i Hb'. apply Ha. by apply list_elem_of_further.
Qed.

(** ** The group *)

Lemma RewriteTags_pass rctx req res rw err req' res' :
  RewriteTags rctx req res = Ret (rw, err, req', res') -> rw = RewriteNone \/ rw = RewriteOverrideRequest -> err = None.
Proof.
  unfold RewriteTags, RewriteResponse, RewriteRequest, rewriteParam, rewriteRange. intros H Hrw.
  repeat (case_match || (apply go_bind_ret in H as (? & _ & H))); simplify_eq; naive_solver.
Qed.

Lemma Overwrite_sendable rctx rpcReqs : forall i reqs ovs,
  OverwriteConsensusResponses rctx i rpcReqs = Ret (reqs, ovs) -> Forall (sendable rctx) reqs.
Proof.
  induction rpcReqs as [|req rpcReqs IH]; intros i reqs ovs H; cbn [OverwriteConsensusResponses] in H; [by simplify_eq|].
  apply go_bind_ret in H as ([[[rw err] req1] res1] & Hr & H). apply go_bind_ret in H as ([reqs1 ovs1] & Ho & H).
  pose proof (RewriteTags_pass _ _ _ _ _ _ _ Hr) as Herr. apply IH in Ho.
  destruct rw; simplify_eq; try done; (constructor; [|done]); rewrite Herr in Hr by auto; by eapply sendable_rewritten.
Qed.

Lemma consensus_ordered now sh (bg : BackendGroup (W := W) (T := T)) cp b :
  shuffles_ok sh -> Consensus bg = Some cp -> b ∈ orderedBackendsForRequest now sh bg -> Name b ∈ consensusGroup cp.
Proof.
  intros [Hh Hd Hw] Hcp Hb. assert (Hin : b ∈ GetConsensusGroup (bg_members bg) cp).
  { revert Hb. unfold orderedBackendsForRequest, loadBalancedConsensusGroup. rewrite Hcp, elem_of_app, Hd.
    destruct (WeightedRouting bg); rewrite ?Hw, Hh, !elem_of_filter_bool; naive_solver. }
  apply elem_of_filter_bool in Hin as [_ Hn]. apply existsb_exists in Hn as (n & Hn & E). bsimp. subst.
  by apply list_elem_of_In.
Qed.

(** C2. A consensus-aware group is isolated from everything but its consensus group: through failover and
    retries it only contacts members of the consensus group, and only with bodies that encode requests
    which the rewriter let through for the tracked blocks (or their translations). So whatever the other
    backends would answer, and whatever the members would answer to any other body, the outcome is the same. *)
Theorem consensus_group_isolated now sh (bg : BackendGroup (W := W) (T := T)) cp ctx rpcReqs isBatch net1 net2 arrival :
  Consensus bg = Some cp -> routingStrategy bg <> MulticallRoutingStrategy -> shuffles_ok sh ->
  (forall name i, name ∈ consensusGroup cp -> alike (sendable_body (rewrite_context cp)) (net1 name i) (net2 name i)) ->
  group_Forward now sh bg ctx rpcReqs isBatch net1 arrival = group_Forward now sh bg ctx rpcReqs isBatch net2 arrival.
Proof.
  intros Hcp Hmc Hsh Ha. unfold group_Forward. destruct rpcReqs as [|req rpcReqs]; [done|]. rewrite Hcp.
  destruct (OverwriteConsensusResponses _ _ _) as [[reqs ovs]|] eqn:Ho; go_simpl; [|done].
  destruct (streq_spec (routingStrategy bg) MulticallRoutingStrategy) as [|_]; [done|]. cbn [andb].
  rewrite (failover_alike (rewrite_context cp) _ _ _ net1 net2); [done| |by eapply Overwrite_sendable].
  intros b i Hb. by eapply Ha, consensus_ordered.
Qed.

End Alike.

(** ** A concrete group *)

#[local] Existing Instance default_messages.

(** The same group with only [b] in its consensus group, and a network on which the others misbehave. *)
Definition demo_pair : BackendGroup (W := demo_window) :=
  mkGroup "main" (bg_members demo_group) false
    (Some (mkPoller ∅ ["b"] (mkState 100 90 80) [] [] 3 (5 * Minute) (30 * Second) 8 0 Second))
    ConsensusAwareRoutingStrategy false.

Definition demo_hostile_net (name : string) (i : nat) : attempt :=
  if name ==s "b" then demo_group_net name i else demo_attempt Hour 200 [demo_response "2" (JStr "0xbad")].

Lemma consensus_group_isolated_witness :
  group_Forward Hour id_shuffles demo_pair demo_ctx demo_batch true demo_group_net id
  = group_Forward Hour id_shuffles demo_pair demo_ctx demo_batch true demo_hostile_net id.
Proof.
  eapply (consensus_group_isolated Hour id_shuffles demo_pair); [reflexivity|discriminate|by split|].
  intros name i [->|[]%elem_of_nil]%elem_of_cons. split; reflexivity.
Defined.
