(* ===== verification/GroupReturns.v ===== *)
(** * Groups that do not panic

    A node can make a backend panic: with a [null] in a batch of responses, or with HTTP
    status 400 and a response without an error. This file shows that nothing else does, for
    requests that are sent as they are: if no node behaves so, a backend, and a group of
    backends without a poller, returns on every batch of distinct IDs. *)

From stdpp Require Import base list strings gmap.
From Stdlib Require Import ZArith Lia Ascii.
From S2P Require Import Prelude SlidingWindow SlidingWindowRefinement Json JsonRoundtrip Geth Rpc Rewriter Reader Backend Tracker Poller Group.

Local Open Scope Z_scope.

(** ** Responses *)

(** A result as it is decoded. *)
Definition decoded_result (r : RPCRes) : Prop :=
  match res_Result r with None | Some (RJson _) => True | _ => False end.

Lemma UnmarshalRPCRes_decoded data r : UnmarshalRPCRes data = Some r -> decoded_result r.
Proof.
  unfold UnmarshalRPCRes, fold_fields. destruct (UnmarshalRawObject data) as [fs|]; [|done]. cbn.
  assert (H : forall r0, decoded_result r0 ->
    foldl (fun acc x => a ← acc; decode_res_field a x) (Some r0) fs = Some r -> decoded_result r); [|by apply H].
  induction fs as [|[[key v] raw] fs IH]; intros r0 H0 H; cbn [foldl] in H; [by simplify_eq|].
  destruct (decode_res_field r0 (key, v, raw)) as [r1|] eqn:E; cbv [mbind option_bind] in H; rewrite ?E in H.
  - apply (IH r1); [|exact H]. unfold decode_res_field in E.
    destruct (field_is "JSONRPC" key); [by destruct (decode_string _ v); simplify_eq/=|].
    destruct (field_is "Result" key); [destruct (iface v) as [[]|]; by simplify_eq/=|].
    destruct (field_is "Error" key); [by destruct (decode_err _ v); simplify_eq/=|].
    destruct (field_is "ID" key); by simplify_eq/=.
  - exfalso. clear -H. induction fs as [|x fs IH]; [done|]. by apply IH.
Qed.

Lemma decode_responses_decoded single data rs :
  decode_responses single data = inl rs -> Forall (fun r => forall x, r = Some x -> decoded_result x) rs.
Proof.
  unfold decode_responses. destruct single.
  - destruct (UnmarshalRPCRes data) as [r|] eqn:E; [|done]. intros [= <-]. repeat constructor. intros x [= <-].
    by eapply UnmarshalRPCRes_decoded.
  - destruct (UnmarshalRPCResBatch data) as [l|] eqn:E; [|by destruct (responseIsNotBatched data)]. intros [= <-].
    unfold UnmarshalRPCResBatch in E. apply bind_Some in E as (raws & _ & E). apply mapM_Some in E.
    induction E as [|raw r raws l Hr _ IH]; constructor; [|exact IH]. intros x ->.
    assert (Hx : (r ← UnmarshalRPCRes raw; Some (Some r)) = Some (Some x) -> decoded_result x).
    { intros H. apply bind_Some in H as (y & Hy & [= <-]). by eapply UnmarshalRPCRes_decoded. }
    destruct (parse_json raw) as [[]|]; by try apply Hx.
Qed.

(** A reply that a backend can handle: in the bodies that it decodes, those of status 200 and 400, no response
    is null, and with status 400 each has an error. *)
Definition sane_response (status : Z) (r : option RPCRes) : Prop :=
  exists x, r = Some x /\ (status <> 200 -> res_Error x <> None).

Definition sane (a : attempt) : Prop :=
  forall q status stream max single data rs,
    DoWithSemaphore a q = Response status stream -> status = 200 \/ status = 400 ->
    ReadAll (fun _ => 511%nat) (LimitReader stream max) = Some (data, None) ->
    decode_responses single (str data) = inl rs -> Forall (sane_response status) rs.

Lemma capture_status_returns status rs :
  Forall (sane_response status) rs -> Forall (fun r => forall x, r = Some x -> decoded_result x) rs ->
  exists rs', capture_status status rs = Ret (map Some rs') /\ Forall decoded_result rs'.
Proof.
  intros Hs Hd. assert (exists xs, rs = map Some xs /\ Forall (fun x => status <> 200 -> res_Error x <> None) xs /\
    Forall decoded_result xs) as (xs & E & Hx & Hdx).
  { clear -Hs Hd. induction Hs as [|r rs (x & -> & Hx) _ IH]; [by exists []|]. apply Forall_cons in Hd as [Hd1 Hd].
    destruct (IH Hd) as (xs & -> & H1 & H2). exists (x :: xs). split; [done|]. split; constructor; auto. }
  rewrite E. clear Hs Hd E. unfold capture_status. destruct (Z.eqb_spec status 200) as [_|Hne]; [by exists xs|].
  match goal with |- context [go_fold ?f [] _] => set (step := f) end.
  assert (H : forall acc, Forall decoded_result acc -> exists rs',
    go_fold step (map Some acc) (map Some xs) = Ret (map Some rs') /\ Forall decoded_result rs'); [|by apply (H [])].
  induction xs as [|x xs IH]; intros acc Hacc; [by exists acc|].
  apply Forall_cons in Hx as [Hx0 Hx]. apply Forall_cons in Hdx as [Hd0 Hdx].
  destruct x as [v res [e|] id]; [|by destruct (Hx0 Hne)].
  destruct (IH Hx Hdx
    (acc ++ [mkRes v res (Some (mkRPCErr (Code e) (Message e) (Data e) status)) id])) as (rs' & H & Hrs').
  { apply Forall_app. split; [done|]. by repeat constructor. }
  exists rs'. split; [|done]. cbn [map go_fold]. rewrite map_app in H. exact H.
Qed.

Section Returns.
Context {EM : ErrorMessages} {G : Geth} {W : Type} {WO : WindowOps W} {T : Type} {TO : ConsensusTracker T}.
Notation Backend := (Backend (W := W)).
Notation members := (members (W := W)).

(** A request that is sent as it is, and that can be encoded. *)
Definition plain_request (req : RPCReq) : Prop :=
  req_Method req <> ConsensusGetReceiptsMethod /\ is_Some (req_json req).

(** What a forward returns is decoded. *)
Definition decoded (r : list RPCRes + error) : Prop := match r with inl rs => Forall decoded_result rs | inr _ => True end.

Lemma handle_body_returns (b : Backend) a reqs target status data :
  NoDup (map req_ID reqs) ->
  (forall rs, decode_responses (Nat.eqb (length reqs) 1) data = inl rs -> Forall (sane_response status) rs) ->
  exists b' r, handle_body b a reqs [] target status data = Ret (b', r) /\ decoded r.
Proof.
  intros Hnd Hs. unfold handle_body. destruct (decode_responses _ data) as [rs|[err counted]] eqn:E; [|by eexists _, _].
  destruct (negb _); [by eexists _, _|].
  destruct (capture_status_returns status rs (Hs _ eq_refl) (decode_responses_decoded _ _ _ E)) as (rs' & -> & Hd). go_simpl.
  rewrite enrich_none. go_simpl. unfold sortBatchRPCResponse.
  destruct (positions_returns reqs 0 [] Hnd) as [pos ->]. go_simpl. eexists _, _. split; [done|]. cbn. by rewrite sort_by_perm.
Qed.

Lemma doForward_returns (b : Backend) ctx reqs isBatch a :
  reqs <> [] -> Forall plain_request reqs -> NoDup (map req_ID reqs) -> sane a ->
  exists b' r, doForward b ctx reqs isBatch a = Ret (b', reqs, r) /\ decoded r.
Proof.
  intros Hne Hp Hnd Hs. unfold doForward.
  assert (Hm : Forall (fun r => req_Method r <> ConsensusGetReceiptsMethod) reqs)
    by (eapply Forall_impl; [exact Hp|]; by intros r []).
  destruct (_ && _); [by eexists _, _|].
  assert ((if isBatch then Ret (reqs, [], None) else translate (receiptsTarget b) reqs) = Ret (reqs, [], None)) as ->.
  { destruct isBatch; [done|]. by apply translate_plain. }
  go_simpl. assert (exists body, request_body reqs = Ret body) as [body ->].
  { unfold request_body. assert (exists js, mapM req_json reqs = Some js) as [js ->]; [|destruct js as [|? []]; eauto].
    apply mapM_is_Some_2. eapply Forall_impl; [exact Hp|]. by intros r []. }
  go_simpl. destruct (at_newRequest a); [by eexists _, _|].
  destruct (DoWithSemaphore a _) as [err|status stream] eqn:Hr; [by eexists _, _|].
  destruct reqs as [|req reqs0]; [done|]. change (go_index (req :: reqs0) 0) with (Ret req). go_simpl.
  destruct (_ && _) eqn:Hst; [by eexists _, _|].
  assert (status = 200 \/ status = 400) by (destruct (Z.eqb_spec status 200), (Z.eqb_spec status 400); auto; done).
  unfold read_body. destruct (ReadAll _ _) as [[data [err|]]|] eqn:Hread; cbn [default from_option id].
  - destruct (is_base ErrLimitReaderOverLimit err); by eexists _, _.
  - destruct (handle_body_returns (incr_requests (at_start a) b) a (req :: reqs0) (receiptsTarget b) status (str data) Hnd)
      as (b' & r & -> & Hd); [intros rs Hrs; by eapply Hs|]. go_simpl. by eexists _, _.
  - exfalso. rewrite ReadAll_limited in Hread. done.
Qed.

Lemma Forward_returns (b : Backend) ctx reqs isBatch net :
  reqs <> [] -> Forall plain_request reqs -> NoDup (map req_ID reqs) -> (forall i, sane (net i)) ->
  exists b' r, Forward b ctx reqs isBatch net = Ret (b', reqs, r) /\ decoded r.
Proof.
  intros Hne Hp Hnd Hs. unfold Forward. generalize (@None error) as last, 0%nat as i. generalize (Z.to_nat (maxRetries b + 1)) as n.
  intros n. revert b. induction n as [|n IH]; intros b last i; cbn [forward_loop]; [by eexists _, _|].
  destruct reqs as [|req reqs0] eqn:E; [done|]. change (go_index (req :: reqs0) 0) with (Ret req). go_simpl. rewrite <- E in *.
  destruct (doForward_returns b ctx reqs isBatch (net i) ltac:(by rewrite E) Hp Hnd (Hs i)) as (b1 & r & -> & Hd). go_simpl.
  destruct r as [rs|err]; [by eexists _, _|]. destruct (not_retried err); [by eexists _, _|]. apply IH.
Qed.

Lemma failover_returns name ctx reqs isBatch net backends :
  reqs <> [] -> Forall plain_request reqs -> NoDup (map req_ID reqs) -> (forall n i, sane (net n i)) ->
  forall ms : members, exists ms' resp, ForwardRequestToBackendGroup name ctx reqs backends isBatch net ms = Ret (ms', reqs, resp) /\
    Forall decoded_result (RPCRes_ resp).
Proof.
  intros Hne Hp Hnd Hs. induction backends as [|b backends IH]; intros ms; cbn [ForwardRequestToBackendGroup].
  { eexists _, _. split; [done|]. constructor. }
  destruct (0 <? length reqs)%nat; [|eexists _, _; split; [done|constructor]].
  destruct (Forward_returns b ctx reqs isBatch (net (Name b)) Hne Hp Hnd (Hs _)) as (b1 & r & -> & Hd). go_simpl.
  destruct r as [rs|err]; [by eexists _, _|]. destruct (is_terminal err); [eexists _, _; split; [done|constructor]|]. apply IH.
Qed.

(** A group without a poller that does not multicall returns on plain requests. *)
Lemma group_Forward_returns now sh (bg : BackendGroup (W := W) (T := T)) ctx reqs isBatch net arrival :
  Consensus bg = None -> routingStrategy bg <> MulticallRoutingStrategy ->
  reqs <> [] -> Forall plain_request reqs -> NoDup (map req_ID reqs) -> (forall n i, sane (net n i)) ->
  exists ms' left resp, group_Forward now sh bg ctx reqs isBatch net arrival = Ret (ms', left, resp) /\
    Forall decoded_result (RPCRes_ resp).
Proof.
  intros Hc Hr Hne Hp Hnd Hs. unfold group_Forward. destruct reqs as [|req reqs0] eqn:E; [done|]. rewrite <- E in *.
  rewrite Hc. go_simpl. rewrite (streq_ne _ _ Hr). cbn [andb].
  destruct (failover_returns (bg_Name bg) ctx reqs isBatch net (orderedBackendsForRequest now sh bg) ltac:(by rewrite E) Hp Hnd Hs (bg_members bg))
    as (ms' & resp & -> & Hd). go_simpl.
  destruct (resp_error resp); [by eexists _, _, _|]. cbn. by eexists _, _, _.
Qed.

End Returns.
