(* ===== verification/RateLimiter.v ===== *)
(** * Rate limiters: [frontend_rate_limiter.go]

    A limiter admits a number of requests per key and per time interval. The
    memory limiter is verified against its specification: a call is admitted
    exactly when fewer than the maximum were made before it with the same key in
    the same interval. The Redis limiter is equivalent to it while Redis answers and
    calls keep coming. Redis is a parameter with its laws. *)

From stdpp Require Import base list strings gmap sorting.
From Stdlib Require Import ZArith Lia Ascii.
From Stdlib Require Strings.String.
From S2P Require Import Prelude Json JsonRoundtrip Rpc.

Local Open Scope Z_scope.

(** Seconds from the zero [time.Time] to the Unix epoch, and [t.Unix()]. *)
Definition unix_epoch : Z := 62135596800.
Definition Unix (t : Time) : Z := t / Second - unix_epoch.

Definition truncateNow (now : Time) (dur : Duration) : Z := Unix (Truncate now dur).

(** ** In memory *)

Record limitedKeys := mkKeys {
  truncTS : Z;
  keys : gmap string Z;
}.

Definition newLimitedKeys (t : Z) : limitedKeys := mkKeys t ∅.

Definition keys_Take (key : string) (max : Z) (l : limitedKeys) : limitedKeys * bool :=
  let val := default 0 (keys l !! key) in
  (mkKeys (truncTS l) (<[key := val + 1]> (keys l)), val <? max).

Record MemoryFrontendRateLimiter := mkMemory {
  currGeneration : option limitedKeys;
  mem_dur : Duration;
  mem_max : Z;
}.

Definition NewMemoryFrontendRateLimit (dur : Duration) (max : Z) : MemoryFrontendRateLimiter :=
  mkMemory None dur max.

Definition memory_Take (now : Time) (key : string) (m : MemoryFrontendRateLimiter)
  : MemoryFrontendRateLimiter * bool :=
  let ts := truncateNow now (mem_dur m) in
  let gen := match currGeneration m with
             | Some g => if truncTS g =? ts then g else newLimitedKeys ts
             | None => newLimitedKeys ts
             end in
  let '(gen1, ok) := keys_Take key (mem_max m) gen in
  (mkMemory (Some gen1) (mem_dur m) (mem_max m), ok).

(** ** Redis and combinations *)

(** A pipelined increment and expiry of a counter at a time: the counter's new value or an error. *)
Class RateRedis (R : Type) := {
  r_IncrExpire : Time -> string -> Duration -> R -> R * (Z + error);
}.

(** Redis keeps a value and an expiry per counter. A counter is there until it expires, and
    Redis measures time in milliseconds, so nothing is said about its last two; a missing
    counter counts from 0; other counters are not touched. *)
Class RateRedisLaws (R : Type) {RO : RateRedis R} := {
  r_entry : R -> string -> option (Z * Time);
  incr_result : forall now key ttl r r' n, r_IncrExpire now key ttl r = (r', inl n) ->
    Millisecond <= ttl -> r_entry r' key = Some (n, now + ttl);
  incr_missing : forall now key ttl r r' n, r_IncrExpire now key ttl r = (r', inl n) ->
    r_entry r key = None -> n = 1;
  incr_present : forall now key ttl r r' n v expiry, r_IncrExpire now key ttl r = (r', inl n) ->
    r_entry r key = Some (v, expiry) -> now + 2 * Millisecond <= expiry -> n = v + 1;
  incr_other : forall now key ttl r r' n key', r_IncrExpire now key ttl r = (r', inl n) ->
    key' <> key -> r_entry r' key' = r_entry r key';
}.

Record RedisFrontendRateLimiter := mkRedisLimiter {
  red_dur : Duration;
  red_max : Z;
  red_prefix : string;
}.

Definition NewRedisFrontendRateLimiter (dur : Duration) (max : Z) (prefix : string) : RedisFrontendRateLimiter :=
  mkRedisLimiter dur max prefix.

(** A decimal number as [%d] prints it. *)
Definition int_string (n : Z) : string := str ((if n <? 0 then [chr 45] else []) ++ dec (Z.abs n)).

Definition redis_key (r : RedisFrontendRateLimiter) (key : string) (ts : Z) : string :=
  ("rate_limit:" +:+ red_prefix r +:+ ":" +:+ key +:+ ":" +:+ int_string ts).

(** A [FrontendRateLimiter]; the one that never limits, and one with a fallback for errors. *)
Inductive Limiter :=
| LMemory (m : MemoryFrontendRateLimiter)
| LRedis (r : RedisFrontendRateLimiter)
| LNoop
| LFallback (primary secondary : Limiter).

Section Take.
Context {R : Type} {RO : RateRedis R}.

Definition redis_Take (now : Time) (key : string) (l : RedisFrontendRateLimiter) (r : R) : R * (bool + error) :=
  let ts := truncateNow now (red_dur l) in
  match r_IncrExpire now (redis_key l key ts) (red_dur l - Millisecond) r with
  | (r1, inr err) => (r1, inr err)
  | (r1, inl n) => (r1, inl (n - 1 <? red_max l))
  end.

Fixpoint Take (now : Time) (key : string) (l : Limiter) (r : R) : R * Limiter * (bool + error) :=
  match l with
  | LMemory m => let '(m1, ok) := memory_Take now key m in (r, LMemory m1, inl ok)
  | LRedis lr => let '(r1, res) := redis_Take now key lr r in (r1, l, res)
  | LNoop => (r, l, inl true)
  | LFallback p s =>
      match Take now key p r with
      | (r1, p1, inl ok) => (r1, LFallback p1 s, inl ok)
      | (r1, p1, inr _) =>
          let '(r2, s1, res) := Take now key s r1 in (r2, LFallback p1 s1, res)
      end
  end.

End Take.

(** ** Specification *)

(** The calls made so far, and a run of calls from a limiter. *)
Definition call : Type := Time * string.

Fixpoint run_memory (m : MemoryFrontendRateLimiter) (calls : list call) : MemoryFrontendRateLimiter * list bool :=
  match calls with
  | [] => (m, [])
  | (now, key) :: calls' =>
      let '(m1, ok) := memory_Take now key m in
      let '(m2, oks) := run_memory m1 calls' in
      (m2, ok :: oks)
  end.

(** How many calls of a log were made for a key in an interval. *)
Definition used (dur : Duration) (log : list call) (ts : Z) (key : string) : Z :=
  Z.of_nat (length (List.filter (fun c => (truncateNow c.1 dur =? ts) && (c.2 ==s key)) log)).

(** The specification of a run: what each call returns given the log before it. *)
Fixpoint spec_run (dur : Duration) (max : Z) (log : list call) (calls : list call) : list bool :=
  match calls with
  | [] => []
  | (now, key) :: calls' =>
      (used dur log (truncateNow now dur) key <? max) :: spec_run dur max (log ++ [(now, key)]) calls'
  end.

Lemma Truncate_mono t1 t2 d : t1 <= t2 -> Truncate t1 d <= Truncate t2 d.
Proof.
  intros Hle. unfold Truncate. destruct (Z.leb_spec d 0); [done|].
  pose proof (Z.div_mod t1 d ltac:(lia)). pose proof (Z.div_mod t2 d ltac:(lia)).
  pose proof (Z.div_le_mono t1 t2 d ltac:(lia) Hle). nia.
Qed.

Lemma truncateNow_mono t1 t2 d : t1 <= t2 -> truncateNow t1 d <= truncateNow t2 d.
Proof.
  intros Hle. unfold truncateNow, Unix. pose proof (Truncate_mono t1 t2 d Hle) as H.
  apply (Z.div_le_mono _ _ Second) in H; [lia|]. unfold Second, Millisecond. lia.
Qed.

Lemma used_snoc dur log c ts key :
  used dur (log ++ [c]) ts key = used dur log ts key + (if (truncateNow c.1 dur =? ts) && (c.2 ==s key) then 1 else 0).
Proof.
  unfold used. rewrite List.filter_app, length_app. cbn [List.filter]. destruct (_ && _) ; cbn [length]; rewrite Nat2Z.inj_add; reflexivity.
Qed.

(** The counters of the current interval, and nothing in the log after it. *)
Definition memory_inv (log : list call) (m : MemoryFrontendRateLimiter) : Prop :=
  match currGeneration m with
  | None => log = []
  | Some g =>
      (forall key, default 0 (keys g !! key) = used (mem_dur m) log (truncTS g) key) /\
      (forall c, c ∈ log -> truncateNow c.1 (mem_dur m) <= truncTS g) /\
      (exists c, c ∈ log /\ truncateNow c.1 (mem_dur m) = truncTS g)
  end.

Lemma used_none dur log ts key : (forall c, c ∈ log -> truncateNow c.1 dur < ts) -> used dur log ts key = 0.
Proof.
  intros H. unfold used. assert (E : List.filter (fun c => (truncateNow c.1 dur =? ts) && (c.2 ==s key)) log = []); [|by rewrite E].
  induction log as [|c log IH]; [done|]. cbn. pose proof (H c (list_elem_of_here _ _)).
  destruct (Z.eqb_spec (truncateNow c.1 dur) ts); [lia|]. cbn. apply IH. intros d Hd. apply H. by right.
Qed.

Lemma memory_Take_spec log m now key m' ok :
  memory_inv log m -> (forall c, c ∈ log -> c.1 <= now) -> memory_Take now key m = (m', ok) ->
  ok = (used (mem_dur m) log (truncateNow now (mem_dur m)) key <? mem_max m) /\
  memory_inv (log ++ [(now, key)]) m' /\ mem_dur m' = mem_dur m /\ mem_max m' = mem_max m.
Proof.
  intros Hinv Hle. unfold memory_Take. set (dur := mem_dur m). set (ts := truncateNow now dur).
  set (gen := match currGeneration m with Some g => _ | None => _ end).
  assert (Hgen : truncTS gen = ts /\ (forall k, default 0 (keys gen !! k) = used dur log ts k)).
  { assert (Hlog : forall c, c ∈ log -> truncateNow c.1 dur <= ts) by (intros c Hc; apply truncateNow_mono; auto).
    unfold memory_inv in Hinv. unfold gen. destruct (currGeneration m) as [g|].
    - destruct Hinv as (Hk & Hts & cl & Hcl & Ecl). fold dur in Hk, Hts, Ecl.
      destruct (Z.eqb_spec (truncTS g) ts) as [E|E]; [split; [done|]; by rewrite <- E|].
      split; [done|]. intros k. cbn [newLimitedKeys keys]. rewrite lookup_empty. cbn. symmetry. apply used_none.
      intros c Hc. specialize (Hts c Hc). specialize (Hlog cl Hcl). lia.
    - subst log. split; [done|]. intros k. cbn [newLimitedKeys keys]. by rewrite lookup_empty. }
  destruct Hgen as [Hts Hk]. unfold keys_Take. intros [= <- <-]. rewrite (Hk key). split; [done|].
  split; [|done]. unfold memory_inv. cbn [currGeneration mem_dur truncTS keys]. fold dur. rewrite Hts. split; [|split].
  - intros k. rewrite used_snoc. cbn [fst snd]. fold ts. rewrite Z.eqb_refl. cbn [andb].
    destruct (streq_spec key k) as [<-|Hne]; [by rewrite lookup_insert_eq|].
    rewrite lookup_insert_ne, Hk by done. lia.
  - intros c [Hc|Hc%list_elem_of_singleton]%elem_of_app; [|by subst c]. apply truncateNow_mono. auto.
  - exists (now, key). split; [apply elem_of_app; right; by apply list_elem_of_singleton|done].
Qed.

(** The times of the calls never go back. *)
Definition ordered (log calls : list call) : Prop := StronglySorted (fun a b : call => a.1 <= b.1) (log ++ calls).

Lemma run_memory_spec calls : forall log m,
  memory_inv log m -> ordered log calls ->
  (run_memory m calls).2 = spec_run (mem_dur m) (mem_max m) log calls.
Proof.
  induction calls as [|[now key] calls IH]; intros log m Hinv Hord; [done|]. cbn [run_memory spec_run].
  destruct (memory_Take now key m) as [m1 ok] eqn:Et.
  assert (Hle : forall c, c ∈ log -> c.1 <= now).
  { intros c Hc. apply (StronglySorted_app_1_elem_of _ _ _ c (now, key) Hord Hc). by left. }
  destruct (memory_Take_spec log m now key m1 ok Hinv Hle Et) as (-> & Hinv1 & Hdur & Hmax).
  specialize (IH (log ++ [(now, key)]) m1 Hinv1). rewrite Hdur, Hmax in IH.
  destruct (run_memory m1 calls) as [m2 oks]. cbn [snd] in *. f_equal. apply IH.
  unfold ordered in *. by rewrite <- app_assoc.
Qed.

(** The memory limiter is exact: over any sequence of calls whose times do not go back, a call is
    admitted exactly when fewer than the maximum of calls were made before it with
    the same key in the same truncated interval. *)
Theorem memory_limiter_exact dur max calls :
  ordered [] calls ->
  (run_memory (NewMemoryFrontendRateLimit dur max) calls).2 = spec_run dur max [] calls.
Proof. intros Hord. by apply (run_memory_spec calls [] (NewMemoryFrontendRateLimit dur max)). Qed.

Lemma memory_limiter_exact_witness :
  (run_memory (NewMemoryFrontendRateLimit Minute 1) [(Hour, "a"); (Hour + Second, "a"); (Hour + Minute, "a")]).2
  = [true; false; true].
Proof.
  etransitivity; [apply memory_limiter_exact|reflexivity].
  repeat constructor; vm_compute; discriminate.
Defined.

(** A limit of zero admits nothing: a memory limiter with a maximum of 0, which the example
    configuration offers as the way to let exempt traffic bypass the limits, refuses every call. *)
Theorem zero_limit_refuses dur max calls :
  max <= 0 -> ordered [] calls ->
  Forall (eq false) (run_memory (NewMemoryFrontendRateLimit dur max) calls).2.
Proof.
  intros Hmax Hord. rewrite (run_memory_spec calls [] (NewMemoryFrontendRateLimit dur max)) by done.
  cbn [mem_dur mem_max NewMemoryFrontendRateLimit]. clear Hord. generalize (@nil call) as log.
  induction calls as [|[now key] calls IH]; intros log; cbn [spec_run]; constructor; [|apply IH].
  symmetry. apply Z.ltb_ge. unfold used. lia.
Qed.

Lemma zero_limit_refuses_witness :
  Forall (eq false) (run_memory (NewMemoryFrontendRateLimit Second 0) [(Hour, "exempt"); (Hour, "exempt")]).2.
Proof. apply zero_limit_refuses; [lia|]. repeat constructor; vm_compute; discriminate. Defined.

(** ** The Redis limiter *)

Lemma int_string_chars n : exists c ds, chars (int_string n) = (if n <? 0 then [chr 45] else []) ++ c :: ds /\
  forallb is_digit (c :: ds) = true /\ digits_val 0 (c :: ds) = Z.abs n.
Proof.
  unfold int_string. rewrite chars_str. destruct (dec_spec (Z.abs n) ltac:(lia)) as (c & ds & -> & Hd & Hv & _). eauto.
Qed.

Lemma int_string_inj m n : int_string m = int_string n -> m = n.
Proof.
  intros H%(f_equal chars). destruct (int_string_chars m) as (c & ds & Em & Hd & Hv), (int_string_chars n) as (c' & ds' & En & Hd' & Hv').
  rewrite Em, En in H. assert (Hm : forall x xs, forallb is_digit (x :: xs) = true -> x <> chr 45).
  { intros x xs Hx ->. by destruct (andb_prop _ _ Hx). }
  specialize (Hm c ds Hd) as H1. specialize (Hm c' ds' Hd') as H2.
  destruct (Z.ltb_spec m 0), (Z.ltb_spec n 0); cbn [app] in H; injection H as; subst; try done; lia.
Qed.

(** A list up to the last colon, when there is none in the rest. *)
Lemma colon_split (a b x y : list ascii) c :
  c ∉ x -> c ∉ y -> a ++ c :: x = b ++ c :: y -> a = b /\ x = y.
Proof.
  intros Hx Hy. revert b. induction a as [|d a IH]; intros [|e b] H; cbn in H; injection H as; subst; auto.
  - exfalso. apply Hx. apply elem_of_app. right. by left.
  - exfalso. apply Hy. apply elem_of_app. right. by left.
  - destruct (IH b) as [-> ->]; done.
Qed.

Lemma int_string_no_colon n : chr 58 ∉ chars (int_string n).
Proof.
  destruct (int_string_chars n) as (c & ds & -> & Hd & _). rewrite elem_of_app. intros [H|H].
  - destruct (n <? 0); [apply list_elem_of_singleton in H; discriminate H|by apply elem_of_nil in H].
  - rewrite forallb_forall in Hd. by specialize (Hd _ (proj1 (list_elem_of_In _ _) H)).
Qed.

(** The name of a counter determines its key and interval. *)
Lemma redis_key_inj l k1 ts1 k2 ts2 : redis_key l k1 ts1 = redis_key l k2 ts2 -> k1 = k2 /\ ts1 = ts2.
Proof.
  unfold redis_key. intros H%(f_equal chars). rewrite !chars_app in H.
  do 3 apply app_inv_head in H. 
  apply colon_split in H as [H1 H2]; [|apply int_string_no_colon..].
  split; [by apply chars_inj|by apply int_string_inj, chars_inj].
Qed.

Section RedisRun.
Context {R : Type} {RO : RateRedis R} {RL : RateRedisLaws R}.

Fixpoint run_redis (l : RedisFrontendRateLimiter) (calls : list call) (r : R) : R * list (bool + error) :=
  match calls with
  | [] => (r, [])
  | (now, key) :: calls' =>
      let '(r1, res) := redis_Take now key l r in
      let '(r2, ress) := run_redis l calls' r1 in
      (r2, res :: ress)
  end.

(** The last call of a log for a key in an interval. *)
Definition last_use (dur : Duration) (log : list call) (ts : Z) (key : string) : option call :=
  last (List.filter (fun c => (truncateNow c.1 dur =? ts) && (c.2 ==s key)) log).

(** Between two calls with the same key in the same interval, the counter does not expire. *)
Fixpoint steady (dur : Duration) (log calls : list call) : Prop :=
  match calls with
  | [] => True
  | (now, key) :: calls' =>
      match last_use dur log (truncateNow now dur) key with
      | Some c => now + 3 * Millisecond <= c.1 + dur
      | None => True
      end /\ steady dur (log ++ [(now, key)]) calls'
  end.

Definition redis_inv (l : RedisFrontendRateLimiter) (log : list call) (r : R) : Prop :=
  forall key ts, r_entry r (redis_key l key ts) =
    match last_use (red_dur l) log ts key with
    | Some c => Some (used (red_dur l) log ts key, c.1 + (red_dur l - Millisecond))
    | None => None
    end.

Lemma last_use_snoc dur log c ts key :
  last_use dur (log ++ [c]) ts key =
  if (truncateNow c.1 dur =? ts) && (c.2 ==s key) then Some c else last_use dur log ts key.
Proof.
  unfold last_use. rewrite List.filter_app. cbn [List.filter]. destruct (_ && _); [by rewrite last_snoc|by rewrite app_nil_r].
Qed.

Lemma last_use_used dur log ts key : last_use dur log ts key = None -> used dur log ts key = 0.
Proof. unfold last_use, used. intros H%last_None. by rewrite H. Qed.

Lemma redis_Take_spec l log r now key r' ok :
  redis_inv l log r -> 2 * Millisecond <= red_dur l ->
  match last_use (red_dur l) log (truncateNow now (red_dur l)) key with
  | Some c => now + 3 * Millisecond <= c.1 + red_dur l
  | None => True
  end ->
  redis_Take now key l r = (r', inl ok) ->
  ok = (used (red_dur l) log (truncateNow now (red_dur l)) key <? red_max l) /\ redis_inv l (log ++ [(now, key)]) r'.
Proof.
  intros Hinv Hdur Hsteady. unfold redis_Take. set (dur := red_dur l) in *. set (ts := truncateNow now dur) in *.
  destruct (r_IncrExpire now (redis_key l key ts) (dur - Millisecond) r) as [r1 [n|err]] eqn:E; [|discriminate].
  intros [= <- <-].
  assert (Hn : n = used dur log ts key + 1).
  { pose proof (Hinv key ts) as He. fold dur in He. destruct (last_use dur log ts key) as [c|] eqn:Hl.
    - apply (incr_present _ _ _ _ _ _ _ _ E He). lia.
    - rewrite (last_use_used _ _ _ _ Hl). by apply (incr_missing _ _ _ _ _ _ E). }
  split; [by replace (n - 1) with (used dur log ts key) by lia|].
  intros k t. fold dur. rewrite last_use_snoc, used_snoc. cbn [fst snd]. fold ts.
  destruct (Z.eqb_spec ts t) as [<-|Ht]; [destruct (streq_spec key k) as [<-|Hk]|]; cbn [andb].
  - rewrite (incr_result _ _ _ _ _ _ E) by lia. by rewrite Hn.
  - rewrite (incr_other _ _ _ _ _ _ _ E), Z.add_0_r by (by intros [? _]%redis_key_inj). apply Hinv.
  - rewrite (incr_other _ _ _ _ _ _ _ E), Z.add_0_r by (by intros [_ ?]%redis_key_inj). apply Hinv.
Qed.

Lemma run_redis_spec l calls : forall log r r' oks,
  redis_inv l log r -> 2 * Millisecond <= red_dur l -> steady (red_dur l) log calls ->
  run_redis l calls r = (r', map inl oks) -> oks = spec_run (red_dur l) (red_max l) log calls.
Proof.
  induction calls as [|[now key] calls IH]; intros log r r' oks Hinv Hdur Hst H; cbn [run_redis spec_run] in *.
  { injection H as _ H. by destruct oks. }
  destruct (redis_Take now key l r) as [r1 res] eqn:Et. destruct (run_redis l calls r1) as [r2 ress] eqn:Er.
  injection H as _ H. destruct oks as [|ok oks]; [discriminate H|]. injection H as -> ->. destruct Hst as [Hst Hst'].
  destruct (redis_Take_spec l log r now key r1 ok Hinv Hdur Hst Et) as [-> Hinv1]. f_equal. by eapply IH.
Qed.

(** C17. The Redis limiter is equivalent to the memory limiter: from a Redis without its counters, over any
    sequence of calls whose times do not go back and that Redis all answers, the two
    limiters admit exactly the same calls, provided that a key that is used again in an
    interval is used at least two milliseconds before its counter, which every use renews,
    expires. The interval is at least two milliseconds long. *)
Theorem redis_limiter_equivalent dur max prefix calls r r' oks :
  2 * Millisecond <= dur -> ordered [] calls -> steady dur [] calls ->
  (forall key ts, r_entry r (redis_key (mkRedisLimiter dur max prefix) key ts) = None) ->
  run_redis (mkRedisLimiter dur max prefix) calls r = (r', map inl oks) ->
  oks = (run_memory (NewMemoryFrontendRateLimit dur max) calls).2.
Proof.
  intros Hdur Hord Hst Hnone Hrun. rewrite (run_memory_spec calls [] (NewMemoryFrontendRateLimit dur max)) by done.
  by apply (run_redis_spec (mkRedisLimiter dur max prefix) calls [] r r').
Qed.

End RedisRun.

(** A Redis that holds the counters in a map. *)
#[export] Instance map_redis : RateRedis (gmap string (Z * Time)) := {
  r_IncrExpire now key ttl r :=
    let n := match r !! key with Some (v, expiry) => if now <? expiry then v + 1 else 1 | None => 1 end in
    (<[key := (n, now + ttl)]> r, inl n);
}.

#[export] Program Instance map_redis_laws : RateRedisLaws (gmap string (Z * Time)) := { r_entry r key := r !! key }.
Next Obligation. intros * [= <- <-] _. by rewrite lookup_insert_eq. Qed.
Next Obligation. intros * [= <- <-] H. by rewrite H. Qed.
Next Obligation.
  intros * [= <- <-] H Hle. rewrite H. destruct (Z.ltb_spec now expiry); [done|]. unfold Millisecond in Hle. lia.
Qed.
Next Obligation. intros * [= <- <-] H. by rewrite lookup_insert_ne. Qed.

Lemma redis_limiter_equivalent_witness :
  [true; true; false; true; true] =
  (run_memory (NewMemoryFrontendRateLimit Minute 2) [(Hour, "a"); (Hour + Second, "a"); (Hour + 2 * Second, "a");
    (Hour + 3 * Second, "b"); (Hour + Minute, "a")]).2.
Proof.
  set (calls := [(Hour, "a"); (Hour + Second, "a"); (Hour + 2 * Second, "a"); (Hour + 3 * Second, "b"); (Hour + Minute, "a")]).
  refine (redis_limiter_equivalent (R := gmap string (Z * Time)) Minute 2 "main" calls ∅
    (run_redis (mkRedisLimiter Minute 2 "main") calls ∅).1 _ _ _ _ _ _).
  - vm_compute. discriminate.
  - repeat constructor; vm_compute; discriminate.
  - vm_compute. repeat split; discriminate.
  - intros key ts. apply lookup_empty.
  - vm_compute. reflexivity.
Defined.
