(* ===== verification/LimiterConcurrent.v ===== *)
(** * The memory limiter under concurrent requests

    [MemoryFrontendRateLimiter.Take] of [frontend_rate_limiter.go] has two critical sections,
    under two mutexes: it finds or creates the generation of the current interval, and then
    counts the call in that generation, which may have been replaced by a newer one in the
    meantime. Here generations are cells of a heap, a call between its two sections holds a
    pointer to one, and the sections of any number of calls are interleaved in any order.

    Run without interruption the two sections are [memory_Take] of [RateLimiter]. Under
    every interleaving, as long as the clock does not go back, the calls that are admitted
    for a key in an interval are exactly the first ones to be counted, up to the maximum. *)

From stdpp Require Import base list strings gmap sorting.
From Stdlib Require Import ZArith Lia.
From S2P Require Import Prelude Json Rpc RateLimiter.

Local Open Scope Z_scope.

(** The generations that were created, oldest first, and the pointer to the current one. *)
Record shared := mkShared { sh_gens : list limitedKeys; sh_cur : option nat }.

Definition deref (sh : shared) (ptr : option nat) : option limitedKeys := p ← ptr; sh_gens sh !! p.

(** The section under the mutex of the limiter: the pointer that [Take] pulls out. *)
Definition take_generation (now : Time) (dur : Duration) (sh : shared) : shared * nat :=
  let ts := truncateNow now dur in
  let fresh := (mkShared (sh_gens sh ++ [newLimitedKeys ts]) (Some (length (sh_gens sh))), length (sh_gens sh)) in
  match sh_cur sh with
  | None => fresh
  | Some p =>
      match sh_gens sh !! p with
      | Some g => if truncTS g =? ts then (sh, p) else fresh
      | None => fresh
      end
  end.

(** The section under the mutex of the generation. *)
Definition take_key (ptr : nat) (key : string) (max : Z) (sh : shared) : option (shared * bool) :=
  g ← sh_gens sh !! ptr;
  let '(g1, ok) := keys_Take key max g in
  Some (mkShared (<[ptr := g1]> (sh_gens sh)) (sh_cur sh), ok).

(** The limiter that a request sees between the calls of others. *)
Definition view (dur : Duration) (max : Z) (sh : shared) : MemoryFrontendRateLimiter :=
  mkMemory (deref sh (sh_cur sh)) dur max.

(** ** Concurrent calls *)

(** A call between its two sections, and a call that has returned. *)
Record waiting := mkWaiting { w_time : Time; w_key : string; w_ptr : nat }.
Record returned := mkReturned { r_time : Time; r_key : string; r_ok : bool }.

Record limiter_state := mkLS {
  ls_clock : Time;
  ls_shared : shared;
  ls_waiting : list waiting;
  ls_returned : list returned;
}.

Section Concurrent.
Context (dur : Duration) (max : Z).

Definition limiter_start (t : Time) : limiter_state := mkLS t (mkShared [] None) [] [].

Inductive limiter_step (s : limiter_state) : limiter_state -> Prop :=
(** A call runs its first section. *)
| enter now key sh p :
    ls_clock s <= now -> take_generation now dur (ls_shared s) = (sh, p) ->
    limiter_step s (mkLS now sh (ls_waiting s ++ [mkWaiting now key p]) (ls_returned s))
(** One of the calls that wait runs its second section and returns. *)
| count before w after sh ok :
    ls_waiting s = before ++ w :: after -> take_key (w_ptr w) (w_key w) max (ls_shared s) = Some (sh, ok) ->
    limiter_step s (mkLS (ls_clock s) sh (before ++ after) (ls_returned s ++ [mkReturned (w_time w) (w_key w) ok])).

(** The calls that have returned for a key in an interval, and those among them that were admitted. *)
Definition in_interval (ts : Z) (key : string) (r : returned) : bool :=
  (truncateNow (r_time r) dur =? ts) && (r_key r ==s key).

Definition counted (ts : Z) (key : string) (rs : list returned) : Z :=
  Z.of_nat (length (List.filter (in_interval ts key) rs)).

Definition admitted (ts : Z) (key : string) (rs : list returned) : Z :=
  Z.of_nat (length (List.filter (fun r => in_interval ts key r && r_ok r) rs)).

(** ** The invariant *)

Record limiter_inv (s : limiter_state) : Prop := {
  li_sorted : StronglySorted Z.lt (map truncTS (sh_gens (ls_shared s)));
  li_current : sh_cur (ls_shared s) = (match sh_gens (ls_shared s) with [] => None | _ => Some (length (sh_gens (ls_shared s)) - 1)%nat end);
  li_clock g : g ∈ sh_gens (ls_shared s) -> truncTS g <= truncateNow (ls_clock s) dur;
  li_waiting w : w ∈ ls_waiting s -> exists g, sh_gens (ls_shared s) !! w_ptr w = Some g /\ truncTS g = truncateNow (w_time w) dur;
  li_returned r : r ∈ ls_returned s -> exists g, g ∈ sh_gens (ls_shared s) /\ truncTS g = truncateNow (r_time r) dur;
  li_count g key : g ∈ sh_gens (ls_shared s) -> default 0 (keys g !! key) = counted (truncTS g) key (ls_returned s);
  li_admitted ts key : admitted ts key (ls_returned s) = Z.min (Z.max 0 max) (counted ts key (ls_returned s));
}.

Lemma sorted_inj (gs : list limitedKeys) i j g h :
  StronglySorted Z.lt (map truncTS gs) -> gs !! i = Some g -> gs !! j = Some h -> truncTS g = truncTS h -> i = j.
Proof.
  intros Hs Hi Hj He. assert (forall a b x y, (a < b)%nat -> gs !! a = Some x -> gs !! b = Some y -> truncTS x < truncTS y) as Hlt.
  { clear -Hs. revert Hs. induction gs as [|z gs IH]; intros Hs a b x y Hab Ha Hb; [done|].
    cbn in Hs. apply StronglySorted_inv in Hs as [Hs Hz]. destruct b as [|b]; [lia|]. cbn in Hb. destruct a as [|a]; cbn in Ha.
    - simplify_eq. rewrite Forall_map, Forall_forall in Hz. apply (Hz y). by eapply list_elem_of_lookup_2.
    - eapply (IH Hs a b); [lia|done|done]. }
  destruct (Nat.lt_trichotomy i j) as [H|[H|H]]; [|done|].
  - specialize (Hlt i j g h H Hi Hj). lia.
  - specialize (Hlt j i h g H Hj Hi). lia.
Qed.

Lemma counted_snoc ts key rs r :
  counted ts key (rs ++ [r]) = counted ts key rs + (if in_interval ts key r then 1 else 0).
Proof.
  unfold counted. rewrite List.filter_app, length_app. cbn [List.filter].
  destruct (in_interval ts key r); cbn [length]; rewrite Nat2Z.inj_add; reflexivity.
Qed.

Lemma admitted_snoc ts key rs r :
  admitted ts key (rs ++ [r]) = admitted ts key rs + (if in_interval ts key r && r_ok r then 1 else 0).
Proof.
  unfold admitted. rewrite List.filter_app, length_app. cbn [List.filter].
  destruct (in_interval ts key r && r_ok r); cbn [length]; rewrite Nat2Z.inj_add; reflexivity.
Qed.

Lemma counted_none ts key rs :
  (forall r, r ∈ rs -> truncateNow (r_time r) dur <> ts) -> counted ts key rs = 0.
Proof.
  intros H. unfold counted. induction rs as [|r rs IH]; [done|]. cbn [List.filter].
  unfold in_interval at 1. rewrite (proj2 (Z.eqb_neq _ _)) by (apply H; by left). cbn [andb].
  apply IH. intros x Hx. apply H. by right.
Qed.

Lemma counted_nonneg ts key rs : 0 <= counted ts key rs.
Proof. unfold counted. lia. Qed.

Lemma below_last (gs : list limitedKeys) g x :
  StronglySorted Z.lt (map truncTS gs) -> gs !! (length gs - 1)%nat = Some g -> x ∈ gs -> truncTS x <= truncTS g.
Proof.
  intros Hs Hg [i Hi]%list_elem_of_lookup_1. pose proof (lookup_lt_Some _ _ _ Hi).
  destruct (decide (i = length gs - 1)%nat) as [->|Hne]; [simplify_eq; lia|].
  assert (StronglySorted Z.lt (map truncTS gs)) as Hs' by done.
  revert Hs i Hi Hg H Hne. clear. induction gs as [|z gs IH]; intros Hs i Hi Hg Hlt Hne; [done|].
  cbn in Hs. apply StronglySorted_inv in Hs as [Hs Hz]. cbn [length] in *.
  destruct gs as [|y gs]; [cbn in *; lia|]. replace (S (length (y :: gs)) - 1)%nat with (S (length (y :: gs) - 1)) in Hg by (cbn; lia).
  cbn [lookup list_lookup] in Hg. destruct i as [|i].
  - injection Hi as <-. rewrite Forall_map, Forall_forall in Hz.
    assert (truncTS z < truncTS g); [|lia]. apply (Hz g). by eapply list_elem_of_lookup_2.
  - eapply (IH Hs i); [exact Hi|exact Hg|cbn in *; lia|cbn in *; lia].
Qed.

(** A new generation is later than all the others. *)
Lemma take_generation_spec s now sh p :
  limiter_inv s -> ls_clock s <= now -> take_generation now dur (ls_shared s) = (sh, p) ->
  (sh = ls_shared s /\ exists g, sh_gens sh !! p = Some g /\ truncTS g = truncateNow now dur) \/
  (sh_gens sh = sh_gens (ls_shared s) ++ [newLimitedKeys (truncateNow now dur)] /\
   sh_cur sh = Some p /\ p = length (sh_gens (ls_shared s)) /\
   forall g, g ∈ sh_gens (ls_shared s) -> truncTS g < truncateNow now dur).
Proof.
  intros [Hs Hcur Hclk _ _ _ _] Hle. unfold take_generation. rewrite Hcur.
  pose proof (truncateNow_mono _ _ dur Hle) as Hmono.
  destruct (sh_gens (ls_shared s)) as [|z gs] eqn:Eg.
  { intros [= <- <-]. right. cbn. split; [done|]. split; [done|]. split; [done|]. intros g Hg. by apply elem_of_nil in Hg. }
  set (gens := z :: gs) in *. assert (is_Some (gens !! (length gens - 1)%nat)) as [g Hg].
  { apply lookup_lt_is_Some. unfold gens. cbn. lia. }
  rewrite Hg. destruct (Z.eqb_spec (truncTS g) (truncateNow now dur)) as [E|E]; intros [= <- <-].
  - left. split; [done|]. exists g. by rewrite Eg.
  - right. cbn [sh_gens sh_cur]. do 3 (split; [done|]). intros x Hx. pose proof (below_last gens g x Hs Hg Hx).
    specialize (Hclk g (list_elem_of_lookup_2 _ _ _ Hg)). lia.
Qed.

Lemma enter_inv s now key sh p :
  limiter_inv s -> ls_clock s <= now -> take_generation now dur (ls_shared s) = (sh, p) ->
  limiter_inv (mkLS now sh (ls_waiting s ++ [mkWaiting now key p]) (ls_returned s)).
Proof.
  intros Hinv Hle Ht. pose proof (truncateNow_mono _ _ dur Hle) as Hmono.
  destruct (take_generation_spec s now sh p Hinv Hle Ht) as [[-> (g & Hg & Hts)]|(Hgens & Hcur & -> & Hlt)];
    destruct Hinv as [Hs Hc Hclk Hw Hr Hk Ha].
  - split; cbn [ls_shared ls_clock ls_waiting ls_returned]; try done.
    + intros x Hx. specialize (Hclk x Hx). lia.
    + intros w [Hin|Hin%list_elem_of_singleton]%elem_of_app; [by apply Hw|subst w; cbn; eauto].
  - split; cbn [ls_shared ls_clock ls_waiting ls_returned]; rewrite ?Hgens.
    + rewrite map_app. cbn. revert Hs Hlt. generalize (sh_gens (ls_shared s)) as gs. induction gs as [|z gs IH]; intros Hs Hlt; cbn.
      { repeat constructor. }
      cbn in Hs. apply StronglySorted_inv in Hs as [Hs Hz]. constructor; [apply IH; [done|intros x Hx; apply Hlt; by right]|].
      apply Forall_app. split; [done|]. constructor; [apply Hlt; by left|constructor].
    + rewrite Hcur, length_app. cbn [length]. destruct (sh_gens (ls_shared s)); cbn; f_equal; lia.
    + intros x [Hin|Hin%list_elem_of_singleton]%elem_of_app; [specialize (Hclk x Hin); lia|subst x; cbn; lia].
    + intros w [Hin|Hin%list_elem_of_singleton]%elem_of_app.
      * destruct (Hw w Hin) as (g & Hg & Hts). exists g. split; [by apply lookup_app_l_Some|done].
      * subst w. cbn. exists (newLimitedKeys (truncateNow now dur)). split; [|done].
        by rewrite lookup_app_r, Nat.sub_diag by lia.
    + intros r Hin. destruct (Hr r Hin) as (g & Hg & Hts). exists g. split; [apply elem_of_app; by left|done].
    + intros x k [Hin|Hin%list_elem_of_singleton]%elem_of_app; [by apply Hk|subst x]. cbn. rewrite lookup_empty. cbn.
      symmetry. apply counted_none. intros r Hin. destruct (Hr r Hin) as (g & Hg & <-). specialize (Hlt g Hg). lia.
    + done.
Qed.

Lemma count_inv s before w after sh ok :
  limiter_inv s -> ls_waiting s = before ++ w :: after ->
  take_key (w_ptr w) (w_key w) max (ls_shared s) = Some (sh, ok) ->
  limiter_inv (mkLS (ls_clock s) sh (before ++ after) (ls_returned s ++ [mkReturned (w_time w) (w_key w) ok])).
Proof.
  intros [Hs Hc Hclk Hw Hr Hk Ha] Ew Ht. destruct (Hw w) as (g & Hg & Hts).
  { rewrite Ew. apply elem_of_app. right. by left. }
  unfold take_key in Ht. rewrite Hg in Ht. cbn in Ht. injection Ht as <- <-.
  set (val := default 0 (keys g !! w_key w)). set (g1 := mkKeys (truncTS g) _).
  pose proof (list_elem_of_lookup_2 _ _ _ Hg) as Hgin.
  assert (val = counted (truncTS g) (w_key w) (ls_returned s)) as Hval by by apply Hk.
  assert (forall x, x ∈ <[w_ptr w := g1]> (sh_gens (ls_shared s)) -> x = g1 \/ x ∈ sh_gens (ls_shared s) /\ truncTS x <> truncTS g) as Hin'.
  { intros x [i Hi]%list_elem_of_lookup_1. apply list_lookup_insert_Some in Hi as [(_ & <- & _)|[Hne Hi]]; [by left|].
    right. split; [by eapply list_elem_of_lookup_2|]. intros E. apply Hne. by eapply sorted_inj. }
  assert (map truncTS (<[w_ptr w := g1]> (sh_gens (ls_shared s))) = map truncTS (sh_gens (ls_shared s))) as Emap.
  { change (truncTS <$> <[w_ptr w:=g1]> (sh_gens (ls_shared s)) = truncTS <$> sh_gens (ls_shared s)).
    rewrite list_fmap_insert. apply list_insert_id. rewrite list_lookup_fmap, Hg. done. }
  assert (forall x, x ∈ sh_gens (ls_shared s) -> exists y, y ∈ <[w_ptr w := g1]> (sh_gens (ls_shared s)) /\ truncTS y = truncTS x) as Hkeep.
  { intros x Hx. assert (truncTS x ∈ map truncTS (<[w_ptr w := g1]> (sh_gens (ls_shared s)))) as H.
    { rewrite Emap. by apply (list_elem_of_fmap_2 truncTS). }
    apply list_elem_of_fmap in H as (y & Hy & Hin). eauto. }
  assert (forall ts key, in_interval ts key (mkReturned (w_time w) (w_key w) (val <? max)) = (truncTS g =? ts) && (w_key w ==s key)) as Hii.
  { intros ts key. unfold in_interval. cbn. by rewrite Hts. }
  split; cbn [ls_shared ls_clock ls_waiting ls_returned sh_gens sh_cur].
  - by rewrite Emap.
  - rewrite Hc, length_insert. destruct (sh_gens (ls_shared s)); [done|]. by destruct (w_ptr w).
  - intros x [->|[Hx _]]%Hin'; [by apply (Hclk g)|by apply Hclk].
  - intros v Hv. destruct (Hw v) as (h & Hh & Hht).
    { rewrite Ew. apply elem_of_app in Hv as [|]; apply elem_of_app; [by left|right; by right]. }
    destruct (decide (w_ptr v = w_ptr w)) as [E|E].
    + exists g1. rewrite E, list_lookup_insert_eq by (by eapply lookup_lt_Some). split; [done|]. cbn. rewrite <- Hht. congruence.
    + exists h. by rewrite list_lookup_insert_ne.
  - intros r [Hin|Hin%list_elem_of_singleton]%elem_of_app.
    + destruct (Hr r Hin) as (h & Hh & Hht). destruct (Hkeep h Hh) as (y & Hy & Hyt). exists y. split; [done|congruence].
    + subst r. cbn. destruct (Hkeep g Hgin) as (y & Hy & Hyt). exists y. split; [done|congruence].
  - intros x key [->|[Hx Hne]]%Hin'; rewrite counted_snoc, Hii.
    + unfold g1. cbn [truncTS keys]. rewrite Z.eqb_refl. cbn [andb]. destruct (streq_spec (w_key w) key) as [<-|Hkey].
      * rewrite lookup_insert_eq. cbn. by rewrite Hval.
      * rewrite lookup_insert_ne by done. rewrite (Hk g key Hgin). lia.
    + rewrite (proj2 (Z.eqb_neq _ _)) by congruence. cbn. rewrite (Hk x key Hx). lia.
  - intros ts key. rewrite counted_snoc, admitted_snoc, Hii, Ha. cbn [r_ok].
    destruct (Z.eqb_spec (truncTS g) ts) as [<-|], (streq_spec (w_key w) key) as [<-|]; cbn [andb]; try lia.
    rewrite <- Hval. pose proof (counted_nonneg (truncTS g) (w_key w) (ls_returned s)). destruct (Z.ltb_spec val max); lia.
Qed.

Lemma start_inv t : limiter_inv (limiter_start t).
Proof.
  split; cbn; try done; try (intros ? H; by apply elem_of_nil in H); try (intros ? ? H; by apply elem_of_nil in H).
  - constructor.
  - intros ts key. unfold admitted, counted. cbn. lia.
Qed.

Lemma limiter_reachable_inv t s : rtc limiter_step (limiter_start t) s -> limiter_inv s.
Proof.
  intros H. pose proof (start_inv t) as H0. induction H as [|s1 s2 s3 Hs _ IH]; [done|]. apply IH.
  destruct Hs as [now key sh p Hle Ht|before w after sh ok Ew Ht]; [by apply enter_inv|by eapply count_inv].
Qed.

(** Without interruption the two sections are one call of the limiter. *)
Lemma sections_are_Take t s now key sh p :
  rtc limiter_step (limiter_start t) s -> ls_clock s <= now -> take_generation now dur (ls_shared s) = (sh, p) ->
  exists sh' ok, take_key p key max sh = Some (sh', ok) /\
    memory_Take now key (view dur max (ls_shared s)) = (view dur max sh', ok).
Proof.
  intros Hr Hle Ht. pose proof (limiter_reachable_inv t s Hr) as Hinv. pose proof Hinv as [Hs Hc _ _ _ _ _].
  unfold memory_Take, view, deref. cbn [currGeneration mem_dur mem_max].
  destruct (take_generation_spec s now sh p Hinv Hle Ht) as [[-> (g & Hg & Hts)]|(Hgens & Hcur & -> & Hlt)].
  - unfold take_key. rewrite Hg. cbn. eexists _, _. split; [done|]. cbn [sh_cur sh_gens].
    assert (sh_cur (ls_shared s) = Some p) as Ep.
    { unfold take_generation in Ht. destruct (sh_cur (ls_shared s)) as [q|]; [|simplify_eq; by rewrite lookup_ge_None_2 in Hg by lia].
      destruct (sh_gens (ls_shared s) !! q) as [h|]; [|simplify_eq; by rewrite lookup_ge_None_2 in Hg by lia].
      destruct (_ =? _); simplify_eq; [done|]. by rewrite lookup_ge_None_2 in Hg by lia. }
    rewrite Ep. cbn. rewrite Hg, Hts, Z.eqb_refl. rewrite list_lookup_insert_eq by (by eapply lookup_lt_Some). by rewrite Hts.
  - unfold take_key. rewrite Hgens, lookup_app_r, Nat.sub_diag by lia. cbn. eexists _, _. split; [done|]. cbn [sh_cur sh_gens].
    rewrite Hcur. cbn. rewrite list_lookup_insert_eq by (rewrite length_app; cbn; lia).
    destruct (sh_cur (ls_shared s)) as [q|] eqn:Eq; cbn; [|done].
    destruct (sh_gens (ls_shared s) !! q) as [h|] eqn:Eh; cbn; [|done].
    specialize (Hlt h (list_elem_of_lookup_2 _ _ _ Eh)). by rewrite (proj2 (Z.eqb_neq _ _)) by lia.
Qed.

(** C12. The memory limiter is exact under concurrency: however the critical sections of any
    number of requests interleave, as long as the clock does not go back, the calls that were
    admitted for a key in an interval are as many as the maximum allows, and no more, of the
    calls that were counted for it; and a call that runs without interruption is a call of
    the sequential limiter. *)
Theorem concurrent_limiter_exact t s :
  rtc limiter_step (limiter_start t) s ->
  (forall ts key, admitted ts key (ls_returned s) = Z.min (Z.max 0 max) (counted ts key (ls_returned s))) /\
  (forall now key sh p, ls_clock s <= now -> take_generation now dur (ls_shared s) = (sh, p) ->
    exists sh' ok, take_key p key max sh = Some (sh', ok) /\
      memory_Take now key (view dur max (ls_shared s)) = (view dur max sh', ok)).
Proof.
  intros Hr. split; [apply (limiter_reachable_inv t s Hr)|]. intros now key sh p. by apply (sections_are_Take t).
Qed.

End Concurrent.

(** ** A race of two requests for one slot *)

Definition race_gen (n : Z) : limitedKeys := mkKeys (truncateNow Hour Minute) {[ "a" := n ]}.

Definition race_call : waiting := mkWaiting Hour "a" 0.
Definition race_new : shared := mkShared [newLimitedKeys (truncateNow Hour Minute)] (Some 0%nat).
Definition race_1 : limiter_state := mkLS Hour race_new [race_call] [].
Definition race_2 : limiter_state := mkLS Hour race_new [race_call; race_call] [].
Definition race_3 : limiter_state :=
  mkLS Hour (mkShared [race_gen 1] (Some 0%nat)) [race_call] [mkReturned Hour "a" true].
Definition race_end : limiter_state :=
  mkLS Hour (mkShared [race_gen 2] (Some 0%nat)) [] [mkReturned Hour "a" true; mkReturned Hour "a" false].

Lemma race_steps : rtc (limiter_step Minute 1) (limiter_start Hour) race_end.
Proof.
  apply (rtc_l _ _ race_1); [exact (enter Minute 1 (limiter_start Hour) Hour "a" race_new 0 ltac:(done) ltac:(done))|].
  apply (rtc_l _ _ race_2); [exact (enter Minute 1 race_1 Hour "a" race_new 0 ltac:(done) ltac:(vm_compute; reflexivity))|].
  apply (rtc_l _ _ race_3).
  { exact (count Minute 1 race_2 [race_call] race_call [] (mkShared [race_gen 1] (Some 0%nat)) true eq_refl ltac:(vm_compute; reflexivity)). }
  apply rtc_once. exact (count Minute 1 race_3 [] race_call [] (mkShared [race_gen 2] (Some 0%nat)) false eq_refl ltac:(vm_compute; reflexivity)).
Qed.

Lemma concurrent_limiter_exact_witness :
  rtc (limiter_step Minute 1) (limiter_start Hour) race_end /\
  admitted Minute (truncateNow Hour Minute) "a" (ls_returned race_end) = 1.
Proof.
  split; [exact race_steps|]. rewrite (proj1 (concurrent_limiter_exact Minute 1 Hour race_end race_steps)). vm_compute. reflexivity.
Defined.
