(* ===== verification/Cache.v ===== *)
(** * Response cache: [cache.go] and [methods.go]

    A cache maps keys to strings; the caches are built from an LRU, from Redis, from
    one cache with another as a fallback, and by compressing values. What every one
    of them promises is a class, [CacheLaws]: a hit is a value that was put under
    the key. The LRU, Redis, snappy and SHA-256 are parameters. *)

From stdpp Require Import base list strings.
From Stdlib Require Import ZArith Lia Ascii.
From Stdlib Require Strings.String.
From S2P Require Import Prelude Json JsonRoundtrip Geth Rpc.

Local Open Scope Z_scope.

(** A miss is the empty string. *)
Class Cache (C : Type) := {
  cache_Get : string -> C -> C * (string + error);
  cache_Put : string -> string -> C -> C * option error;
}.

(** [cached log c]: everything in [c] is in the log of puts. *)
Class CacheLaws (C : Type) {CO : Cache C} := {
  cached : list (string * string) -> C -> Prop;
  cached_get log c k c' r : cached log c -> cache_Get k c = (c', r) ->
    cached log c' /\ forall v, r = inl v -> v = "" \/ (k, v) ∈ log;
  cached_put log c k v c' e : cached log c -> cache_Put k v c = (c', e) -> cached ((k, v) :: log) c';
}.

(** A cache that reads its own writes. *)
Class CacheHits (C : Type) {CO : Cache C} : Prop := {
  cache_put_get k v c c' : v <> "" -> cache_Put k v c = (c', None) -> (cache_Get k c').2 = inl v;
}.

(** ** Memory: [golang-lru] *)

Class LRU (L : Type) := {
  lru_Get : string -> L -> L * option string;
  lru_Add : string -> string -> L -> L;
  lru_entries : L -> list (string * string);
}.

Class LRULaws (L : Type) {LO : LRU L} : Prop := {
  lru_get_entry k l l' v : lru_Get k l = (l', Some v) -> (k, v) ∈ lru_entries l;
  lru_get_keeps k l l' r e : lru_Get k l = (l', r) -> e ∈ lru_entries l' -> e ∈ lru_entries l;
  lru_add_entries k v l e : e ∈ lru_entries (lru_Add k v l) -> e = (k, v) \/ e ∈ lru_entries l;
  lru_add_get k v l : (lru_Get k (lru_Add k v l)).2 = Some v;
}.

Record cache (L : Type) := mkCache { lru : L }.
Arguments mkCache {L} _.
Arguments lru {L} _.

#[export] Instance memory_cache {L} {LO : LRU L} : Cache (cache L) := {
  cache_Get key c :=
    match lru_Get key (lru c) with
    | (l, Some val) => (mkCache l, inl val)
    | (l, None) => (mkCache l, inl "")
    end;
  cache_Put key value c := (mkCache (lru_Add key value (lru c)), None);
}.

#[export] Instance memory_cache_laws {L} {LO : LRU L} {LL : LRULaws L} : CacheLaws (cache L).
Proof.
  refine {| cached log c := forall e, e ∈ lru_entries (lru c) -> e ∈ log |}.
  - intros log [l] k c' r Hc. cbn in *. destruct (lru_Get k l) as [l' [v|]] eqn:E; intros [= <- <-].
    + split; [intros e He; by eapply Hc, lru_get_keeps|]. intros v' [= <-]. right. by eapply Hc, lru_get_entry.
    + split; [intros e He; by eapply Hc, lru_get_keeps|]. intros v' [= <-]. by left.
  - intros log [l] k v c' e Hc. cbn in *. intros [= <- <-]. intros x [->|Hx]%lru_add_entries; [by left|right; auto].
Defined.

#[export] Instance memory_cache_hits {L} {LO : LRU L} {LL : LRULaws L} : CacheHits (cache L).
Proof.
  split. intros k v [l] c' Hv [= <-]. cbn. pose proof (lru_add_get k v l) as H.
  destruct (lru_Get k (lru_Add k v l)) as [l' [v'|]]; cbn in *; congruence.
Qed.

(** ** Redis *)

(** A Redis deployment with a client for writes and one for reads; [inl None] is a missing key. *)
Class CacheRedis (R : Type) := {
  cr_Get : string -> R -> option string + error;
  cr_SetEx : string -> string -> Duration -> R -> R * option error;
  cr_entries : R -> list (string * string);
}.

Class CacheRedisLaws (R : Type) {RO : CacheRedis R} : Prop := {
  cr_get_entry k r v : cr_Get k r = inl (Some v) -> (k, v) ∈ cr_entries r;
  cr_set_entries k v d r r' e x : cr_SetEx k v d r = (r', e) -> x ∈ cr_entries r' -> x = (k, v) \/ x ∈ cr_entries r;
}.

Record redisCache (R : Type) := mkRedisCache { rc_redis : R; rc_prefix : string; rc_ttl : Duration }.
Arguments mkRedisCache {R} _ _ _.
Arguments rc_redis {R} _.
Arguments rc_prefix {R} _.
Arguments rc_ttl {R} _.

Definition namespaced {R} (c : redisCache R) (key : string) : string :=
  if rc_prefix c ==s "" then key else (rc_prefix c +:+ ":" +:+ key).

#[export] Instance redis_cache {R} {RO : CacheRedis R} : Cache (redisCache R) := {
  cache_Get key c :=
    match cr_Get (namespaced c key) (rc_redis c) with
    | inl v => (c, inl (default "" v))
    | inr err => (c, inr err)
    end;
  cache_Put key value c :=
    let '(r, e) := cr_SetEx (namespaced c key) value (rc_ttl c) (rc_redis c) in
    (mkRedisCache r (rc_prefix c) (rc_ttl c), e);
}.

Lemma namespaced_inj {R} (c : redisCache R) k1 k2 : namespaced c k1 = namespaced c k2 -> k1 = k2.
Proof. unfold namespaced. destruct (_ ==s ""); [done|]. intros H. by simplify_eq. Qed.

#[export] Instance redis_cache_laws {R} {RO : CacheRedis R} {RL : CacheRedisLaws R} : CacheLaws (redisCache R).
Proof.
  refine {| cached log c := forall k v, (namespaced c k, v) ∈ cr_entries (rc_redis c) -> (k, v) ∈ log |}.
  - intros log c k c' r Hc. cbn in *. destruct (cr_Get _ _) as [[v|]|err] eqn:E; intros [= <- <-]; (split; [done|]).
    + intros v' [= <-]. right. by apply Hc, cr_get_entry.
    + intros v' [= <-]. by left.
    + done.
  - intros log c k v c' e Hc. cbn in *. destruct (cr_SetEx _ _ _ _) as [r1 e1] eqn:E. intros [= <- <-] k' v' Hin.
    change (namespaced (mkRedisCache r1 (rc_prefix c) (rc_ttl c)) k') with (namespaced c k') in Hin. cbn in Hin.
    destruct (cr_set_entries _ _ _ _ _ _ _ E Hin) as [Heq|Hold]; [|right; auto].
    injection Heq as Hk ->. apply namespaced_inj in Hk as ->. by left.
Defined.

(** ** A cache with a fallback *)

Record fallbackCache (C1 C2 : Type) := mkFallback { primaryCache : C1; secondaryCache : C2 }.
Arguments mkFallback {C1 C2} _ _.
Arguments primaryCache {C1 C2} _.
Arguments secondaryCache {C1 C2} _.

#[export] Instance fallback_cache {C1 C2} `{Cache C1, Cache C2} : Cache (fallbackCache C1 C2) := {
  cache_Get key c :=
    match cache_Get key (primaryCache c) with
    | (p, inl val) => (mkFallback p (secondaryCache c), inl val)
    | (p, inr _) => let '(s, r) := cache_Get key (secondaryCache c) in (mkFallback p s, r)
    end;
  cache_Put key value c :=
    match cache_Put key value (primaryCache c) with
    | (p, None) => (mkFallback p (secondaryCache c), None)
    | (p, Some _) => let '(s, e) := cache_Put key value (secondaryCache c) in (mkFallback p s, e)
    end;
}.

(** A log may always grow. *)
Definition cached_in {C} {CO : Cache C} {CL : CacheLaws C} (log : list (string * string)) (c : C) : Prop :=
  exists log', cached log' c /\ forall e, e ∈ log' -> e ∈ log.

Lemma cached_in_get {C} {CO : Cache C} {CL : CacheLaws C} log c k c' r :
  cached_in log c -> cache_Get k c = (c', r) -> cached_in log c' /\ forall v, r = inl v -> v = "" \/ (k, v) ∈ log.
Proof.
  intros (log' & Hc & Hsub) E. destruct (cached_get _ _ _ _ _ Hc E) as [Hc' Hr]. split; [by exists log'|].
  intros v Hv. destruct (Hr v Hv); auto.
Qed.

Lemma cached_in_put {C} {CO : Cache C} {CL : CacheLaws C} log c k v c' e :
  cached_in log c -> cache_Put k v c = (c', e) -> cached_in ((k, v) :: log) c'.
Proof.
  intros (log' & Hc & Hsub) E. exists ((k, v) :: log'). split; [by eapply cached_put|].
  intros x [->|Hx]%elem_of_cons; [by left|right; auto].
Qed.

Lemma cached_in_cons {C} {CO : Cache C} {CL : CacheLaws C} log e (c : C) : cached_in log c -> cached_in (e :: log) c.
Proof. intros (log' & Hc & Hsub). exists log'. split; [done|]. intros x Hx. right. auto. Qed.

#[export] Instance fallback_cache_laws {C1 C2} {CO1 : Cache C1} {CO2 : Cache C2} {CL1 : CacheLaws C1} {CL2 : CacheLaws C2}
  : CacheLaws (fallbackCache C1 C2).
Proof.
  refine {| cached log c := cached_in log (primaryCache c) /\ cached_in log (secondaryCache c) |}.
  - intros log [p s] k c' r [Hp Hs]. cbn in *. destruct (cache_Get k p) as [p1 [v|err]] eqn:E1.
    + intros [= <- <-]. destruct (cached_in_get _ _ _ _ _ Hp E1) as [Hp1 Hr]. cbn. auto.
    + destruct (cache_Get k s) as [s1 r1] eqn:E2. intros [= <- <-].
      destruct (cached_in_get _ _ _ _ _ Hp E1) as [Hp1 _]. destruct (cached_in_get _ _ _ _ _ Hs E2) as [Hs1 Hr]. cbn. auto.
  - intros log [p s] k v c' e [Hp Hs]. cbn in *. destruct (cache_Put k v p) as [p1 [err|]] eqn:E1.
    + destruct (cache_Put k v s) as [s1 e1] eqn:E2. intros [= <- <-]. cbn. split; by eapply cached_in_put.
    + intros [= <- <-]. cbn. split; [by eapply cached_in_put|by apply cached_in_cons].
Defined.

(** ** Compression *)

Class Snappy := { snappy_Encode : string -> string; snappy_Decode : string -> option string }.
Class SnappyLaws {S : Snappy} : Prop := {
  snappy_roundtrip s : snappy_Decode (snappy_Encode s) = Some s;
  snappy_nonempty s : snappy_Encode s <> "";
}.

Record cacheWithCompression (C : Type) := mkCompressed { inner : C }.
Arguments mkCompressed {C} _.
Arguments inner {C} _.

#[export] Instance compressed_cache {C} {S : Snappy} `{Cache C} : Cache (cacheWithCompression C) := {
  cache_Get key c :=
    match cache_Get key (inner c) with
    | (i, inr err) => (mkCompressed i, inr err)
    | (i, inl encodedVal) =>
        if encodedVal ==s "" then (mkCompressed i, inl "")
        else match snappy_Decode encodedVal with
             | Some val => (mkCompressed i, inl val)
             | None => (mkCompressed i, inr (EOther "snappy: corrupt input"))
             end
    end;
  cache_Put key value c :=
    let '(i, e) := cache_Put key (snappy_Encode value) (inner c) in (mkCompressed i, e);
}.

Definition encode_log {S : Snappy} (log : list (string * string)) : list (string * string) :=
  map (fun kv => (kv.1, snappy_Encode kv.2)) log.

Lemma encode_log_elem {S : Snappy} {SL : SnappyLaws} k v log :
  (k, v) ∈ encode_log log -> exists v0, v = snappy_Encode v0 /\ (k, v0) ∈ log.
Proof.
  unfold encode_log. intros ([k0 v0] & E & Hin)%list_elem_of_fmap. cbn in E. simplify_eq. eauto.
Qed.

#[export] Instance compressed_cache_laws {C} {S : Snappy} {SL : SnappyLaws} {CO : Cache C} {CL : CacheLaws C}
  : CacheLaws (cacheWithCompression C).
Proof.
  refine {| cached log c := cached (encode_log log) (inner c) |}.
  - intros log [i] k c' r Hc. cbn in *. destruct (cache_Get k i) as [i1 [ev|err]] eqn:E.
    + destruct (cached_get _ _ _ _ _ Hc E) as [Hi Hr]. destruct (Hr ev eq_refl) as [->|Hin].
      { cbn. intros [= <- <-]. split; [done|]. intros v [= <-]. by left. }
      apply encode_log_elem in Hin as (v0 & -> & Hin).
      destruct (streq_spec (snappy_Encode v0) ""); [by destruct (snappy_nonempty v0)|].
      rewrite snappy_roundtrip. intros [= <- <-]. split; [done|]. intros v [= <-]. by right.
    + destruct (cached_get _ _ _ _ _ Hc E) as [Hi _]. intros [= <- <-]. split; [done|]. done.
  - intros log [i] k v c' e Hc. cbn in *. destruct (cache_Put k (snappy_Encode v) i) as [i1 e1] eqn:E.
    intros [= <- <-]. cbn. by eapply (cached_put (encode_log log)) in E.
Defined.

#[export] Instance compressed_cache_hits {C} {S : Snappy} {SL : SnappyLaws} {CO : Cache C} {CH : CacheHits C}
  : CacheHits (cacheWithCompression C).
Proof.
  split. intros k v [i] c' Hv. cbn. destruct (cache_Put k (snappy_Encode v) i) as [i1 e1] eqn:E. intros [= <- ->].
  apply cache_put_get in E; [|apply snappy_nonempty]. cbn. destruct (cache_Get k i1) as [i2 r]. cbn in E. subst r.
  destruct (streq_spec (snappy_Encode v) ""); [by destruct (snappy_nonempty v)|]. by rewrite snappy_roundtrip.
Qed.

(** ** Cached methods *)

(** The hexadecimal SHA-256 of a string: always 64 digits. *)
Class SHA256 := { sha256_hex : string -> string }.
Class SHA256Laws {S : SHA256} : Prop := { sha256_length s : length (chars (sha256_hex s)) = 64%nat }.

(** The two kinds of [StaticMethodHandler], and the table of [newRPCCache]. *)
Inductive handler := staticHandler | debugGetRawReceiptsHandler.

Definition handlers (method : string) : option handler :=
  if existsb (fun m => method ==s m)
       ["eth_chainId"; "net_version"; "eth_getBlockTransactionCountByHash"; "eth_getUncleCountByBlockHash";
        "eth_getBlockByHash"; "eth_getTransactionByBlockHashAndIndex"; "eth_getUncleByBlockHashAndIndex"]
  then Some staticHandler
  else if method ==s "debug_getRawReceipts" then Some debugGetRawReceiptsHandler
  else None.

Section RPCCache.
Context {G : Geth} {S : SHA256} {C : Type} {CO : Cache C}.

Definition filterGet (h : handler) (req : RPCReq) : bool :=
  match h with
  | staticHandler => true
  | debugGetRawReceiptsHandler =>
      match (raws ← UnmarshalRawArray (req_Params req); mapM bnh_UnmarshalJSON raws) with
      | Some [p] => match bnh_hash p with Some _ => true | None => false end
      | _ => false
      end
  end.

Definition filterPut (h : handler) (res : RPCRes) : bool :=
  match h with
  | staticHandler => true
  | debugGetRawReceiptsHandler =>
      match res_Result res with
      | Some (RJson (JArr rawReceipts)) => negb (Nat.eqb (length rawReceipts) 0)
      | _ => false
      end
  end.

Definition method_key (req : RPCReq) : string :=
  ("cache:" +:+ req_Method req +:+ ":" +:+ sha256_hex (req_Params req)).

Definition GetRPCMethod (h : handler) (req : RPCReq) (c : C) : C * (option RPCRes + error) :=
  if negb (filterGet h req) then (c, inl None)
  else
    match cache_Get (method_key req) c with
    | (c1, inr err) => (c1, inr err)
    | (c1, inl val) =>
        if val ==s "" then (c1, inl None)
        else match Unmarshal val with
             | None => (c1, inr (EOther "invalid JSON in the cache"))
             | Some result => (c1, inl (Some (mkRes (req_JSONRPC req) (result_of_json result) None (req_ID req))))
             end
    end.

(** [mustMarshalJSON] panics on a result that cannot be encoded. *)
Definition PutRPCMethod (h : handler) (req : RPCReq) (res : RPCRes) (c : C) : go (C * option error) :=
  if negb (filterGet h req) then Ret (c, None)
  else if negb (filterPut h res) then Ret (c, None)
  else
    match (match res_Result res with Some r => result_json r | None => Some JNull end) with
    | None => Panic "json: error calling MarshalJSON"
    | Some value => Ret (cache_Put (method_key req) (Marshal value) c)
    end.

Definition GetRPC (req : RPCReq) (c : C) : C * (option RPCRes + error) :=
  match handlers (req_Method req) with
  | None => (c, inl None)
  | Some h => GetRPCMethod h req c
  end.

Definition PutRPC (req : RPCReq) (res : RPCRes) (c : C) : go (C * option error) :=
  match handlers (req_Method req) with
  | None => Ret (c, None)
  | Some h => PutRPCMethod h req res c
  end.

(** *** Properties *)

(** The states a cache goes through, and the responses that were stored. *)
Inductive cache_run (c0 : C) : list (RPCReq * RPCRes) -> C -> Prop :=
| run_start : cache_run c0 [] c0
| run_get puts c req c' r : cache_run c0 puts c -> GetRPC req c = (c', r) -> cache_run c0 puts c'
| run_put puts c req res c' e : cache_run c0 puts c -> PutRPC req res c = Ret (c', e) ->
    cache_run c0 ((req, res) :: puts) c'.

End RPCCache.

Section Soundness.
Context {G : Geth} {S : SHA256} {SL : SHA256Laws} {C : Type} {CO : Cache C} {CL : CacheLaws C}.

(** The hash does not collide on these requests' parameters. *)
Definition collision_free (reqs : list RPCReq) : Prop :=
  forall r1 r2, r1 ∈ reqs -> r2 ∈ reqs -> sha256_hex (req_Params r1) = sha256_hex (req_Params r2) ->
    req_Params r1 = req_Params r2.

Lemma app_inj_length {A} (a b x y : list A) : length x = length y -> a ++ x = b ++ y -> a = b /\ x = y.
Proof. intros Hl H. by apply app_inj_2 in H. Qed.

Lemma method_key_inj r1 r2 :
  method_key r1 = method_key r2 ->
  req_Method r1 = req_Method r2 /\ sha256_hex (req_Params r1) = sha256_hex (req_Params r2).
Proof.
  unfold method_key. intros H. apply (f_equal chars) in H. rewrite !chars_app, !app_assoc in H.
  apply app_inj_length in H as [H Hh]; [|by rewrite !sha256_length].
  apply app_inj_length in H as [H _]; [|done]. apply app_inj_1 in H as [_ H]; [|done].
  split; by apply chars_inj.
Qed.

Definition result_value (res : RPCRes) : option json :=
  match res_Result res with Some r => result_json r | None => Some JNull end.

(** The log of a cache after some responses were stored. *)
Definition explains (puts : list (RPCReq * RPCRes)) (log : list (string * string)) : Prop :=
  forall k v, (k, v) ∈ log -> exists req res j, (req, res) ∈ puts /\ k = method_key req /\
    result_value res = Some j /\ v = Marshal j.

Lemma cache_run_explained c0 puts c :
  cached [] c0 -> cache_run c0 puts c -> exists log, cached log c /\ explains puts log.
Proof.
  intros H0. induction 1 as [|puts c req c' r _ (log & Hc & He) Hg|puts c req res c' e _ (log & Hc & He) Hp].
  - exists []. split; [done|]. by intros k v ?%elem_of_nil.
  - exists log. split; [|done]. unfold GetRPC, GetRPCMethod in Hg.
    destruct (handlers (req_Method req)); [|by simplify_eq]. destruct (negb _); [by simplify_eq|].
    destruct (cache_Get (method_key req) c) as [c1 r1] eqn:E. apply (cached_get log) in E as [E _]; [|done].
    destruct r1 as [val|err]; [|by simplify_eq]. destruct (val ==s ""); [by simplify_eq|].
    destruct (Unmarshal val); by simplify_eq.
  - assert (Hmono : explains ((req, res) :: puts) log).
    { intros k v Hin. destruct (He k v Hin) as (q & s & j & Hq & Hrest). exists q, s, j. split; [by right|done]. }
    unfold PutRPC, PutRPCMethod in Hp. destruct (handlers (req_Method req)); [|simplify_eq; eauto].
    destruct (negb _); [simplify_eq; eauto|]. destruct (negb _); [simplify_eq; eauto|].
    fold (result_value res) in Hp. destruct (result_value res) as [j|] eqn:Hj; [|done]. injection Hp as Hp.
    exists ((method_key req, Marshal j) :: log). split; [by eapply cached_put|].
    intros k v [[= -> ->]|Hin]%elem_of_cons; [|by apply Hmono]. exists req, res, j. split; [by left|done].
Qed.

(** C26. Cache hits are sound: starting from an empty cache, whatever was looked up and stored before, and however the caches are
    combined, a hit answers with the result of a response that was stored for a request
    with the same method and the same parameters, decoded from its JSON form, under the
    caller's own ID and version, as long as SHA-256 does not collide on the parameters used. *)
Theorem cache_hit_sound c0 puts c req c' res :
  cached [] c0 -> cache_run c0 puts c -> collision_free (req :: puts.*1) ->
  GetRPC req c = (c', inl (Some res)) ->
  exists req0 res0 j v, (req0, res0) ∈ puts /\ req_Method req0 = req_Method req /\ req_Params req0 = req_Params req /\
    result_value res0 = Some j /\ Unmarshal (Marshal j) = Some v /\
    res = mkRes (req_JSONRPC req) (result_of_json v) None (req_ID req).
Proof.
  intros H0 Hrun Hcf Hg. destruct (cache_run_explained c0 puts c H0 Hrun) as (log & Hc & He).
  unfold GetRPC, GetRPCMethod in Hg. destruct (handlers (req_Method req)); [|done]. destruct (negb _); [done|].
  destruct (cache_Get (method_key req) c) as [c1 [val|err]] eqn:E; [|done].
  destruct (cached_get _ _ _ _ _ Hc E) as [_ Hr]. destruct (streq_spec val "") as [|Hne]; [done|].
  destruct (Unmarshal val) as [v|] eqn:Hu; [|done]. injection Hg as <- <-.
  destruct (Hr val eq_refl) as [|Hin]; [done|]. destruct (He _ _ Hin) as (req0 & res0 & j & Hin0 & Hk & Hj & ->).
  apply method_key_inj in Hk as [Hm Hp]. exists req0, res0, j, v.
  apply Hcf in Hp; [done|by left|]. right. apply list_elem_of_fmap. by exists (req0, res0).
Qed.

(** C34. A stored response is found again: after a successful store of a result in decoded form, looking
    the request up in a cache that reads its writes returns that result. *)
Theorem cache_put_then_get {CH : CacheHits C} (req : RPCReq) res c c' j h :
  handlers (req_Method req) = Some h -> filterGet h req = true -> filterPut h res = true ->
  res_Result res = Some (RJson j) -> json_ok j = true -> j <> JNull ->
  PutRPC req res c = Ret (c', None) ->
  (GetRPC req c').2 = inl (Some (mkRes (req_JSONRPC req) (Some (RJson j)) None (req_ID req))).
Proof.
  intros Hh Hfg Hfp Hres Hj Hn Hput. unfold PutRPC, PutRPCMethod in Hput. rewrite Hh, Hfg, Hfp, Hres in Hput.
  cbn in Hput. injection Hput as Hput. unfold GetRPC, GetRPCMethod. rewrite Hh, Hfg. cbn [negb].
  assert (Hm : Marshal j <> "").
  { destruct (print_json_head j (json_ok_syn _ Hj)) as (x & s & Hc & _). unfold Marshal. by rewrite Hc. }
  apply cache_put_get in Hput; [|done]. destruct (cache_Get (method_key req) c') as [c1 r]. cbn in Hput. subst r.
  destruct (streq_spec (Marshal j) ""); [done|]. rewrite Unmarshal_Marshal by done. cbn. by destruct j.
Qed.

End Soundness.

(** ** Concrete instances *)

(** A list of at most [memoryCacheLimit] entries, the latest first. *)
Definition memoryCacheLimit : nat := 4096.

#[export] Instance list_lru : LRU (list (string * string)) := {
  lru_Get k l := (l, snd <$> List.find (fun e => k ==s e.1) l);
  lru_Add k v l := take memoryCacheLimit ((k, v) :: List.filter (fun e => negb (k ==s e.1)) l);
  lru_entries l := l;
}.

#[export] Instance list_lru_laws : LRULaws (list (string * string)).
Proof.
  split.
  - intros k l l' v. cbn. destruct (List.find _ l) as [[k' v']|] eqn:E; [|done].
    apply find_some in E as [Hin Hk]. cbn in *. bsimp. intros [= _ <-]. subst. by apply list_elem_of_In.
  - by intros k l l' r e [= <- _].
  - intros k v l e He. unfold lru_Add, list_lru in He. cbn [lru_entries] in He.
    apply elem_of_take in He as (i & Hi & _). apply list_elem_of_lookup_2 in Hi.
    apply elem_of_cons in Hi as [->|Hi]; [by left|]. right. cbn.
    apply list_elem_of_In, filter_In in Hi as [Hi _]. by apply list_elem_of_In.
  - intros k v l. cbn. by rewrite streq_refl.
Qed.

#[local] Instance pad_hash : SHA256 := { sha256_hex s := str (take 64 (chars s ++ replicate 64 "0"%char)) }.
#[local] Instance pad_hash_laws : SHA256Laws.
Proof. split. intros s. unfold sha256_hex, pad_hash. rewrite chars_str, length_take, length_app, length_replicate. lia. Qed.

#[local] Instance tag_snappy : Snappy := {
  snappy_Encode s := String "z" s;
  snappy_Decode s := match s with String _ t => Some t | EmptyString => None end;
}.
#[local] Instance tag_snappy_laws : SnappyLaws.
Proof. by split. Qed.

Definition demo_cache : cacheWithCompression (cache (list (string * string))) := mkCompressed (mkCache []).
Definition demo_cached_req : RPCReq := mkReq "2.0" "eth_chainId" "[]" "7".
Definition demo_cached_res : RPCRes := mkRes "2.0" (Some (RJson (JStr "0x38"))) None "7".

Lemma cache_hit_sound_witness :
  exists c c', cache_run demo_cache [(demo_cached_req, demo_cached_res)] c /\
    GetRPC demo_cached_req c = (c', inl (Some demo_cached_res)) /\
    exists req0 res0 j v, (req0, res0) ∈ [(demo_cached_req, demo_cached_res)] /\
      req_Method req0 = "eth_chainId" /\ req_Params req0 = "[]" /\ result_value res0 = Some j /\
      Unmarshal (Marshal j) = Some v /\ demo_cached_res = mkRes "2.0" (result_of_json v) None "7".
Proof.
  destruct (PutRPC demo_cached_req demo_cached_res demo_cache) as [[c e]|] eqn:E; [|vm_compute in E; discriminate E].
  assert (Hg : GetRPC demo_cached_req c = (c, inl (Some demo_cached_res))).
  { vm_compute in E. injection E as <- <-. vm_compute. reflexivity. }
  assert (Hrun : cache_run demo_cache [(demo_cached_req, demo_cached_res)] c).
  { eapply run_put; [apply run_start|exact E]. }
  exists c, c. split; [exact Hrun|]. split; [exact Hg|].
  refine (cache_hit_sound demo_cache _ c demo_cached_req c demo_cached_res _ Hrun _ Hg).
  - intros x Hx. inversion Hx.
  - intros r1 r2 H1 H2 _. cbn in H1, H2. apply elem_of_cons in H1 as [->|H1]; apply elem_of_cons in H2 as [->|H2];
      try (apply list_elem_of_singleton in H1 as ->); try (apply list_elem_of_singleton in H2 as ->); reflexivity.
Defined.

Lemma cache_put_then_get_witness :
  exists c', PutRPC demo_cached_req demo_cached_res (mkCache ([] : list (string * string))) = Ret (c', None) /\
    (GetRPC demo_cached_req c').2 = inl (Some demo_cached_res).
Proof.
  destruct (PutRPC demo_cached_req demo_cached_res (mkCache [])) as [[c e]|] eqn:E; [|vm_compute in E; discriminate E].
  destruct e; [vm_compute in E; discriminate E|]. exists c. split; [reflexivity|].
  refine (cache_put_then_get demo_cached_req demo_cached_res (mkCache []) c (JStr "0x38") staticHandler _ _ _ _ _ _ E);
    try reflexivity. discriminate.
Defined.
