(* ===== verification/Server.v ===== *)
(** * HTTP server: [server.go]

    A request is authenticated and read, its calls are parsed, checked, limited and
    sorted into batches without duplicate IDs, and the batches are served from the
    cache or forwarded to backend groups in pieces of bounded size. The server is
    written against interfaces: the response cache ([RPCCacheOps]), the backend
    groups ([Upstream]), regular expressions and transaction decoding. *)

From stdpp Require Import base list gmap strings.
From Stdlib Require Import ZArith Lia Ascii.
From Stdlib Require Strings.String.
From S2P Require Import Prelude Float64 SlidingWindow SlidingWindowRefinement Json Geth Rpc Rewriter Reader Backend Tracker Poller Group RateLimiter Cache.

Local Open Scope Z_scope.

(** ** Interfaces *)

(** [RPCCache]. *)
Class RPCCacheOps (C : Type) := {
  rc_GetRPC : RPCReq -> C -> C * (option RPCRes + error);
  rc_PutRPC : RPCReq -> RPCRes -> C -> go (C * option error);
}.

#[export] Instance rpcCache {G : Geth} {S : SHA256} {C} {CO : Cache C} : RPCCacheOps C := {
  rc_GetRPC := GetRPC;
  rc_PutRPC := PutRPC;
}.

Inductive NoopRPCCache := noopRPCCache.

#[export] Instance noop_cache : RPCCacheOps NoopRPCCache := {
  rc_GetRPC _ c := (c, inl None);
  rc_PutRPC _ _ c := Ret (c, None);
}.

(** The backend groups by name, and whether the deadline of the request has passed.
    [up_Forward] also returns the requests as the group leaves them. *)
Class Upstream (U : Type) := {
  up_Forward : string -> Ctx -> list RPCReq -> bool -> U -> go (U * list RPCReq * BackendGroupRPCResponse);
  up_expired : U -> bool;
}.

Class UpstreamLaws (U : Type) {UO : Upstream U} := {
  up_ok : U -> Prop;
  up_forward u g ctx reqs isBatch u' left resp :
    up_ok u -> up_Forward g ctx reqs isBatch u = Ret (u', left, resp) ->
    up_ok u' /\ map req_ID left = map req_ID reqs /\
    (resp_error resp = None -> length (RPCRes_ resp) = length reqs);
}.

(** [regexp]: compiling, the source of a pattern, matching. *)
Class Regexp := {
  pattern : Type;
  re_Compile : string -> pattern + error;
  re_String : pattern -> string;
  re_MatchString : pattern -> string -> bool;
}.

(** Raw transactions, as [go-ethereum] decodes them. *)
Class TxLib := {
  tx : Type;
  hexutil_Bytes : string -> string + error;
  tx_UnmarshalBinary : string -> tx + error;
  tx_ChainId : tx -> Z;
  tx_Nonce : tx -> Z;
  tx_Sender : tx -> string + error;
  txpool_ErrInvalidSender : error;
}.

(** The order in which Go ranges over a map. *)
Class MapOrder := { map_order : forall {A : Type}, list A -> list A }.
Class MapOrderLaws {O : MapOrder} : Prop := { map_order_perm {A} (l : list A) : map_order l ≡ₚ l }.

(** ** State *)

Record EthCallRule := mkRule { rule_Address : string; rule_Value : string; rule_Result : string }.

Section Server.
Context {EM : ErrorMessages} {G : Geth} {RE : Regexp} {TX : TxLib} {MO : MapOrder}.
Context {R : Type} {RR : RateRedis R} {C : Type} {CO : RPCCacheOps C} {U : Type} {UO : Upstream U}.

(** What does not change after [NewServer]. *)
Record Server := mkServer {
  rpcMethodMappings : gmap string string;
  domainRPCMethodMappings : gmap string (gmap string string);
  maxBodySize : Z;
  authenticatedPaths : gmap string string;
  maxUpstreamBatchSize : Z;
  maxBatchSize : Z;
  enableServedByHeader : bool;
  allowedChainIds : list Z;
  limExemptOrigins : list pattern;
  limExemptUserAgents : list pattern;
  globallyLimitedMethods : gmap string bool;
  rateLimitHeader : string;
  ethCallOverrideRules : list EthCallRule;
  timeout : Duration;
  enableRequestLog : bool;
  maxRequestBodyLogLen : Z;
}.

(** The limiters of the server. *)
Record limiters := mkLimiters {
  mainLim : option Limiter;
  exemptLims : gmap string Limiter;
  overrideLims : gmap string Limiter;
  senderLim : option Limiter;
}.

(** The limiters, the clock they read, Redis, the cache and the upstream. *)
Record state := mkSt {
  st_tick : nat;
  st_lims : limiters;
  st_redis : R;
  st_cache : C;
  st_up : U;
}.

(** The successive readings of the clock. *)
Variable clock : nat -> Time.

(** ** Rate limits *)

Inductive lim_id := LimMain | LimExempt (pat : string) | LimOverride (method : string) | LimSender.

Definition get_lim (i : lim_id) (l : limiters) : option Limiter :=
  match i with
  | LimMain => mainLim l
  | LimExempt pat => exemptLims l !! pat
  | LimOverride method => overrideLims l !! method
  | LimSender => senderLim l
  end.

Definition set_lim (i : lim_id) (lim : Limiter) (l : limiters) : limiters :=
  match i with
  | LimMain => mkLimiters (Some lim) (exemptLims l) (overrideLims l) (senderLim l)
  | LimExempt pat => mkLimiters (mainLim l) (<[pat := lim]> (exemptLims l)) (overrideLims l) (senderLim l)
  | LimOverride method => mkLimiters (mainLim l) (exemptLims l) (<[method := lim]> (overrideLims l)) (senderLim l)
  | LimSender => mkLimiters (mainLim l) (exemptLims l) (overrideLims l) (Some lim)
  end.

(** [lim.Take(ctx, key)] for a limiter that is set. *)
Definition take_lim (i : lim_id) (lim : Limiter) (key : string) (st : state) : state * (bool + error) :=
  let '(r, lim1, res) := Take (clock (st_tick st)) key lim (st_redis st) in
  (mkSt (S (st_tick st)) (set_lim i lim1 (st_lims st)) r (st_cache st) (st_up st), res).

Definition isUnlimitedOrigin (s : Server) (origin : string) : bool :=
  existsb (fun pat => re_MatchString pat origin) (limExemptOrigins s).

Definition isUnlimitedUserAgent (s : Server) (userAgent : string) : bool :=
  existsb (fun pat => re_MatchString pat userAgent) (limExemptUserAgents s).

Definition isGlobalLimit (s : Server) (method : string) : bool := default false (globallyLimitedMethods s !! method).

Definition matched_key (pats : list pattern) (subject : string) : string :=
  match List.find (fun pat => re_MatchString pat subject) pats with
  | Some pat => re_String pat
  | None => ""
  end.

(** Whether a limiter refuses a key; an error refuses. *)
Definition refuses (i : lim_id) (lim : Limiter) (key : string) (st : state) : state * bool :=
  match take_lim i lim key st with
  | (st1, inr _) => (st1, true)
  | (st1, inl ok) => (st1, negb ok)
  end.

Definition isLimited (s : Server) (origin userAgent xff method : string) (st : state) : state * bool :=
  if negb (isGlobalLimit s method) && (isUnlimitedOrigin s origin || isUnlimitedUserAgent s userAgent) then
    let matchedKey := if isUnlimitedOrigin s origin then matched_key (limExemptOrigins s) origin
                      else matched_key (limExemptUserAgents s) userAgent in
    if matchedKey ==s "" then (st, false)
    else match get_lim (LimExempt matchedKey) (st_lims st) with
         | None => (st, false)
         | Some exemptLim => refuses (LimExempt matchedKey) exemptLim "exempt" st
         end
  else
    let i := if method ==s "" then LimMain
             else match get_lim (LimOverride method) (st_lims st) with
                  | Some _ => LimOverride method
                  | None => LimMain
                  end in
    match get_lim i (st_lims st) with
    | None => (st, false)
    | Some lim => refuses i lim xff st
    end.

Definition isAllowedChainId (s : Server) (chainId : Z) : bool :=
  match allowedChainIds s with
  | [] => true
  | ids => existsb (Z.eqb chainId) ids
  end.

(** [json.Unmarshal] into [[]string]. *)
Definition UnmarshalStrings (data : string) : option (list string) :=
  l ← UnmarshalSlice data; mapM (decode_string "") l.

Definition rateLimitSender (s : Server) (req : RPCReq) (lim : Limiter) (st : state) : state * option error :=
  match UnmarshalStrings (req_Params req) with
  | None => (st, Some (ESentinel ErrParseErr))
  | Some [param] =>
      match hexutil_Bytes param with
      | inr err => (st, Some (ErrInvalidParams (error_message err)))
      | inl data =>
          match tx_UnmarshalBinary data with
          | inr err => (st, Some (ErrInvalidParams (error_message err)))
          | inl t =>
              if negb (isAllowedChainId s (tx_ChainId t)) then (st, Some txpool_ErrInvalidSender)
              else match tx_Sender t with
                   | inr err => (st, Some (ErrInvalidParams (error_message err)))
                   | inl from =>
                       match take_lim LimSender lim (from +:+ ":" +:+ int_string (tx_Nonce t)) st with
                       | (st1, inr _) => (st1, Some (ESentinel ErrInternal))
                       | (st1, inl false) => (st1, Some (ESentinel ErrOverSenderRateLimit))
                       | (st1, inl true) => (st1, None)
                       end
                   end
          end
      end
  | Some _ => (st, Some (ErrInvalidParams "missing value for required argument 0"))
  end.

(** ** Batches *)

Definition getRPCMethodMappings (s : Server) (origin : string) : gmap string string :=
  if negb (origin ==s "") then default (rpcMethodMappings s) (domainRPCMethodMappings s !! origin)
  else rpcMethodMappings s.

(** [strings.EqualFold], on ASCII and the two other runes that fold to an ASCII letter. *)
Definition EqualFold (a b : string) : bool := bool_decide (fold_name (chars a) = fold_name (chars b)).

Definition checkEthCallOverride (s : Server) (req : RPCReq) : option string :=
  match ethCallOverrideRules s with
  | [] => None
  | rules =>
      match UnmarshalSlice (req_Params req) with
      | Some (JObj callObj :: _) =>
          match obj_get "to" callObj with
          | Some (JStr toAddr) =>
              let value := match obj_get "value" callObj with Some (JStr v) => v | _ => "0x0" end in
              rule_Result <$> List.find (fun r => EqualFold toAddr (rule_Address r) && EqualFold value (rule_Value r)) rules
          | _ => None
          end
      | _ => None
      end
  end.

Record batchElem := mkElem { be_Req : RPCReq; be_Index : nat }.

Definition createBatchRequest (elems : list batchElem) : list RPCReq := map be_Req elems.

(** What becomes of one call: a response, the health check that ends the request, or a backend group. *)
Inductive verdict :=
| VRespond (res : RPCRes)
| VHealthz (res : RPCRes)
| VForward (req : RPCReq) (group : string).

Definition limiterFunc : Type := string -> state -> state * bool.

Definition classify (s : Server) (mappings : gmap string string) (isLimited : limiterFunc) (single : bool)
    (raw : RawMessage) (st : state) : state * verdict :=
  match ParseRPCReq raw with
  | inr err => (st, VRespond (NewRPCErrorRes "" err))
  | inl req =>
      if single && (req_Method req ==s proxydHealthzMethod) then
        (st, VHealthz (mkRes JSONRPCVersion (Some (RJson (JStr "OK"))) None (req_ID req)))
      else match ValidateRPCReq req with
      | Some err => (st, VRespond (NewRPCErrorRes "" err))
      | None =>
          if req_Method req ==s "eth_accounts" then (st, VRespond (NewRPCRes (req_ID req) (Some (RRaw "[]"))))
          else match (if req_Method req ==s "eth_call" then checkEthCallOverride s req else None) with
          | Some result => (st, VRespond (NewRPCRes (req_ID req) (Some (RRaw result))))
          | None =>
              let group := default "" (mappings !! req_Method req) in
              if group ==s "" then (st, VRespond (NewRPCErrorRes (req_ID req) (ESentinel ErrMethodNotWhitelisted)))
              else
                let '(st1, limited) := isLimited (req_Method req) st in
                if limited : bool then (st1, VRespond (NewRPCErrorRes (req_ID req) (ESentinel ErrOverRateLimit)))
                else match (if req_Method req ==s "eth_sendRawTransaction" then senderLim (st_lims st1) else None) with
                | Some lim =>
                    match rateLimitSender s req lim st1 with
                    | (st2, Some err) => (st2, VRespond (NewRPCErrorRes (req_ID req) err))
                    | (st2, None) => (st2, VForward req group)
                    end
                | None => (st1, VForward req group)
                end
          end
      end
  end.

(** The batches by group ID and backend group, in the order in which they were started. *)
Definition batchGroup : Type := Z * string.

Fixpoint batch_append (k : batchGroup) (e : batchElem) (batches : list (batchGroup * list batchElem))
  : list (batchGroup * list batchElem) :=
  match batches with
  | [] => [(k, [e])]
  | (k', es) :: batches' =>
      if (k.1 =? k'.1) && (k.2 ==s k'.2) then (k', es ++ [e]) :: batches' else (k', es) :: batch_append k e batches'
  end.

Record progress := mkProgress {
  pg_responses : list (option RPCRes);
  pg_batches : list (batchGroup * list batchElem);
  pg_ids : gmap string Z;
}.

(** The loop over the calls from index [i]; [inr] is the early return of the health check. *)
Fixpoint classify_all (s : Server) (mappings : gmap string string) (isLimited : limiterFunc) (single : bool)
    (i : nat) (raws : list RawMessage) (st : state) (pg : progress) : state * (progress + RPCRes) :=
  match raws with
  | [] => (st, inl pg)
  | raw :: raws' =>
      match classify s mappings isLimited single raw st with
      | (st1, VHealthz res) => (st1, inr res)
      | (st1, VRespond res) =>
          classify_all s mappings isLimited single (S i) raws' st1
            (mkProgress (<[i := Some res]> (pg_responses pg)) (pg_batches pg) (pg_ids pg))
      | (st1, VForward req group) =>
          let batchGroupID := default 0 (pg_ids pg !! req_ID req) + 1 in
          classify_all s mappings isLimited single (S i) raws' st1
            (mkProgress (pg_responses pg) (batch_append (batchGroupID, group) (mkElem req i) (pg_batches pg))
               (<[req_ID req := batchGroupID]> (pg_ids pg)))
      end
  end.

(** ** Forwarding *)

Definition set_cache (c : C) (st : state) : state := mkSt (st_tick st) (st_lims st) (st_redis st) c (st_up st).
Definition set_up (u : U) (st : state) : state := mkSt (st_tick st) (st_lims st) (st_redis st) (st_cache st) u.

(** Serve what the cache has: the responses, whether there was a hit, and the misses. *)
Fixpoint probe_cache (batch : list batchElem) (st : state) (responses : list (option RPCRes)) (cached : bool)
  : state * list (option RPCRes) * bool * list batchElem :=
  match batch with
  | [] => (st, responses, cached, [])
  | e :: batch' =>
      match rc_GetRPC (be_Req e) (st_cache st) with
      | (c, inl (Some backendRes)) =>
          probe_cache batch' (set_cache c st) (<[be_Index e := Some backendRes]> responses) true
      | (c, _) =>
          let '(st1, responses1, cached1, misses) := probe_cache batch' (set_cache c st) responses cached in
          (st1, responses1, cached1, e :: misses)
      end
  end.

(** [int(math.Ceil(float64(n) / float64(max)))]; [numBatches_float64] shows that the rounding of
    the quotient does not change the result. *)
Definition numBatches (n max : Z) : Z := - ((- n) / max).

Lemma numBatches_float64 n max :
  0 <= n <= 2 ^ 52 -> 0 < max <= 2 ^ 53 -> numBatches n max = fceil (fdiv (of_Z n) (of_Z max)).
Proof.
  intros Hn Hm. rewrite fceil_fdiv by done. unfold numBatches.
  pose proof (Z.div_mod (- n) max ltac:(lia)). pose proof (Z.mod_pos_bound (- n) max ltac:(lia)).
  apply (Z.div_unique_pos _ _ _ (max - 1 - (- n) mod max)); lia.
Qed.

Definition minibatch (max : Z) (misses : list batchElem) (i : nat) : list batchElem :=
  let start := Z.of_nat i * max in
  let stop := Z.min (start + max) (Z.of_nat (length misses)) in
  drop (Z.to_nat start) (take (Z.to_nat stop) misses).

Definition minibatches (max : Z) (misses : list batchElem) : list (list batchElem) :=
  map (minibatch max misses) (seq 0 (Z.to_nat (numBatches (Z.of_nat (length misses)) max))).

(** Store the responses of a minibatch, and cache the ones with a result. *)
Fixpoint deliver (elems : list batchElem) (after : list RPCReq) (res : list RPCRes) (st : state)
    (responses : list (option RPCRes)) : go (state * list (option RPCRes)) :=
  match elems, res with
  | [], _ => Ret (st, responses)
  | _ :: _, [] => Panic "index out of range"
  | e :: elems', r :: res' =>
      let responses1 := <[be_Index e := Some r]> responses in
      c ← match res_Error r, res_Result r with
          | None, Some _ => '(c, _) ← rc_PutRPC (default (be_Req e) (head after)) r (st_cache st); Ret c
          | _, _ => Ret (st_cache st)
          end;
      deliver elems' (tail after) res' (set_cache c st) responses1
  end.

Inductive batch_result :=
| BatchDone (responses : list (option RPCRes)) (cached : bool) (servedBy : string)
| BatchError (err : error).

Definition add_served (sb : string) (servedBy : list string) : list string :=
  if existsb (fun x => x ==s sb) servedBy then servedBy else servedBy ++ [sb].

Definition join_served (servedBy : list string) : string :=
  foldl (fun acc sb => ((if negb (acc ==s "") then acc +:+ ", " else acc) +:+ sb)) "" servedBy.

Definition is_receipts_error (err : error) : bool :=
  is_base ErrConsensusGetReceiptsCantBeBatched err || is_base ErrConsensusGetReceiptsInvalidTarget err.

Fixpoint forward_minibatches (ctx : Ctx) (group : string) (isBatch : bool) (chunks : list (list batchElem)) (st : state)
    (responses : list (option RPCRes)) (servedBy : list string)
  : go (state * (list (option RPCRes) * list string + error)) :=
  match chunks with
  | [] => Ret (st, inl (responses, servedBy))
  | elems :: chunks' =>
      if up_expired (st_up st) then Ret (st, inr (EBase DeadlineExceeded))
      else
        '(u, after, resp) ← up_Forward group ctx (createBatchRequest elems) isBatch (st_up st);
        let st1 := set_up u st in
        let servedBy1 := add_served (ServedBy resp) servedBy in
        match resp_error resp with
        | Some err =>
            if is_receipts_error err then Ret (st1, inr err)
            else
              '(st2, responses2) ←
                deliver elems after (map (fun e => NewRPCErrorRes (req_ID (be_Req e)) err) elems) st1 responses;
              forward_minibatches ctx group isBatch chunks' st2 responses2 servedBy1
        | None =>
            '(st2, responses2) ← deliver elems after (RPCRes_ resp) st1 responses;
            forward_minibatches ctx group isBatch chunks' st2 responses2 servedBy1
        end
  end.

Fixpoint forward_batches (s : Server) (ctx : Ctx) (isBatch : bool) (batches : list (batchGroup * list batchElem)) (st : state)
    (responses : list (option RPCRes)) (cached : bool) (servedBy : list string) : go (state * batch_result) :=
  match batches with
  | [] =>
      Ret (st, BatchDone responses cached (join_served (map_order servedBy)))
  | (group, batch) :: batches' =>
      let '(st1, responses1, cached1, cacheMisses) := probe_cache batch st responses cached in
      '(st2, r) ← forward_minibatches ctx group.2 isBatch (minibatches (maxUpstreamBatchSize s) cacheMisses)
                    st1 responses1 servedBy;
      match r with
      | inr err => Ret (st2, BatchError err)
      | inl (responses2, servedBy2) => forward_batches s ctx isBatch batches' st2 responses2 cached1 servedBy2
      end
  end.

Definition handleBatchRPC (s : Server) (ctx : Ctx) (reqs : list RawMessage) (isLimited : limiterFunc) (isBatch : bool)
    (origin : string) (st : state) : go (state * batch_result) :=
  match classify_all s (getRPCMethodMappings s origin) isLimited (length reqs =? 1)%nat 0 reqs st
          (mkProgress (replicate (length reqs) None) [] ∅) with
  | (st1, inr res) => Ret (st1, BatchDone [Some res] false "")
  | (st1, inl pg) => forward_batches s ctx isBatch (map_order (pg_batches pg)) st1 (pg_responses pg) false []
  end.

(** ** HTTP *)

Record http_in := mkIn {
  in_Header : Header;
  in_RemoteAddr : string;
  in_Host : string;
  in_authorization : string;   (* the variable of the route *)
  in_Body : source;
}.

Record http_out := mkOut {
  out_status : Z;
  out_header : Header;
  out_body : string;
}.

Definition Header_Get (h : Header) (k : string) : string := default "" (header_get k h).

(** [strings.Split(s, ":")]. *)
Fixpoint split_colon (s : bytes) : list bytes :=
  match s with
  | [] => [[]]
  | c :: s' =>
      if (code c =? 58)%N then [] :: split_colon s'
      else match split_colon s' with
           | w :: ws => (c :: w) :: ws
           | [] => [[c]]
           end
  end.

Definition firstNonEmpty (vals : list string) : string :=
  default "" (List.find (fun v => negb (v ==s "")) vals).

Definition DefaultOpTxProxyAuthHeader : string := "X-Optimism-Signature".

(** The values that [populateContext] puts into the context; [None] is the 401 it writes. *)
Definition populateContext (s : Server) (r : http_in) : option Ctx :=
  let hdr := Header_Get (in_Header r) (rateLimitHeader s) in
  let xff := if hdr ==s ""
             then match split_colon (chars (in_RemoteAddr r)) with [ip; _] => str ip | _ => "" end
             else hdr in
  let origin := Header_Get (in_Header r) "X-Forwarded-Host" in
  let ctx auth := mkCtx (Header_Get (in_Header r) DefaultOpTxProxyAuthHeader) xff
                    (firstNonEmpty [in_Host r; origin]) auth (Some origin) in
  if (0 <? size (authenticatedPaths s))%nat then
    let user := default "" (authenticatedPaths s !! in_authorization r) in
    if (in_authorization r ==s "") || (user ==s "") then None
    else Some (ctx (Some user))
  else Some (ctx None).

Definition cacheStatusHdr : string := "X-Proxyd-Cache-Status".

Definition setCacheHeader (cached : bool) (h : Header) : Header :=
  header_set cacheStatusHdr (if cached then "HIT" else "MISS") h.

(** [json.Encoder.Encode]: nothing is written for a value that cannot be encoded. *)
Definition encode_line (j : option json) : string :=
  match j with
  | Some j => (Marshal j +:+ str [chr 10])
  | None => ""
  end.

Definition writeRPCRes (h : Header) (res : RPCRes) : http_out :=
  let statusCode := match res_Error res with
                    | Some e => if HTTPErrorCode e =? 0 then 200 else HTTPErrorCode e
                    | None => 200
                    end in
  mkOut statusCode (header_set "content-type" "application/json" h) (encode_line (MarshalJSON res)).

Definition writeRPCError (h : Header) (id : RawMessage) (err : error) : http_out :=
  writeRPCRes h (NewRPCErrorRes id (match as_RPCErr err with Some _ => err | None => ESentinel ErrInternal end)).

Definition writeBatchRPCRes (h : Header) (res : list (option RPCRes)) : http_out :=
  mkOut 200 (header_set "content-type" "application/json" h)
    (encode_line (JArr <$> mapM (fun r => match r with Some r => MarshalJSON r | None => Some JNull end) res)).

Definition batch_error (isBatch : bool) (err : error) : error :=
  match isBatch, err with
  | true, EBase DeadlineExceeded => ESentinel ErrGatewayTimeout
  | _, _ => if is_receipts_error err then ErrInvalidRequest (error_message err) else ESentinel ErrInternal
  end.

(** The end of [HandleRPC], for a batch and for a single call. *)
Definition respond (s : Server) (isBatch : bool) (st : state) (r : batch_result) : go (state * http_out) :=
  match r with
  | BatchError err => Ret (st, writeRPCError [] "" (batch_error isBatch err))
  | BatchDone responses cached servedBy =>
      let h := setCacheHeader cached (if enableServedByHeader s then header_set "x-served-by" servedBy [] else []) in
      if isBatch then Ret (st, writeBatchRPCRes h responses)
      else match head responses with
           | Some (Some res) => Ret (st, writeRPCRes h res)
           | _ => Panic "nil pointer dereference"
           end
  end.

(** [buf] are the buffer sizes of [io.ReadAll]. *)
(** [truncate]; a negative length slices out of range. *)
Definition truncate (s : string) (maxLen : Z) : go string :=
  let maxLen := if maxLen =? 0 then 2000 else maxLen in
  if maxLen <? Z.of_nat (length (chars s)) then
    if maxLen <? 0 then Panic "slice bounds out of range"
    else Ret (str (take (Z.to_nat maxLen) (chars s)) +:+ "...")
  else Ret s.

(** What is logged of the body. *)
Definition log_request (s : Server) (body : string) : go (option string) :=
  if enableRequestLog s then text ← truncate body (maxRequestBodyLogLen s); Ret (Some text) else Ret None.

Definition HandleRPC (s : Server) (buf : nat -> nat) (r : http_in) (st : state) : go (state * http_out) :=
  match populateContext s r with
  | None => Ret (st, mkOut 401 [] "")
  | Some ctx =>
      let origin := Header_Get (in_Header r) "X-Forwarded-Host" in
      let userAgent := Header_Get (in_Header r) "User-Agent" in
      let xff := stripXFF (GetXForwardedFor ctx) in
      if xff ==s "" then Ret (st, writeRPCError [] "" (ErrInvalidRequest "request does not include a remote IP"))
      else match ReadAll buf (LimitReader (in_Body r) (maxBodySize s)) with
      | None => Panic "read does not end"
      | Some (_, Some err) =>
          Ret (st, writeRPCError [] "" (ESentinel (if is_base ErrLimitReaderOverLimit err then ErrRequestBodyTooLarge else ErrInternal)))
      | Some (body, None) =>
          let body := str body in
          logged ← log_request s body;
          if IsBatch body then
            match ParseBatchRPCReq body with
            | None => Ret (st, writeRPCError [] "" (ESentinel ErrParseErr))
            | Some reqs =>
                if maxBatchSize s <? Z.of_nat (length reqs) then Ret (st, writeRPCError [] "" (ESentinel ErrTooManyBatchRequests))
                else match reqs with
                | [] => Ret (st, writeRPCError [] "" (ErrInvalidRequest "must specify at least one batch call"))
                | _ =>
                    '(st1, res) ← handleBatchRPC s ctx reqs (isLimited s origin userAgent xff) true origin st;
                    respond s true st1 res
                end
            end
          else
            '(st1, res) ← handleBatchRPC s ctx [body] (isLimited s origin userAgent xff) false origin st;
            respond s false st1 res
      end
  end.

End Server.

(** ** Construction *)

Record RateLimitMethodOverride := mkMethodOverride { mo_Limit : Z; mo_Interval : Duration; mo_Global : bool }.
Record RateLimitExemptOrigin := mkExemptOrigin { eo_Limit : Z; eo_Interval : Duration }.

Record RateLimitConfig := mkRateLimit {
  UseRedis : bool;
  BaseRate : Z;
  BaseInterval : Duration;
  ExemptOrigins : list string;
  ExemptUserAgents : list string;
  ExemptBaseRate : Z;
  ExemptBaseInterval : Duration;
  ExemptOverrides : gmap string RateLimitExemptOrigin;
  rl_ErrorMessage : string;
  MethodOverrides : gmap string RateLimitMethodOverride;
  IPHeaderOverride : string;
}.

Record SenderRateLimitConfig := mkSenderLimit {
  sl_Enabled : bool;
  sl_Interval : Duration;
  sl_Limit : Z;
  sl_AllowedChainIds : list Z;
}.

Definition limiterFactoryFunc : Type := Duration -> Z -> string -> Limiter.

(** The factory that [Start] passes to [NewServer]. *)
Definition limiterFactory (useRedis fallbackToMemory : bool) : limiterFactoryFunc := fun dur max prefix =>
  if useRedis then
    let limiter := LRedis (NewRedisFrontendRateLimiter dur max prefix) in
    if fallbackToMemory then LFallback limiter (LMemory (NewMemoryFrontendRateLimit dur max)) else limiter
  else LMemory (NewMemoryFrontendRateLimit dur max).

Definition defaultBodySizeLimit : Z := 256 * 1024.
Definition defaultMaxUpstreamBatchSize : Z := 10.
Definition DefaultMaxBatchRPCCallsLimit : Z := 100.
Definition MaxBatchRPCCallsHardLimit : Z := 1000.
Definition defaultRateLimitHeader : string := "X-Forwarded-For".
Definition defaultRPCTimeout : Duration := 10 * Second.

Section NewServer.
Context {RE : Regexp}.

(** The compiled patterns, or the first error. *)
Fixpoint compile_all (srcs : list string) : list pattern + error :=
  match srcs with
  | [] => inl []
  | src :: srcs' =>
      match re_Compile src with
      | inr err => inr err
      | inl pat => match compile_all srcs' with inl pats => inl (pat :: pats) | inr err => inr err end
      end
  end.

Definition exempt_limiter (cfg : RateLimitConfig) (factory : limiterFactoryFunc) (src : string) : Limiter :=
  match ExemptOverrides cfg !! src with
  | Some override => factory (eo_Interval override) (eo_Limit override) src
  | None => factory (ExemptBaseInterval cfg) (ExemptBaseRate cfg) src
  end.

Definition NewServer (rpcMethodMappings : gmap string string) (domainRPCMethodMappings : gmap string (gmap string string))
    (maxBodySize : Z) (authenticatedPaths : gmap string string) (timeout : Duration) (maxUpstreamBatchSize : Z)
    (enableServedByHeader : bool) (cfg : RateLimitConfig) (senderCfg : SenderRateLimitConfig) (enableRequestLog : bool)
    (maxRequestBodyLogLen maxBatchSize : Z) (factory : limiterFactoryFunc)
    (ethCallOverrideRules : list EthCallRule) : (Server * limiters) + error :=
  let maxBodySize := if maxBodySize =? 0 then defaultBodySizeLimit else maxBodySize in
  let timeout := if timeout =? 0 then defaultRPCTimeout else timeout in
  let maxUpstreamBatchSize := if maxUpstreamBatchSize =? 0 then defaultMaxUpstreamBatchSize else maxUpstreamBatchSize in
  let maxBatchSize := if maxBatchSize =? 0 then DefaultMaxBatchRPCCallsLimit else maxBatchSize in
  let maxBatchSize := if MaxBatchRPCCallsHardLimit <? maxBatchSize then MaxBatchRPCCallsHardLimit else maxBatchSize in
  let limited := 0 <? BaseRate cfg in
  let mainLim := if limited then factory (BaseInterval cfg) (BaseRate cfg) "main" else LNoop in
  match compile_all (if limited then ExemptOrigins cfg else []), compile_all (if limited then ExemptUserAgents cfg else []) with
  | inr err, _ => inr err
  | _, inr err => inr err
  | inl limExemptOrigins, inl limExemptUserAgents =>
      let exemptLims := foldl (fun m pat => <[re_String pat := exempt_limiter cfg factory (re_String pat)]> m) ∅ limExemptOrigins in
      let overrideLims := map_imap (fun method o => Some (factory (mo_Interval o) (mo_Limit o) method)) (MethodOverrides cfg) in
      let globalMethodLims := omap (fun o => if mo_Global o then Some true else None) (MethodOverrides cfg) in
      let senderLim := if sl_Enabled senderCfg then Some (factory (sl_Interval senderCfg) (sl_Limit senderCfg) "senders") else None in
      let rateLimitHeader := if negb (IPHeaderOverride cfg ==s "") then IPHeaderOverride cfg else defaultRateLimitHeader in
      inl (mkServer rpcMethodMappings domainRPCMethodMappings maxBodySize authenticatedPaths maxUpstreamBatchSize
             maxBatchSize enableServedByHeader (sl_AllowedChainIds senderCfg) limExemptOrigins limExemptUserAgents
             globalMethodLims rateLimitHeader ethCallOverrideRules timeout enableRequestLog maxRequestBodyLogLen,
           mkLimiters (Some mainLim) exemptLims overrideLims senderLim)
  end.

End NewServer.

(** ** The backend groups of the server *)

Section Groups.
Context {EM : ErrorMessages} {G : Geth} {W : Type} {WO : WindowOps W} {T : Type} {TO : ConsensusTracker T}.

(** What a call of a group meets: the time, the shuffles, the network, the order in which the
    responses of a multicall arrive, and whether the deadline has passed before it. *)
Record call_env := mkEnv {
  ce_now : Time;
  ce_shuffles : shuffles (W := W);
  ce_net : string -> nat -> attempt;
  ce_arrival : list BackendGroupRPCResponse -> list BackendGroupRPCResponse;
  ce_expired : bool;
}.

Record groups := mkGroups {
  gr_groups : gmap string (BackendGroup (W := W) (T := T));
  gr_calls : nat;
  gr_env : nat -> call_env;
}.

Definition set_bg_members (ms : members (W := W)) (bg : BackendGroup (W := W) (T := T)) : BackendGroup :=
  mkGroup (bg_Name bg) ms (WeightedRouting bg) (Consensus bg) (routingStrategy bg) (multicallRPCErrorCheck bg).

(** Backends are shared: what a call does to a backend shows in every group that has it. *)
Definition share (ms : members (W := W)) (bg : BackendGroup (W := W) (T := T)) : BackendGroup :=
  set_bg_members (foldl (fun m b => set_backend b m) (bg_members bg) (Backends ms)) bg.

(** A call of a group that does not exist dereferences nil. *)
#[export] Instance groups_upstream : Upstream groups := {
  up_Forward name ctx reqs isBatch u :=
    let env := gr_env u (gr_calls u) in
    match gr_groups u !! name with
    | None => match reqs with [] => Ret (u, [], mkResp [] "" None) | _ => Panic "nil pointer dereference" end
    | Some bg =>
        '(ms, after, resp) ← group_Forward (ce_now env) (ce_shuffles env) bg ctx reqs isBatch (ce_net env) (ce_arrival env);
        Ret (mkGroups (<[name := set_bg_members ms bg]> (share ms <$> gr_groups u)) (S (gr_calls u)) (gr_env u), after, resp)
    end;
  up_expired u := ce_expired (gr_env u (gr_calls u));
}.

End Groups.
