(* ===== verification/ServerCorrect.v ===== *)
(** * Correctness of the HTTP server

    Every call of a request is answered at its own position by an answer that its
    outcome justifies, whatever the cache and the groups do; the groups only see
    batches without duplicate IDs, of bounded size, of whitelisted methods; the
    backend groups implement the interface that the server is proved against. *)

From stdpp Require Import base list gmap strings.
From Stdlib Require Import ZArith Lia Ascii.
From Stdlib Require Strings.String.
From S2P Require Import Prelude SlidingWindow SlidingWindowRefinement Json Geth Rpc Rewriter Reader Backend Tracker Poller Group GroupReturns RateLimiter Cache Server.

Local Open Scope Z_scope.

Section Batches.
Context {EM : ErrorMessages} {G : Geth} {RE : Regexp} {TX : TxLib} {MO : MapOrder} {MOL : MapOrderLaws}.
Context {R : Type} {RR : RateRedis R} {C : Type} {CO : RPCCacheOps C} {U : Type} {UO : Upstream U} {UL : UpstreamLaws U}.
Notation state := (state (R := R) (C := C) (U := U)).

(** ** Specification *)

Section Spec.
Variables (s : Server) (mappings : gmap string string) (ctx : Ctx) (isBatch : bool) (raws : list RawMessage).
(** The limiter of the request, and what is known of every state of the cache and of the groups. *)
Variables (clock : nat -> Time) (isLimited : limiterFunc (R := R) (C := C) (U := U)) (J : C -> Prop) (I : U -> Prop).

(** A call that may be forwarded to a backend group. *)
Record forwardable (raw : RawMessage) (req : RPCReq) (group : string) : Prop := {
  fw_parsed : ParseRPCReq raw = inl req;
  fw_valid : ValidateRPCReq req = None;
  fw_not_accounts : req_Method req <> "eth_accounts";
  fw_not_overridden : req_Method req = "eth_call" -> checkEthCallOverride s req = None;
  fw_whitelisted : mappings !! req_Method req = Some group;
  fw_group : group <> "";
}.

(** A batch that may be sent to a backend group. *)
Record permitted (group : string) (reqs : list RPCReq) : Prop := {
  pm_nonempty : reqs <> [];
  pm_size : Z.of_nat (length reqs) <= maxUpstreamBatchSize s;
  pm_ids : NoDup (map req_ID reqs);
  pm_calls : forall req, req ∈ reqs -> exists raw, raw ∈ raws /\ forwardable raw req group;
}.

(** The answers that a call can get. *)
Inductive answer (raw : RawMessage) : RPCRes -> Prop :=
| ans_parse err : ParseRPCReq raw = inr err -> answer raw (NewRPCErrorRes "" err)
| ans_healthz req : ParseRPCReq raw = inl req -> req_Method req = proxydHealthzMethod -> length raws = 1%nat ->
    answer raw (mkRes JSONRPCVersion (Some (RJson (JStr "OK"))) None (req_ID req))
| ans_invalid req err : ParseRPCReq raw = inl req -> ValidateRPCReq req = Some err ->
    answer raw (NewRPCErrorRes "" err)
| ans_accounts req : ParseRPCReq raw = inl req -> ValidateRPCReq req = None -> req_Method req = "eth_accounts" ->
    answer raw (NewRPCRes (req_ID req) (Some (RRaw "[]")))
| ans_overridden req result : ParseRPCReq raw = inl req -> ValidateRPCReq req = None -> req_Method req = "eth_call" ->
    checkEthCallOverride s req = Some result -> answer raw (NewRPCRes (req_ID req) (Some (RRaw result)))
| ans_not_whitelisted req : ParseRPCReq raw = inl req -> ValidateRPCReq req = None ->
    default "" (mappings !! req_Method req) = "" ->
    answer raw (NewRPCErrorRes (req_ID req) (ESentinel ErrMethodNotWhitelisted))
| ans_limited req group (st st' : state) : forwardable raw req group -> isLimited (req_Method req) st = (st', true) ->
    answer raw (NewRPCErrorRes (req_ID req) (ESentinel ErrOverRateLimit))
| ans_sender req group lim (st st' : state) err : forwardable raw req group ->
    req_Method req = "eth_sendRawTransaction" -> senderLim (st_lims st) = Some lim -> rateLimitSender clock s req lim st = (st', Some err) ->
    answer raw (NewRPCErrorRes (req_ID req) err)
| ans_cached req group (c c' : C) res : forwardable raw req group -> J c -> rc_GetRPC req c = (c', inl (Some res)) ->
    answer raw res
| ans_upstream req group reqs k (u u' : U) after resp res : forwardable raw req group -> permitted group reqs ->
    I u -> reqs !! k = Some req -> up_Forward group ctx reqs isBatch u = Ret (u', after, resp) ->
    resp_error resp = None -> RPCRes_ resp !! k = Some res -> answer raw res
| ans_upstream_error req group reqs (u u' : U) after resp err : forwardable raw req group -> permitted group reqs ->
    I u -> req ∈ reqs -> up_Forward group ctx reqs isBatch u = Ret (u', after, resp) -> resp_error resp = Some err ->
    answer raw (NewRPCErrorRes (req_ID req) err).

(** Every call has an answer at its own position. *)
Definition all_answered (responses : list (option RPCRes)) : Prop :=
  length responses = length raws /\
  forall i raw, raws !! i = Some raw -> exists res, responses !! i = Some (Some res) /\ answer raw res.

Definition encodable (res : RPCRes) : Prop :=
  match res_Result res with Some r => result_json r <> None | None => True end.

(** The groups, in the states that are known of, return on batches that are permitted, and the cache
    on results that can be encoded. *)
Definition live : Prop :=
  (forall u group reqs, I u -> up_ok u -> permitted group reqs -> exists u' after resp,
     up_Forward group ctx reqs isBatch u = Ret (u', after, resp) /\ Forall encodable (RPCRes_ resp)) /\
  (forall req res (c : C), encodable res -> exists x, rc_PutRPC req res c = Ret x).

(** A result that satisfies [Q], or a panic of the groups or of the cache. *)
Definition ensures {A} (m : go A) (Q : A -> Prop) : Prop :=
  match m with Ret a => Q a | Panic _ => ~ live end.

Lemma ensures_bind {A B} (m : go A) (k : A -> go B) (P : A -> Prop) (Q : B -> Prop) :
  ensures m P -> (forall a, P a -> ensures (k a) Q) -> ensures (m ≫= k) Q.
Proof. destruct m as [a|]; cbn; auto. Qed.

Lemma ensures_weaken {A} (m : go A) (P Q : A -> Prop) : ensures m P -> (forall a, P a -> Q a) -> ensures m Q.
Proof. destruct m as [a|]; cbn; auto. Qed.

(** ** Responses *)

Definition resp_ok (responses : list (option RPCRes)) : Prop :=
  length responses = length raws /\
  forall i res, responses !! i = Some (Some res) -> exists raw, raws !! i = Some raw /\ answer raw res.

Definition is_set (responses : list (option RPCRes)) (i : nat) : Prop := exists res, responses !! i = Some (Some res).

Definition grows (rs1 rs2 : list (option RPCRes)) : Prop := forall i, is_set rs1 i -> is_set rs2 i.

#[local] Instance grows_preorder : PreOrder grows.
Proof. split; [by intros rs i|]. intros r1 r2 r3 H12 H23 i Hi. auto. Qed.

Lemma resp_ok_insert rs i raw res :
  resp_ok rs -> raws !! i = Some raw -> answer raw res ->
  resp_ok (<[i := Some res]> rs) /\ grows rs (<[i := Some res]> rs) /\ is_set (<[i := Some res]> rs) i.
Proof.
  intros [Hl Hr] Hraw Ha. assert (Hi : (i < length rs)%nat) by (rewrite Hl; by eapply lookup_lt_Some).
  split; [split|split].
  - by rewrite length_insert.
  - intros j r Hj. destruct (decide (i = j)) as [<-|Hne].
    + rewrite list_lookup_insert_eq in Hj by done. simplify_eq. eauto.
    + rewrite list_lookup_insert_ne in Hj by done. auto.
  - intros j [r Hj]. destruct (decide (i = j)) as [<-|Hne].
    + exists res. by rewrite list_lookup_insert_eq.
    + exists r. by rewrite list_lookup_insert_ne.
  - exists res. by rewrite list_lookup_insert_eq.
Qed.

(** An element of a batch for a group. *)
Definition elem_ok (group : string) (e : batchElem) : Prop :=
  exists raw, raws !! be_Index e = Some raw /\ forwardable raw (be_Req e) group.

Definition elem_id (e : batchElem) : string := req_ID (be_Req e).

Record batch_ok (group : string) (batch : list batchElem) : Prop := {
  bo_elems : forall e, e ∈ batch -> elem_ok group e;
  bo_ids : NoDup (map elem_id batch);
}.

Lemma batch_ok_sublist group b1 b2 : sublist b1 b2 -> batch_ok group b2 -> batch_ok group b1.
Proof.
  intros Hs [He Hn]. split.
  - intros e Hin. apply He. by eapply elem_of_sublist.
  - eapply (sublist_NoDup _ (map elem_id b2)); [done|exact (fmap_sublist elem_id b1 b2 Hs)].
Qed.

(** ** Sorting the calls into batches *)

Section Classify.
(** Limiters do not touch the groups or the cache. *)
Definition same_world (st st' : state) : Prop := st_up st' = st_up st /\ st_cache st' = st_cache st.

Hypothesis limiter_keeps_world : forall method st, same_world st (isLimited method st).1.

Lemma take_lim_world i lim key (st st' : state) r : take_lim clock i lim key st = (st', r) -> same_world st st'.
Proof. unfold take_lim. destruct (Take _ _ _ _) as [[? ?] ?]. intros. by simplify_eq. Qed.

Lemma rateLimitSender_world req lim (st st' : state) e :
  rateLimitSender clock s req lim st = (st', e) -> same_world st st'.
Proof.
  unfold rateLimitSender. intros H. repeat case_match; simplify_eq; try done.
  all: by match goal with H : take_lim _ _ _ _ _ = _ |- _ => apply take_lim_world in H end.
Qed.

(** The call is answered without touching the groups or the cache. *)
Ltac settle := intros; simplify_eq; bsimp; (split; [first [done | by split]|]); eauto 6 using answer.

Lemma classify_spec single raw (st st1 : state) v :
  (single = true -> length raws = 1%nat) ->
  classify clock s mappings isLimited single raw st = (st1, v) ->
  same_world st st1 /\
  match v with
  | VRespond res => answer raw res
  | VHealthz res => single = true /\ answer raw res
  | VForward req group => forwardable raw req group
  end.
Proof.
  intros Hs. unfold classify. destruct (ParseRPCReq raw) as [req|err] eqn:Hp; [|settle].
  destruct (single && _) eqn:Hh; [settle|].
  destruct (ValidateRPCReq req) eqn:Hv; [settle|].
  destruct (streq_spec (req_Method req) "eth_accounts") as [|Hna]; [settle|].
  destruct (if req_Method req ==s "eth_call" then _ else _) as [result|] eqn:Ho.
  { destruct (streq_spec (req_Method req) "eth_call"); [|done]. settle. }
  assert (Hno : req_Method req = "eth_call" -> checkEthCallOverride s req = None).
  { intros E. by rewrite E, streq_refl in Ho. }
  destruct (streq_spec (default "" (mappings !! req_Method req)) "") as [|Hg]; [settle|].
  assert (Hf : forwardable raw req (default "" (mappings !! req_Method req))).
  { split; auto. by destruct (mappings !! req_Method req). }
  pose proof (limiter_keeps_world (req_Method req) st) as Hw. destruct (isLimited (req_Method req) st) as [st2 limited] eqn:Hl.
  cbn in Hw. destruct limited; [settle|].
  destruct (if req_Method req ==s "eth_sendRawTransaction" then _ else _) as [lim|] eqn:Hlim; [|intros; by simplify_eq].
  destruct (streq_spec (req_Method req) "eth_sendRawTransaction"); [|done].
  destruct (rateLimitSender clock s req lim st2) as [st3 [err|]] eqn:E; intros; simplify_eq;
    (split; [destruct (rateLimitSender_world _ _ _ _ _ E), Hw; split; congruence|]); by eauto using answer.
Qed.

Lemma batch_append_in k e bs kb :
  kb ∈ batch_append k e bs -> kb ∈ bs \/ exists es, kb = (k, es ++ [e]) /\ (es = [] \/ (k, es) ∈ bs).
Proof.
  induction bs as [|[k' es] bs IH]; cbn [batch_append].
  { intros ->%list_elem_of_singleton. right. exists []. auto. }
  destruct (_ && _) eqn:E.
  - bsimp. assert (k = k') as -> by (destruct k, k'; cbn in *; congruence).
    intros [->|Hin]%elem_of_cons; [right; exists es; split; [done|]; right; by left|left; by right].
  - intros [->|Hin]%elem_of_cons; [left; by left|]. destruct (IH Hin) as [?|(es' & -> & [->|?])].
    + left. by right.
    + right. exists []. auto.
    + right. exists es'. split; [done|]. right. by right.
Qed.

Definition in_batches (bs : list (batchGroup * list batchElem)) (i : nat) : Prop :=
  exists kb e, kb ∈ bs /\ e ∈ kb.2 /\ be_Index e = i.

Lemma batch_append_keeps k e bs i : in_batches bs i -> in_batches (batch_append k e bs) i.
Proof.
  intros ([k0 es0] & e0 & Hkb & He & Hi). cbn in He. induction bs as [|[k' es] bs IH]; [by apply elem_of_nil in Hkb|].
  cbn [batch_append]. apply elem_of_cons in Hkb as [[= <- <-]|Hkb].
  - destruct (_ && _); [exists (k0, es0 ++ [e]), e0|exists (k0, es0), e0]; (split; [by left|]); cbn; [|done].
    split; [apply elem_of_app; by left|done].
  - destruct (_ && _); [exists (k0, es0), e0; split; [by right|done]|].
    destruct (IH Hkb) as (kb & x & Hin & Hx & Hxi). exists kb, x. split; [by right|done].
Qed.

Lemma batch_append_new k e bs : in_batches (batch_append k e bs) (be_Index e).
Proof.
  induction bs as [|[k' es] bs (kb & x & Hin & Hx & Hxi)]; cbn [batch_append].
  { exists (k, [e]), e. split; [by left|]. split; [by left|done]. }
  destruct (_ && _); [|exists kb, x; split; [by right|done]].
  exists (k', es ++ [e]), e. split; [by left|]. split; [|done]. apply elem_of_app. right. by left.
Qed.

(** The state of the loop before the call at index [i]. *)
Record loop_ok (i : nat) (pg : progress) : Prop := {
  lo_responses : resp_ok (pg_responses pg);
  lo_batches : forall kb, kb ∈ pg_batches pg -> batch_ok kb.1.2 kb.2;
  lo_counts : forall kb e, kb ∈ pg_batches pg -> e ∈ kb.2 -> kb.1.1 <= default 0 (pg_ids pg !! elem_id e);
  lo_covered : forall j, (j < i)%nat -> is_set (pg_responses pg) j \/ in_batches (pg_batches pg) j;
}.

Lemma loop_forward i pg raw req group :
  loop_ok i pg -> raws !! i = Some raw -> forwardable raw req group ->
  let n := default 0 (pg_ids pg !! req_ID req) + 1 in
  loop_ok (S i) (mkProgress (pg_responses pg) (batch_append (n, group) (mkElem req i) (pg_batches pg))
                   (<[req_ID req := n]> (pg_ids pg))).
Proof.
  intros [Hr Hb Hc Hcov] Hraw Hf n. set (e := mkElem req i).
  split; cbn [pg_responses pg_batches pg_ids]; [done| | |].
  - intros kb [?|(es & -> & Hes)]%batch_append_in; [by apply Hb|]. cbn.
    assert (Hold : batch_ok group es) by (destruct Hes as [->|Hin]; [split; [by intros ? ?%elem_of_nil|constructor]|by apply (Hb _ Hin)]).
    split.
    + intros x [Hx| ->%list_elem_of_singleton]%elem_of_app; [by apply (bo_elems _ _ Hold)|]. by exists raw.
    + rewrite map_app. apply NoDup_app. split; [apply Hold|]. split; [|apply NoDup_singleton].
      intros id Hid ->%list_elem_of_singleton. apply list_elem_of_fmap in Hid as (x & Hx & Hxin).
      destruct Hes as [->|Hin]; [by apply elem_of_nil in Hxin|]. pose proof (Hc _ x Hin Hxin) as Hle.
      rewrite <- Hx in Hle. cbn in Hle. change (elem_id e) with (req_ID req) in Hle. lia.
  - intros kb x Hkb Hx.
    assert (Hid : forall m, m <= default 0 (pg_ids pg !! elem_id x) -> m <= default 0 (<[req_ID req := n]> (pg_ids pg) !! elem_id x)).
    { intros m Hm. destruct (decide (req_ID req = elem_id x)) as [E|E]; [|by rewrite lookup_insert_ne].
      rewrite E, lookup_insert_eq. cbn. unfold n. rewrite E. lia. }
    apply batch_append_in in Hkb as [Hkb|(es & -> & Hes)]; [eauto|]. cbn in *.
    apply elem_of_app in Hx as [Hx| ->%list_elem_of_singleton].
    + destruct Hes as [->|Hin]; [by apply elem_of_nil in Hx|]. apply Hid. exact (Hc _ x Hin Hx).
    + change (elem_id e) with (req_ID req). by rewrite lookup_insert_eq.
  - intros j Hj. destruct (decide (j = i)) as [->|Hne]; [right; exact (batch_append_new (n, group) e (pg_batches pg))|].
    destruct (Hcov j) as [|Hin]; [lia|by left|]. right. by apply batch_append_keeps.
Qed.

Lemma classify_all_spec single rest : forall pre (st st1 : state) pg out,
  raws = pre ++ rest -> (single = true -> length raws = 1%nat) -> loop_ok (length pre) pg ->
  classify_all clock s mappings isLimited single (length pre) rest st pg = (st1, out) ->
  same_world st st1 /\
  match out with
  | inl pg1 => loop_ok (length raws) pg1
  | inr res => all_answered [Some res]
  end.
Proof.
  induction rest as [|raw rest IH]; intros pre st st1 pg out Hraws Hs Hok H; cbn [classify_all] in H.
  { rewrite app_nil_r in Hraws. injection H as <- <-. split; [by split|]. by rewrite Hraws. }
  assert (Hraw : raws !! length pre = Some raw) by (rewrite Hraws; by apply list_lookup_middle).
  assert (Hraws1 : raws = (pre ++ [raw]) ++ rest) by by rewrite <- app_assoc.
  assert (Hlen : length (pre ++ [raw]) = S (length pre)) by (rewrite length_app; cbn; lia).
  destruct (classify clock s mappings isLimited single raw st) as [st2 v] eqn:Hc.
  destruct (classify_spec _ _ _ _ _ Hs Hc) as [Hw Hv].
  assert (Htrans : forall st3, same_world st2 st3 -> same_world st st3) by (intros st3 [? ?]; destruct Hw; split; congruence).
  destruct v as [res|res|req group].
  - rewrite <- Hlen in H. apply IH in H; [destruct H; by auto|done|done|]. rewrite Hlen.
    destruct Hok as [Hr Hb Hcnt Hcov]. destruct (resp_ok_insert _ _ _ _ Hr Hraw Hv) as (Hr1 & Hg & Hset).
    split; cbn; [done|done|done|]. intros j Hj. destruct (decide (j = length pre)) as [->|Hne]; [by left|].
    destruct (Hcov j) as [|]; [lia|left; auto|by right].
  - simplify_eq. split; [done|]. destruct Hv as [-> Ha]. specialize (Hs eq_refl). split; [done|].
    intros i raw' Hi. assert (i = 0%nat) as -> by (apply lookup_lt_Some in Hi; lia).
    assert (pre = []) as -> by (apply length_zero_iff_nil; apply lookup_lt_Some in Hraw; lia).
    cbn in Hraw. exists res. split; [done|]. by simplify_eq.
  - rewrite <- Hlen in H. apply IH in H; [destruct H; by auto|done|done|]. rewrite Hlen. by eapply loop_forward.
Qed.

End Classify.

(** ** Serving a batch *)

Hypothesis J_get : forall req c c' r, J c -> rc_GetRPC req c = (c', r) -> J c'.
Hypothesis J_put : forall req res c c' e, J c -> rc_PutRPC req res c = Ret (c', e) -> J c'.

Lemma probe_cache_spec group batch : forall (st : state) rs cached st1 rs1 cached1 misses,
  resp_ok rs -> J (st_cache st) -> (forall e, e ∈ batch -> elem_ok group e) ->
  probe_cache batch st rs cached = (st1, rs1, cached1, misses) ->
  resp_ok rs1 /\ grows rs rs1 /\ (st_up st1 = st_up st /\ J (st_cache st1)) /\ sublist misses batch /\
  forall e, e ∈ batch -> is_set rs1 (be_Index e) \/ e ∈ misses.
Proof.
  induction batch as [|e batch IH]; intros st rs cached st1 rs1 cached1 misses Hr HJ He H; cbn [probe_cache] in H.
  { simplify_eq. split; [done|]. split; [done|]. split; [done|]. split; [done|]. by intros e ?%elem_of_nil. }
  destruct (He e (list_elem_of_here _ _)) as (raw & Hraw & Hf).
  assert (Htl : forall x, x ∈ batch -> elem_ok group x) by (intros x Hx; apply He; by right).
  destruct (rc_GetRPC (be_Req e) (st_cache st)) as [c r] eqn:Hg.
  assert (Hmiss : (let '(st2, rs2, c2, ms) := probe_cache batch (set_cache c st) rs cached in (st2, rs2, c2, e :: ms))
      = (st1, rs1, cached1, misses) -> resp_ok rs1 /\ grows rs rs1 /\ (st_up st1 = st_up st /\ J (st_cache st1)) /\
    sublist misses (e :: batch) /\
    forall x, x ∈ e :: batch -> is_set rs1 (be_Index x) \/ x ∈ misses).
  { destruct (probe_cache batch (set_cache c st) rs cached) as [[[st2 rs2] c2] ms] eqn:E. intros Heq. simplify_eq.
    apply IH in E as (Hr2 & Hgr2 & Hup & Hsub & Hall); [|done|by eapply J_get|done]. split; [done|]. split; [done|]. split; [done|].
    split; [by constructor|]. intros x [->|Hx]%elem_of_cons; [right; by left|]. destruct (Hall x Hx); [auto|right; by right]. }
  destruct r as [[res|]|err]; [|by apply Hmiss|by apply Hmiss].
  destruct (resp_ok_insert rs (be_Index e) raw res) as (Hr1 & Hgr & Hset); [done|done|by eapply ans_cached|].
  apply IH in H as (Hr2 & Hgr2 & Hup & Hsub & Hall); [|done|by eapply J_get|done]. split; [done|]. split; [by etransitivity|].
  split; [done|]. split; [by constructor|]. intros x [->|Hx]%elem_of_cons; [left; auto|auto].
Qed.

Section Minibatches.
Variables (max : Z) (misses : list batchElem).
Hypothesis max_pos : 0 < max.

Lemma numBatches_spec i :
  (i < Z.to_nat (numBatches (Z.of_nat (length misses)) max))%nat <-> Z.of_nat i * max < Z.of_nat (length misses).
Proof.
  unfold numBatches. set (n := Z.of_nat (length misses)). pose proof (Z.div_mod (- n) max ltac:(lia)).
  pose proof (Z.mod_pos_bound (- n) max ltac:(lia)). assert (0 <= n) by lia. split; intros; nia.
Qed.

Lemma minibatch_spec chunk :
  chunk ∈ minibatches max misses ->
  sublist chunk misses /\ chunk <> [] /\ Z.of_nat (length chunk) <= max.
Proof.
  intros (i & -> & Hi)%list_elem_of_fmap. apply elem_of_seq in Hi as [_ Hi]. cbn in Hi.
  apply numBatches_spec in Hi. unfold minibatch. set (start := Z.of_nat i * max) in *. assert (0 <= start) by nia.
  assert (Hlen : length (drop (Z.to_nat start) (take (Z.to_nat (Z.min (start + max) (Z.of_nat (length misses)))) misses))
    = Z.to_nat (Z.min max (Z.of_nat (length misses) - start))) by (rewrite length_drop, length_take; lia).
  split; [etransitivity; [apply sublist_drop|apply sublist_take]|]. split; [|lia].
  intros E. rewrite E in Hlen. cbn in Hlen. lia.
Qed.

Lemma minibatches_cover e : e ∈ misses -> exists chunk, chunk ∈ minibatches max misses /\ e ∈ chunk.
Proof.
  intros (p & Hp)%list_elem_of_lookup. pose proof (lookup_lt_Some _ _ _ Hp) as Hlt.
  set (i := Z.to_nat (Z.of_nat p / max)). pose proof (Z.div_mod (Z.of_nat p) max ltac:(lia)) as Hdm.
  pose proof (Z.mod_pos_bound (Z.of_nat p) max ltac:(lia)). pose proof (Z.div_pos (Z.of_nat p) max ltac:(lia) max_pos).
  assert (Hi : Z.of_nat i = Z.of_nat p / max) by lia.
  exists (minibatch max misses i). split.
  - apply list_elem_of_fmap. exists i. split; [done|]. apply elem_of_seq. split; [lia|]. cbn. apply numBatches_spec. nia.
  - apply list_elem_of_lookup. exists (p - Z.to_nat (Z.of_nat i * max))%nat. unfold minibatch.
    rewrite lookup_drop, lookup_take_lt by nia. rewrite <- Hp. f_equal. nia.
Qed.

End Minibatches.

(** The answers to the elements of a minibatch, by position. *)
Definition answers_all (elems : list batchElem) (res : list RPCRes) : Prop :=
  length res = length elems /\
  forall k e r, elems !! k = Some e -> res !! k = Some r -> exists raw, raws !! be_Index e = Some raw /\ answer raw r.

Lemma deliver_spec elems : forall after res (st : state) rs,
  resp_ok rs -> J (st_cache st) -> answers_all elems res -> (live -> Forall encodable res) ->
  ensures (deliver elems after res st rs) (fun '(st1, rs1) =>
    resp_ok rs1 /\ grows rs rs1 /\ (st_up st1 = st_up st /\ J (st_cache st1)) /\ forall e, e ∈ elems -> is_set rs1 (be_Index e)).
Proof.
  induction elems as [|e elems IH]; intros after res st rs Hr HJ [Hlen Ha] Henc; cbn [deliver].
  { cbn. split; [done|]. split; [done|]. split; [done|]. by intros e ?%elem_of_nil. }
  destruct res as [|r res]; [done|]. destruct (Ha 0%nat e r eq_refl eq_refl) as (raw & Hraw & Hans).
  destruct (resp_ok_insert _ _ _ _ Hr Hraw Hans) as (Hr1 & Hgr & Hset).
  apply ensures_bind with J.
  { destruct (res_Error r); [done|]. destruct (res_Result r); [|done].
    destruct (rc_PutRPC _ r (st_cache st)) as [[c err]|] eqn:Hput; [by eapply J_put|]. intros Hl.
    specialize (Henc Hl). apply Forall_cons in Henc as [Hr0 _]. destruct Hl as [_ Hl].
    destruct (Hl (default (be_Req e) (head after)) r (st_cache st) Hr0). congruence. }
  intros c Hc. eapply ensures_weaken.
  - apply IH; [exact Hr1|exact Hc| |].
    + split; [by injection Hlen|]. intros k. exact (Ha (S k)).
    + intros Hl. by apply Forall_cons in Henc as [_ ?].
  - intros [st1 rs1] (H1 & H2 & H3 & H4). split; [done|]. split; [by etransitivity|]. split; [done|].
    intros x [->|Hx]%elem_of_cons; auto.
Qed.

Section Upstream.
Hypothesis I_step : forall u group reqs u' after resp,
  I u -> permitted group reqs -> up_Forward group ctx reqs isBatch u = Ret (u', after, resp) -> I u'.

(** What is known of the state before and after each call. *)
Definition world_ok (st : state) : Prop := I (st_up st) /\ up_ok (st_up st) /\ J (st_cache st).

Lemma batch_permitted group elems :
  batch_ok group elems -> elems <> [] -> Z.of_nat (length elems) <= maxUpstreamBatchSize s ->
  permitted group (createBatchRequest elems).
Proof.
  intros [He Hn] Hne Hlen. unfold createBatchRequest. split.
  - by destruct elems.
  - by rewrite length_map.
  - by rewrite map_map.
  - intros req (e & -> & Hin)%list_elem_of_fmap. destruct (He e Hin) as (raw & Hraw & Hf).
    exists raw. split; [by eapply list_elem_of_lookup_2|done].
Qed.

(** What a group returns answers the elements of the minibatch. *)
Lemma upstream_answers group elems u u' after resp :
  I u -> batch_ok group elems -> permitted group (createBatchRequest elems) ->
  up_Forward group ctx (createBatchRequest elems) isBatch u = Ret (u', after, resp) ->
  match resp_error resp with
  | Some err => answers_all elems (map (fun e => NewRPCErrorRes (req_ID (be_Req e)) err) elems)
  | None => length (RPCRes_ resp) = length elems -> answers_all elems (RPCRes_ resp)
  end.
Proof.
  intros Hu [He _] Hperm Hf. destruct (resp_error resp) as [err|] eqn:Herr.
  - split; [by rewrite length_map|]. intros k e r Hk Hr. rewrite list_lookup_fmap, Hk in Hr. cbn in Hr. simplify_eq.
    apply list_elem_of_lookup_2 in Hk. destruct (He e Hk) as (raw & Hraw & Hfw). exists raw. split; [done|].
    eapply ans_upstream_error; eauto. apply list_elem_of_fmap. eauto.
  - intros Hlen. split; [done|]. intros k e r Hk Hr.
    destruct (He e (list_elem_of_lookup_2 _ _ _ Hk)) as (raw & Hraw & Hfw). exists raw. split; [done|].
    eapply ans_upstream; eauto. unfold createBatchRequest. by rewrite list_lookup_fmap, Hk.
Qed.

Lemma forward_minibatches_spec group chunks : forall (st : state) rs sb,
  resp_ok rs -> world_ok st ->
  (forall elems, elems ∈ chunks -> batch_ok group elems /\ elems <> [] /\ Z.of_nat (length elems) <= maxUpstreamBatchSize s) ->
  ensures (forward_minibatches ctx group isBatch chunks st rs sb) (fun '(st1, r) => world_ok st1 /\
    match r with
    | inl (rs1, _) => resp_ok rs1 /\ grows rs rs1 /\
        forall elems e, elems ∈ chunks -> e ∈ elems -> is_set rs1 (be_Index e)
    | inr _ => True
    end).
Proof.
  induction chunks as [|elems chunks IH]; intros st rs sb Hr Hi Hch; cbn [forward_minibatches].
  { cbn. split; [done|]. split; [done|]. split; [done|]. by intros elems e ?%elem_of_nil. }
  destruct (up_expired (st_up st)); [by cbn|].
  destruct (Hch elems (list_elem_of_here _ _)) as (Hb & Hne & Hsz). pose proof (batch_permitted _ _ Hb Hne Hsz) as Hperm.
  destruct (up_Forward group ctx (createBatchRequest elems) isBatch (st_up st)) as [[[u after] resp]|] eqn:Hf; cycle 1.
  { intros [Hl _]. destruct (Hl (st_up st) group _ (proj1 Hi) (proj1 (proj2 Hi)) Hperm) as (? & ? & ? & ? & _). congruence. }
  go_simpl. destruct Hi as (HI & Hok & HJ). destruct (up_forward _ _ _ _ _ _ _ _ Hok Hf) as (Hok' & _ & Hlen).
  unfold createBatchRequest in Hlen. rewrite length_map in Hlen.
  pose proof (upstream_answers _ _ _ _ _ _ HI Hb Hperm Hf) as Hans.
  assert (Hi1 : I u) by by eapply I_step.
  assert (Hrest : forall res, answers_all elems res -> (live -> Forall encodable res) ->
    ensures ('(st2, responses2) ← deliver elems after res (set_up u st) rs;
             forward_minibatches ctx group isBatch chunks st2 responses2 (add_served (ServedBy resp) sb))
      (fun '(st1, r) => world_ok st1 /\
        match r with
        | inl (rs1, _) => resp_ok rs1 /\ grows rs rs1 /\
            forall elems0 e, elems0 ∈ elems :: chunks -> e ∈ elems0 -> is_set rs1 (be_Index e)
        | inr _ => True
        end)).
  { intros res Ha Henc. eapply ensures_bind; [by apply deliver_spec|]. intros [st2 rs2] (Hr2 & Hg2 & [Hup2 HJ2] & Hset).
    eapply ensures_weaken; [apply IH; [done|by (unfold world_ok; rewrite Hup2)|intros x Hx; apply Hch; by right]|].
    intros [st3 [[rs3 sb3]|err]] [H3 Hm]; (split; [done|]); [|done]. destruct Hm as (Hr3 & Hg3 & Hall).
    split; [done|]. split; [by etransitivity|]. intros x e [->|Hx]%elem_of_cons Hin; [auto|eauto]. }
  destruct (resp_error resp) as [err|].
  - destruct (is_receipts_error err); [by cbn|]. apply Hrest; [done|]. intros _. by apply Forall_fmap, Forall_true.
  - apply Hrest; [by apply Hans, Hlen|]. intros [Hl _].
    destruct (Hl (st_up st) group _ HI Hok Hperm) as (? & ? & ? & Hf' & Henc). rewrite Hf in Hf'. by simplify_eq.
Qed.

Hypothesis max_pos : 0 < maxUpstreamBatchSize s.

Lemma forward_batches_spec batches : forall (st : state) rs cached sb,
  resp_ok rs -> world_ok st -> (forall kb, kb ∈ batches -> batch_ok kb.1.2 kb.2) ->
  (forall i, (i < length raws)%nat -> is_set rs i \/ in_batches batches i) ->
  ensures (forward_batches s ctx isBatch batches st rs cached sb) (fun '(st1, r) => world_ok st1 /\
    match r with BatchDone rs1 _ _ => all_answered rs1 | BatchError _ => True end).
Proof.
  induction batches as [|[[gid group] batch] batches IH]; intros st rs cached sb Hr Hi Hb Hcov; cbn [forward_batches].
  { cbn. split; [done|]. destruct Hr as [Hl Hr]. split; [done|]. intros i raw Hraw.
    destruct (Hcov i) as [[res Hres]|(kb & e & Hin & _)]; [by eapply lookup_lt_Some| |by apply elem_of_nil in Hin].
    exists res. split; [done|]. destruct (Hr i res Hres) as (raw' & Hraw' & Ha). by simplify_eq. }
  pose proof (Hb _ (list_elem_of_here _ _)) as Hb0. cbn [fst snd] in *.
  destruct (probe_cache batch st rs cached) as [[[st1 rs1] cached1] misses] eqn:Hp.
  destruct Hi as (HI & Hok & HJ).
  destruct (probe_cache_spec group _ _ _ _ _ _ _ _ Hr HJ (bo_elems _ _ Hb0) Hp) as (Hr1 & Hg1 & [Hup1 HJ1] & Hsub & Hset).
  eapply ensures_bind.
  { apply (forward_minibatches_spec group); [done|by (unfold world_ok; rewrite Hup1)|]. intros elems Hin.
    destruct (minibatch_spec _ _ max_pos elems Hin) as (Hs & Hne & Hsz). split; [|done].
    eapply batch_ok_sublist; [|exact Hb0]. by etransitivity. }
  intros [st2 [[rs2 sb2]|err]] [Hi2 Hm]; [|by cbn]. destruct Hm as (Hr2 & Hg2 & Hall).
  apply IH; [done|done|intros kb Hkb; apply Hb; by right|].
  intros i Hlt. destruct (Hcov i Hlt) as [Hi0|(kb & e & Hin & He & Hidx)]; [left; auto|].
  apply elem_of_cons in Hin as [->|Hin]; [|right; by exists kb, e]. cbn in He. subst i. left.
  destruct (Hset e He) as [?|Hmiss]; [auto|].
  destruct (minibatches_cover _ _ max_pos e Hmiss) as (elems & Hc & Hein). eauto.
Qed.

End Upstream.
End Spec.

(** ** Theorems *)

Section Server.
Variables (clock : nat -> Time) (s : Server) (ctx : Ctx) (isBatch : bool) (raws : list RawMessage).
Variables (origin userAgent xff : string).
Notation mappings := (getRPCMethodMappings s origin).
Notation limiter := (isLimited clock s origin userAgent xff).

Lemma isLimited_world method (st : state) : same_world st (limiter method st).1.
Proof.
  assert (Hr : forall i lim key, same_world st (refuses clock i lim key st).1).
  { intros i lim key. unfold refuses. destruct (take_lim clock i lim key st) as [st1 [ok|err]] eqn:E;
      by eapply take_lim_world. }
  unfold isLimited. repeat case_match; apply Hr || by split.
Qed.

Section Invariants.
(** Properties of the cache and of the groups that every use keeps. *)
Variables (J : C -> Prop) (I : U -> Prop).
Hypothesis J_get : forall req c c' r, J c -> rc_GetRPC req c = (c', r) -> J c'.
Hypothesis J_put : forall req res c c' e, J c -> rc_PutRPC req res c = Ret (c', e) -> J c'.
Hypothesis I_step : forall u group reqs u' after resp, I u -> permitted s mappings raws group reqs ->
  up_Forward group ctx reqs isBatch u = Ret (u', after, resp) -> I u'.

Notation answered := (all_answered s mappings ctx isBatch raws clock limiter J I).

Lemma start_ok : loop_ok s mappings ctx isBatch raws clock limiter J I 0 (mkProgress (replicate (length raws) None) [] ∅).
Proof.
  split; cbn.
  - split; [by rewrite length_replicate|]. intros i res H. by apply lookup_replicate in H as [? _].
  - by intros kb ?%elem_of_nil.
  - by intros kb e ?%elem_of_nil.
  - lia.
Qed.

Lemma handleBatchRPC_spec (st : state) :
  0 < maxUpstreamBatchSize s -> world_ok J I st ->
  ensures s mappings ctx isBatch raws I (handleBatchRPC clock s ctx raws limiter isBatch origin st)
    (fun '(st1, r) => world_ok J I st1 /\
      match r with BatchDone rs1 _ _ => answered rs1 | BatchError _ => True end).
Proof.
  intros Hmax Hw. unfold handleBatchRPC. destruct (classify_all _ _ _ _ _ _ _ _ _) as [st1 out] eqn:Hc.
  apply (classify_all_spec s mappings ctx isBatch raws clock limiter J I isLimited_world _ raws []) in Hc as [[Hup Hcache] Hout];
    [|done|by intros ?%Nat.eqb_eq|apply start_ok].
  assert (Hw1 : world_ok J I st1) by (unfold world_ok in *; by rewrite Hup, Hcache).
  destruct out as [pg|res]; [|done].
  apply (forward_batches_spec s mappings ctx isBatch raws clock limiter J I J_get J_put I_step Hmax).
  - apply Hout.
  - exact Hw1.
  - intros kb Hkb. rewrite map_order_perm in Hkb. by apply Hout.
  - intros i Hi. destruct (lo_covered _ _ _ _ _ _ _ _ _ _ _ Hout i Hi) as [|(kb & e & Hin & He)]; [by left|]. right.
    exists kb, e. by rewrite map_order_perm.
Qed.

(** C3. Every call is answered, at its own place: however the calls are batched, cached, limited and
    served, when the server completes a request there is exactly one response per
    call, at the position of the call, and it is an answer that the outcome of that
    very call justifies: the error of a call that is malformed, not whitelisted,
    refused by a limiter (in some state of the limiters) or refused for its sender, the
    server's own answer to the health check (as the only call), to [eth_accounts] or to an
    [eth_call] that a rule overrides, the hit of the cache for that call, or what the backend
    group returned for that call in a permitted batch that contained it. The bound of
    upstream batches is positive. The states of the cache and of the groups that these
    answers come from have every property that their uses keep. *)
Theorem calls_answered_in_place (st st' : state) responses cached servedBy :
  0 < maxUpstreamBatchSize s -> world_ok J I st ->
  handleBatchRPC clock s ctx raws limiter isBatch origin st = Ret (st', BatchDone responses cached servedBy) ->
  answered responses /\ world_ok J I st'.
Proof.
  intros Hmax Hw H. pose proof (handleBatchRPC_spec st Hmax Hw) as Hs. rewrite H in Hs. by destruct Hs.
Qed.

End Invariants.

(** C11. The backend groups only see permitted batches: any property of the groups that is kept by forwarding
    a non-empty batch of at most [maxUpstreamBatchSize] valid calls with distinct
    IDs, each mapped to that group, holds after a request if it held before, when the groups
    are well-formed and [maxUpstreamBatchSize] is positive. *)
Theorem upstream_sees_permitted_batches (I : U -> Prop) (st st' : state) r :
  0 < maxUpstreamBatchSize s -> up_ok (st_up st) ->
  (forall u group reqs u' after resp, I u -> permitted s mappings raws group reqs ->
     up_Forward group ctx reqs isBatch u = Ret (u', after, resp) -> I u') ->
  I (st_up st) -> handleBatchRPC clock s ctx raws limiter isBatch origin st = Ret (st', r) -> I (st_up st').
Proof.
  intros Hmax Hok Hstep HI H.
  pose proof (handleBatchRPC_spec (fun _ => True) I (fun _ _ _ _ _ _ => Logic.I) (fun _ _ _ _ _ _ _ => Logic.I) Hstep st Hmax) as Hs.
  rewrite H in Hs. by destruct (Hs (conj HI (conj Hok Logic.I))) as [[? _] _].
Qed.

End Server.

(** ** HTTP requests *)

Section HTTP.
Variables (clock : nat -> Time) (s : Server) (buf : nat -> nat) (r : http_in).
Notation origin := (Header_Get (in_Header r) "X-Forwarded-Host").
Notation userAgent := (Header_Get (in_Header r) "User-Agent").

Lemma limited_whole data n eager err bs : limited data n eager err = (bs, None) ->
  bs = data /\ Z.of_nat (length data) <= n.
Proof.
  unfold limited. destruct (_ || _) eqn:E; [|done]. intros [= <- _]. split; [done|].
  apply orb_true_iff in E as [E|E]; bsimp; lia.
Qed.

(** The client is allowed in: no paths are configured, or its path is one of them. *)
Definition authorized : Prop :=
  authenticatedPaths s = ∅ \/ exists name, authenticatedPaths s !! in_authorization r = Some name /\ name <> "".

(** The calls of the body, within the limits. *)
Definition calls_of (isBatch : bool) (raws : list RawMessage) : Prop :=
  let body := str (src_data (in_Body r)) in
  isBatch = IsBatch body /\
  if isBatch then ParseBatchRPCReq body = Some raws /\ raws <> [] /\ Z.of_nat (length raws) <= maxBatchSize s
  else raws = [body].

Lemma populateContext_authorized ctx : populateContext s r = Some ctx -> authorized.
Proof.
  unfold populateContext, authorized. destruct (Nat.ltb_spec 0 (size (authenticatedPaths s))) as [Hsz|Hsz]; cycle 1.
  { intros _. left. apply map_size_empty_inv. lia. }
  destruct (_ || _) eqn:E; [done|]. intros _. right. bsimp. destruct (authenticatedPaths s !! _) as [name|]; [|done]. eauto.
Qed.


(** How a request ends. *)
Lemma HandleRPC_cases (st st' : state) out :
  HandleRPC clock s buf r st = Ret (st', out) ->
  st' = st /\ (out = mkOut 401 [] "" \/ exists err, out = writeRPCError [] "" err) \/
  exists ctx isBatch raws res, authorized /\ populateContext s r = Some ctx /\ stripXFF (GetXForwardedFor ctx) <> "" /\
    Z.of_nat (length (src_data (in_Body r))) <= maxBodySize s /\ src_err (in_Body r) = None /\ calls_of isBatch raws /\
    handleBatchRPC clock s ctx raws (isLimited clock s origin userAgent (stripXFF (GetXForwardedFor ctx))) isBatch origin st
      = Ret (st', res) /\
    respond s isBatch st' res = Ret (st', out).
Proof.
  unfold HandleRPC. destruct (populateContext s r) as [ctx|] eqn:Hctx; [|intros; simplify_eq; left; by auto].
  destruct (streq_spec (stripXFF (GetXForwardedFor ctx)) "") as [|Hip]; [intros; simplify_eq; left; by eauto|].
  rewrite ReadAll_limited. destruct (limited _ _ _ _) as [body [err|]] eqn:Hl; [intros; simplify_eq; left; by eauto|].
  assert (Herr : src_err (in_Body r) = None) by (unfold limited in Hl; destruct (_ || _); by simplify_eq).
  destruct (limited_whole _ _ _ _ _ Hl) as [-> Hsize].
  destruct (log_request s _) as [logged|]; go_simpl; [|done].
  assert (Hdone : forall isBatch raws, calls_of isBatch raws ->
    ('(st1, res) ← handleBatchRPC clock s ctx raws (isLimited clock s origin userAgent (stripXFF (GetXForwardedFor ctx)))
       isBatch origin st; respond s isBatch st1 res) = Ret (st', out) ->
    exists ctx0 isBatch raws res, authorized /\ Some ctx = Some ctx0 /\ stripXFF (GetXForwardedFor ctx0) <> "" /\
      Z.of_nat (length (src_data (in_Body r))) <= maxBodySize s /\ src_err (in_Body r) = None /\ calls_of isBatch raws /\
      handleBatchRPC clock s ctx0 raws (isLimited clock s origin userAgent (stripXFF (GetXForwardedFor ctx0))) isBatch origin st
        = Ret (st', res) /\
      respond s isBatch st' res = Ret (st', out)).
  { intros isBatch raws Hc H. apply go_bind_ret in H as ([st1 res] & Hh & H).
    assert (st1 = st') as -> by (unfold respond in H; repeat case_match; by simplify_eq).
    exists ctx, isBatch, raws, res. split; [by eapply populateContext_authorized|]. done. }
  destruct (IsBatch (str (src_data (in_Body r)))) eqn:Hb; [|intros H; right; by apply (Hdone false [str (src_data (in_Body r))])].
  destruct (ParseBatchRPCReq _) as [reqs|] eqn:Hp; [|intros; simplify_eq; left; by eauto].
  destruct (Z.ltb_spec (maxBatchSize s) (Z.of_nat (length reqs))) as [|Hmax]; [intros; simplify_eq; left; by eauto|].
  destruct reqs as [|raw reqs0] eqn:E; [intros; simplify_eq; left; by eauto|]. rewrite <- E in *.
  intros H. right. apply (Hdone true reqs); [|done]. split; [done|]. split; [done|]. split; [by rewrite E|done].
Qed.

(** C29. Requests have effects only within the limits: a request is either refused with the limiters, the
    cache and the groups untouched, or it comes from an authorised client with a known
    address, its body was read to the end within [maxBodySize], it has at least one
    and at most [maxBatchSize] calls, and its outcome is that of its calls. *)
Theorem effects_guarded (st st' : state) out :
  HandleRPC clock s buf r st = Ret (st', out) ->
  st' = st /\ (out = mkOut 401 [] "" \/ exists err, out = writeRPCError [] "" err) \/
  exists ctx isBatch raws res, authorized /\ populateContext s r = Some ctx /\ stripXFF (GetXForwardedFor ctx) <> "" /\
    Z.of_nat (length (src_data (in_Body r))) <= maxBodySize s /\ src_err (in_Body r) = None /\ calls_of isBatch raws /\
    handleBatchRPC clock s ctx raws (isLimited clock s origin userAgent (stripXFF (GetXForwardedFor ctx))) isBatch origin st
      = Ret (st', res) /\
    respond s isBatch st' res = Ret (st', out).
Proof. apply HandleRPC_cases. Qed.



End HTTP.
End Batches.

(** ** The backend groups implement the interface *)

#[export] Instance groups_laws {EM : ErrorMessages} {G : Geth} {W T} {WO : WindowOps W} {TO : ConsensusTracker T} : UpstreamLaws (groups (W := W) (T := T)).
Proof.
  refine {| up_ok u :=
    (forall name bg, gr_groups u !! name = Some bg -> routingStrategy bg = MulticallRoutingStrategy -> Consensus bg = None) /\
    (forall i l x, x ∈ ce_arrival (gr_env u i) l -> x ∈ l) |}.
  intros u g ctx reqs isBatch u' after resp [Hmc Harr]. cbn. destruct (gr_groups u !! g) as [bg|] eqn:Hbg.
  - intros H. apply go_bind_ret in H as ([[ms after1] resp1] & Hf & H). simplify_eq. cbn.
    destruct (group_Forward_promise _ _ _ _ _ _ _ _ _ _ _ (Hmc g bg Hbg) (Harr _) Hf) as [Hids Hlen].
    split; [|done]. split; [|done]. intros name bg'. destruct (decide (g = name)) as [<-|Hne].
    + rewrite lookup_insert_eq. intros [= <-]. cbn. by apply (Hmc g).
    + rewrite lookup_insert_ne, lookup_fmap by done. destruct (gr_groups u !! name) as [bg0|] eqn:E; [|done].
      intros [= <-]. cbn. by apply (Hmc name).
  - destruct reqs; [|done]. intros H. by simplify_eq.
Defined.



Section Plain.
Context {EM : ErrorMessages} {G : Geth} {RE : Regexp} {TX : TxLib} {MO : MapOrder} {MOL : MapOrderLaws}.
Context {R : Type} {RR : RateRedis R} {C : Type} {CO : RPCCacheOps C}.
Context {W T : Type} {WO : WindowOps W} {TO : ConsensusTracker T}.
Notation groups := (groups (W := W) (T := T)).



End Plain.

(** ** Exempt user agents *)

(** Exempt user agents are not limited at all: with no exempt origins configured, a call from an exempt
    user agent to a method that is not limited globally is never limited, whatever the
    rate configured for exempt traffic. *)
Theorem exempt_user_agents_unlimited {RE : Regexp} {R C U : Type} {RR : RateRedis R} clock maps domains body auth tmo up served
    cfg senders logs logLen batch factory rules s lims origin userAgent xff method (st : state (R := R) (C := C) (U := U)) :
  NewServer maps domains body auth tmo up served cfg senders logs logLen batch factory rules = inl (s, lims) ->
  ExemptOrigins cfg = [] -> exemptLims (st_lims st) = exemptLims lims ->
  isUnlimitedUserAgent s userAgent = true -> isGlobalLimit s method = false ->
  isLimited clock s origin userAgent xff method st = (st, false).
Proof.
  unfold NewServer. intros H Ho Hl Hua Hg. rewrite Ho in H.
  replace (if 0 <? BaseRate cfg then [] else []) with (@nil string) in H by by destruct (0 <? BaseRate cfg).
  cbn [compile_all] in H. destruct (compile_all _) as [pats|]; [|done]. injection H as _ <-. cbn in Hl.
  unfold isLimited. rewrite Hg, Hua, orb_true_r. cbn [negb andb]. destruct (_ ==s ""); [done|].
  cbn [get_lim]. by rewrite Hl, lookup_empty.
Qed.

(** ** Concrete instances *)

(** Patterns that match themselves, transactions that are their own sender, maps ranged over backwards. *)
#[local] Instance literal_regexp : Regexp := {
  pattern := string; re_Compile s := inl s; re_String s := s; re_MatchString p s := p ==s s }.
#[local] Instance text_tx : TxLib := {
  tx := string; hexutil_Bytes s := inl s; tx_UnmarshalBinary s := inl s; tx_ChainId _ := 56; tx_Nonce _ := 0;
  tx_Sender s := inl s; txpool_ErrInvalidSender := EOther "invalid sender" }.
#[local] Instance backwards : MapOrder := { map_order A l := rev l }.
#[local] Instance backwards_laws : MapOrderLaws.
Proof. split. intros A l. symmetry. apply Permutation_rev. Qed.
#[local] Instance unit_redis : RateRedis unit := { r_IncrExpire _ _ _ r := (r, inl 1) }.
#[local] Existing Instances pad_hash default_messages.

(** Groups that answer every call with [null]. *)
Inductive echo := Echo.
#[local] Instance echo_upstream : Upstream echo := {
  up_Forward g _ reqs _ u := Ret (u, reqs, mkResp (map (fun q => NewRPCRes (req_ID q) (Some (RJson JNull))) reqs) g None);
  up_expired _ := false }.
#[local] Instance echo_laws : UpstreamLaws echo.
Proof.
  refine {| up_ok _ := True |}. intros u g ctx reqs isBatch u' left resp _ H. cbn in H. simplify_eq. split; [done|]. split; [done|].
  intros _. cbn. apply length_map.
Defined.

Definition demo_raw (req : RPCReq) : RawMessage := match req_json req with Some j => Marshal j | None => "" end.

Definition demo_raws : list RawMessage :=
  [demo_raw (demo_request "2" "eth_chainId" (JArr [])); "{";
   demo_raw (demo_request "2" "eth_blockNumber" (JArr [])); demo_raw (demo_request "3" "eth_mining" (JArr []))].

Definition demo_server : Server :=
  mkServer {[ "eth_chainId" := "main"; "eth_blockNumber" := "main" ]} ∅ 4096 {[ "secret" := "alice" ]} 2 10 true [] [] [] ∅
    "X-Forwarded-For" [] (10 * Second) true 0.

Definition demo_limiters : limiters :=
  mkLimiters (Some (limiterFactory false false Minute 5 "main")) ∅ ∅ None.

Definition demo_groups : groups (W := demo_window) (T := ConsensusTrackerState) :=
  mkGroups {[ "main" := demo_group ]} 0 (fun _ => mkEnv Hour id_shuffles demo_group_net id false).

Definition demo_state : state (R := unit) (C := cache (list (string * string))) (U := groups) :=
  mkSt 0 demo_limiters () (mkCache []) demo_groups.

Definition demo_in : http_in :=
  mkIn [] "10.0.0.1:4242" "builder" "secret" (mkSource (chars (demo_raw (demo_request "2" "eth_chainId" (JArr [])))) [] false None).

Lemma demo_groups_ok : up_ok demo_groups.
Proof.
  split; [|done]. intros name bg H. cbn [gr_groups demo_groups] in H. apply lookup_singleton_Some in H as [_ <-]. discriminate.
Qed.

Notation demo_run := (handleBatchRPC (fun _ => Hour) demo_server demo_ctx demo_raws
  (isLimited (fun _ => Hour) demo_server "" "" "10.0.0.1") true "" demo_state).

(** The cache went through some uses. *)
Definition demo_used (c : cache (list (string * string))) : Prop := exists puts, cache_run (mkCache []) puts c.

Lemma calls_answered_in_place_witness :
  exists st' responses cached servedBy, demo_run = Ret (st', BatchDone responses cached servedBy) /\
    all_answered (R := unit) (C := cache (list (string * string))) (U := groups (W := demo_window) (T := ConsensusTrackerState))
      demo_server (getRPCMethodMappings demo_server "") demo_ctx true demo_raws (fun _ => Hour)
      (isLimited (fun _ => Hour) demo_server "" "" "10.0.0.1") demo_used (fun _ => True) responses.
Proof.
  destruct demo_run as [[st' r]|] eqn:E; [|vm_compute in E; discriminate E].
  destruct r as [responses cached servedBy|]; [|vm_compute in E; discriminate E].
  exists st', responses, cached, servedBy. split; [reflexivity|].
  refine (proj1 (calls_answered_in_place (fun _ => Hour) demo_server demo_ctx true demo_raws "" "" "10.0.0.1"
    demo_used (fun _ => True) _ _ _ demo_state st' responses cached servedBy _ _ E)).
  - intros req c c' r (puts & Hrun) Hg. exists puts. eapply run_get; [exact Hrun|exact Hg].
  - intros req res c c' e (puts & Hrun) Hp. exists ((req, res) :: puts). eapply run_put; [exact Hrun|exact Hp].
  - done.
  - reflexivity.
  - split; [exact Logic.I|]. split; [exact demo_groups_ok|]. exists []. apply run_start.
Defined.

Lemma upstream_sees_permitted_batches_witness :
  exists st' r, demo_run = Ret (st', r) /\ gr_groups (st_up st') !! "other" = None.
Proof.
  destruct demo_run as [[st' r]|] eqn:E; [|vm_compute in E; discriminate E]. exists st', r. split; [reflexivity|].
  refine (upstream_sees_permitted_batches (fun _ => Hour) demo_server demo_ctx true demo_raws "" "" "10.0.0.1"
    (fun u => gr_groups u !! "other" = None) demo_state st' r _ demo_groups_ok _ _ E); [reflexivity| |reflexivity].
  intros u group reqs u' after resp Hu [Hne _ _ Hcalls] Hf.
  assert (Hg : group = "main").
  { destruct reqs as [|req reqs]; [by destruct Hne|]. destruct (Hcalls req (list_elem_of_here _ _)) as (raw & _ & Hfw).
    pose proof (fw_whitelisted _ _ _ _ _ Hfw) as Hw. cbn in Hw. apply lookup_insert_Some in Hw as [[_ <-]|[_ Hw]]; [reflexivity|].
    by apply lookup_singleton_Some in Hw as [_ <-]. }
  subst group. cbn in Hf. destruct (gr_groups u !! "main") as [bg|].
  - apply go_bind_ret in Hf as ([[ms after1] resp1] & _ & Hf). injection Hf as <- _ _. cbn.
    rewrite lookup_insert_ne, lookup_fmap by discriminate. by rewrite Hu.
  - destruct reqs; [by destruct Hne|discriminate Hf].
Defined.

Lemma effects_guarded_witness :
  exists st' out, HandleRPC (fun _ => Hour) demo_server (fun _ => 512%nat) demo_in demo_state = Ret (st', out) /\
    out_status out = 200 /\
    exists ctx isBatch raws, populateContext demo_server demo_in = Some ctx /\ authorized demo_server demo_in /\
      calls_of demo_server demo_in isBatch raws.
Proof.
  destruct (HandleRPC (fun _ => Hour) demo_server (fun _ => 512%nat) demo_in demo_state) as [[st' out]|] eqn:E;
    [|vm_compute in E; discriminate E].
  assert (Hout : out_status out = 200) by (vm_compute in E; injection E as _ <-; reflexivity).
  exists st', out. split; [reflexivity|]. split; [exact Hout|].
  destruct (effects_guarded (fun _ => Hour) demo_server (fun _ => 512%nat) demo_in demo_state st' out E)
    as [[Hst _]|(ctx & isBatch & raws & res & Ha & Hc & _ & _ & _ & Hcalls & _)].
  - exfalso. vm_compute in E. injection E as Hst' _. subst st'. discriminate Hst.
  - exists ctx, isBatch, raws. split; [exact Hc|]. split; [exact Ha|exact Hcalls].
Defined.







Definition demo_limits : RateLimitConfig := mkRateLimit false 5 Minute [] ["probe"] 1 Minute ∅ "" ∅ "".

Lemma exempt_user_agents_unlimited_witness :
  exists s lims, NewServer ∅ ∅ 0 ∅ 0 0 false demo_limits (mkSenderLimit false 0 0 []) false 0 0 (limiterFactory false false) []
      = inl (s, lims) /\
    isLimited (fun _ => Hour) s "" "probe" "10.0.0.1" "eth_call" (mkSt 0 lims () noopRPCCache Echo)
      = (mkSt 0 lims () noopRPCCache Echo, false).
Proof.
  destruct (NewServer ∅ ∅ 0 ∅ 0 0 false demo_limits (mkSenderLimit false 0 0 []) false 0 0 (limiterFactory false false) [])
    as [[s lims]|] eqn:E; [|vm_compute in E; discriminate E]. exists s, lims. split; [reflexivity|].
  refine (exempt_user_agents_unlimited _ _ _ _ _ _ _ _ _ _ _ _ _ _ _ s lims "" "probe" "10.0.0.1" "eth_call" _ E _ _ _ _);
    [reflexivity|reflexivity| |]; vm_compute in E; injection E as <- _; vm_compute; reflexivity.
Defined.
