(* ===== verification/Metrics.v ===== *)
(** * Metrics: [metrics.go]

    The metrics of the proxy with their labels, and the functions that record them. A
    recording is the list of calls it makes to the Prometheus library, each a metric,
    the values of its labels and an operation. The library is a parameter: registering
    a malformed or duplicate metric panics, and so does a call with the wrong number of
    label values or with one that is not UTF-8. *)

From stdpp Require Import base list strings gmap.
From Stdlib Require Import ZArith QArith Lia Ascii.
From Stdlib Require Strings.String.
From S2P Require Import Prelude Float64 SlidingWindow SlidingWindowRefinement Json JsonRoundtrip Geth Rpc Reader Backend Tracker Poller Group RateLimiter Server ServerCorrect.

Local Open Scope Z_scope.

(** ** The metrics *)

Inductive metric_kind := Counter | Gauge | Summary | Histogram.

Record metric := mkMetric {
  m_kind : metric_kind;
  m_name : string;
  m_help : string;
  m_labels : list string;
  m_buckets : list Z;
  m_objectives : list (Q * Q);
}.

#[export] Instance metric_kind_eq_dec : EqDecision metric_kind.
Proof. solve_decision. Defined.

Definition MetricsNamespace : string := "proxyd".
Definition RPCRequestSourceHTTP : string := "http".
Definition RPCRequestSourceWS : string := "ws".
Definition BackendProxyd : string := "proxyd".
Definition SourceClient : string := "client".
Definition SourceBackend : string := "backend".
Definition MethodUnknown : string := "unknown".

Definition PayloadSizeBuckets : list Z := [10; 50; 100; 500; 1000; 5000; 10000; 100000; 1000000].
Definition MillisecondDurationBuckets : list Z := [1; 10; 50; 100; 500; 1000; 5000; 10000; 100000].
Definition DefObjectives : list (Q * Q) := [(1 # 2, 1 # 20); (9 # 10, 1 # 100); (95 # 100, 5 # 1000); (99 # 100, 1 # 1000)].

Definition rpcRequestsTotal : metric :=
  mkMetric Counter "rpc_requests_total" "Count of total client RPC requests." [] [] [].
Definition rpcForwardsTotal : metric :=
  mkMetric Counter "rpc_forwards_total" "Count of total RPC requests forwarded to each backend." ["auth"; "backend_name"; "method_name"; "source"; "origin"] [] [].
Definition rpcBackendHTTPResponseCodesTotal : metric :=
  mkMetric Counter "rpc_backend_http_response_codes_total" "Count of total backend responses by HTTP status code." ["auth"; "backend_name"; "method_name"; "status_code"; "batched"] [] [].
Definition rpcErrorsTotal : metric :=
  mkMetric Counter "rpc_errors_total" "Count of total RPC errors." ["auth"; "backend_name"; "method_name"; "error_code"] [] [].
Definition rpcSpecialErrorsTotal : metric :=
  mkMetric Counter "rpc_special_errors_total" "Count of total special RPC errors." ["auth"; "backend_name"; "method_name"; "error_type"] [] [].
Definition rpcBackendRequestDurationSumm : metric :=
  mkMetric Summary "rpc_backend_request_duration_seconds" "Summary of backend response times broken down by backend and method name." ["backend_name"; "method_name"; "batched"] [] DefObjectives.
Definition activeClientWsConnsGauge : metric :=
  mkMetric Gauge "active_client_ws_conns" "Gauge of active client WS connections." ["auth"] [] [].
Definition activeBackendWsConnsGauge : metric :=
  mkMetric Gauge "active_backend_ws_conns" "Gauge of active backend WS connections." ["backend_name"] [] [].
Definition unserviceableRequestsTotal : metric :=
  mkMetric Counter "unserviceable_requests_total" "Count of total requests that were rejected due to no backends being available." ["auth"; "request_source"] [] [].
Definition httpResponseCodesTotal : metric :=
  mkMetric Counter "http_response_codes_total" "Count of total HTTP response codes." ["status_code"] [] [].
Definition httpRequestDurationSumm : metric :=
  mkMetric Summary "http_request_duration_seconds" "Summary of HTTP request durations, in seconds." [] [] DefObjectives.
Definition wsMessagesTotal : metric :=
  mkMetric Counter "ws_messages_total" "Count of total websocket messages including protocol control." ["auth"; "backend_name"; "source"] [] [].
Definition redisErrorsTotal : metric :=
  mkMetric Counter "redis_errors_total" "Count of total Redis errors." ["source"] [] [].
Definition requestPayloadSizesGauge : metric :=
  mkMetric Histogram "request_payload_sizes" "Histogram of client request payload sizes." ["auth"] PayloadSizeBuckets [].
Definition responsePayloadSizesGauge : metric :=
  mkMetric Histogram "response_payload_sizes" "Histogram of client response payload sizes." ["auth"] PayloadSizeBuckets [].
Definition cacheHitsTotal : metric :=
  mkMetric Counter "cache_hits_total" "Number of cache hits." ["method"] [] [].
Definition cacheMissesTotal : metric :=
  mkMetric Counter "cache_misses_total" "Number of cache misses." ["method"] [] [].
Definition cacheErrorsTotal : metric :=
  mkMetric Counter "cache_errors_total" "Number of cache errors." ["method"] [] [].
Definition batchRPCShortCircuitsTotal : metric :=
  mkMetric Counter "batch_rpc_short_circuits_total" "Count of total batch RPC short-circuits." [] [] [].
Definition redisCacheDurationSumm : metric :=
  mkMetric Histogram "redis_cache_duration_milliseconds" "Histogram of Redis command durations, in milliseconds." ["command"] MillisecondDurationBuckets [].
Definition tooManyRequestErrorsTotal : metric :=
  mkMetric Counter "too_many_request_errors_total" "Count of request timeouts due to too many concurrent RPCs." ["backend_name"] [] [].
Definition batchSizeHistogram : metric :=
  mkMetric Histogram "batch_size_summary" "Summary of batch sizes" [] [1; 5; 10; 25; 50; 100] [].
Definition frontendRateLimitTakeErrors : metric :=
  mkMetric Counter "rate_limit_take_errors" "Count of errors taking frontend rate limits" [] [] [].
Definition consensusLatestBlock : metric :=
  mkMetric Gauge "group_consensus_latest_block" "Consensus latest block" ["backend_group_name"] [] [].
Definition consensusSafeBlock : metric :=
  mkMetric Gauge "group_consensus_safe_block" "Consensus safe block" ["backend_group_name"] [] [].
Definition consensusFinalizedBlock : metric :=
  mkMetric Gauge "group_consensus_finalized_block" "Consensus finalized block" ["backend_group_name"] [] [].
Definition consensusHAError : metric :=
  mkMetric Counter "group_consensus_ha_error" "Consensus HA error count" ["error"] [] [].
Definition consensusHALatestBlock : metric :=
  mkMetric Gauge "group_consensus_ha_latest_block" "Consensus HA latest block" ["backend_group_name"; "leader"] [] [].
Definition consensusHASafeBlock : metric :=
  mkMetric Gauge "group_consensus_ha_safe_block" "Consensus HA safe block" ["backend_group_name"; "leader"] [] [].
Definition consensusHAFinalizedBlock : metric :=
  mkMetric Gauge "group_consensus_ha_finalized_block" "Consensus HA finalized block" ["backend_group_name"; "leader"] [] [].
Definition backendLatestBlockBackend : metric :=
  mkMetric Gauge "backend_latest_block" "Current latest block observed per backend" ["backend_name"] [] [].
Definition backendSafeBlockBackend : metric :=
  mkMetric Gauge "backend_safe_block" "Current safe block observed per backend" ["backend_name"] [] [].
Definition backendFinalizedBlockBackend : metric :=
  mkMetric Gauge "backend_finalized_block" "Current finalized block observed per backend" ["backend_name"] [] [].
Definition backendUnexpectedBlockTagsBackend : metric :=
  mkMetric Gauge "backend_unexpected_block_tags" "Bool gauge for unexpected block tags" ["backend_name"] [] [].
Definition consensusGroupCount : metric :=
  mkMetric Gauge "group_consensus_count" "Consensus group serving traffic count" ["backend_group_name"] [] [].
Definition consensusGroupFilteredCount : metric :=
  mkMetric Gauge "group_consensus_filtered_count" "Consensus group filtered out from serving traffic count" ["backend_group_name"] [] [].
Definition consensusGroupTotalCount : metric :=
  mkMetric Gauge "group_consensus_total_count" "Total count of candidates to be part of consensus group" ["backend_group_name"] [] [].
Definition consensusBannedBackends : metric :=
  mkMetric Gauge "consensus_backend_banned" "Bool gauge for banned backends" ["backend_name"] [] [].
Definition consensusPeerCountBackend : metric :=
  mkMetric Gauge "consensus_backend_peer_count" "Peer count" ["backend_name"] [] [].
Definition consensusInSyncBackend : metric :=
  mkMetric Gauge "consensus_backend_in_sync" "Bool gauge for backends in sync" ["backend_name"] [] [].
Definition consensusUpdateDelayBackend : metric :=
  mkMetric Gauge "consensus_backend_update_delay" "Delay (ms) for backend update" ["backend_name"] [] [].
Definition avgLatencyBackend : metric :=
  mkMetric Gauge "backend_avg_latency" "Average latency per backend" ["backend_name"] [] [].
Definition degradedBackends : metric :=
  mkMetric Gauge "backend_degraded" "Bool gauge for degraded backends" ["backend_name"] [] [].
Definition networkErrorRateBackend : metric :=
  mkMetric Gauge "backend_error_rate" "Request error rate per backend" ["backend_name"] [] [].
Definition healthyPrimaryCandidates : metric :=
  mkMetric Gauge "healthy_candidates" "Record the number of healthy primary candidates" ["backend_group_name"] [] [].
Definition backendGroupFallbackBackend : metric :=
  mkMetric Gauge "backend_group_fallback_backenend" "Bool gauge for if a backend is a fallback for a backend group" ["backend_group"; "backend_name"; "fallback"] [] [].
Definition backendGroupMulticallCounter : metric :=
  mkMetric Counter "backend_group_multicall_request_counter" "Record the amount of multicall requests" ["backend_group"; "backend_name"] [] [].
Definition backendGroupMulticallCompletionCounter : metric :=
  mkMetric Counter "backend_group_multicall_completion_counter" "Record the amount of completed multicall requests" ["backend_group"; "backend_name"; "error"] [] [].

Definition rpcSpecialErrors : list string :=
  ["nonce too low"; "gas price too high"; "gas price too low"; "invalid parameters"; "txpool is full"; "pool is full";
   "pool overflow"; "transaction pool is full"; "insufficient funds"; "replacement underpriced";
   "replacement transaction underpriced"; "already known"; "max initcode size exceeded"; "insufficient balance";
   "gas limit exceeded"; "intrinsic gas too low"].

(** In the order of their initialisation. *)
Definition all_metrics : list metric :=
  [rpcRequestsTotal; rpcForwardsTotal; rpcBackendHTTPResponseCodesTotal; rpcErrorsTotal;
   rpcSpecialErrorsTotal; rpcBackendRequestDurationSumm; activeClientWsConnsGauge; activeBackendWsConnsGauge;
   unserviceableRequestsTotal; httpResponseCodesTotal; httpRequestDurationSumm; wsMessagesTotal;
   redisErrorsTotal; requestPayloadSizesGauge; responsePayloadSizesGauge; cacheHitsTotal;
   cacheMissesTotal; cacheErrorsTotal; batchRPCShortCircuitsTotal; redisCacheDurationSumm;
   tooManyRequestErrorsTotal; batchSizeHistogram; frontendRateLimitTakeErrors; consensusLatestBlock;
   consensusSafeBlock; consensusFinalizedBlock; consensusHAError; consensusHALatestBlock;
   consensusHASafeBlock; consensusHAFinalizedBlock; backendLatestBlockBackend; backendSafeBlockBackend;
   backendFinalizedBlockBackend; backendUnexpectedBlockTagsBackend; consensusGroupCount; consensusGroupFilteredCount;
   consensusGroupTotalCount; consensusBannedBackends; consensusPeerCountBackend; consensusInSyncBackend;
   consensusUpdateDelayBackend; avgLatencyBackend; degradedBackends; networkErrorRateBackend;
   healthyPrimaryCandidates; backendGroupFallbackBackend; backendGroupMulticallCounter; backendGroupMulticallCompletionCounter].

Definition fq_name (m : metric) : string := (MetricsNamespace +:+ "_" +:+ m_name m).

(** ** Calls to the library *)

Inductive metric_op := Inc | Dec | Set_ (v : Q) | Observe (v : Q).

(** [vec.WithLabelValues(values...).op()]. *)
Record sample := mkSample {
  s_metric : metric;
  s_values : list string;
  s_op : metric_op;
}.

Class Prometheus (P : Type) := {
  prom_register : metric -> P -> go P;
  prom_call : sample -> P -> go P;
}.

(** Names of metrics and labels: a letter or underscore, then letters, digits and underscores. *)
Definition is_letter (c : ascii) : bool := between 65 90 c || between 97 122 c.
Definition name_char (c : ascii) : bool := is_letter c || is_digit c || (code c =? 95)%N.

Definition valid_name (s : string) : bool :=
  match chars s with
  | c :: cs => (is_letter c || (code c =? 95)%N) && forallb name_char cs
  | [] => false
  end.

Fixpoint increasing (l : list Z) : bool :=
  match l with
  | a :: ((b :: _) as l') => (a <? b) && increasing l'
  | _ => true
  end.

(** What the library accepts when a metric is registered. *)
Definition wf_metric (m : metric) : bool :=
  valid_name (fq_name m) && forallb valid_name (m_labels m) && bool_decide (NoDup (m_labels m)) &&
  increasing (m_buckets m) &&
  match m_kind m with
  | Histogram => negb (existsb (fun l => l ==s "le") (m_labels m))
  | Summary => negb (existsb (fun l => l ==s "quantile") (m_labels m))
  | _ => true
  end.

(** A registry knows the registered metrics by name and the calls made for each series. *)
Class PrometheusLaws (P : Type) {PO : Prometheus P} := {
  p_desc : P -> string -> option metric;
  p_series : P -> string -> list string -> list metric_op;
  register_fresh m p : wf_metric m = true -> p_desc p (fq_name m) = None ->
    exists p', prom_register m p = Ret p' /\
      (forall n, p_desc p' n = if n ==s fq_name m then Some m else p_desc p n) /\
      (forall n vs, p_series p' n vs = p_series p n vs);
  register_taken m m' p : p_desc p (fq_name m) = Some m' -> exists msg, prom_register m p = Panic msg;
  call_ok s p : p_desc p (fq_name (s_metric s)) = Some (s_metric s) ->
    length (s_values s) = length (m_labels (s_metric s)) -> forallb str_ok (s_values s) = true ->
    exists p', prom_call s p = Ret p' /\ (forall n, p_desc p' n = p_desc p n) /\
      (forall n vs, p_series p' n vs =
        if bool_decide (n = fq_name (s_metric s) /\ vs = s_values s) then p_series p n vs ++ [s_op s] else p_series p n vs);
  call_count s p : p_desc p (fq_name (s_metric s)) = Some (s_metric s) ->
    length (s_values s) <> length (m_labels (s_metric s)) -> exists msg, prom_call s p = Panic msg;
  call_utf8 s p : p_desc p (fq_name (s_metric s)) = Some (s_metric s) ->
    forallb str_ok (s_values s) = false -> exists msg, prom_call s p = Panic msg;
}.

Section Emit.
Context {P : Type} {PO : Prometheus P}.

(** The package initialisation, and a sequence of calls. *)
Definition init_metrics (p : P) : go P := go_fold (fun p m => prom_register m p) p all_metrics.
Definition emit (ss : list sample) (p : P) : go P := go_fold (fun p s => prom_call s p) p ss.

End Emit.

(** ** Strings *)

(** [strings.ToLower], up to what is not ASCII in the result: besides the ASCII letters, the only
    letters with an ASCII lower case are the Kelvin sign and the dotted capital I. *)
Fixpoint to_lower (s : bytes) : bytes :=
  match s with
  | [] => []
  | c :: s' =>
      if between 65 90 c then chr (code c + 32) :: to_lower s'
      else match s' with
           | c2 :: s2 =>
               if (code c =? 196)%N && (code c2 =? 176)%N then chr 105 :: to_lower s2
               else match s2 with
                    | c3 :: s3 =>
                        if (code c =? 226)%N && (code c2 =? 132)%N && (code c3 =? 170)%N then chr 107 :: to_lower s3
                        else c :: to_lower s'
                    | [] => c :: to_lower s'
                    end
           | [] => [c]
           end
  end.

Definition ToLower (s : string) : string := str (to_lower (chars s)).

Fixpoint is_prefix (p s : bytes) : bool :=
  match p, s with
  | [], _ => true
  | a :: p', b :: s' => Ascii.eqb a b && is_prefix p' s'
  | _, [] => false
  end.

Fixpoint contains (s p : bytes) : bool :=
  is_prefix p s || match s with [] => false | _ :: s' => contains s' p end.

(** [strings.Contains]. *)
Definition Contains (s substr : string) : bool := contains (chars s) (chars substr).



Definition Itoa (n : Z) : string := int_string n.



(** ** The recordings *)

Section Record_.
Context {EM : ErrorMessages} {W : Type} {WO : WindowOps W} {T : Type}.
Notation Backend := (Backend (W := W)).
Notation BackendGroup := (BackendGroup (W := W) (T := T)).


(** The first special error that the message contains. *)
Definition MaybeRecordSpecialRPCError (ctx : Ctx) (backendName method : string) (rpcErr : RPCErr) : list sample :=
  let errMsg := ToLower (Message rpcErr) in
  match List.find (fun errStr => Contains errMsg errStr) rpcSpecialErrors with
  | Some errStr => [mkSample rpcSpecialErrorsTotal [GetAuthCtx ctx; backendName; method; errStr] Inc]
  | None => []
  end.

Definition RecordRPCError (ctx : Ctx) (backendName method : string) (err : error) : list sample :=
  match as_RPCErr err with
  | Some rpcErr =>
      MaybeRecordSpecialRPCError ctx backendName method rpcErr ++
      [mkSample rpcErrorsTotal [GetAuthCtx ctx; backendName; method; Itoa (Code rpcErr)] Inc]
  | None => [mkSample rpcErrorsTotal [GetAuthCtx ctx; backendName; method; Itoa (-1)] Inc]
  end.



Definition RecordRPCForward (ctx : Ctx) (backendName method source : string) : list sample :=
  let origin := if GetOriginCtx ctx ==s "" then "unknown" else GetOriginCtx ctx in
  [mkSample rpcForwardsTotal [GetAuthCtx ctx; backendName; method; source; origin] Inc].







Definition RecordBatchRPCForward (ctx : Ctx) (backendName : string) (reqs : list RPCReq) (source : string) : list sample :=
  concat (map (fun req => RecordRPCForward ctx backendName (req_Method req) source) reqs).

(** The responses with an error are recorded under the method of the request at the same index. *)
Fixpoint record_errors (ctx : Ctx) (backendName : string) (reqs : list RPCReq) (i : nat) (resBatch : list RPCRes) : go (list sample) :=
  match resBatch with
  | [] => Ret []
  | res :: rest =>
      match res_Error res with
      | Some err =>
          req ← go_index reqs i;
          ss ← record_errors ctx backendName reqs (S i) rest;
          Ret (RecordRPCError ctx backendName (req_Method req) (ERpc err) ++ ss)
      | None => record_errors ctx backendName reqs (S i) rest
      end
  end.

Definition MaybeRecordErrorsInRPCRes (ctx : Ctx) (backendName : string) (reqs : list RPCReq) (resBatch : list RPCRes)
  : go (list sample) := record_errors ctx backendName reqs 0 resBatch.

(** The metrics that the code uses without a function of their own. *)
Definition metricLabelMethod (reqs : list RPCReq) (isBatch : bool) : go string :=
  req ← go_index reqs 0; Ret (if isBatch then "<batch>" else req_Method req).



End Record_.

(** ** Every recording is well typed *)

Section Typed.
Context {EM : ErrorMessages} {W : Type} {WO : WindowOps W} {T : Type}.
Notation Backend := (Backend (W := W)).
Notation BackendGroup := (BackendGroup (W := W) (T := T)).

Notation ok s := (str_ok s = true) (only parsing).










Ltac in_metrics := unfold all_metrics; repeat (first [apply list_elem_of_here|apply list_elem_of_further]).






(** ** The registry *)

Context {P : Type} {PO : Prometheus P} {PL : PrometheusLaws P}.

Definition registered (p : P) : Prop := forall m, m ∈ all_metrics -> p_desc p (fq_name m) = Some m.


Lemma register_all ms : forall p,
  Forall (fun m => wf_metric m = true /\ p_desc p (fq_name m) = None) ms -> NoDup (map fq_name ms) ->
  exists p', go_fold (fun p m => prom_register m p) p ms = Ret p' /\
    (forall m, m ∈ ms -> p_desc p' (fq_name m) = Some m) /\
    (forall n, n ∉ map fq_name ms -> p_desc p' n = p_desc p n) /\ (forall n vs, p_series p' n vs = p_series p n vs).
Proof.
  induction ms as [|m ms IH]; intros p Hok Hnd; cbn [go_fold].
  { exists p. split; [done|]. split; [by intros m ?%elem_of_nil|done]. }
  apply Forall_cons in Hok as [[Hwf Hnone] Hok]. cbn in Hnd. apply NoDup_cons in Hnd as [Hm Hnd].
  destruct (register_fresh m p Hwf Hnone) as (p1 & -> & Hd1 & Hs1). go_simpl.
  destruct (IH p1) as (p' & -> & H1 & H2 & H3); [|done|].
  { apply Forall_forall. intros m' Hm'. rewrite Forall_forall in Hok. destruct (Hok m' Hm') as [Hw Hn]. split; [done|].
    rewrite Hd1. destruct (streq_spec (fq_name m') (fq_name m)) as [E|]; [|done].
    exfalso. apply Hm. rewrite <- E. by apply (list_elem_of_fmap_2 fq_name). }
  exists p'. split; [done|]. split; [|split; [|intros; by rewrite H3, Hs1]].
  - intros m' [->|Hm']%elem_of_cons; [|by apply H1]. rewrite H2 by done. by rewrite Hd1, streq_refl.
  - intros n Hn. cbn in Hn. apply not_elem_of_cons in Hn as [Hne Hn]. rewrite H2, Hd1 by done. by destruct (streq_spec n (fq_name m)).
Qed.


Lemma all_metrics_wf : forallb wf_metric all_metrics = true /\ NoDup (map fq_name all_metrics).
Proof. split; [vm_compute; reflexivity|]. apply (bool_decide_eq_true_1 (NoDup (map fq_name all_metrics))). vm_compute. reflexivity. Qed.

Lemma init_registered p0 : (forall m, m ∈ all_metrics -> p_desc p0 (fq_name m) = None) ->
  exists p, init_metrics p0 = Ret p /\ registered p /\ forall n vs, p_series p n vs = p_series p0 n vs.
Proof.
  intros H0. destruct all_metrics_wf as [Hwf Hnd]. destruct (register_all all_metrics p0) as (p & Hp & H1 & _ & H3); [|done|].
  - apply Forall_forall. intros m Hm. split; [|by apply H0]. rewrite forallb_forall in Hwf. by apply Hwf, list_elem_of_In.
  - exists p. done.
Qed.


(** A host name that is not UTF-8 makes the forward panic. For every request that the server accepts
    with an X-Forwarded-Host header that is not UTF-8, recording the
    forward of its calls, which is the first thing a backend does with them, panics: the
    header is a label value as it is. In a multicall that is a goroutine without recovery. *)
Theorem invalid_host_panics {RE : Regexp} srv r ctx name reqs source (p : P) :
  populateContext srv r = Some ctx -> str_ok (Header_Get (in_Header r) "X-Forwarded-Host") = false ->
  reqs <> [] -> registered p ->
  exists msg, emit (RecordBatchRPCForward ctx name reqs source) p = Panic msg.
Proof.
  intros Hctx Hbad Hne Hreg. assert (Ho : GetOriginCtx ctx = Header_Get (in_Header r) "X-Forwarded-Host").
  { unfold populateContext in Hctx. destruct (0 <? _)%nat; [destruct (_ || _); [done|]|]; by injection Hctx as <-. }
  destruct reqs as [|req reqs]; [done|]. unfold RecordBatchRPCForward. cbn [map concat]. unfold RecordRPCForward at 1. rewrite Ho.
  destruct (streq_spec (Header_Get (in_Header r) "X-Forwarded-Host") "") as [E|_]; [by rewrite E in Hbad|].
  cbn [app emit go_fold].
  destruct (call_utf8 (mkSample rpcForwardsTotal [GetAuthCtx ctx; name; req_Method req; source;
    Header_Get (in_Header r) "X-Forwarded-Host"] Inc) p) as [msg Hm].
  - apply Hreg. in_metrics.
  - cbn [s_values forallb]. rewrite Hbad. by rewrite !andb_false_r.
  - exists msg. by rewrite Hm.
Qed.

(** No index out of range when every response has a request. *)
Lemma record_errors_returns ctx name reqs rs : forall i, (i + length rs <= length reqs)%nat ->
  exists ss, record_errors ctx name reqs i rs = Ret ss.
Proof.
  induction rs as [|r rs IH]; intros i Hi; cbn [record_errors]; [by eauto|]. cbn [length] in Hi.
  destruct (IH (S i)) as [ss ->]; [lia|]. destruct (res_Error r); [|by eauto].
  unfold go_index. destruct (lookup_lt_is_Some_2 reqs i) as [req ->]; [lia|]. go_simpl. eauto.
Qed.

End Typed.

(** ** A registry *)

#[local] Existing Instance default_messages.

Record registry := mkRegistry {
  reg_descs : gmap string metric;
  reg_series : gmap (string * list string) (list metric_op);
}.

Definition reg_ops (p : registry) (n : string) (vs : list string) : list metric_op := default [] (reg_series p !! (n, vs)).

#[export] Instance map_prometheus : Prometheus registry := {
  prom_register m p :=
    if negb (wf_metric m) then Panic "invalid metric"
    else match reg_descs p !! fq_name m with
         | Some _ => Panic "duplicate metrics collector registration attempted"
         | None => Ret (mkRegistry (<[fq_name m := m]> (reg_descs p)) (reg_series p))
         end;
  prom_call s p :=
    if negb (length (s_values s) =? length (m_labels (s_metric s)))%nat then Panic "inconsistent label cardinality"
    else if negb (forallb str_ok (s_values s)) then Panic "label value is not valid UTF-8"
    else let n := fq_name (s_metric s) in
         Ret (mkRegistry (reg_descs p) (<[(n, s_values s) := reg_ops p n (s_values s) ++ [s_op s]]> (reg_series p)));
}.

#[export] Instance map_prometheus_laws : PrometheusLaws registry.
Proof.
  refine (Build_PrometheusLaws registry _ (fun p n => reg_descs p !! n) reg_ops _ _ _ _ _).
  - intros m p Hwf Hn. cbn. rewrite Hwf, Hn. cbn [negb]. eexists. split; [done|]. split; [|done]. intros n. cbn.
    destruct (streq_spec n (fq_name m)) as [->|]; [by rewrite lookup_insert_eq|by rewrite lookup_insert_ne].
  - intros m m' p H. cbn. rewrite H. destruct (negb _); eauto.
  - intros s p _ Hl Ho. cbn. rewrite Hl, Nat.eqb_refl, Ho. cbn [negb]. eexists. split; [done|]. split; [done|]. intros n vs.
    unfold reg_ops at 1. cbn. case_bool_decide as E.
    + destruct E as [-> ->]. by rewrite lookup_insert_eq.
    + rewrite lookup_insert_ne; [done|]. intros [= <- <-]. by apply E.
  - intros s p _ Hl. cbn. apply Nat.eqb_neq in Hl. rewrite Hl. eauto.
  - intros s p _ Ho. cbn. rewrite Ho. destruct (negb (_ =? _)%nat); eauto.
Defined.


(** A request whose host is the byte 255. *)
Definition demo_bad_host : http_in :=
  mkIn [("X-Forwarded-Host", str [chr 255])] "10.0.0.1:4242" "builder" "secret" (mkSource [] [] false None).

Lemma invalid_host_panics_witness :
  exists p ctx msg, init_metrics (mkRegistry ∅ ∅) = Ret p /\ populateContext demo_server demo_bad_host = Some ctx /\
    emit (RecordBatchRPCForward ctx "b1" [demo_request "1" "eth_chainId" (JArr [])] RPCRequestSourceHTTP) p = Panic msg.
Proof.
  destruct (init_registered (mkRegistry ∅ ∅)) as (p & Hp & Hreg & _); [intros m _; apply lookup_empty|].
  destruct (populateContext demo_server demo_bad_host) as [ctx|] eqn:E; [|vm_compute in E; discriminate E].
  destruct (invalid_host_panics demo_server demo_bad_host ctx "b1" [demo_request "1" "eth_chainId" (JArr [])]
    RPCRequestSourceHTTP p E) as [msg Hm]; [reflexivity|discriminate|exact Hreg|].
  exists p, ctx, msg. split; [exact Hp|]. split; [reflexivity|exact Hm].
Defined.
