(* ===== verification/WS.v ===== *)
(** * WebSocket proxy: [WSProxier] of [backend.go], [string_set.go], [HandleWS] of [server.go]

    A proxied connection is two loops that run concurrently: one reads messages of the
    client and writes them to the backend, or answers them itself; the other relays
    the messages of the backend to the client. They are modelled as a step relation
    over the messages read and written, with the writes of the two loops interleaved
    in any order, and any write failing at any time. *)

From stdpp Require Import base list gmap strings.
From Stdlib Require Import ZArith Lia Ascii.
From Stdlib Require Strings.String.
From S2P Require Import Prelude SlidingWindow SlidingWindowRefinement Json JsonRoundtrip Geth Rpc Backend Poller Group Server.

Local Open Scope Z_scope.

(** ** String sets *)

Record StringSet := mkStringSet { underlying : gmap string bool }.

Definition NewStringSet : StringSet := mkStringSet ∅.

Definition set_Has (s : StringSet) (test : string) : bool := default false (underlying s !! test).

Definition set_Add (s : StringSet) (str : string) : StringSet := mkStringSet (<[str := true]> (underlying s)).

Definition NewStringSetFromStrings (strs : list string) : StringSet :=
  mkStringSet (foldl (fun m str => <[str := true]> m) ∅ strs).

(** In the order in which the map is ranged over. *)
Definition set_Entries {MO : MapOrder} (s : StringSet) : list string := map_order (map fst (map_to_list (underlying s))).

Definition set_Extend {MO : MapOrder} (s : StringSet) (strs : list string) : StringSet :=
  foldl set_Add (NewStringSetFromStrings strs) (map_order (map fst (map_to_list (underlying s)))).

(** ** Messages *)

Definition TextMessage : Z := 1.
Definition BinaryMessage : Z := 2.
Definition CloseMessage : Z := 8.
Definition CloseNormalClosure : Z := 1000.
Definition CloseNoStatusReceived : Z := 1005.

(** An error of a connection: a close frame of the peer, or anything else. *)
Inductive conn_error :=
| CloseError (code : Z) (text : string)
| OtherError (msg : string).

(** [websocket.FormatCloseMessage], and the text of a close error. *)
Class WebSocket := {
  FormatCloseMessage : Z -> string -> string;
  close_error_text : Z -> string -> string;
}.

(** What [ReadMessage] returns: on an error there may still be a type and a part of a message. *)
Record message := mkMsg { m_type : Z; m_data : string; m_err : option conn_error }.

(** A write of a loop to the client or to the backend. *)
Inductive peer := ToClient | ToBackend.

#[export] Instance peer_eq_dec : EqDecision peer.
Proof. solve_decision. Defined.

Record frame := mkFrame { f_to : peer; f_type : Z; f_data : string }.

Definition is_data (t : Z) : bool := (t =? TextMessage) || (t =? BinaryMessage).

Section WS.
Context {EM : ErrorMessages} {G : Geth} {WS : WebSocket}.
Variable methodWhitelist : StringSet.

Definition formatWSError (err : conn_error) : string :=
  match err with
  | CloseError code text =>
      if negb (code =? CloseNoStatusReceived) then FormatCloseMessage code text
      else FormatCloseMessage CloseNormalClosure (close_error_text code text)
  | OtherError msg => FormatCloseMessage CloseNormalClosure msg
  end.

(** The request, if it parses, and the error. *)
Definition prepareClientMsg (msg : string) : option RPCReq * option error :=
  match ParseRPCReq msg with
  | inr err => (None, Some err)
  | inl req =>
      if negb (set_Has methodWhitelist (req_Method req)) then (Some req, Some (ESentinel ErrMethodNotWhitelisted))
      else (Some req, None)
  end.

Definition parseBackendMsg (msg : string) : RPCRes + error :=
  match UnmarshalRPCRes msg with
  | None => inr (ESentinel ErrBackendBadResponse)
  | Some res => inl res
  end.

Definition mustMarshalJSON (res : RPCRes) : go string :=
  match MarshalJSON res with
  | Some j => Ret (Marshal j)
  | None => Panic "json: error calling MarshalJSON"
  end.

(** An iteration of a loop: the writes for the message it read, in order. *)
Definition close_frames (to : peer) (m : message) : list frame :=
  match m_err m with
  | Some err => [mkFrame to CloseMessage (formatWSError err)]
  | None => []
  end.

Definition clientPump (m : message) : go (list frame) :=
  fs ← (if negb (is_data (m_type m)) then Ret [mkFrame ToBackend (m_type m) (m_data m)]
        else match prepareClientMsg (m_data m) with
        | (req, Some err) =>
            msg ← mustMarshalJSON (NewRPCErrorRes (match req with Some r => req_ID r | None => "" end) err);
            Ret [mkFrame ToClient (m_type m) msg]
        | (None, None) => Panic "nil pointer dereference"
        | (Some req, None) =>
            if req_Method req ==s "eth_accounts" then
              msg ← mustMarshalJSON (NewRPCRes (req_ID req) (Some (RRaw "[]")));
              Ret [mkFrame ToClient (m_type m) msg]
            else Ret [mkFrame ToBackend (m_type m) (m_data m)]
        end);
  Ret (close_frames ToBackend m ++ fs).

Definition backendPump (m : message) : go (list frame) :=
  fs ← (if negb (is_data (m_type m)) then Ret [mkFrame ToClient (m_type m) (m_data m)]
        else match parseBackendMsg (m_data m) with
        | inr err =>
            msg ← mustMarshalJSON (NewRPCErrorRes "" err);
            Ret [mkFrame ToClient (m_type m) msg]
        | inl res => Ret [mkFrame ToClient (m_type m) (m_data m)]
        end);
  Ret (close_frames ToClient m ++ fs).

(** ** A proxied connection *)

Inductive pump := Client | Backend_.

#[export] Instance pump_eq_dec : EqDecision pump.
Proof. solve_decision. Defined.

Definition iterate (p : pump) : message -> go (list frame) :=
  match p with Client => clientPump | Backend_ => backendPump end.

(** A loop: the messages it read, the writes that are left of its iteration, and whether it has ended. *)
Record loop := mkLoop { l_read : list message; l_pending : list frame; l_done : bool }.

(** The two loops, the writes made so far with the loop that made each, and whether
    [Proxy] has closed the connections. *)
Record conn := mkConn { c_loop : pump -> loop; c_sent : list (pump * frame); c_closed : bool }.

Definition set_loop (p : pump) (l : loop) (c : conn) : conn :=
  mkConn (fun q => if decide (q = p) then l else c_loop c q) (c_sent c) (c_closed c).

Definition NewWSProxier : conn := mkConn (fun _ => mkLoop [] [] false) [] false.

(** A failed read is final: later reads of the connection fail too, without a frame. *)
Definition noFrame : Z := -1.

Definition failed (m : message) : bool := match m_err m with Some _ => true | None => false end.

Definition errored (l : loop) : bool := existsb failed (l_read l).

Definition read_allowed (c : conn) (p : pump) (m : message) : Prop :=
  (c_closed c = true -> failed m = true) /\
  (errored (c_loop c p) = true -> failed m = true /\ m_type m = noFrame).

(** [writeClientConn], [writeBackendConn]: the error of setting the deadline, or of the write. *)
Definition writeConn (deadline result : option conn_error) : option conn_error :=
  match deadline with Some err => Some err | None => result end.

(** A write fails on a closed connection and with an unknown type of frame. *)
Definition frame_type_ok (t : Z) : bool := is_data t || (t =? CloseMessage) || (t =? 9) || (t =? 10).

Definition write_allowed (c : conn) (f : frame) (result : option conn_error) : Prop :=
  result = None -> c_closed c = false /\ frame_type_ok (f_type f) = true.

(** [WSProxier.close]. *)
Definition close_conns (c : conn) : conn := mkConn (c_loop c) (c_sent c) true.

(** Who makes a step: one of the loops, or [Proxy], which waits for the first of them to end. *)
Inductive actor := Pump (p : pump) | Closer.

#[export] Instance actor_eq_dec : EqDecision actor.
Proof. solve_decision. Defined.

Inductive ws_act (c : conn) : actor -> conn -> Prop :=
(** A loop reads. *)
| ws_read p m fs :
    l_done (c_loop c p) = false -> l_pending (c_loop c p) = [] -> read_allowed c p m ->
    iterate p m = Ret fs ->
    ws_act c (Pump p) (set_loop p (mkLoop (l_read (c_loop c p) ++ [m]) fs false) c)
(** A write succeeds. *)
| ws_write p f fs deadline result :
    l_done (c_loop c p) = false -> l_pending (c_loop c p) = f :: fs ->
    writeConn deadline result = None -> write_allowed c f result ->
    ws_act c (Pump p)
      (mkConn (c_loop (set_loop p (mkLoop (l_read (c_loop c p)) fs false) c)) (c_sent c ++ [(p, f)]) (c_closed c))
(** A write fails and ends the loop. *)
| ws_fail p f fs deadline result err :
    l_done (c_loop c p) = false -> l_pending (c_loop c p) = f :: fs ->
    writeConn deadline result = Some err -> write_allowed c f result ->
    ws_act c (Pump p) (set_loop p (mkLoop (l_read (c_loop c p)) (f :: fs) true) c)
(** [Proxy] closes the connections after a loop has ended. *)
| ws_close p :
    l_done (c_loop c p) = true -> c_closed c = false -> ws_act c Closer (close_conns c).

Definition ws_step (c c' : conn) : Prop := exists a, ws_act c a c'.

Inductive ws_reachable : conn -> Prop :=
| ws_start : ws_reachable NewWSProxier
| ws_more c c' : ws_reachable c -> ws_step c c' -> ws_reachable c'.

End WS.

(** ** Opening a connection *)

Section Open.
Context {W : Type}.

(** [Backend.ProxyWS]: the connection is to the backend that was dialled. *)
Definition ProxyWS (dial : string -> option error) (b : Backend (W := W)) : string + error :=
  match dial (wsURL b) with
  | Some err => inr (wrapErr (Some err) "error dialing backend")
  | None => inl (Name b)
  end.

(** [BackendGroup.ProxyWS]: the first backend of the group that can be dialled. *)
Fixpoint group_ProxyWS (dial : string -> option error) (backends : list (Backend (W := W))) : string + error :=
  match backends with
  | [] => inr (ESentinel ErrNoBackends)
  | back :: backends' =>
      match ProxyWS dial back with
      | inl name => inl name
      | inr _ => group_ProxyWS dial backends'
      end
  end.

Inductive ws_outcome := WSUnauthorized | WSNotUpgraded | WSNoBackend | WSProxied (backend : string).

Definition HandleWS {RE : Regexp} (s : Server) (r : http_in) (upgrade : option error) (dial : string -> option error)
    (backends : list (Backend (W := W))) : ws_outcome :=
  match populateContext s r with
  | None => WSUnauthorized
  | Some _ =>
      match upgrade with
      | Some _ => WSNotUpgraded
      | None => match group_ProxyWS dial backends with
                | inr _ => WSNoBackend
                | inl name => WSProxied name
                end
      end
  end.

End Open.

(** ** Properties *)

Lemma Has_add (s : StringSet) x y : set_Has (set_Add s x) y = (x ==s y) || set_Has s y.
Proof.
  unfold set_Has, set_Add. cbn [underlying]. destruct (streq_spec x y) as [->|Hne]; [by rewrite lookup_insert_eq|].
  by rewrite lookup_insert_ne.
Qed.

Lemma Has_foldl strs : forall s y, set_Has (foldl set_Add s strs) y = existsb (fun x => x ==s y) strs || set_Has s y.
Proof.
  induction strs as [|x strs IH]; intros s y; [done|]. cbn. rewrite IH, Has_add.
  by destruct (x ==s y), (existsb _ strs).
Qed.

Lemma FromStrings_foldl strs : NewStringSetFromStrings strs = foldl set_Add NewStringSet strs.
Proof.
  unfold NewStringSetFromStrings, NewStringSet. generalize (∅ : gmap string bool) as m.
  induction strs as [|x strs IH]; intros m; [done|]. cbn. by rewrite IH.
Qed.

Lemma Has_FromStrings strs x : set_Has (NewStringSetFromStrings strs) x = true <-> x ∈ strs.
Proof.
  rewrite FromStrings_foldl, Has_foldl. unfold set_Has at 1. cbn. rewrite lookup_empty, orb_false_r. rewrite existsb_exists.
  split.
  - intros (y & Hin & Hy). bsimp. subst. by apply list_elem_of_In.
  - intros Hin. exists x. split; [by apply list_elem_of_In|apply streq_refl].
Qed.

Section Correct.
Context {EM : ErrorMessages} {G : Geth} {WS : WebSocket}.
Variable whitelist : list string.
Notation methodWhitelist := (NewStringSetFromStrings whitelist).
Notation reachable := (ws_reachable methodWhitelist).

(** All the writes for the messages that a loop read. *)
Fixpoint outputs (p : pump) (ms : list message) : go (list frame) :=
  match ms with
  | [] => Ret []
  | m :: ms' => fs ← iterate methodWhitelist p m; fs' ← outputs p ms'; Ret (fs ++ fs')
  end.

Lemma outputs_snoc p ms m fs out :
  outputs p ms = Ret out -> iterate methodWhitelist p m = Ret fs -> outputs p (ms ++ [m]) = Ret (out ++ fs).
Proof.
  revert out. induction ms as [|m0 ms IH]; intros out H Hm; cbn [app outputs] in *.
  { injection H as <-. rewrite Hm. cbn. by rewrite app_nil_r. }
  apply go_bind_ret in H as (fs0 & H0 & H). apply go_bind_ret in H as (out0 & H1 & H). injection H as <-.
  rewrite H0, (IH _ H1 Hm). cbn. by rewrite app_assoc.
Qed.

(** The writes that a loop has made. *)
Definition sent_by (p : pump) (c : conn) : list frame :=
  map snd (List.filter (fun x => bool_decide (x.1 = p)) (c_sent c)).

Lemma loop_outputs c p :
  reachable c -> outputs p (l_read (c_loop c p)) = Ret (sent_by p c ++ l_pending (c_loop c p)).
Proof.
  induction 1 as [|c c' _ IH Hs]; [done|]. destruct Hs as [a Hs]. destruct Hs as [q m fs Hd Hp _ Hi|q f fs dl r Hd Hp _ _|q f fs dl r err Hd Hp _ _|q Hd _].
  - unfold sent_by, set_loop. cbn. destruct (decide (p = q)) as [->|]; [|exact IH]. cbn.
    rewrite Hp, app_nil_r in IH. by apply outputs_snoc.
  - unfold sent_by. cbn. rewrite List.filter_app, map_app. cbn. destruct (decide (p = q)) as [->|Hne].
    + rewrite bool_decide_true by done. cbn. rewrite Hp in IH. rewrite IH. by rewrite <- app_assoc.
    + rewrite bool_decide_false by congruence. cbn. by rewrite app_nil_r.
  - unfold sent_by, set_loop. cbn. destruct (decide (p = q)) as [->|]; [|exact IH]. cbn. by rewrite <- Hp.
  - exact IH.
Qed.

(** A data frame for the backend is a whitelisted message of the client. *)
Definition relayed (reads : list message) (t : Z) (d : string) : Prop :=
  exists m req, m ∈ reads /\ m_type m = t /\ m_data m = d /\ ParseRPCReq d = inl req /\
    req_Method req ∈ whitelist /\ req_Method req <> "eth_accounts".

Lemma clientPump_backend m fs t d :
  clientPump methodWhitelist m = Ret fs -> mkFrame ToBackend t d ∈ fs -> is_data t = true -> relayed [m] t d.
Proof.
  unfold clientPump. intros H Hin Ht. apply go_bind_ret in H as (fs0 & H0 & H). injection H as <-.
  apply elem_of_app in Hin as [Hin|Hin].
  { unfold close_frames in Hin. destruct (m_err m); [|by apply elem_of_nil in Hin].
    apply list_elem_of_singleton in Hin. simplify_eq. }
  destruct (is_data (m_type m)) eqn:Hm; cbn [negb] in H0; cycle 1.
  { injection H0 as <-. apply list_elem_of_singleton in Hin. simplify_eq. congruence. }
  unfold prepareClientMsg in H0. destruct (ParseRPCReq (m_data m)) as [req|] eqn:Hp; cycle 1.
  { apply go_bind_ret in H0 as (msg & _ & H0). injection H0 as <-. apply list_elem_of_singleton in Hin. done. }
  destruct (set_Has methodWhitelist (req_Method req)) eqn:Hw; cbn [negb] in H0; cycle 1.
  { apply go_bind_ret in H0 as (msg & _ & H0). injection H0 as <-. apply list_elem_of_singleton in Hin. done. }
  destruct (streq_spec (req_Method req) "eth_accounts") as [|Hne].
  { apply go_bind_ret in H0 as (msg & _ & H0). injection H0 as <-. apply list_elem_of_singleton in Hin. done. }
  injection H0 as <-. apply list_elem_of_singleton in Hin. simplify_eq. exists m, req.
  split; [by left|]. split; [done|]. split; [done|]. split; [done|]. split; [by apply Has_FromStrings|done].
Qed.

Lemma backendPump_client m fs f : backendPump m = Ret fs -> f ∈ fs -> f_to f = ToClient.
Proof.
  unfold backendPump. intros H Hin. apply go_bind_ret in H as (fs0 & H0 & H). injection H as <-.
  apply elem_of_app in Hin as [Hin|Hin].
  { unfold close_frames in Hin. destruct (m_err m); [|by apply elem_of_nil in Hin]. by apply list_elem_of_singleton in Hin as ->. }
  destruct (negb _); [injection H0 as <-; by apply list_elem_of_singleton in Hin as ->|].
  destruct (parseBackendMsg (m_data m)); [injection H0 as <-; by apply list_elem_of_singleton in Hin as ->|].
  apply go_bind_ret in H0 as (msg & _ & H0). injection H0 as <-. by apply list_elem_of_singleton in Hin as ->.
Qed.

Lemma outputs_elem p ms : forall out f, outputs p ms = Ret out -> f ∈ out ->
  exists m fs, m ∈ ms /\ iterate methodWhitelist p m = Ret fs /\ f ∈ fs.
Proof.
  induction ms as [|m ms IH]; intros out f H Hin; cbn [outputs] in H.
  { injection H as <-. by apply elem_of_nil in Hin. }
  apply go_bind_ret in H as (fs & H0 & H). apply go_bind_ret in H as (out0 & H1 & H). injection H as <-.
  apply elem_of_app in Hin as [Hin|Hin]; [exists m, fs; split; [by left|done]|].
  destruct (IH _ _ H1 Hin) as (m' & fs' & Hm & Hrest). exists m', fs'. split; [by right|done].
Qed.

(** *** What should be written for the messages of a loop *)

(** The text and binary messages among some writes, by receiver, and all other writes. *)
Definition payloads (to : peer) (fs : list frame) : list (Z * string) :=
  map (fun f => (f_type f, f_data f)) (List.filter (fun f => bool_decide (f_to f = to) && is_data (f_type f)) fs).

Definition controls (fs : list frame) : list frame := List.filter (fun f => negb (is_data (f_type f))) fs.

Definition payload (m : message) : Z * string := (m_type m, m_data m).
Definition is_payload (m : message) : bool := is_data (m_type m).

(** A message of the client that goes to the backend: a call of a method on the whitelist, but not of
    [eth_accounts]. *)
Definition relayable (m : message) : bool :=
  is_payload m &&
  match ParseRPCReq (m_data m) with
  | inl req => bool_decide (req_Method req ∈ whitelist) && negb (req_Method req ==s "eth_accounts")
  | inr _ => false
  end.

(** The answer of the proxy to any other message of the client. *)
Definition own_answer (m : message) : RPCRes :=
  match ParseRPCReq (m_data m) with
  | inr err => NewRPCErrorRes "" err
  | inl req =>
      if bool_decide (req_Method req ∈ whitelist) then NewRPCRes (req_ID req) (Some (RRaw "[]"))
      else NewRPCErrorRes (req_ID req) (ESentinel ErrMethodNotWhitelisted)
  end.

Definition answers (m : message) (w : Z * string) : Prop := w.1 = m_type m /\ mustMarshalJSON (own_answer m) = Ret w.2.

(** A message of the backend reaches the client as it is, if it parses as a response, and else as an error. *)
Definition passes (m : message) (w : Z * string) : Prop :=
  w.1 = m_type m /\
  if UnmarshalRPCRes (m_data m) then w.2 = m_data m
  else mustMarshalJSON (NewRPCErrorRes "" (ESentinel ErrBackendBadResponse)) = Ret w.2.

(** For every failed read a close message, and other frames as they are. *)
Definition control_frames (to : peer) (m : message) : list frame :=
  (match m_err m with Some err => [mkFrame to CloseMessage (formatWSError err)] | None => [] end) ++
  (if is_payload m then [] else [mkFrame to (m_type m) (m_data m)]).

Lemma payloads_app to fs gs : payloads to (fs ++ gs) = payloads to fs ++ payloads to gs.
Proof. unfold payloads. by rewrite List.filter_app, map_app. Qed.

Lemma close_frames_control to' to m : payloads to' (close_frames to m) = [] /\ controls (close_frames to m) = close_frames to m.
Proof. unfold close_frames, payloads, controls. destruct (m_err m); [|done]. cbn. by rewrite andb_false_r. Qed.

Lemma client_iteration m fs :
  clientPump methodWhitelist m = Ret fs ->
  payloads ToBackend fs = (if relayable m then [payload m] else []) /\
  Forall2 answers (if is_payload m && negb (relayable m) then [m] else []) (payloads ToClient fs) /\
  controls fs = control_frames ToBackend m.
Proof.
  unfold clientPump. intros H. apply go_bind_ret in H as (fs0 & H0 & H). injection H as <-.
  destruct (close_frames_control ToBackend ToBackend m) as [E1 E2].
  destruct (close_frames_control ToClient ToBackend m) as [E3 _].
  rewrite !payloads_app, E1, E3. unfold controls in *. rewrite List.filter_app, E2.
  unfold relayable, control_frames, is_payload. fold (close_frames ToBackend m).
  destruct (is_data (m_type m)) eqn:Hm; cbn [negb andb app] in *; cycle 1.
  { injection H0 as <-. unfold payloads. cbn. rewrite Hm. cbn. by split; [|split; [constructor|]]. }
  assert (Hwl : forall x, set_Has methodWhitelist x = bool_decide (x ∈ whitelist)).
  { intros x. apply eq_bool_prop_intro. rewrite bool_decide_spec, <- Has_FromStrings. by rewrite Is_true_true. }
  assert (Hown : forall msg, mustMarshalJSON (own_answer m) = Ret msg -> fs0 = [mkFrame ToClient (m_type m) msg] ->
    payloads ToBackend fs0 = [] /\ Forall2 answers [m] (payloads ToClient fs0) /\
    close_frames ToBackend m ++ List.filter (fun f => negb (is_data (f_type f))) fs0 = close_frames ToBackend m ++ []).
  { intros msg Hmsg ->. unfold payloads. cbn. rewrite Hm. cbn. split; [done|]. split; [|done]. by repeat constructor. }
  unfold prepareClientMsg in H0. unfold own_answer in Hown.
  destruct (ParseRPCReq (m_data m)) as [req|err] eqn:Hp; cycle 1.
  { apply go_bind_ret in H0 as (msg & Hmsg & [= <-]). by apply (Hown msg). }
  rewrite Hwl in H0. destruct (bool_decide (req_Method req ∈ whitelist)); cbn [negb andb] in *; cycle 1.
  { apply go_bind_ret in H0 as (msg & Hmsg & [= <-]). by apply (Hown msg). }
  destruct (req_Method req ==s "eth_accounts"); cbn [negb].
  { apply go_bind_ret in H0 as (msg & Hmsg & [= <-]). by apply (Hown msg). }
  injection H0 as <-. unfold payloads. cbn. rewrite Hm. cbn. by split; [|split; [constructor|]].
Qed.

Lemma backend_iteration m fs :
  backendPump m = Ret fs ->
  payloads ToBackend fs = [] /\ Forall2 passes (if is_payload m then [m] else []) (payloads ToClient fs) /\
  controls fs = control_frames ToClient m.
Proof.
  unfold backendPump. intros H. apply go_bind_ret in H as (fs0 & H0 & H). injection H as <-.
  destruct (close_frames_control ToBackend ToClient m) as [E1 E2].
  destruct (close_frames_control ToClient ToClient m) as [E3 _].
  rewrite !payloads_app, E1, E3. unfold controls in *. rewrite List.filter_app, E2.
  unfold control_frames, is_payload. fold (close_frames ToClient m).
  destruct (is_data (m_type m)) eqn:Hm; cbn [negb app] in *; cycle 1.
  { injection H0 as <-. unfold payloads. cbn. rewrite Hm. cbn. by split; [|split; [constructor|]]. }
  assert (Hone : forall d, passes m (m_type m, d) -> fs0 = [mkFrame ToClient (m_type m) d] ->
    payloads ToBackend fs0 = [] /\ Forall2 passes [m] (payloads ToClient fs0) /\
    close_frames ToClient m ++ List.filter (fun f => negb (is_data (f_type f))) fs0 = close_frames ToClient m ++ []).
  { intros d Hd ->. unfold payloads. cbn. rewrite Hm. cbn. split; [done|]. split; [|done]. constructor; [exact Hd|constructor]. }
  unfold parseBackendMsg in H0. unfold passes in Hone at 1. destruct (UnmarshalRPCRes (m_data m)).
  - injection H0 as <-. by apply (Hone (m_data m)).
  - apply go_bind_ret in H0 as (msg & Hmsg & [= <-]). by apply (Hone msg).
Qed.

Lemma filter_cons_if {A} (f : A -> bool) x l : List.filter f (x :: l) = (if f x then [x] else []) ++ List.filter f l.
Proof. cbn. by destruct (f x). Qed.

Lemma client_outputs ms : forall out, outputs Client ms = Ret out ->
  payloads ToBackend out = map payload (List.filter relayable ms) /\
  Forall2 answers (List.filter (fun m => is_payload m && negb (relayable m)) ms) (payloads ToClient out) /\
  controls out = concat (map (control_frames ToBackend) ms).
Proof.
  induction ms as [|m ms IH]; intros out H; cbn [outputs] in H; [injection H as <-; by repeat constructor|].
  apply go_bind_ret in H as (fs & H0 & H). apply go_bind_ret in H as (out0 & H1 & H). injection H as <-.
  destruct (client_iteration m fs H0) as (A1 & A2 & A3). destruct (IH out0 H1) as (B1 & B2 & B3).
  rewrite !filter_cons_if, map_app, !payloads_app, A1, B1. unfold controls in *. rewrite List.filter_app, A3, B3.
  split; [by destruct (relayable m)|]. split; [by apply Forall2_app|done].
Qed.

Lemma backend_outputs ms : forall out, outputs Backend_ ms = Ret out ->
  payloads ToBackend out = [] /\ Forall2 passes (List.filter is_payload ms) (payloads ToClient out) /\
  controls out = concat (map (control_frames ToClient) ms).
Proof.
  induction ms as [|m ms IH]; intros out H; cbn [outputs] in H; [injection H as <-; by repeat constructor|].
  apply go_bind_ret in H as (fs & H0 & H). apply go_bind_ret in H as (out0 & H1 & H). injection H as <-.
  destruct (backend_iteration m fs H0) as (A1 & A2 & A3). destruct (IH out0 H1) as (B1 & B2 & B3).
  rewrite filter_cons_if, !payloads_app, A1, B1. unfold controls in *. rewrite List.filter_app, A3, B3.
  split; [done|]. split; [by apply Forall2_app|done].
Qed.

(** C32. Messages are relayed in order, without loss or invention. In every state of a proxied
    connection, whatever the interleaving of the two loops and whichever writes fail, take
    the writes that a loop has made and those that its iteration still has to make. The
    messages among them for the backend are exactly, byte for byte and in order, the
    messages read from the client that call a whitelisted method other than [eth_accounts];
    the client gets, in order, one answer of the proxy for each other message it sent, with
    the error or the empty list of accounts; each message read from the backend reaches the
    client, in order, unchanged if it parses as a response and as an error otherwise; and
    all other writes are the close messages for failed reads and the frames of other types. *)
Theorem ws_relayed_in_order c :
  reachable c ->
  let writes p := sent_by p c ++ l_pending (c_loop c p) in
  let reads p := l_read (c_loop c p) in
  payloads ToBackend (writes Client) = map payload (List.filter relayable (reads Client)) /\
  Forall2 answers (List.filter (fun m => is_payload m && negb (relayable m)) (reads Client)) (payloads ToClient (writes Client)) /\
  payloads ToBackend (writes Backend_) = [] /\
  Forall2 passes (List.filter is_payload (reads Backend_)) (payloads ToClient (writes Backend_)) /\
  controls (writes Client) = concat (map (control_frames ToBackend) (reads Client)) /\
  controls (writes Backend_) = concat (map (control_frames ToClient) (reads Backend_)).
Proof.
  intros Hr writes reads. destruct (client_outputs _ _ (loop_outputs c Client Hr)) as (H1 & H2 & H3).
  destruct (backend_outputs _ _ (loop_outputs c Backend_ Hr)) as (H4 & H5 & H6). repeat split; assumption.
Qed.

(** C13. The backend only sees whitelisted calls: in every state of a proxied connection, each text or
    binary message that was written to the backend is, byte for byte, a message that
    was read from the client, that parses as a request, and whose method is on the
    configured whitelist and is not one that the proxy answers itself. *)
Theorem ws_only_whitelisted c p t d :
  reachable c -> (p, mkFrame ToBackend t d) ∈ c_sent c -> is_data t = true ->
  p = Client /\ relayed (l_read (c_loop c Client)) t d.
Proof.
  intros Hr Hin Ht. pose proof (loop_outputs c p Hr) as Ho.
  assert (Hf : mkFrame ToBackend t d ∈ sent_by p c ++ l_pending (c_loop c p)).
  { apply elem_of_app. left. apply list_elem_of_fmap. exists (p, mkFrame ToBackend t d). split; [done|].
    apply elem_of_filter_bool. split; [done|]. by apply bool_decide_true. }
  destruct (outputs_elem _ _ _ _ Ho Hf) as (m & fs & Hm & Hi & Hfs). destruct p; cbn in Hi; cycle 1.
  { by pose proof (backendPump_client _ _ _ Hi Hfs). }
  split; [done|]. destruct (clientPump_backend _ _ _ _ Hi Hfs Ht) as (m' & req & ->%list_elem_of_singleton & Hrest).
  by exists m, req.
Qed.

End Correct.

(** ** A concrete connection *)

#[local] Existing Instance default_messages.

#[local] Instance plain_ws : WebSocket := {
  FormatCloseMessage code text := text;
  close_error_text code text := text;
}.

Definition demo_msg : message :=
  mkMsg TextMessage (Marshal (JObj [("id", JNum "1"); ("jsonrpc", JStr "2.0"); ("method", JStr "eth_chainId")])) None.

Definition demo_frame : frame := mkFrame ToBackend TextMessage (m_data demo_msg).

(** The state after one message was read from the client and written to the backend. *)
Definition demo_conn : conn :=
  mkConn (c_loop (set_loop Client (mkLoop [demo_msg] [] false)
            (set_loop Client (mkLoop [demo_msg] [demo_frame] false) NewWSProxier))) [(Client, demo_frame)] false.

Lemma demo_conn_reachable : ws_reachable (NewStringSetFromStrings ["eth_chainId"]) demo_conn.
Proof.
  eapply ws_more.
  - eapply ws_more; [apply ws_start|].
    exists (Pump Client). apply (ws_read _ NewWSProxier Client demo_msg [demo_frame]); [done|done|done|vm_compute; reflexivity].
  - exists (Pump Client).
    exact (ws_write _ (set_loop Client (mkLoop [demo_msg] [demo_frame] false) NewWSProxier) Client demo_frame [] None None
      eq_refl eq_refl eq_refl ltac:(done)).
Qed.

Lemma ws_relayed_in_order_witness :
  ws_reachable (NewStringSetFromStrings ["eth_chainId"]) demo_conn /\
  payloads ToBackend (sent_by Client demo_conn ++ []) = [(TextMessage, m_data demo_msg)].
Proof.
  split; [exact demo_conn_reachable|].
  exact (proj1 (ws_relayed_in_order ["eth_chainId"] demo_conn demo_conn_reachable)).
Defined.

Lemma ws_only_whitelisted_witness :
  ws_reachable (NewStringSetFromStrings ["eth_chainId"]) demo_conn /\
  relayed ["eth_chainId"] [demo_msg] TextMessage (m_data demo_msg).
Proof.
  split; [exact demo_conn_reachable|].
  refine (proj2 (ws_only_whitelisted ["eth_chainId"] demo_conn Client TextMessage (m_data demo_msg) demo_conn_reachable _ _)).
  - by left.
  - reflexivity.
Defined.
