(* ===== verification/WSLive.v ===== *)
(** * Proxied connections wind down

    A proxied connection has two goroutines, and [Proxy] waits for the first of them to end.
    In every fair execution, once a loop has ended or has read an error, from some moment on
    both loops have ended and the connections are closed: no goroutine is left behind. A
    loop that waits for a message of an open connection need not make a step. *)

From stdpp Require Import base list gmap strings.
From Stdlib Require Import ZArith Lia Ascii.
From S2P Require Import Prelude SlidingWindow SlidingWindowRefinement Json JsonRoundtrip Geth Rpc Backend Poller Group Server WS.

Local Open Scope Z_scope.

(** The steps that do not wait for a peer. *)
Definition ready (a : actor) (c : conn) : bool :=
  match a with
  | Pump p =>
      negb (l_done (c_loop c p)) &&
      (negb (bool_decide (length (l_pending (c_loop c p)) = 0%nat)) || errored (c_loop c p) || c_closed c)
  | Closer => (l_done (c_loop c Client) || l_done (c_loop c Backend_)) && negb (c_closed c)
  end.

Section Live.
Context {EM : ErrorMessages} {G : Geth} {WS : WebSocket}.
Variable methodWhitelist : StringSet.

(** An execution: the states, and who makes each step, if anyone. An actor does not stay ready
    for ever without making a step. *)
Record fair_execution (ex : nat -> conn) (act : nat -> option actor) : Prop := {
  fe_step n : match act n with
              | Some a => ws_act methodWhitelist (ex n) a (ex (S n))
              | None => ex (S n) = ex n
              end;
  fe_fair a n : exists m, (n <= m)%nat /\ (act m = Some a \/ ready a (ex m) = false);
}.

(** ** What a step changes *)

Lemma other_pump c p c' q : ws_act methodWhitelist c (Pump p) c' -> q <> p -> c_loop c' q = c_loop c q.
Proof.
  intros H Hne. inversion H; subst; cbn; unfold set_loop; cbn; by rewrite decide_False.
Qed.

Lemma closer_loops c c' q : ws_act methodWhitelist c Closer c' -> c_loop c' q = c_loop c q /\ c_closed c' = true.
Proof. intros H. inversion H; subst. done. Qed.

Lemma closed_stable c a c' : ws_act methodWhitelist c a c' -> c_closed c = true -> c_closed c' = true.
Proof. intros H Hc. inversion H; subst; done. Qed.

Lemma own_loop c p c' :
  ws_act methodWhitelist c (Pump p) c' ->
  l_done (c_loop c p) = false /\
  ((exists m fs, l_pending (c_loop c p) = [] /\ read_allowed c p m /\ iterate methodWhitelist p m = Ret fs /\
      c_loop c' p = mkLoop (l_read (c_loop c p) ++ [m]) fs false) \/
   (exists f fs, l_pending (c_loop c p) = f :: fs /\ c_closed c = false /\ frame_type_ok (f_type f) = true /\
      c_loop c' p = mkLoop (l_read (c_loop c p)) fs false) \/
   (exists f fs, l_pending (c_loop c p) = f :: fs /\ c_loop c' p = mkLoop (l_read (c_loop c p)) (f :: fs) true)).
Proof.
  intros H. inversion H as [q m fs Hd Hp Hr Hi|q f fs dl r Hd Hp Hw Ha|q f fs dl r err Hd Hp Hw Ha|]; subst;
    cbn; unfold set_loop; cbn; rewrite decide_True by done.
  - split; [done|]. left. eauto 10.
  - split; [done|]. right. left. unfold writeConn in Hw. destruct dl; [done|]. destruct (Ha Hw). eauto 10.
  - split; [done|]. right. right. eauto 10.
Qed.

Lemma errored_snoc l m : existsb failed (l ++ [m]) = existsb failed l || failed m.
Proof. rewrite existsb_app. cbn. by rewrite orb_false_r. Qed.

(** A loop that has ended stays as it is, and an error that was read is not forgotten. *)
Lemma done_stable c a c' p :
  ws_act methodWhitelist c a c' -> l_done (c_loop c p) = true -> l_done (c_loop c' p) = true.
Proof.
  intros H Hd. destruct a as [q|]; [|by rewrite (proj1 (closer_loops c c' p H))].
  destruct (decide (p = q)) as [->|Hne]; [|by rewrite (other_pump c q c' p)].
  apply own_loop in H as [Hf _]. congruence.
Qed.

Lemma errored_stable c a c' p :
  ws_act methodWhitelist c a c' -> errored (c_loop c p) = true -> errored (c_loop c' p) = true.
Proof.
  intros H He. destruct a as [q|]; [|by rewrite (proj1 (closer_loops c c' p H))].
  destruct (decide (p = q)) as [->|Hne]; [|by rewrite (other_pump c q c' p)]. unfold errored in *.
  apply own_loop in H as [_ [(m & fs & _ & _ & _ & ->)|[(f & fs & _ & _ & _ & ->)|(f & fs & _ & ->)]]]; cbn [l_read]; [|done|done].
  by rewrite errored_snoc, He.
Qed.

(** ** The steps a loop has left after an error *)

(** The last write of the iteration cannot succeed. *)
Definition bound_to_fail (fs : list frame) : bool :=
  match last fs with Some f => negb (frame_type_ok (f_type f)) | None => false end.

Definition steps_left (l : loop) : nat :=
  if l_done l then 0 else length (l_pending l) + (if bound_to_fail (l_pending l) then 0 else 3).

Lemma read_again p m fs :
  failed m = true -> m_type m = noFrame -> iterate methodWhitelist p m = Ret fs ->
  length fs = 2%nat /\ bound_to_fail fs = true.
Proof.
  intros Hf Ht Hi. unfold failed in Hf. destruct (m_err m) as [err|] eqn:E; [|done].
  destruct p; unfold iterate, clientPump, backendPump, close_frames in Hi; rewrite Ht, E in Hi; cbn in Hi;
    by injection Hi as <-.
Qed.

Lemma bound_to_fail_tail f g fs : bound_to_fail (f :: g :: fs) = bound_to_fail (g :: fs).
Proof. done. Qed.

Lemma errored_step c p c' :
  ws_act methodWhitelist c (Pump p) c' -> errored (c_loop c p) = true ->
  (steps_left (c_loop c' p) < steps_left (c_loop c p))%nat.
Proof.
  intros H He. unfold steps_left.
  apply own_loop in H as [-> [(m & fs & -> & Hr & Hi & ->)|[(f & fs & -> & _ & Hok & ->)|(f & fs & -> & ->)]]];
    cbn [l_done l_pending].
  - destruct (proj2 Hr He) as [Hf Ht]. destruct (read_again p m fs Hf Ht Hi) as [-> ->]. cbn. lia.
  - destruct fs as [|g fs]; [unfold bound_to_fail; cbn; rewrite Hok; cbn; lia|].
    rewrite bound_to_fail_tail. cbn [length]. lia.
  - cbn. lia.
Qed.

(** ** Fair executions *)

Section Execution.
Context (ex : nat -> conn) (act : nat -> option actor) (Hex : fair_execution ex act).

Lemma stable_from (P : conn -> Prop) n :
  (forall c a c', ws_act methodWhitelist c a c' -> P c -> P c') -> P (ex n) -> forall m, (n <= m)%nat -> P (ex m).
Proof.
  intros Hstep H0. induction 1 as [|m _ IH]; [done|]. pose proof (fe_step _ _ Hex m) as Hs.
  destruct (act m); [by eapply Hstep|by rewrite Hs].
Qed.

(** Until a loop takes its next step, it does not change. *)
Lemma loop_unchanged p n m :
  (n <= m)%nat -> (forall k, (n <= k < m)%nat -> act k <> Some (Pump p)) -> c_loop (ex m) p = c_loop (ex n) p.
Proof.
  induction 1 as [|m Hle IH]; intros Hno; [done|]. rewrite <- IH by (intros k Hk; apply Hno; lia).
  pose proof (fe_step _ _ Hex m) as Hs. specialize (Hno m ltac:(lia)).
  destruct (act m) as [[q|]|]; [|by apply closer_loops|by rewrite Hs].
  apply (other_pump _ q); [done|]. intros ->. done.
Qed.

(** The next step of a loop, if it makes one. *)
Lemma next_turn p n m :
  (n <= m)%nat -> act m = Some (Pump p) ->
  exists k, (n <= k <= m)%nat /\ act k = Some (Pump p) /\ c_loop (ex k) p = c_loop (ex n) p.
Proof.
  intros Hle Hm. remember (m - n)%nat as d eqn:Ed. revert n Hle Ed. induction d as [|d IH]; intros n Hle Ed.
  { assert (n = m) as -> by lia. exists m. split; [lia|done]. }
  destruct (decide (act n = Some (Pump p))) as [Hn|Hn]; [exists n; split; [lia|done]|].
  destruct (IH (S n) ltac:(lia) ltac:(lia)) as (k & Hk & Hak & Hl). exists k. split; [lia|]. split; [done|].
  rewrite Hl. apply loop_unchanged; [lia|]. intros j Hj. by replace j with n by lia.
Qed.

(** A loop that is ready as long as it has not ended: its next step, unless it ends before. *)
Lemma acts_or_done p n :
  (forall m, (n <= m)%nat -> l_done (c_loop (ex m) p) = false -> ready (Pump p) (ex m) = true) ->
  exists k, (n <= k)%nat /\
    (l_done (c_loop (ex k) p) = true \/ act k = Some (Pump p) /\ c_loop (ex k) p = c_loop (ex n) p).
Proof.
  intros Hready. destruct (fe_fair _ _ Hex (Pump p) n) as (m & Hm & [Ha|Hr]).
  - destruct (next_turn p n m Hm Ha) as (k & Hk & Hak & Hl). exists k. split; [lia|]. by right.
  - exists m. split; [done|]. left. destruct (l_done (c_loop (ex m) p)) eqn:Hd; [done|].
    by rewrite (Hready m Hm Hd) in Hr.
Qed.

Lemma errored_ends n p : errored (c_loop (ex n) p) = true -> exists k, (n <= k)%nat /\ l_done (c_loop (ex k) p) = true.
Proof.
  remember (steps_left (c_loop (ex n) p)) as r eqn:Hr. revert n Hr.
  induction r as [r IH] using lt_wf_ind. intros n Hr He.
  assert (forall m, (n <= m)%nat -> errored (c_loop (ex m) p) = true) as Hem.
  { apply (stable_from (fun c => errored (c_loop c p) = true)); [|done]. intros c a c'. apply errored_stable. }
  destruct (acts_or_done p n) as (k & Hk & [Hd|[Ha Hl]]); [|by exists k|].
  { intros m Hm Hd. unfold ready. by rewrite Hd, (Hem m Hm), orb_true_r. }
  pose proof (fe_step _ _ Hex k) as Hs. rewrite Ha in Hs.
  pose proof (errored_step _ _ _ Hs (Hem k Hk)) as Hlt. rewrite Hl, <- Hr in Hlt.
  destruct (IH _ Hlt (S k) eq_refl (Hem (S k) ltac:(lia))) as (j & Hj & Hd). exists j. split; [lia|done].
Qed.

Lemma done_closes n p : l_done (c_loop (ex n) p) = true -> exists k, (n <= k)%nat /\ c_closed (ex k) = true.
Proof.
  intros Hd. assert (forall m, (n <= m)%nat -> l_done (c_loop (ex m) p) = true) as Hdm.
  { apply (stable_from (fun c => l_done (c_loop c p) = true)); [|done]. intros c a c'. apply done_stable. }
  destruct (fe_fair _ _ Hex Closer n) as (m & Hm & [Ha|Hr]).
  - exists (S m). split; [lia|]. pose proof (fe_step _ _ Hex m) as Hs. rewrite Ha in Hs.
    by apply (closer_loops _ _ p) in Hs as [_ ->].
  - exists m. split; [done|]. unfold ready in Hr. specialize (Hdm m Hm).
    destruct p; rewrite Hdm in Hr; cbn in Hr; [|rewrite orb_true_r in Hr; cbn in Hr]; by destruct (c_closed (ex m)).
Qed.

Lemma closed_ends n p : c_closed (ex n) = true -> exists k, (n <= k)%nat /\ l_done (c_loop (ex k) p) = true.
Proof.
  intros Hc. assert (forall m, (n <= m)%nat -> c_closed (ex m) = true) as Hcm.
  { apply (stable_from (fun c => c_closed c = true)); [|done]. intros c a c'. apply closed_stable. }
  destruct (acts_or_done p n) as (k & Hk & [Hd|[Ha Hl]]); [|by exists k|].
  { intros m Hm Hd. unfold ready. by rewrite Hd, (Hcm m Hm), orb_true_r. }
  pose proof (fe_step _ _ Hex k) as Hs. rewrite Ha in Hs.
  apply own_loop in Hs as [_ [(m & fs & _ & [Hr _] & _ & Hn)|[(f & fs & _ & Hf & _)|(f & fs & _ & Hn)]]].
  - destruct (errored_ends (S k) p) as (j & Hj & Hd); [|exists j; split; [lia|done]].
    rewrite Hn. unfold errored. cbn [l_read]. by rewrite errored_snoc, (Hr (Hcm k Hk)), orb_true_r.
  - by rewrite (Hcm k Hk) in Hf.
  - exists (S k). split; [lia|]. by rewrite Hn.
Qed.

Lemma ends_with_closing n p :
  l_done (c_loop (ex n) p) = true \/ errored (c_loop (ex n) p) = true ->
  exists K, forall m, (K <= m)%nat -> c_closed (ex m) = true /\ forall q, l_done (c_loop (ex m) q) = true.
Proof.
  intros H. assert (exists k, l_done (c_loop (ex k) p) = true) as [k1 H1].
  { destruct H as [H|H]; [by exists n|]. destruct (errored_ends n p H) as (k & _ & Hd). by exists k. }
  destruct (done_closes k1 p H1) as (k2 & _ & H2).
  destruct (closed_ends k2 Client H2) as (k3 & H23 & H3). destruct (closed_ends k3 Backend_) as (k4 & H34 & H4).
  { eapply (stable_from (fun c => c_closed c = true)); [|exact H2|done]. intros c a c'. apply closed_stable. }
  exists k4. intros m Hm. split.
  - eapply (stable_from (fun c => c_closed c = true)); [|exact H2|lia]. intros c a c'. apply closed_stable.
  - intros [|].
    + eapply (stable_from (fun c => l_done (c_loop c Client) = true)); [|exact H3|lia]. intros c a c'. apply done_stable.
    + eapply (stable_from (fun c => l_done (c_loop c Backend_) = true)); [|exact H4|done]. intros c a c'. apply done_stable.
Qed.

End Execution.

(** C14. No goroutine is left behind: in every fair execution of a proxied connection, once one
    of the two loops has ended or has read an error, from some moment on both loops have
    ended and both connections are closed. *)
Theorem ws_winds_down ex act n p :
  fair_execution ex act -> l_done (c_loop (ex n) p) = true \/ errored (c_loop (ex n) p) = true ->
  exists K, forall m, (K <= m)%nat -> c_closed (ex m) = true /\ forall q, l_done (c_loop (ex m) q) = true.
Proof. intros Hex. by apply (ends_with_closing ex act Hex n p). Qed.

End Live.

(** ** A fair execution: the client goes away *)

Section Demo.
#[local] Existing Instance default_messages.
#[local] Existing Instance plain_ws.

Definition gone : message := mkMsg noFrame "" (Some (CloseError 1001 "going away")).
Definition gone_frames (to : peer) : list frame := [mkFrame to CloseMessage "going away"; mkFrame to noFrame ""].

Definition demo_states : list conn :=
  let c0 := NewWSProxier in
  let c1 := set_loop Client (mkLoop [gone] (gone_frames ToBackend) false) c0 in
  let c2 := mkConn (c_loop (set_loop Client (mkLoop [gone] [mkFrame ToBackend noFrame ""] false) c1))
              [(Client, mkFrame ToBackend CloseMessage "going away")] false in
  let c3 := set_loop Client (mkLoop [gone] [mkFrame ToBackend noFrame ""] true) c2 in
  let c4 := close_conns c3 in
  let c5 := set_loop Backend_ (mkLoop [gone] (gone_frames ToClient) false) c4 in
  let c6 := set_loop Backend_ (mkLoop [gone] (gone_frames ToClient) true) c5 in
  [c0; c1; c2; c3; c4; c5; c6].

Definition demo_ex (n : nat) : conn := nth (Nat.min n 6) demo_states NewWSProxier.
Definition demo_act (n : nat) : option actor :=
  nth n [Some (Pump Client); Some (Pump Client); Some (Pump Client); Some Closer; Some (Pump Backend_); Some (Pump Backend_)] None.

Lemma demo_fair : fair_execution (NewStringSetFromStrings []) demo_ex demo_act.
Proof.
  split.
  - intros [|[|[|[|[|[|n]]]]]].
    + exact (ws_read _ (demo_ex 0) Client gone (gone_frames ToBackend) eq_refl eq_refl ltac:(done) eq_refl).
    + exact (ws_write _ (demo_ex 1) Client (mkFrame ToBackend CloseMessage "going away") [mkFrame ToBackend noFrame ""] None None
        eq_refl eq_refl eq_refl ltac:(done)).
    + exact (ws_fail _ (demo_ex 2) Client (mkFrame ToBackend noFrame "") [] None (Some (OtherError "bad opcode")) _
        eq_refl eq_refl eq_refl ltac:(done)).
    + exact (ws_close _ (demo_ex 3) Client eq_refl eq_refl).
    + exact (ws_read _ (demo_ex 4) Backend_ gone (gone_frames ToClient) eq_refl eq_refl ltac:(done) eq_refl).
    + exact (ws_fail _ (demo_ex 5) Backend_ (mkFrame ToClient CloseMessage "going away") [mkFrame ToClient noFrame ""] None
        (Some (OtherError "closed")) _ eq_refl eq_refl eq_refl ltac:(done)).
    + unfold demo_act. rewrite nth_overflow by (simpl; lia). unfold demo_ex. by rewrite !Nat.min_r by lia.
  - intros a n. exists (Nat.max n 6). split; [lia|]. right. unfold demo_ex. rewrite Nat.min_r by lia. by destruct a as [[]|].
Qed.

Lemma ws_winds_down_witness :
  exists K, forall m, (K <= m)%nat -> c_closed (demo_ex m) = true /\ forall q, l_done (c_loop (demo_ex m) q) = true.
Proof. apply (ws_winds_down (NewStringSetFromStrings []) demo_ex demo_act 1%nat Client demo_fair). right. reflexivity. Defined.

End Demo.
