(* ===== verification/Proxyd.v ===== *)
(** * Start-up: [proxyd.go] and [config.go]

    [Start] checks the configuration and builds the backends, the groups, the server
    and the consensus pollers. Environment variables, Redis connections and TLS files
    are inputs. The theorems show that what [Start] builds meets the conditions that
    the server is verified under, and one that it does not check. *)

From stdpp Require Import base list gmap strings.
From Stdlib Require Import ZArith QArith Lia Ascii.
From Stdlib Require Strings.String.
From S2P Require Import Prelude Float64 SlidingWindow SlidingWindowRefinement Json JsonRoundtrip Geth Rpc Reader Backend Tracker Poller Group RateLimiter Cache Server ServerCorrect WS.

Local Open Scope Z_scope.

(** ** Configuration *)

Record BackendOptions := mkBackendOptions {
  ResponseTimeoutSeconds : Z;
  MaxResponseSizeBytes : Z;
  bo_MaxRetries : Z;
  OutOfServiceSeconds : Z;
  bo_MaxDegradedLatencyThreshold : Duration;
  bo_MaxLatencyThreshold : Duration;
  bo_MaxErrorRateThreshold : float64;
}.

Record BackendConfig := mkBackendConfig {
  Username : string;
  Password : string;
  RPCURL : string;
  WSURL : string;
  bc_MaxRPS : Z;
  bc_MaxWSConns : Z;
  CAFile : string;
  ClientCertFile : string;
  ClientKeyFile : string;
  StripTrailingXFF : bool;
  Headers : gmap string string;
  Weight : Z;
  ConsensusSkipPeerCountCheck : bool;
  ConsensusForcedCandidate : bool;
  ConsensusReceiptsTarget : string;
}.

Record RedisConfig := mkRedisConfig {
  URL : string;
  Namespace : string;
  ReadURL : string;
  FallbackToMemory : bool;
  RedisCluster : bool;
}.

Record BackendGroupConfig := mkGroupConfig {
  gc_Backends : list string;
  gc_WeightedRouting : bool;
  gc_RoutingStrategy : string;
  gc_MulticallRPCErrorCheck : bool;
  ConsensusAware : bool;
  ConsensusAsyncHandler : string;
  ConsensusPollerInterval : Duration;
  ConsensusBanPeriod : Duration;
  ConsensusMaxUpdateThreshold : Duration;
  ConsensusMaxBlockLag : Z;
  ConsensusMaxBlockRange : Z;
  ConsensusMinPeerCount : Z;
  ConsensusHA : bool;
  ConsensusHAHeartbeatInterval : Duration;
  ConsensusHALockPeriod : Duration;
  ConsensusHARedis : RedisConfig;
  gc_Fallbacks : list string;
}.

Record ServerConfig := mkServerConfig {
  RPCHost : string;
  RPCPort : Z;
  WSHost : string;
  WSPort : Z;
  MaxBodySizeBytes : Z;
  MaxConcurrentRPCs : Z;
  MaxConcurrentConsensusRPCs : Z;
  LogLevel : string;
  TimeoutSeconds : Z;
  MaxUpstreamBatchSize : Z;
  EnableRequestLog : bool;
  MaxRequestBodyLogLen : Z;
  EnablePprof : bool;
  EnableXServedByHeader : bool;
  AllowAllOrigins : bool;
}.

Record CacheConfig := mkCacheConfig { cc_Enabled : bool; cc_TTL : Duration }.
Record MetricsConfig := mkMetricsConfig { mc_Enabled : bool; mc_Host : string; mc_Port : Z }.
Record BatchConfig := mkBatchConfig { MaxSize : Z; bt_ErrorMessage : string }.

Record Config := mkConfig {
  WSBackendGroup : string;
  cfg_Server : ServerConfig;
  cfg_Cache : CacheConfig;
  cfg_Redis : RedisConfig;
  cfg_Metrics : MetricsConfig;
  cfg_RateLimit : RateLimitConfig;
  cfg_BackendOptions : BackendOptions;
  cfg_Backends : gmap string BackendConfig;
  cfg_Batch : BatchConfig;
  Authentication : option (gmap string string);
  cfg_BackendGroups : gmap string BackendGroupConfig;
  RPCMethodMappings : gmap string string;
  DomainRPCMethodMappings : gmap string (gmap string string);
  WSMethodWhitelist : list string;
  WhitelistErrorMessage : string;
  SenderRateLimit : SenderRateLimitConfig;
  EthCallOverrideRules : list EthCallRule;
}.

(** A Redis client: its kind and the URL it was made from. *)
Record RedisClient := mkClient { rc_cluster : bool; rc_url : string }.

(** What [Start] asks of its environment; [None] is success. *)
Record start_env := mkStartEnv {
  Getenv : string -> string;
  ParseURL : string -> option error;
  ParseClusterURL : string -> option error;
  Ping : RedisClient -> option error;
  ReadFile : string -> string + error;
  AppendCertsFromPEM : string -> bool;
  LoadX509KeyPair : string -> string -> string + error;
  Hostname : string;
}.

(** Why [Start] stops: an error it returns, or [log.Crit], which ends the process. *)
Inductive stop := Refused (err : error) | Exit (msg : string).

Definition try {A B} (m : A + stop) (k : A -> B + stop) : B + stop :=
  match m with inl a => k a | inr s => inr s end.
Notation "'let?' x := m 'in' k" := (try m (fun x => k)) (at level 200, x name, m at level 100, k at level 200).

Definition refuse {A} (msg : string) : A + stop := inr (Refused (EOther msg)).
Definition check (b : bool) (msg : string) : unit + stop := if b then refuse msg else inl tt.
Definition succeed (e : option error) : unit + stop := match e with Some err => inr (Refused err) | None => inl tt end.
Definition or_refuse {A} (m : A + error) : A + stop := match m with inl a => inl a | inr err => inr (Refused err) end.

(** ** Redis clients *)

Definition NewRedisClient (env : start_env) (url : string) (enable_cluster : bool) : RedisClient + error :=
  match (if enable_cluster then ParseClusterURL env url else ParseURL env url) with
  | Some err => inr err
  | None => inl (mkClient enable_cluster url)
  end.

Definition CheckRedisConnection (env : start_env) (client : RedisClient) : option error :=
  match Ping env client with
  | Some err => Some (wrapErr (Some err) "error connecting to redis")
  | None => None
  end.

(** ** Values and files *)

Definition ReadFromEnvOrConfig (env : start_env) (value : string) : string + stop :=
  match chars value with
  | c :: rest =>
      if (code c =? 36)%N then
        let envValue := Getenv env (str rest) in
        if envValue ==s "" then refuse ("config env var " +:+ value +:+ " not found") else inl envValue
      else if (code c =? 92)%N then inl (str rest)
      else inl value
  | [] => inl value
  end.

Definition validateReceiptsTarget (val : string) : string + stop :=
  let val := if val ==s "" then ReceiptsTargetDebugGetRawReceipts else val in
  if existsb (fun t => val ==s t)
       [ReceiptsTargetDebugGetRawReceipts; ReceiptsTargetAlchemyGetTransactionReceipts;
        ReceiptsTargetEthGetTransactionReceipts; ReceiptsTargetParityGetTransactionReceipts]
  then inl val
  else refuse ("invalid receipts target: " +:+ val).

Definition secondsToDuration (seconds : Z) : Duration := i64 (seconds * Second).

Definition CreateTLSClient (env : start_env) (ca : string) : TLSConfig + error :=
  match ReadFile env ca with
  | inr err => inr (wrapErr (Some err) "error reading CA")
  | inl pem => if AppendCertsFromPEM env pem then inl (mkTLS pem []) else inr (EOther "error parsing TLS client cert")
  end.

Definition ParseKeyPair (env : start_env) (crt key : string) : string + error :=
  match LoadX509KeyPair env crt key with
  | inr err => inr (wrapErr (Some err) "error loading x509 key pair")
  | inl cert => inl cert
  end.

Definition configureBackendTLS (env : start_env) (cfg : BackendConfig) : option TLSConfig + stop :=
  if CAFile cfg ==s "" then inl None
  else
    let? tlsConfig := or_refuse (CreateTLSClient env (CAFile cfg)) in
    if negb (ClientCertFile cfg ==s "") && negb (ClientKeyFile cfg ==s "") then
      let? cert := or_refuse (ParseKeyPair env (ClientCertFile cfg) (ClientKeyFile cfg)) in
      inl (Some (mkTLS (RootCAs tlsConfig) [cert]))
    else inl (Some tlsConfig).

(** The strategy of a group after validation. *)
Definition ValidateRoutingStrategy (b : BackendGroupConfig) : string + stop :=
  if ConsensusAware b && negb (gc_RoutingStrategy b ==s "") then
    inr (Exit "Exiting consensus_aware and routing strategy are mutually exclusive, they cannot both be defined")
  else
    let strategy := if ConsensusAware b then ConsensusAwareRoutingStrategy else gc_RoutingStrategy b in
    if existsb (fun t => strategy ==s t) [ConsensusAwareRoutingStrategy; MulticallRoutingStrategy; FallbackRoutingStrategy]
    then inl strategy
    else if strategy ==s "" then inl FallbackRoutingStrategy
    else inr (Exit "Invalid routing strategy provided").

(** A loop that may stop. *)
Fixpoint try_fold {A S} (f : S -> A -> S + stop) (s : S) (l : list A) : S + stop :=
  match l with
  | [] => inl s
  | a :: l' => let? s' := f s a in try_fold f s' l'
  end.

(** A range over a map that builds another map, entry by entry. *)
Definition range_build {MO : MapOrder} {A B} (f : string -> A -> B + stop) (m0 : gmap string B) (M : gmap string A)
  : gmap string B + stop :=
  try_fold (fun m '(k, a) => let? b := f k a in inl (<[k := b]> m)) m0 (map_order (map_to_list M)).

(** ** Building *)

Section Start.
Context {EM : ErrorMessages} {G : Geth} {RE : Regexp} {MO : MapOrder} {W : Type} {WO : WindowOps W}.

(** The tracker of a group: in memory, or shared through Redis. *)
Inductive AnyTracker := MemoryTracker (t : ConsensusTrackerState) | HATracker (t : RedisConsensusTracker).

#[export] Instance any_tracker : ConsensusTracker AnyTracker := {
  GetLatestBlockNumber t := match t with MemoryTracker t => GetLatestBlockNumber t | HATracker t => GetLatestBlockNumber t end;
  SetLatestBlockNumber n t :=
    match t with MemoryTracker t => MemoryTracker (SetLatestBlockNumber n t) | HATracker t => HATracker (SetLatestBlockNumber n t) end;
  GetSafeBlockNumber t := match t with MemoryTracker t => GetSafeBlockNumber t | HATracker t => GetSafeBlockNumber t end;
  SetSafeBlockNumber n t :=
    match t with MemoryTracker t => MemoryTracker (SetSafeBlockNumber n t) | HATracker t => HATracker (SetSafeBlockNumber n t) end;
  GetFinalizedBlockNumber t :=
    match t with MemoryTracker t => GetFinalizedBlockNumber t | HATracker t => GetFinalizedBlockNumber t end;
  SetFinalizedBlockNumber n t :=
    match t with MemoryTracker t => MemoryTracker (SetFinalizedBlockNumber n t) | HATracker t => HATracker (SetFinalizedBlockNumber n t) end;
}.

Notation Backend := (Backend (W := W)).
Notation BackendOpt := (BackendOpt (W := W)).
Notation BackendGroup := (BackendGroup (W := W) (T := AnyTracker)).

(** An option that is only given when the configuration sets it. *)
Definition opt_if (b : bool) (o : BackendOpt) : list BackendOpt := if b then [o] else [].

(** The options of a backend: those of all the backends, then its own. *)
Definition common_options (o : BackendOptions) : list BackendOpt :=
  opt_if (negb (ResponseTimeoutSeconds o =? 0)) (WithTimeout (secondsToDuration (ResponseTimeoutSeconds o))) ++
  opt_if (negb (bo_MaxRetries o =? 0)) (WithMaxRetries (bo_MaxRetries o)) ++
  opt_if (negb (MaxResponseSizeBytes o =? 0)) (WithMaxResponseSize (MaxResponseSizeBytes o)) ++
  opt_if (negb (OutOfServiceSeconds o =? 0)) (WithOutOfServiceDuration (secondsToDuration (OutOfServiceSeconds o))) ++
  opt_if (0 <? bo_MaxDegradedLatencyThreshold o) (WithMaxDegradedLatencyThreshold (bo_MaxDegradedLatencyThreshold o)) ++
  opt_if (0 <? bo_MaxLatencyThreshold o) (WithMaxLatencyThreshold (bo_MaxLatencyThreshold o)) ++
  opt_if (fltb (of_Z 0) (bo_MaxErrorRateThreshold o)) (WithMaxErrorRateThreshold (bo_MaxErrorRateThreshold o)).

Definition resolve_headers (env : start_env) (hs : gmap string string) : list (string * string) + stop :=
  try_fold (fun acc '(name, value) => let? v := ReadFromEnvOrConfig env value in inl (acc ++ [(name, v)])) []
    (map_order (map_to_list hs)).

Definition build_backend (env : start_env) (config : Config) (name : string) (cfg : BackendConfig) : Backend + stop :=
  let? rpcURL := ReadFromEnvOrConfig env (RPCURL cfg) in
  let? wsURL := ReadFromEnvOrConfig env (WSURL cfg) in
  let? ok := check (rpcURL ==s "") ("must define an RPC URL for backend " +:+ name) in
  let? auth := (if negb (Password cfg ==s "")
                then let? p := ReadFromEnvOrConfig env (Password cfg) in inl [WithBasicAuth (Username cfg) p]
                else inl []) in
  let? headers := resolve_headers env (Headers cfg) in
  let? tls := configureBackendTLS env cfg in
  let? target := ReadFromEnvOrConfig env (ConsensusReceiptsTarget cfg) in
  let? target := validateReceiptsTarget target in
  inl (NewBackend name rpcURL wsURL
         (common_options (cfg_BackendOptions config) ++
          opt_if (negb (bc_MaxRPS cfg =? 0)) (WithMaxRPS (bc_MaxRPS cfg)) ++
          opt_if (negb (bc_MaxWSConns cfg =? 0)) (WithMaxWSConns (bc_MaxWSConns cfg)) ++
          auth ++ [WithHeaders headers] ++ match tls with Some c => [WithTLSConfig c] | None => [] end ++
          opt_if (StripTrailingXFF cfg) WithStrippedTrailingXFF ++
          [WithProxydIP (Getenv env "PROXYD_IP"); WithConsensusSkipPeerCountCheck (ConsensusSkipPeerCountCheck cfg);
           WithConsensusForcedCandidate (ConsensusForcedCandidate cfg); WithWeight (Weight cfg);
           WithConsensusReceiptTarget target])).

Definition build_backends (env : start_env) (config : Config) : gmap string Backend + stop :=
  range_build (build_backend env config) ∅ (cfg_Backends config).

(** The members of a group: backends, fallbacks, and the number of fallbacks found. *)
Definition add_member (byName : gmap string Backend) (fallbacks : list string)
    (acc : list Backend * gmap string bool * nat) (bName : string) : (list Backend * gmap string bool * nat) + stop :=
  let '(backends, fbs, n) := acc in
  match byName !! bName with
  | None => refuse ("backend " +:+ bName +:+ " is not defined")
  | Some b =>
      let found := length (List.filter (fun fb => bName ==s fb) fallbacks) in
      let fbs := if (0 <? found)%nat then <[bName := true]> fbs
                 else match fbs !! bName with Some _ => fbs | None => <[bName := false]> fbs end in
      inl (backends ++ [b], fbs, (n + found)%nat)
  end.

Definition build_group (byName : gmap string Backend) (bgName : string) (bg : BackendGroupConfig) : BackendGroup + stop :=
  let? acc := try_fold (add_member byName (gc_Fallbacks bg)) ([], ∅, 0%nat) (gc_Backends bg) in
  let '(backends, fbs, n) := acc in
  let? ok := check (negb (n =? length (gc_Fallbacks bg))%nat) 
               ("error: number of fallbacks instantiated (" +:+ int_string (Z.of_nat n) +:+ ") did not match configured (" +:+
                int_string (Z.of_nat (length (gc_Fallbacks bg))) +:+ ") for backend group " +:+ bgName) in
  inl (mkGroup bgName (mkMembers backends fbs) (gc_WeightedRouting bg) None (gc_RoutingStrategy bg) (gc_MulticallRPCErrorCheck bg)).

Definition build_groups (byName : gmap string Backend) (config : Config) : gmap string BackendGroup + stop :=
  range_build (build_group byName) ∅ (cfg_BackendGroups config).

(** ** Pollers *)

Definition copt_if (b : bool) (o : ConsensusOpt (T := AnyTracker)) : list (ConsensusOpt (T := AnyTracker)) := if b then [o] else [].

Definition consensus_options (b : BackendGroupConfig) : list (ConsensusOpt (T := AnyTracker)) :=
  copt_if (0 <? ConsensusBanPeriod b) (WithBanPeriod (ConsensusBanPeriod b)) ++
  copt_if (0 <? ConsensusMaxUpdateThreshold b) (WithMaxUpdateThreshold (ConsensusMaxUpdateThreshold b)) ++
  copt_if (0 <? ConsensusMaxBlockLag b) (WithMaxBlockLag (ConsensusMaxBlockLag b)) ++
  copt_if (0 <? ConsensusMinPeerCount b) (WithMinPeerCount (ConsensusMinPeerCount b)) ++
  copt_if (0 <? ConsensusMaxBlockRange b) (WithMaxBlockRange (ConsensusMaxBlockRange b)) ++
  copt_if (0 <? ConsensusPollerInterval b) (WithPollerInterval (ConsensusPollerInterval b)).

Definition ha_tracker (env : start_env) (bgName : string) (b : BackendGroupConfig) : RedisConsensusTracker + stop :=
  let redis := ConsensusHARedis b in
  if URL redis ==s "" then inr (Exit "must specify a consensus_ha_redis config when consensus_ha is true")
  else
    let? client := or_refuse (NewRedisClient env (URL redis) (RedisCluster redis)) in
    let? ok := succeed (CheckRedisConnection env client) in
    inl (NewRedisConsensusTracker (Namespace redis +:+ ":" +:+ bgName) (Hostname env)
           ((if 0 <? ConsensusHALockPeriod b then [WithLockPeriod (ConsensusHALockPeriod b)] else []) ++
            (if 0 <? ConsensusHAHeartbeatInterval b then [WithHeartbeatInterval (ConsensusHAHeartbeatInterval b)] else []))).

Definition with_poller (bg : BackendGroup) (cp : ConsensusPoller (T := AnyTracker)) : BackendGroup :=
  mkGroup (bg_Name bg) (bg_members bg) (WeightedRouting bg) (Some cp) (routingStrategy bg) (multicallRPCErrorCheck bg).

Definition configure_group (env : start_env) (bgName : string) (b : BackendGroupConfig) (bg : BackendGroup) : BackendGroup + stop :=
  let? strategy := ValidateRoutingStrategy b in
  if strategy ==s ConsensusAwareRoutingStrategy then
    if existsb (fun be => match FallbackBackends (bg_members bg) !! be with Some _ => false | None => true end) (gc_Backends b)
    then inr (Exit "error backend not found in backend fallback configurations")
    else
      let? t := (if ConsensusHA b then let? t := ha_tracker env bgName b in inl (Some (HATracker t)) else inl None) in
      let copts := consensus_options b ++ match t with Some t => [WithTracker t] | None => [] end in
      inl (with_poller bg (NewConsensusPoller (MemoryTracker NewInMemoryConsensusTracker) (bg_members bg) copts))
  else inl bg.

Definition configure_groups (env : start_env) (config : Config) (groups : gmap string BackendGroup) : gmap string BackendGroup + stop :=
  range_build (fun bgName bg =>
      match cfg_BackendGroups config !! bgName with
      | None => inl bg
      | Some b => configure_group env bgName b bg
      end) groups groups.

(** ** Start *)

(** The cache of the server: none, a memory cache, or Redis with the client that writes
    and the one that reads, with or without a memory cache as its fallback. *)
Inductive cache_choice :=
| CacheDisabled
| CacheMemory
| CacheRedis (client readClient : RedisClient) (namespace : string) (ttl : Duration) (fallback : bool).

Definition defaultCacheTtl : Duration := Hour.

Definition choose_cache (config : Config) (redisClient redisReadClient : option RedisClient) : cache_choice :=
  if cc_Enabled (cfg_Cache config) then
    match redisClient, redisReadClient with
    | Some client, Some readClient =>
        let ttl := if negb (cc_TTL (cfg_Cache config) =? 0) then cc_TTL (cfg_Cache config) else defaultCacheTtl in
        CacheRedis client readClient (Namespace (cfg_Redis config)) ttl (FallbackToMemory (cfg_Redis config))
    | _, _ => CacheMemory
    end
  else CacheDisabled.

(** A failed connection is fatal unless memory can take over. *)
Definition check_connection (env : start_env) (fallback : bool) (client : RedisClient) : unit + stop :=
  match CheckRedisConnection env client with
  | Some err => if fallback then inl tt else inr (Refused err)
  | None => inl tt
  end.

Definition primary_client (env : start_env) (r : RedisConfig) : option RedisClient + stop :=
  if negb (URL r ==s "") then
    let? rURL := ReadFromEnvOrConfig env (URL r) in
    let? client := or_refuse (NewRedisClient env rURL (RedisCluster r)) in
    let? ok := check_connection env (FallbackToMemory r) client in
    inl (Some client)
  else inl None.

(** The connection that is checked here is that of the primary client again. *)
Definition read_client (env : start_env) (r : RedisConfig) (redisClient : option RedisClient) : option RedisClient + stop :=
  if negb (ReadURL r ==s "") then
    match redisClient with
    | None => refuse "must specify a Redis primary URL. only read endpoint is set"
    | Some client =>
        let? rURL := ReadFromEnvOrConfig env (ReadURL r) in
        let? readClient := or_refuse (NewRedisClient env rURL (RedisCluster r)) in
        let? ok := check_connection env (FallbackToMemory r) client in
        inl (Some readClient)
    end
  else inl redisClient.

(** The messages that the configuration replaces in the package-level errors. *)
Definition error_messages (config : Config) : ErrorMessages := {|
  configured_message s :=
    match s with
    | ErrOverRateLimit => rl_ErrorMessage (cfg_RateLimit config)
    | ErrMethodNotWhitelisted => WhitelistErrorMessage config
    | ErrTooManyBatchRequests => bt_ErrorMessage (cfg_Batch config)
    | _ => ""
    end |}.

Definition check_sender (c : SenderRateLimitConfig) : unit + stop :=
  if sl_Enabled c then
    let? ok := check (sl_Limit c <=? 0) "limit in sender_rate_limit must be > 0" in
    check (sl_Interval c <? Second) "interval in sender_rate_limit must be >= 1s"
  else inl tt.

Definition resolve_auth (env : start_env) (auth : option (gmap string string)) : gmap string string + stop :=
  match auth with
  | None => inl ∅
  | Some m => try_fold (fun acc '(secret, alias) => let? s := ReadFromEnvOrConfig env secret in inl (<[s := alias]> acc)) ∅
                (map_order (map_to_list m))
  end.

Definition has_group (groups : gmap string BackendGroup) (name : string) : bool :=
  match groups !! name with Some _ => true | None => false end.

Record started := mkStarted {
  sd_server : Server;
  sd_limiters : limiters;
  sd_groups : gmap string BackendGroup;
  sd_ws : option string;
  sd_whitelist : StringSet;
  sd_cache : cache_choice;
  sd_messages : ErrorMessages;
}.

(** [Start] up to the point where the servers start to listen: the groups have no pollers yet. *)
Definition prepare (env : start_env) (config : Config) : started + stop :=
  let? ok := check (size (cfg_Backends config) =? 0)%nat "must define at least one backend" in
  let? ok := check (size (cfg_BackendGroups config) =? 0)%nat "must define at least one backend group" in
  let? ok := check (size (RPCMethodMappings config) =? 0)%nat "must define at least one RPC method mapping" in
  let? ok := check (match Authentication config with
                    | Some m => match m !! "none" with Some _ => true | None => false end
                    | None => false
                    end) "cannot use none as an auth key" in
  let? redisClient := primary_client env (cfg_Redis config) in
  let? redisReadClient := read_client env (cfg_Redis config) redisClient in
  let? ok := check (match redisClient with Some _ => false | None => UseRedis (cfg_RateLimit config) end)
               "must specify a Redis URL if UseRedis is true in rate limit config" in
  let? ok := check_sender (SenderRateLimit config) in
  let? byName := build_backends env config in
  let? groups := build_groups byName config in
  let ws := if WSBackendGroup config ==s "" then None else Some (WSBackendGroup config) in
  let? ok := check (match ws with Some name => negb (has_group groups name) | None => false end)
               ("ws backend group " +:+ WSBackendGroup config +:+ " does not exist") in
  let? ok := check (match ws with Some _ => false | None => negb (WSPort (cfg_Server config) =? 0) end)
               "a ws port was defined, but no ws group was defined" in
  let? ok := match List.find (fun kv => negb (has_group groups kv.2)) (map_order (map_to_list (RPCMethodMappings config))) with
             | Some (_, bg) => refuse ("undefined backend group " +:+ bg)
             | None => inl tt
             end in
  let? auth := resolve_auth env (Authentication config) in
  match NewServer (RPCMethodMappings config) (DomainRPCMethodMappings config) (MaxBodySizeBytes (cfg_Server config)) auth
          (secondsToDuration (TimeoutSeconds (cfg_Server config))) (MaxUpstreamBatchSize (cfg_Server config))
          (EnableXServedByHeader (cfg_Server config)) (cfg_RateLimit config) (SenderRateLimit config)
          (EnableRequestLog (cfg_Server config)) (MaxRequestBodyLogLen (cfg_Server config)) (MaxSize (cfg_Batch config))
          (limiterFactory (UseRedis (cfg_RateLimit config)) (FallbackToMemory (cfg_Redis config))) (EthCallOverrideRules config) with
  | inr err => inr (Refused (EWrap "error creating server:" (Some err)))
  | inl (s, lims) =>
      inl (mkStarted s lims groups ws (NewStringSetFromStrings (WSMethodWhitelist config))
             (choose_cache config redisClient redisReadClient) (error_messages config))
  end.

Definition set_groups (groups : gmap string BackendGroup) (sd : started) : started :=
  mkStarted (sd_server sd) (sd_limiters sd) groups (sd_ws sd) (sd_whitelist sd) (sd_cache sd) (sd_messages sd).

Definition Start (env : start_env) (config : Config) : started + stop :=
  let? sd := prepare env config in
  let? groups1 := configure_groups env config (sd_groups sd) in
  inl (set_groups groups1 sd).

End Start.

(** ** Properties *)

Lemma try_inl {A B} (m : A + stop) (k : A -> B + stop) b : try m k = inl b <-> exists a, m = inl a /\ k a = inl b.
Proof.
  destruct m as [a|s]; cbn; split; try discriminate; eauto.
  - intros (a' & [= <-] & H). exact H.
  - intros (a' & H & _). discriminate H.
Qed.

Lemma check_inl b msg x : check b msg = inl x <-> b = false /\ x = tt.
Proof. destruct b, x; cbn; split; try done; intros [? ?]; done. Qed.

Section Range.
Context {MO : MapOrder} {MOL : MapOrderLaws}.

Lemma try_fold_build {A B} (f : string -> A -> B + stop) l : forall m0 m,
  NoDup l.*1 -> try_fold (fun m '(k, a) => let? b := f k a in inl (<[k := b]> m)) m0 l = inl m ->
  (forall k a, (k, a) ∈ l -> exists b, f k a = inl b /\ m !! k = Some b) /\
  (forall k, k ∉ l.*1 -> m !! k = (m0 : gmap string B) !! k).
Proof.
  induction l as [|[k a] l IH]; intros m0 m Hnd H; cbn [try_fold] in H.
  { simplify_eq. split; [by intros ? ? ?%elem_of_nil|done]. }
  apply NoDup_cons in Hnd as [Hk Hnd]. apply try_inl in H as (m1 & H1 & H). apply try_inl in H1 as (b & Hb & H1). simplify_eq.
  destruct (IH _ _ Hnd H) as [Hin Hout]. cbn in Hk. split.
  - intros k' a' [[= -> ->]|Hl]%elem_of_cons; [|by apply Hin]. exists b. split; [done|].
    rewrite Hout by done. by rewrite lookup_insert_eq.
  - intros k' Hk'. cbn in Hk'. rewrite not_elem_of_cons in Hk'. destruct Hk' as [Hne Hk'].
    rewrite Hout by done. by rewrite lookup_insert_ne.
Qed.

(** A range builds the entry of every key. *)
Lemma range_build_lookup {A B} (f : string -> A -> B + stop) m0 (M : gmap string A) m :
  range_build f m0 M = inl m -> forall k,
  match M !! k with
  | Some a => exists b, f k a = inl b /\ m !! k = Some b
  | None => m !! k = m0 !! k
  end.
Proof.
  intros H k. unfold range_build in H. apply try_fold_build in H as [Hin Hout]; cycle 1.
  { rewrite map_order_perm. apply NoDup_fst_map_to_list. }
  destruct (M !! k) as [a|] eqn:E.
  - apply Hin. rewrite map_order_perm. by apply elem_of_map_to_list.
  - apply Hout. rewrite map_order_perm. intros ([k' a] & -> & Hl)%list_elem_of_fmap.
    apply elem_of_map_to_list in Hl. cbn in E. congruence.
Qed.

End Range.

Section Sound.
Context {EM : ErrorMessages} {G : Geth} {RE : Regexp} {MO : MapOrder} {MOL : MapOrderLaws} {W : Type} {WO : WindowOps W}.
Notation Backend := (Backend (W := W)).
Notation BackendOpt := (BackendOpt (W := W)).

(** Options keep the name and the URL of a backend. *)
Definition keeps_address (o : BackendOpt) : Prop := forall b, Name (o b) = Name b /\ rpcURL (o b) = rpcURL b.

Lemma Override_address opts : forall b : Backend, Forall keeps_address opts ->
  Name (Override opts b) = Name b /\ rpcURL (Override opts b) = rpcURL b.
Proof.
  induction opts as [|o opts IH]; intros b H; [done|]. apply Forall_cons in H as [Ho H].
  change (Override (o :: opts) b) with (Override opts (o b)). destruct (IH (o b) H) as [-> ->]. apply Ho.
Qed.

Lemma opt_if_address b o : keeps_address o -> Forall keeps_address (opt_if b o).
Proof. intros Ho. destruct b; cbn; by constructor. Qed.

Lemma build_backend_spec env config name cfg (b : Backend) :
  build_backend env config name cfg = inl b -> Name b = name /\ rpcURL b <> "".
Proof.
  unfold build_backend. intros H. apply try_inl in H as (url & _ & H). apply try_inl in H as (ws & _ & H).
  apply try_inl in H as (u & [Hurl _]%check_inl & H). apply try_inl in H as (auth & Hauth & H).
  apply try_inl in H as (hs & _ & H). apply try_inl in H as (tls & _ & H). apply try_inl in H as (t0 & _ & H).
  apply try_inl in H as (t & _ & H). injection H as <-. bsimp.
  assert (Hall : Forall keeps_address auth).
  { destruct (negb _); [apply try_inl in Hauth as (p & _ & Hp)|]; simplify_eq; [|constructor]. constructor; [by intros []|constructor]. }
  unfold NewBackend. set (b0 := mkBackend _ _ _ _ _ _ _ _ _ _ _ _ _ _ _ _ _ _ _ _ _ _ _ _ _).
  match goal with |- context [Override ?opts b0] => destruct (Override_address opts b0) as [-> ->]; [|done] end.
  assert (Htls : Forall keeps_address match tls with Some c => [WithTLSConfig c] | None => [] end)
    by (destruct tls; repeat constructor; by destruct b).
  unfold common_options.
  repeat first [apply Forall_app; split | apply Forall_cons; split | apply Forall_nil; done | apply opt_if_address | done];
    by intros [].
Qed.

Lemma add_members_spec (byName : gmap string Backend) fallbacks names : forall acc acc',
  try_fold (add_member byName fallbacks) acc names = inl acc' ->
  exists bs, acc'.1.1 = acc.1.1 ++ bs /\ Forall2 (fun n b => byName !! n = Some b) names bs.
Proof.
  induction names as [|n names IH]; intros acc acc' H; cbn [try_fold] in H.
  { simplify_eq. exists []. by rewrite app_nil_r. }
  apply try_inl in H as (acc1 & H1 & H). destruct (IH _ _ H) as (bs & Hbs & Hall).
  destruct acc as [[backends fbs] k]. unfold add_member in H1. destruct (byName !! n) as [b|] eqn:E; [|done].
  injection H1 as <-. exists (b :: bs). rewrite Hbs. cbn. rewrite <- app_assoc. split; [done|by constructor].
Qed.

Lemma build_group_spec (byName : gmap string Backend) n b bg :
  build_group byName n b = inl bg ->
  bg_Name bg = n /\ Consensus bg = None /\ routingStrategy bg = gc_RoutingStrategy b /\
  Forall2 (fun n b => byName !! n = Some b) (gc_Backends b) (Backends (bg_members bg)).
Proof.
  unfold build_group. intros H. apply try_inl in H as ([[backends fbs] k] & Ha & H). apply try_inl in H as (u & _ & H).
  injection H as <-. apply add_members_spec in Ha as (bs & Hbs & Hall). cbn in *. by subst.
Qed.

Lemma ValidateRoutingStrategy_multicall b strategy :
  ValidateRoutingStrategy b = inl strategy -> gc_RoutingStrategy b = MulticallRoutingStrategy -> strategy = MulticallRoutingStrategy.
Proof.
  unfold ValidateRoutingStrategy. intros H Hs. rewrite Hs in H. destruct (ConsensusAware b); cbn in H; [done|]. by simplify_eq.
Qed.

Lemma configure_group_spec env n b bg bg' :
  configure_group (W := W) env n b bg = inl bg' -> Consensus bg = None ->
  bg_Name bg' = bg_Name bg /\ bg_members bg' = bg_members bg /\ routingStrategy bg' = routingStrategy bg /\
  exists strategy, ValidateRoutingStrategy b = inl strategy /\
    (Consensus bg' = None <-> strategy <> ConsensusAwareRoutingStrategy).
Proof.
  unfold configure_group. intros H Hc. apply try_inl in H as (strategy & Hv & H).
  destruct (streq_spec strategy ConsensusAwareRoutingStrategy) as [Heq|Hne].
  - destruct (existsb _ _); [done|]. apply try_inl in H as (t & _ & H). injection H as <-.
    split; [done|]. split; [done|]. split; [done|]. exists strategy. split; [done|]. cbn. split; [done|]. by intros [].
  - injection H as <-. split; [done|]. split; [done|]. split; [done|]. by exists strategy.
Qed.

Lemma NewServer_limits maps domains body auth tmo up served cfg senders logs logLen batch factory rules s lims :
  NewServer maps domains body auth tmo up served cfg senders logs logLen batch factory rules = inl (s, lims) ->
  rpcMethodMappings s = maps /\ (0 <= up -> 0 < maxUpstreamBatchSize s) /\ maxBatchSize s <= MaxBatchRPCCallsHardLimit.
Proof.
  unfold NewServer. intros H. destruct (compile_all _) as [p1|]; [|done].
  destruct (compile_all _) as [p2|]; [|done]. injection H as <- _. cbn. split; [done|]. split.
  - intros Hup. destruct (Z.eqb_spec up 0); [done|lia].
  - destruct (Z.ltb_spec MaxBatchRPCCallsHardLimit (if batch =? 0 then DefaultMaxBatchRPCCallsLimit else batch)); lia.
Qed.

(** What [Start] promises about a group. *)
Definition group_sound (config : Config) (name : string) (bg : BackendGroup (W := W) (T := AnyTracker)) : Prop :=
  exists b strategy, cfg_BackendGroups config !! name = Some b /\ ValidateRoutingStrategy b = inl strategy /\
    bg_Name bg = name /\ map Name (Backends (bg_members bg)) = gc_Backends b /\
    (forall be, be ∈ Backends (bg_members bg) -> rpcURL be <> "" /\ is_Some (cfg_Backends config !! Name be)) /\
    (Consensus bg = None <-> strategy <> ConsensusAwareRoutingStrategy) /\
    (routingStrategy bg = MulticallRoutingStrategy -> Consensus bg = None).

Lemma groups_sound env config byName groups groups1 :
  build_backends env config = inl byName -> build_groups byName config = inl groups ->
  configure_groups env config groups = inl groups1 ->
  (forall name, is_Some (groups1 !! name) <-> is_Some (groups !! name)) /\
  (forall name bg, groups1 !! name = Some bg -> group_sound config name bg).
Proof.
  intros Hb Hg Hc. pose proof (range_build_lookup _ _ _ _ Hb) as Lb. pose proof (range_build_lookup _ _ _ _ Hg) as Lg.
  pose proof (range_build_lookup _ _ _ _ Hc) as Lc. split.
  { intros name. specialize (Lc name). destruct (groups !! name); [destruct Lc as (? & _ & ->)|by rewrite Lc]. by split; eauto. }
  intros name bg Hbg. specialize (Lc name). specialize (Lg name). destruct (groups !! name) as [g|] eqn:Eg; [|congruence].
  destruct Lc as (bg1 & Hconf & E1). rewrite Hbg in E1. simplify_eq.
  destruct (cfg_BackendGroups config !! name) as [b|] eqn:Eb; cycle 1.
  { by rewrite lookup_empty in Lg. }
  destruct Lg as (g1 & Hbuild & E2). simplify_eq.
  destruct (build_group_spec _ _ _ _ Hbuild) as (Hn & Hnone & Hr & Hall).
  destruct (configure_group_spec _ _ _ _ _ Hconf Hnone) as (Hn1 & Hm1 & Hr1 & strategy & Hv & Hcons).
  assert (Hnamed : forall n be, byName !! n = Some be -> Name be = n /\ rpcURL be <> "" /\ is_Some (cfg_Backends config !! n)).
  { intros n be Hbe. specialize (Lb n). destruct (cfg_Backends config !! n); [|by rewrite Lb, lookup_empty in Hbe].
    destruct Lb as (be' & Hbuilt & E). rewrite Hbe in E. simplify_eq. apply build_backend_spec in Hbuilt as [? ?]. eauto. }
  exists b, strategy. rewrite Hm1. split; [done|]. split; [done|]. split; [congruence|]. split; [|split; [|split; [done|]]].
  - clear -Hall Hnamed. induction Hall as [|n be ns bs Hbe _ IH]; [done|]. cbn. by rewrite (proj1 (Hnamed _ _ Hbe)), IH.
  - intros be Hin. apply list_elem_of_lookup in Hin as (i & Hi). destruct (Forall2_lookup_r _ _ _ _ _ Hall Hi) as (n & _ & Hbe).
    destruct (Hnamed _ _ Hbe) as (-> & ? & ?). done.
  - intros Hmc. apply Hcons. rewrite (ValidateRoutingStrategy_multicall b strategy Hv); [done|congruence].
Qed.

(** What [prepare] has built and checked. *)
Lemma prepare_spec env config (sd : started (W := W)) :
  prepare env config = inl sd -> exists byName, build_backends env config = inl byName /\
    build_groups byName config = inl (sd_groups sd) /\
    List.find (fun kv => negb (has_group (sd_groups sd) kv.2)) (map_order (map_to_list (RPCMethodMappings config))) = None /\
    exists tmo auth, NewServer (RPCMethodMappings config) (DomainRPCMethodMappings config) (MaxBodySizeBytes (cfg_Server config))
      auth tmo (MaxUpstreamBatchSize (cfg_Server config)) (EnableXServedByHeader (cfg_Server config)) (cfg_RateLimit config)
      (SenderRateLimit config) (EnableRequestLog (cfg_Server config)) (MaxRequestBodyLogLen (cfg_Server config))
      (MaxSize (cfg_Batch config)) (limiterFactory (UseRedis (cfg_RateLimit config)) (FallbackToMemory (cfg_Redis config)))
      (EthCallOverrideRules config) = inl (sd_server sd, sd_limiters sd).
Proof.
  unfold prepare. intros H. do 8 apply try_inl in H as (? & _ & H).
  apply try_inl in H as (byName & Hb & H). apply try_inl in H as (groups & Hg & H).
  apply try_inl in H as (? & _ & H). apply try_inl in H as (? & _ & H).
  apply try_inl in H as (? & Hmap & H). apply try_inl in H as (auth & _ & H).
  destruct (List.find _ _) as [[? ?]|] eqn:Hfind in Hmap; [done|].
  destruct (NewServer _ _ _ _ _ _ _ _ _ _ _ _ _ _) as [[s lims]|] eqn:Hs; [|done].
  injection H as <-. exists byName. split; [done|]. split; [done|]. split; [done|]. by eexists _, _.
Qed.

(** C20. What [Start] builds is sound: the groups are those of the configuration, each with its configured backends,
    all of which exist and have a URL, and with a consensus poller exactly when its
    validated strategy is consensus-aware (so never when it is multicall); every
    method of [rpc_method_mappings] is mapped to a group that exists (the mappings of a
    domain are not checked); batches sent upstream have a positive bound unless a negative
    one is configured, and client batches are at most 1000 calls. *)
Theorem Start_sound env config (sd : started (W := W)) :
  Start env config = inl sd ->
  (forall name, is_Some (sd_groups sd !! name) <-> is_Some (cfg_BackendGroups config !! name)) /\
  (forall name bg, sd_groups sd !! name = Some bg -> group_sound config name bg) /\
  (forall method group, rpcMethodMappings (sd_server sd) !! method = Some group -> is_Some (sd_groups sd !! group)) /\
  (0 <= MaxUpstreamBatchSize (cfg_Server config) -> 0 < maxUpstreamBatchSize (sd_server sd)) /\
  maxBatchSize (sd_server sd) <= 1000.
Proof.
  unfold Start. intros H. apply try_inl in H as (sd0 & Hp & H). apply try_inl in H as (groups1 & Hc & H). injection H as <-.
  destruct (prepare_spec _ _ _ Hp) as (byName & Hb & Hg & Hmap & tmo & auth & Hs). cbn [set_groups sd_groups sd_server].
  set (groups := sd_groups sd0) in *.
  destruct (groups_sound _ _ _ _ _ Hb Hg Hc) as [Hdom Hsound].
  destruct (NewServer_limits _ _ _ _ _ _ _ _ _ _ _ _ _ _ _ _ Hs) as (Hmaps & Hup & Hmax).
  split; [|split; [done|split; [|split; [done|done]]]].
  - intros name. rewrite Hdom. pose proof (range_build_lookup _ _ _ _ Hg name) as Lg.
    destruct (cfg_BackendGroups config !! name); [destruct Lg as (? & _ & ->); by split; eauto|].
    rewrite Lg, lookup_empty. by split; intros [].
  - intros method group Hm. rewrite Hmaps in Hm. apply Hdom.
    assert (Hin : In (method, group) (map_order (map_to_list (RPCMethodMappings config))))
      by (apply list_elem_of_In; rewrite map_order_perm; by apply elem_of_map_to_list).
    destruct (groups !! group) eqn:E; [eauto|]. exfalso.
    apply (find_none _ _ Hmap) in Hin. unfold has_group in Hin. cbn in Hin. by rewrite E in Hin.
Qed.

End Sound.

(** ** A concrete configuration *)

#[local] Existing Instances literal_regexp text_tx backwards backwards_laws unit_redis default_messages.

Definition demo_env : start_env :=
  mkStartEnv (fun v => if v ==s "KEY" then "secret" else "") (fun _ => None) (fun _ => None) (fun _ => None)
    (fun _ => inl "pem") (fun _ => true) (fun _ _ => inl "cert") "host".

Definition demo_config : Config :=
  mkConfig "" (mkServerConfig "" 8545 "" 0 0 0 0 "info" 0 0 false 0 false false false) (mkCacheConfig false 0)
    (mkRedisConfig "" "" "" false false) (mkMetricsConfig false "" 0) (mkRateLimit false 0 0 [] [] 0 0 ∅ "slow down" ∅ "") 
    (mkBackendOptions 0 0 2 0 0 0 (of_Z 0))
    {[ "a" := mkBackendConfig "user" "$KEY" "http://a" "" 0 0 "" "" "" false ∅ 0 false false "" ]} (mkBatchConfig 0 "") None
    {[ "main" := mkGroupConfig ["a"] false "" false true "" 0 0 0 0 0 0 false 0 0 (mkRedisConfig "" "" "" false false) [] ]}
    {[ "eth_chainId" := "main" ]} {[ "builder.example" := {[ "eth_chainId" := "missing" ]} ]} [] "" (mkSenderLimit false 0 0 []) [].

Lemma Start_sound_witness :
  exists sd, Start (W := demo_window) demo_env demo_config = inl sd /\ is_Some (sd_groups sd !! "main") /\
    0 < maxUpstreamBatchSize (sd_server sd).
Proof.
  destruct (Start (W := demo_window) demo_env demo_config) as [sd|] eqn:E; [|vm_compute in E; discriminate E].
  exists sd. split; [reflexivity|].
  destruct (Start_sound demo_env demo_config sd E) as (Hdom & _ & _ & Hup & _). split.
  - apply Hdom. by eexists.
  - apply Hup. vm_compute. discriminate.
Defined.

(** The groups of domain mappings are not checked: a configuration that maps a method to a group that does
    not exist for one domain is accepted, and a call of that method for that domain
    dereferences a nil group. *)
Theorem domain_mapping_unchecked :
  match Start (W := demo_window) demo_env demo_config with
  | inl sd =>
      let r := mkIn [("X-Forwarded-Host", "builder.example")] "10.0.0.1:4242" "builder.example" ""
                 (mkSource (chars (demo_raw (demo_request "1" "eth_chainId" (JArr [])))) [] false None) in
      let st := mkSt 0 (sd_limiters sd) tt noopRPCCache
                  (mkGroups (sd_groups sd) 0 (fun _ => mkEnv Hour id_shuffles demo_group_net id false)) in
      HandleRPC (EM := sd_messages sd) (fun _ => Hour) (sd_server sd) (fun _ => 512%nat) r st = Panic "nil pointer dereference"
  | inr _ => False
  end.
Proof. vm_compute. reflexivity. Qed.
