(* ===== verification/InFlight.v ===== *)
(** * The exchanges in flight: [LimitedHTTPClient] of [backend.go]

    All backends share two semaphores that [Start] creates ([proxyd.go]): one for user traffic
    and one for the calls of the consensus pollers. [DoWithSemaphore] acquires one of them,
    makes the exchange and releases it. It returns when the headers of the response have
    arrived, so an exchange in flight here does not include the reading of the body. The semaphore is that of golang.org/x/sync, a
    parameter with its laws. The exchanges of all backends are interleaved in any order; an
    acquisition may also be given up, when the context of its request ends.

    The file shows that the number of exchanges in flight never exceeds the configured
    limits, that a release never panics, and that user traffic cannot keep a poller from
    making its calls, nor the other way round. *)

From stdpp Require Import base list strings.
From Stdlib Require Import ZArith Lia.
From S2P Require Import Prelude Json Rpc Backend Proxyd.

Local Open Scope Z_scope.

(** [semaphore.Weighted], for weights of one: a grant, if there is room, and a release. *)
Class Semaphore (S : Type) := {
  sem_new : Z -> S;
  sem_grant : S -> option S;
  sem_release : S -> go S;
}.

Class SemaphoreLaws (S : Type) {SO : Semaphore S} := {
  sem_size : S -> Z;
  sem_held : S -> Z;
  sem_new_spec n : sem_size (sem_new n) = n /\ sem_held (sem_new n) = 0;
  sem_grant_some s s' : sem_grant s = Some s' ->
    sem_size s' = sem_size s /\ sem_held s' = sem_held s + 1 /\ sem_held s' <= sem_size s;
  sem_grant_room s : sem_held s < sem_size s -> is_Some (sem_grant s);
  sem_release_held s : 0 < sem_held s ->
    exists s', sem_release s = Ret s' /\ sem_size s' = sem_size s /\ sem_held s' = sem_held s - 1;
}.

(** The limits of the configuration; zero is no limit. *)
Definition semaphore_size (n : Z) : Z := if n =? 0 then MaxInt64 else n.

(** The calls of [Forward] and those of [ForwardRPC], which only the pollers use. *)
Inductive traffic := UserTraffic | ConsensusTraffic.

(** The two semaphores, as the pointers that the backends share. *)
Inductive sem_ptr := rpcSemaphore | consensusSemaphore.

#[export] Instance traffic_eq_dec : EqDecision traffic.
Proof. solve_decision. Defined.

#[export] Instance sem_ptr_eq_dec : EqDecision sem_ptr.
Proof. solve_decision. Defined.

(** The semaphore that [doForward] is called with: nil for user traffic. *)
Definition passed_sem (k : traffic) : option sem_ptr :=
  match k with UserTraffic => None | ConsensusTraffic => Some consensusSemaphore end.

(** The semaphore [sem] of the client of every backend. *)
Definition client_sem : sem_ptr := rpcSemaphore.

(** [usedSem]: the semaphore of the call if there is one, or else that of the client. *)
Definition usedSem (k : traffic) : sem_ptr := default client_sem (passed_sem k).

Section InFlight.
Context {S : Type} {SO : Semaphore S}.

(** The semaphores of the process: that of the clients, and that of the pollers. *)
Record semaphores := mkSems { rpcRequestSemaphore : S; consensusRequestSemaphore : S }.

Definition new_semaphores (cfg : ServerConfig) : semaphores :=
  mkSems (sem_new (semaphore_size (MaxConcurrentRPCs cfg))) (sem_new (semaphore_size (MaxConcurrentConsensusRPCs cfg))).

Definition get_sem (p : sem_ptr) (ss : semaphores) : S :=
  match p with rpcSemaphore => rpcRequestSemaphore ss | consensusSemaphore => consensusRequestSemaphore ss end.

Definition set_sem (p : sem_ptr) (s : S) (ss : semaphores) : semaphores :=
  match p with
  | rpcSemaphore => mkSems s (consensusRequestSemaphore ss)
  | consensusSemaphore => mkSems (rpcRequestSemaphore ss) s
  end.

(** The semaphores, the exchanges in flight, and how many acquisitions were given up. *)
Record flights := mkFlights { fl_sems : semaphores; fl_flying : list traffic; fl_refused : nat }.

(** [DoWithSemaphore], in its steps. *)
Inductive flight_event := Acquired (k : traffic) | GivenUp (k : traffic) | Finished (i : nat).

Definition flight_step (e : flight_event) (fl : flights) : go (option flights) :=
  match e with
  | Acquired k =>
      match sem_grant (get_sem (usedSem k) (fl_sems fl)) with
      | Some s => Ret (Some (mkFlights (set_sem (usedSem k) s (fl_sems fl)) (fl_flying fl ++ [k]) (fl_refused fl)))
      | None => Ret None
      end
  | GivenUp _ => Ret (Some (mkFlights (fl_sems fl) (fl_flying fl) (fl_refused fl + 1)))
  | Finished i =>
      match fl_flying fl !! i with
      | Some k =>
          s ← sem_release (get_sem (usedSem k) (fl_sems fl));
          Ret (Some (mkFlights (set_sem (usedSem k) s (fl_sems fl)) (delete i (fl_flying fl)) (fl_refused fl)))
      | None => Ret None
      end
  end.

Inductive flights_reachable (cfg : ServerConfig) : flights -> Prop :=
| flights_start : flights_reachable cfg (mkFlights (new_semaphores cfg) [] 0)
| flights_more fl e fl' :
    flights_reachable cfg fl -> flight_step e fl = Ret (Some fl') -> flights_reachable cfg fl'.

(** How many exchanges of a kind are in flight. *)
Definition flying (k : traffic) (ks : list traffic) : Z := Z.of_nat (length (List.filter (fun x => bool_decide (x = k)) ks)).

(** The limit of a kind. *)
Definition limit (cfg : ServerConfig) (k : traffic) : Z :=
  semaphore_size (match k with UserTraffic => MaxConcurrentRPCs cfg | ConsensusTraffic => MaxConcurrentConsensusRPCs cfg end).

Context {SL : SemaphoreLaws S}.

Record flights_inv (cfg : ServerConfig) (fl : flights) : Prop := {
  fi_size k : sem_size (get_sem (usedSem k) (fl_sems fl)) = limit cfg k;
  fi_held k : sem_held (get_sem (usedSem k) (fl_sems fl)) = flying k (fl_flying fl);
  fi_bound k : flying k (fl_flying fl) <= Z.max 0 (limit cfg k);
}.

Lemma get_set_sem k k' s ss :
  get_sem (usedSem k') (set_sem (usedSem k) s ss) = if decide (k' = k) then s else get_sem (usedSem k') ss.
Proof. by destruct k, k'. Qed.

Lemma flying_snoc k ks x : flying k (ks ++ [x]) = flying k ks + (if decide (x = k) then 1 else 0).
Proof.
  unfold flying. rewrite List.filter_app, length_app. cbn. case_decide; subst.
  - rewrite bool_decide_true by done. cbn. lia.
  - rewrite bool_decide_false by done. cbn. lia.
Qed.

Lemma flying_delete k ks i x :
  ks !! i = Some x -> flying k (delete i ks) = flying k ks - (if decide (x = k) then 1 else 0).
Proof.
  intros H. rewrite delete_take_drop. rewrite <- (take_drop_middle ks i x H) at 3. unfold flying.
  rewrite !List.filter_app, !length_app. cbn. case_decide; subst.
  - rewrite bool_decide_true by done. cbn. lia.
  - rewrite bool_decide_false by done. cbn. lia.
Qed.

Lemma flying_pos k ks i : ks !! i = Some k -> 0 < flying k ks.
Proof.
  intros H. rewrite <- (take_drop_middle ks i k H). unfold flying. rewrite List.filter_app, length_app. cbn.
  rewrite bool_decide_true by done. cbn. lia.
Qed.

Lemma flight_step_inv cfg e fl fl' :
  flights_inv cfg fl -> flight_step e fl = Ret (Some fl') -> flights_inv cfg fl'.
Proof.
  intros [Hs Hh Hb] H. destruct e as [k|k|i]; cbn [flight_step] in H.
  - destruct (sem_grant _) as [s|] eqn:E; [|done]. injection H as <-.
    apply sem_grant_some in E as (E1 & E2 & E3).
    split; intros k'; cbn [fl_sems fl_flying]; rewrite ?get_set_sem, ?flying_snoc;
      (destruct (decide (k' = k)) as [->|Hne]; [rewrite ?decide_True by done|rewrite ?decide_False by congruence]).
    + by rewrite E1.
    + apply Hs.
    + by rewrite E2, Hh.
    + rewrite Hh. lia.
    + rewrite <- Hh, <- E2, <- Hs. lia.
    + specialize (Hb k'). lia.
  - by injection H as <-.
  - destruct (fl_flying fl !! i) as [k|] eqn:Ei; [|done].
    destruct (sem_release_held (get_sem (usedSem k) (fl_sems fl))) as (s & Er & E1 & E2).
    { rewrite Hh. by eapply flying_pos. }
    rewrite Er in H. injection H as <-.
    split; intros k'; cbn [fl_sems fl_flying]; rewrite ?get_set_sem, ?(flying_delete k' _ _ _ Ei);
      (destruct (decide (k' = k)) as [->|Hne]; [rewrite ?decide_True by done|rewrite ?decide_False by congruence]).
    + by rewrite E1.
    + apply Hs.
    + by rewrite E2, Hh.
    + rewrite Hh. lia.
    + specialize (Hb k). lia.
    + specialize (Hb k'). lia.
Qed.

Lemma flights_reachable_inv cfg fl : flights_reachable cfg fl -> flights_inv cfg fl.
Proof.
  induction 1 as [|fl e fl' _ IH H]; [|by eapply flight_step_inv].
  split; intros k; cbn [fl_sems fl_flying]; destruct k; cbn; try apply sem_new_spec; unfold flying; cbn; try lia.
Qed.

(** C15. The exchanges in flight are bounded: whatever the interleaving of the exchanges of all
    backends, at most as many of user traffic and of the pollers are in flight as the
    configuration allows; every exchange that is in flight can finish, its release does not
    panic; and an exchange can start whenever fewer than its own limit are in flight, whatever
    the other kind of traffic does. *)
Theorem in_flight_bounded cfg fl k :
  flights_reachable cfg fl ->
  flying k (fl_flying fl) <= Z.max 0 (limit cfg k) /\
  (forall i, (i < length (fl_flying fl))%nat -> exists fl', flight_step (Finished i) fl = Ret (Some fl')) /\
  (flying k (fl_flying fl) < limit cfg k -> exists fl', flight_step (Acquired k) fl = Ret (Some fl')).
Proof.
  intros [Hs Hh Hb]%flights_reachable_inv. split; [done|]. split.
  - intros i [x Hx]%lookup_lt_is_Some. cbn [flight_step]. rewrite Hx.
    destruct (sem_release_held (get_sem (usedSem x) (fl_sems fl))) as (s & -> & _).
    { rewrite Hh. by eapply flying_pos. }
    by eexists.
  - intros Hlt. cbn [flight_step]. destruct (sem_grant_room (get_sem (usedSem k) (fl_sems fl))) as [s ->]; [by rewrite Hh, Hs|].
    by eexists.
Qed.

End InFlight.

(** ** A semaphore that counts *)

Record counter := mkCounter { cnt_size : Z; cnt_held : Z }.

#[export] Instance counter_semaphore : Semaphore counter := {
  sem_new n := mkCounter n 0;
  sem_grant s := if cnt_held s <? cnt_size s then Some (mkCounter (cnt_size s) (cnt_held s + 1)) else None;
  sem_release s := if cnt_held s <=? 0 then Panic "semaphore: released more than held"
                   else Ret (mkCounter (cnt_size s) (cnt_held s - 1));
}.

#[export] Instance counter_laws : SemaphoreLaws counter.
Proof.
  refine {| sem_size := cnt_size; sem_held := cnt_held |}.
  - done.
  - intros s s'. cbn. destruct (Z.ltb_spec (cnt_held s) (cnt_size s)); [|done]. intros [= <-]. cbn. lia.
  - intros s Hlt. cbn. rewrite (proj2 (Z.ltb_lt _ _) Hlt). by eexists.
  - intros s Hp. cbn. rewrite (proj2 (Z.leb_gt _ _) Hp). by eexists.
Defined.

(** One user call and one poller call at a time: with both in flight neither kind can start
    another, and after the poller's has finished it can. *)
Definition tight_config : ServerConfig :=
  mkServerConfig "" 8545 "" 0 0 1 1 "info" 0 0 false 0 false false false.

Definition tight_flights : flights (S := counter) :=
  mkFlights (mkSems (mkCounter 1 1) (mkCounter 1 0)) [UserTraffic] 1.

Lemma tight_flights_reachable : flights_reachable tight_config tight_flights.
Proof.
  pose proof (flights_start (S := counter) tight_config) as H.
  eapply (flights_more _ _ (Acquired UserTraffic)) in H; [|vm_compute; reflexivity].
  eapply (flights_more _ _ (Acquired ConsensusTraffic)) in H; [|vm_compute; reflexivity].
  eapply (flights_more _ _ (GivenUp UserTraffic)) in H; [|vm_compute; reflexivity].
  eapply (flights_more _ _ (Finished 1)) in H; [|vm_compute; reflexivity].
  exact H.
Qed.

(** With the user limit used up, the pollers can still call. *)
Lemma in_flight_bounded_witness :
  flight_step (Acquired UserTraffic) tight_flights = Ret None /\
  exists fl', flight_step (Acquired ConsensusTraffic) tight_flights = Ret (Some fl').
Proof.
  split; [vm_compute; reflexivity|].
  apply (in_flight_bounded tight_config tight_flights ConsensusTraffic tight_flights_reachable). vm_compute. reflexivity.
Defined.
