(* ===== verification/System.v ===== *)
(** * The running process: [Start], the servers, the pollers and the shutdown together

    [proxyd.go], [server.go] and [cmd/proxyd/main.go] put the components together. A
    process is what is shared in memory: the listeners, the groups with the goroutines
    of their pollers and trackers, the limiters and the cache. Its steps are the rest of
    [Start] after the servers were told to listen, the goroutines of the servers, HTTP
    requests, the goroutines of the pollers and trackers, the clock, and the signal that
    ends it. A request is one step: concurrent requests are interleaved as a whole, except
    for the windows of the backends, which the pollers may find changed at any time. *)

From stdpp Require Import base list gmap strings.
From Stdlib Require Import ZArith Lia Ascii.
From Stdlib Require Strings.String.
From S2P Require Import Prelude SlidingWindow SlidingWindowRefinement Json JsonRoundtrip Geth Rpc Rewriter Reader Backend Tracker Poller PollerCorrect Async AsyncCorrect Group RateLimiter Cache Server ServerCorrect Metrics WS Proxyd.

Local Open Scope Z_scope.

(** ** Routes *)

Inductive endpoint := Healthz | RPC | WSocket.

(** A route of a [mux.Router]: the template of its path, the methods it accepts (all if
    none is given), its handler. *)
Record route := mkRoute { rt_path : string; rt_methods : list string; rt_handler : endpoint }.

Definition rpc_routes : list route :=
  [mkRoute "/healthz" ["GET"] Healthz; mkRoute "/" ["POST"] RPC; mkRoute "/{authorization}" ["POST"] RPC].

Definition ws_routes : list route := [mkRoute "/" [] WSocket; mkRoute "/{authorization}" [] WSocket].

(** The router: the route for a method and a path with the value of the variable
    [authorization], or the status of the refusal. *)
Class Mux := { mux_Match : list route -> string -> string -> (route * string) + Z }.

(** A path of at most one segment, without the characters that are special in a path. *)
Definition plain_segment (seg : string) : bool :=
  forallb (fun c => is_letter c || is_digit c || (code c =? 45)%N || (code c =? 95)%N) (chars seg).

Definition template_matches (template seg : string) : option string :=
  if template ==s "/{authorization}" then if seg ==s "" then None else Some seg
  else if template ==s ("/" +:+ seg) then Some "" else None.

Definition method_ok (rt : route) (method : string) : bool :=
  bool_decide (rt_methods rt = []) || existsb (fun m => m ==s method) (rt_methods rt).

(** Routes are tried in the order in which they were added. *)
Fixpoint first_route (routes : list route) (method seg : string) : option (route * string) :=
  match routes with
  | [] => None
  | rt :: routes' =>
      match template_matches (rt_path rt) seg with
      | Some var => if method_ok rt method then Some (rt, var) else first_route routes' method seg
      | None => first_route routes' method seg
      end
  end.

Class MuxLaws {MX : Mux} : Prop := {
  mux_first routes method seg : plain_segment seg = true ->
    match first_route routes method seg with
    | Some found => mux_Match routes method ("/" +:+ seg) = inl found
    | None => exists status, mux_Match routes method ("/" +:+ seg) = inr status /\ (status = 404 \/ status = 405)
    end;
}.

Definition HandleHealthz : http_out := mkOut 200 [] "OK".

(** ** The command *)

Inductive log_level := LevelTrace | LevelDebug | LevelInfo | LevelWarn | LevelError | LevelCrit.

Definition LevelFromString (lvlString : string) : log_level * option error :=
  let lvl := ToLower lvlString in
  let one_of := existsb (fun name => lvl ==s name) in
  if one_of ["trace"; "trce"] then (LevelTrace, None)
  else if one_of ["debug"; "dbug"] then (LevelDebug, None)
  else if one_of ["info"] then (LevelInfo, None)
  else if one_of ["warn"] then (LevelWarn, None)
  else if one_of ["error"; "eror"] then (LevelError, None)
  else if one_of ["crit"] then (LevelCrit, None)
  else (LevelDebug, Some (EOther ("unknown level: " +:+ lvl))).

(** A level that is not known is replaced by the default. *)
Definition main_level (config : Config) : log_level :=
  match LevelFromString (LogLevel (cfg_Server config)) with
  | (lvl, None) => lvl
  | (_, Some _) => LevelInfo
  end.

(** [net.JoinHostPort]: a host with a colon is an IPv6 address. *)
Definition JoinHostPort (host port : string) : string :=
  if Contains host ":" then "[" +:+ host +:+ "]:" +:+ port else host +:+ ":" +:+ port.

Inductive profile := PIndex | PCmdline | PProfile | PSymbol | PTrace.

(** An [http.Server] with the patterns of its [http.ServeMux]. *)
Record http_server := mkHttpServer { srv_Addr : string; srv_patterns : list (string * profile) }.

Definition StartPProf (hostname : string) (port : Z) : http_server :=
  mkHttpServer (JoinHostPort hostname (Itoa port))
    [("/debug/pprof/", PIndex); ("/debug/pprof/cmdline", PCmdline); ("/debug/pprof/profile", PProfile);
     ("/debug/pprof/symbol", PSymbol); ("/debug/pprof/trace", PTrace)].

(** The address of the server of the metrics, if it is enabled. *)
Definition metrics_addr (config : Config) : option string :=
  if mc_Enabled (cfg_Metrics config)
  then Some (mc_Host (cfg_Metrics config) +:+ ":" +:+ Itoa (mc_Port (cfg_Metrics config))) else None.

(** [main] up to the part of [Start] in which the process runs: the level of the log, the server of
    profiles, which is started first, and what was prepared. *)
Definition main {G : Geth} {RE : Regexp} {MO : MapOrder} {W : Type} {WO : WindowOps W} (env : start_env)
    (DecodeFile : string -> Config + error) (args : list string) : (log_level * option http_server * Config * started (W := W)) + stop :=
  match args with
  | _ :: file :: _ =>
      match DecodeFile file with
      | inr _ => inr (Exit "error reading config file")
      | inl config =>
          match prepare env config with
          | inr (Exit msg) => inr (Exit msg)
          | inr (Refused _) => inr (Exit "error starting proxyd")
          | inl sd =>
              let pprofSrv := if EnablePprof (cfg_Server config) then Some (StartPProf "0.0.0.0" 6060) else None in
              inl (main_level config, pprofSrv, config, sd)
          end
      end
  | _ => inr (Exit "must specify a config file on the command line")
  end.

(** ** The process *)

(** The server of a goroutine: not created yet, created, accepting connections, shut down. *)
Inductive listener := Pending | Created | Open | Closed.

Inductive phase :=
| Starting (todo : list string) (errTimer : Time)
| Running
| Stopped.

Section System.
Context {G : Geth} {RE : Regexp} {TX : TxLib} {MO : MapOrder} {MX : Mux} {W : Type} {WO : WindowOps W}.
Context {R : Type} {RR : RateRedis R} {C : Type} {CO : RPCCacheOps C} {H : Type} {HR : Redis H}.
Variables (env : start_env) (config : Config) (s : Server).
Notation BackendGroup := (BackendGroup (W := W) (T := AnyTracker)).
Notation members := (members (W := W)).
Notation world := (world (W := W) (T := AnyTracker)).

(** A group as it was configured and, once it has a poller, the world of its goroutines. *)
Definition group_state : Type := BackendGroup * option world.

(** The group that requests see. *)
Definition group_now (g : group_state) : BackendGroup :=
  match g with
  | (bg, None) => bg
  | (bg, Some w) =>
      mkGroup (bg_Name bg) (w_ms w) (WeightedRouting bg) (Some (w_cp w)) (routingStrategy bg) (multicallRPCErrorCheck bg)
  end.

Definition put_members (ms : members) (g : group_state) : group_state :=
  match g with
  | (bg, None) => (set_bg_members ms bg, None)
  | (bg, Some w) => (bg, Some (set_shared ms (w_cp w) w))
  end.

Definition on_world (f : world -> world) (g : group_state) : group_state := (g.1, f <$> g.2).

(** The same backends in another group. *)
Definition share_state (ms : members) (g : group_state) : group_state :=
  put_members (bg_members (share ms (group_now g))) g.

(** [NewConsensusPoller] starts the goroutines of the poller unless its handler is the one that does nothing. *)
Definition is_noop (b : BackendGroupConfig) : bool := ConsensusAsyncHandler b ==s "noop".

Definition start_poller (b : BackendGroupConfig) (now : Time) (ms : members) (cp : ConsensusPoller (T := AnyTracker)) : world :=
  if is_noop b then Noop_Init now ms cp else Init now ms cp.

Definition stop_poller (name : string) (w : world) : world :=
  match cfg_BackendGroups config !! name with
  | Some b => if is_noop b then w else Shutdown w
  | None => Shutdown w
  end.

Record process := mkProcess {
  p_now : Time;
  p_phase : phase;
  p_rpc : option listener;
  p_ws : option listener;
  p_groups : gmap string group_state;
  p_hb : gmap string heartbeat_loop;
  p_ha : H;
  p_tick : nat;
  p_lims : limiters;
  p_redis : R;
  p_cache : C;
}.

(** The process when [Start] has prepared the server and started its goroutines. *)
Definition launch (sd : started (W := W)) (now : Time) (ha : H) (redis : R) (cache : C) : process :=
  mkProcess now
    (Starting (map fst (map_order (map_to_list (sd_groups sd)))) (now + 10 * Millisecond))
    (if negb (RPCPort (cfg_Server config) =? 0) then Some Pending else None)
    (if negb (WSPort (cfg_Server config) =? 0) then Some Pending else None)
    ((fun bg => (bg, None)) <$> sd_groups sd) ∅ ha 0 (sd_limiters sd) redis cache.

Definition set_phase (ph : phase) (p : process) : process :=
  mkProcess (p_now p) ph (p_rpc p) (p_ws p) (p_groups p) (p_hb p) (p_ha p) (p_tick p) (p_lims p) (p_redis p) (p_cache p).

Definition set_listeners (rpc ws : option listener) (p : process) : process :=
  mkProcess (p_now p) (p_phase p) rpc ws (p_groups p) (p_hb p) (p_ha p) (p_tick p) (p_lims p) (p_redis p) (p_cache p).

Definition set_pgroups (gs : gmap string group_state) (p : process) : process :=
  mkProcess (p_now p) (p_phase p) (p_rpc p) (p_ws p) gs (p_hb p) (p_ha p) (p_tick p) (p_lims p) (p_redis p) (p_cache p).

Definition set_heartbeat (hb : gmap string heartbeat_loop) (ha : H) (p : process) : process :=
  mkProcess (p_now p) (p_phase p) (p_rpc p) (p_ws p) (p_groups p) hb ha (p_tick p) (p_lims p) (p_redis p) (p_cache p).

(** A process goes on, or ends: [log.Crit] or an error that [main] gets from [Start]. *)
Inductive outcome := Next (p : process) | Ended (why : stop).

(** ** The servers *)

(** [RPCListenAndServe] and [WSListenAndServe]: the server is created, then it listens. *)
Definition listen_step (ws : bool) (failed : option error) (l : option listener) : option (listener + stop) :=
  match l with
  | Some Pending => Some (inl Created)
  | Some Created =>
      match failed with
      | None => Some (inl Open)
      | Some err => Some (inr (Exit (if ws then "error starting WS server" else "error starting RPC server")))
      end
  | _ => None
  end.

(** The goroutines that serve metrics and profiles: when they cannot listen they end, and the
    process goes on. *)
Definition side_listen_step (failed : option error) (l : listener) : option listener :=
  match l with
  | Pending => Some (match failed with None => Open | Some _ => Closed end)
  | _ => None
  end.

(** [http.Server.Shutdown], of a server that exists. *)
Definition close_listener (l : listener) : listener :=
  match l with Pending => Pending | _ => Closed end.

(** [Server.Shutdown]: the servers are closed and the pollers of the groups cancelled. *)
Definition server_Shutdown (p : process) : process :=
  set_listeners (close_listener <$> p_rpc p) (close_listener <$> p_ws p)
    (set_pgroups (map_imap (fun name g => Some (on_world (stop_poller name) g)) (p_groups p)) p).

(** ** The rest of [Start] *)

(** One group of the loop that gives the groups their pollers; the poller starts
    its goroutines, and a shared tracker has one of its own. *)
Definition configure_step (name : string) (todo : list string) (errTimer : Time) (p : process) : outcome :=
  match p_groups p !! name, cfg_BackendGroups config !! name with
  | Some g, Some b =>
      match configure_group env name b (group_now g) with
      | inr why => Ended why
      | inl bg =>
          let p1 := set_phase (Starting todo errTimer) p in
          match Consensus bg with
          | None => Next (set_pgroups (<[name := (bg, None)]> (p_groups p)) p1)
          | Some cp =>
              Next (set_heartbeat (if ConsensusHA b then <[name := tracker_Init]> (p_hb p) else p_hb p) (p_ha p)
                      (set_pgroups (<[name := (bg, Some (start_poller b (p_now p) (bg_members bg) cp))]> (p_groups p)) p1))
          end
      end
  | _, _ => Next (set_phase (Starting todo errTimer) p)
  end.

(** ** Requests *)

(** What a request did to the backends. *)
Definition absorb (u : groups (W := W) (T := AnyTracker)) (gs : gmap string group_state) : gmap string group_state :=
  map_imap (fun name g =>
      Some match gr_groups u !! name with Some bg => put_members (bg_members bg) g | None => g end) gs.

Definition rpc_step (clock : nat -> Time) (buf : nat -> nat) (envs : nat -> call_env (W := W)) (r : http_in)
    (p : process) : go (process * http_out) :=
  let u := mkGroups (group_now <$> p_groups p) 0 envs in
  '(st, out) ← HandleRPC (EM := error_messages config) (UO := groups_upstream (EM := error_messages config)) clock s buf r
                 (mkSt (p_tick p) (p_lims p) (p_redis p) (p_cache p) u);
  Ret (mkProcess (p_now p) (p_phase p) (p_rpc p) (p_ws p) (absorb (st_up st) (p_groups p)) (p_hb p) (p_ha p)
         (st_tick st) (st_lims st) (st_redis st) (st_cache st), out).

(** A request as the router dispatches it. *)
Definition serve_http (clock : nat -> Time) (buf : nat -> nat) (envs : nat -> call_env (W := W))
    (method path : string) (r : http_in) (p : process) : go (process * http_out) :=
  match mux_Match rpc_routes method path with
  | inr status => Ret (p, mkOut status [] "")
  | inl (rt, var) =>
      match rt_handler rt with
      | Healthz => Ret (p, HandleHealthz)
      | RPC => rpc_step clock buf envs (mkIn (in_Header r) (in_RemoteAddr r) (in_Host r) var (in_Body r)) p
      | WSocket => Ret (p, mkOut 404 [] "")
      end
  end.

(** ** Steps *)

Inductive plabel :=
| PTick (t : Time)
| PListen (ws : bool) (failed : option error)
| PConfigure
| PReturn
| PHttp (clock : nat -> Time) (buf : nat -> nat) (envs : nat -> call_env (W := W)) (method path : string) (r : http_in)
| PPoll (name : string) (l : label (W := W) (T := AnyTracker))
| PHeartbeat (name : string)
| PSignal.

(** A step of the goroutines of a poller; what it does to a backend shows in every group. *)
Definition poll_step (name : string) (l : label (W := W) (T := AnyTracker)) (p : process) : go (option process) :=
  match p_groups p !! name with
  | Some (bg, Some w) =>
      r ← exec l w;
      Ret match r with
          | Some w' => Some (set_pgroups (<[name := (bg, Some w')]> (share_state (w_ms w') <$> p_groups p)) p)
          | None => None
          end
  | _ => Ret None
  end.

Definition heartbeat (name : string) (p : process) : go (option process) :=
  match p_groups p !! name, p_hb p !! name with
  | Some (bg, Some w), Some loop =>
      match tracker (w_cp w) with
      | HATracker ct =>
          r ← heartbeat_step (p_now p) loop (p_ha p) ct;
          Ret match r with
              | Some (loop1, ha1, ct1) =>
                  Some (set_heartbeat (<[name := loop1]> (p_hb p)) ha1
                          (set_pgroups (<[name := (bg, Some (set_shared (w_ms w) (WithTracker (HATracker ct1) (w_cp w)) w))]> (p_groups p)) p))
              | None => None
              end
      | MemoryTracker _ => Ret None
      end
  | _, _ => Ret None
  end.

Definition p_exec (l : plabel) (p : process) : go (option outcome) :=
  match l with
  | PTick t =>
      Ret (if p_now p <=? t then
             Some (Next (mkProcess t (p_phase p) (p_rpc p) (p_ws p)
                           (on_world (set_now t) <$> p_groups p)
                           (p_hb p) (p_ha p) (p_tick p) (p_lims p) (p_redis p) (p_cache p)))
           else None)
  | PListen ws failed =>
      Ret match listen_step ws failed (if ws : bool then p_ws p else p_rpc p) with
          | Some (inl l) =>
              Some (Next (if ws : bool then set_listeners (p_rpc p) (Some l) p else set_listeners (Some l) (p_ws p) p))
          | Some (inr why) => Some (Ended why)
          | None => None
          end
  | PConfigure =>
      Ret match p_phase p with
          | Starting (name :: todo) errTimer => Some (configure_step name todo errTimer p)
          | _ => None
          end
  | PReturn =>
      Ret match p_phase p with
          | Starting [] errTimer => if errTimer <=? p_now p then Some (Next (set_phase Running p)) else None
          | _ => None
          end
  | PHttp clock buf envs method path r =>
      match p_rpc p with
      | Some Open => '(p1, out) ← serve_http clock buf envs method path r p; Ret (Some (Next p1))
      | _ => Ret None
      end
  | PPoll name l => r ← poll_step name l p; Ret (option_map Next r)
  | PHeartbeat name => r ← heartbeat name p; Ret (option_map Next r)
  | PSignal =>
      Ret match p_phase p with
          | Running => Some (Next (set_phase Stopped (server_Shutdown p)))
          | _ => None
          end
  end.

(** What the environment may do: backends are shuffled and the responses of a multicall arrive
    in some order, and the goroutines of a poller take their own steps. *)
Definition p_allowed (l : plabel) : Prop :=
  match l with
  | PHttp _ _ envs _ _ _ => forall i, shuffles_ok (ce_shuffles (envs i)) /\ forall l x, x ∈ ce_arrival (envs i) l -> x ∈ l
  | PPoll _ l =>
      allowed l /\ match l with LUpdater _ _ | LUpdaterDone _ | LLoop _ _ | LLoopDone => True | _ => False end
  | _ => True
  end.

Inductive p_reachable (p0 : process) : process -> Prop :=
| p_start : p_reachable p0 p0
| p_step p p' l : p_reachable p0 p -> p_allowed l -> p_exec l p = Ret (Some (Next p')) -> p_reachable p0 p'.

End System.
