(* ===== verification/SystemCorrect.v ===== *)
(** * Correctness of the running process

    The components keep their promises when they run together. Every world of a poller
    in a reachable process is one that its goroutines reach on their own, so the theorems
    about pollers hold while requests are served; once [Start] has returned, the groups
    that are to follow a consensus have a poller. Before that they are served without one. *)

From stdpp Require Import base list gmap strings.
From Stdlib Require Import ZArith Lia Ascii.
From Stdlib Require Strings.String.
From S2P Require Import Prelude SlidingWindow SlidingWindowRefinement Json JsonRoundtrip Geth Rpc Rewriter Reader Backend Tracker Poller PollerCorrect Async AsyncCorrect Group RateLimiter Cache Server ServerCorrect Metrics WS Proxyd System.

Local Open Scope Z_scope.

(** ** What requests do to the backends *)

Section Windows.
Context {EM : ErrorMessages} {G : Geth} {W : Type} {WO : WindowOps W} {T : Type} {TO : ConsensusTracker T}.
Notation Backend := (Backend (W := W)).
Notation members := (members (W := W)).
Notation BackendGroup := (BackendGroup (W := W) (T := T)).
Implicit Types (b : Backend) (ms : members) (bs : gmap string Backend).

(** A backend that was configured, up to its windows. *)
Definition known bs b : Prop := exists b0, bs !! Name b = Some b0 /\ strip b = strip b0.
Definition consistent bs ms : Prop := Forall (known bs) (Backends ms).

Lemma known_strip bs b b' : strip b' = strip b -> known bs b -> known bs b'.
Proof. intros Hs (b0 & Hb & E). exists b0. by rewrite Hs, (strip_Name _ _ Hs). Qed.

Lemma same_members_consistent bs ms ms' : same_members ms ms' -> consistent bs ms -> consistent bs ms'.
Proof.
  unfold same_members, consistent. destruct ms' as [l' fb']. destruct ms as [l fb]. cbn. revert l.
  induction l' as [|b' l' IH]; intros [|b l] H Hc; try done. cbn in H. injection H as Hb H. apply Forall_cons in Hc as [Hk Hc].
  constructor; [by eapply known_strip|by eapply IH].
Qed.

Lemma set_backend_known bs ms b : consistent bs ms -> known bs b -> same_members ms (set_backend b ms).
Proof.
  intros Hc (b0 & Hb & E). unfold same_members. cbn. rewrite map_map. apply map_ext_in. intros b' Hin.
  destruct (streq_spec (Name b') (Name b)) as [Hn|]; [|done]. apply list_elem_of_In in Hin.
  unfold consistent in Hc. rewrite Forall_forall in Hc. destruct (Hc b' Hin) as (b1 & Hb1 & E1). rewrite Hn in Hb1. congruence.
Qed.

Lemma set_backends_known bs l : forall ms, consistent bs ms -> Forall (known bs) l ->
  same_members ms (foldl (fun m b => set_backend b m) ms l).
Proof.
  induction l as [|b l IH]; intros ms Hc Hl; [done|]. apply Forall_cons in Hl as [Hb Hl]. cbn.
  pose proof (set_backend_known bs ms b Hc Hb) as Hs. unfold same_members in *. rewrite <- Hs.
  apply IH; [by eapply same_members_consistent|done].
Qed.

Lemma Forward_keeps b ctx reqs isBatch net b' reqs' r : Forward b ctx reqs isBatch net = Ret (b', reqs', r) -> strip b' = strip b.
Proof.
  unfold Forward. generalize (Z.to_nat (maxRetries b + 1)) as n, 0%nat as i, (None : option error) as last. intros n.
  revert b reqs. induction n as [|n IH]; intros b reqs i last H; cbn [forward_loop] in H; [by simplify_eq|].
  apply go_bind_ret in H as (r0 & _ & H). apply go_bind_ret in H as ([[b1 reqs1] r1] & Hf & H). apply doForward_keeps in Hf.
  destruct r1; [by simplify_eq|]. destruct (not_retried _); [by simplify_eq|]. apply IH in H. congruence.
Qed.

(** Members that differ only in their windows, with the same fallbacks. *)
Definition similar ms ms' : Prop := same_members ms ms' /\ FallbackBackends ms' = FallbackBackends ms.

Lemma similar_refl ms : similar ms ms.
Proof. done. Qed.

Lemma similar_trans ms1 ms2 ms3 : similar ms1 ms2 -> similar ms2 ms3 -> similar ms1 ms3.
Proof. unfold similar, same_members. intros [-> ->] [-> ->]. done. Qed.

Lemma failover_keeps bs name ctx isBatch net backends : forall reqs ms ms' reqs' resp,
  Forall (known bs) backends -> consistent bs ms ->
  ForwardRequestToBackendGroup name ctx reqs backends isBatch net ms = Ret (ms', reqs', resp) -> similar ms ms'.
Proof.
  induction backends as [|b backends IH]; intros reqs ms ms' reqs' resp Hk Hc H; cbn [ForwardRequestToBackendGroup] in H;
    [by simplify_eq|]. apply Forall_cons in Hk as [Hb Hk].
  destruct (0 <? length reqs)%nat; [|by simplify_eq]. apply go_bind_ret in H as ([[b1 reqs1] r] & Hf & H).
  assert (Hs : similar ms (set_backend b1 ms)).
  { split; [|done]. eapply set_backend_known; [done|]. eapply known_strip; [by eapply Forward_keeps|done]. }
  destruct r as [res|err]; [by simplify_eq|]. destruct (is_terminal err); [by simplify_eq|].
  apply IH in H; [by eapply similar_trans|done|]. by eapply same_members_consistent; [apply Hs|].
Qed.

Lemma multicall_keeps bs name ctx reqs net targets : forall ms ms' resps,
  Forall (known bs) targets -> consistent bs ms ->
  multicall_requests name ctx reqs targets net ms = Ret (ms', resps) -> similar ms ms'.
Proof.
  induction targets as [|b targets IH]; intros ms ms' resps Hk Hc H; cbn [multicall_requests] in H; [by simplify_eq|].
  apply Forall_cons in Hk as [Hb Hk]. apply go_bind_ret in H as ([[ms1 reqs1] resp] & Hf & H).
  apply (failover_keeps bs) in Hf as Hs; [|by repeat constructor|done].
  apply go_bind_ret in H as ([ms2 resps2] & Hm & H). simplify_eq. eapply similar_trans; [exact Hs|].
  eapply IH; [done| |exact Hm]. by eapply same_members_consistent; [apply Hs|].
Qed.

Lemma ordered_known bs now sh (bg : BackendGroup) :
  shuffles_ok sh -> consistent bs (bg_members bg) -> Forall (known bs) (orderedBackendsForRequest now sh bg).
Proof.
  intros [Hh Hd Hw] Hc. unfold consistent in Hc. rewrite Forall_forall in *. intros b Hb. apply Hc. revert Hb.
  unfold orderedBackendsForRequest, loadBalancedConsensusGroup, GetConsensusGroup.
  destruct (Consensus bg), (WeightedRouting bg); rewrite elem_of_app, ?Hd, ?Hw, ?Hh, !elem_of_filter_bool; tauto.
Qed.

Lemma group_Forward_keeps bs now sh (bg : BackendGroup) ctx reqs isBatch net arrival ms' left resp :
  shuffles_ok sh -> consistent bs (bg_members bg) ->
  group_Forward now sh bg ctx reqs isBatch net arrival = Ret (ms', left, resp) -> similar (bg_members bg) ms'.
Proof.
  intros Hsh Hc H. unfold group_Forward in H. destruct reqs as [|req reqs]; [by simplify_eq|].
  apply go_bind_ret in H as ([reqs1 ovs] & _ & H). destruct (_ && _ && _).
  - apply go_bind_ret in H as ([ms1 resp1] & Hx & H). simplify_eq. unfold ExecuteMulticall in Hx.
    apply go_bind_ret in Hx as ([ms2 resps] & Hm & Hx). apply go_bind_ret in Hx as (r & _ & Hx). simplify_eq.
    eapply multicall_keeps; [|done|exact Hm]. unfold consistent in Hc. rewrite Forall_forall in *. intros b Hb. apply Hc.
    unfold multicall_targets in Hb. destruct (List.filter _ _) eqn:E in Hb; [done|]. rewrite <- E, elem_of_filter_bool in Hb. tauto.
  - apply go_bind_ret in H as ([[ms1 reqs2] resp1] & Hf & H).
    apply (failover_keeps bs) in Hf; [|by apply ordered_known|done].
    destruct (resp_error resp1); [by simplify_eq|]. apply go_bind_ret in H as (res & _ & H). by simplify_eq.
Qed.

End Windows.

(** ** Changed windows are traffic *)

Section Traffic.
Context {G : Geth} {W : Type} {WO : WindowOps W} {T : Type} {TO : ConsensusTracker T}.
Notation Backend := (Backend (W := W)).
Notation members := (members (W := W)).
Notation world := (world (W := W) (T := T)).

Lemma strip_windows (b b' : Backend) : strip b' = strip b ->
  set_windows (latencySlidingWindow b') (networkRequestsSlidingWindow b') (intermittentErrorsSlidingWindow b') b = b'.
Proof. destruct b, b'. cbn. intros H. injection H. intros. by subst. Qed.

Lemma find_middle (pre l : list Backend) b : NoDup (map Name (pre ++ b :: l)) ->
  List.find (fun b' => Name b' ==s Name b) (pre ++ b :: l) = Some b.
Proof.
  induction pre as [|a pre IH]; cbn; [by rewrite streq_refl|]. intros [Ha Hnd]%NoDup_cons.
  destruct (streq_spec (Name a) (Name b)) as [E|_]; [|by apply IH]. destruct Ha. rewrite E, map_app. cbn.
  apply elem_of_app. right. by left.
Qed.

Lemma set_middle (pre l : list Backend) b b' fb : NoDup (map Name (pre ++ b :: l)) -> Name b' = Name b ->
  set_backend b' (mkMembers (pre ++ b :: l) fb) = mkMembers (pre ++ b' :: l) fb.
Proof.
  intros Hnd Hn. unfold set_backend. cbn. f_equal. rewrite map_app. cbn. rewrite Hn, streq_refl.
  rewrite map_app in Hnd. cbn in Hnd. apply NoDup_app in Hnd as (_ & Hpre & [Hl _]%NoDup_cons).
  assert (Hid : forall k, Name b ∉ map Name k -> map (fun c => if Name c ==s Name b then b' else c) k = k).
  { intros k Hk. rewrite <- (map_id k) at 2. apply map_ext_in. intros c Hc%list_elem_of_In.
    destruct (streq_spec (Name c) (Name b)) as [E|]; [|done]. destruct Hk. rewrite <- E. by apply (list_elem_of_fmap_2 Name). }
  rewrite !Hid; [done|done|]. intros Hb. apply (Hpre _ Hb). by left.
Qed.

(** A world whose backends have other windows is reached by traffic. *)
Lemma reachable_traffic (w0 w : world) ms' :
  NoDup (map Name (Backends (w_ms w))) -> similar (w_ms w) ms' -> reachable w0 w ->
  reachable w0 (set_shared ms' (w_cp w) w).
Proof.
  destruct ms' as [l' fb']. intros Hnd [Hs Hf] Hr. cbn in Hf. subst fb'. unfold same_members in Hs. cbn in Hs.
  enough (Hgen : forall pre rest rest', NoDup (map Name (pre ++ rest)) -> map strip rest' = map strip rest ->
    reachable w0 (set_shared (mkMembers (pre ++ rest) (FallbackBackends (w_ms w))) (w_cp w) w) ->
    reachable w0 (set_shared (mkMembers (pre ++ rest') (FallbackBackends (w_ms w))) (w_cp w) w)).
  { apply (Hgen [] (Backends (w_ms w)) l'); [done|done|]. cbn. destruct w as [? ? [] ? ? ?]. exact Hr. }
  clear. intros pre rest. revert pre. induction rest as [|b rest IH]; intros pre [|b' rest'] Hnd Hs Hr; try done.
  cbn in Hs. injection Hs as Hb Hs. pose proof (strip_Name _ _ Hb) as Hn.
  specialize (IH (pre ++ [b']) rest'). rewrite <- !app_assoc in IH. apply IH; [|done|].
  { rewrite !map_app in *. cbn in *. by rewrite Hn. }
  eapply reach_step; [exact Hr| |].
  { instantiate (1 := LTraffic (Name b) (latencySlidingWindow b') (networkRequestsSlidingWindow b') (intermittentErrorsSlidingWindow b')).
    exact I. }
  cbn [exec]. unfold member. cbn [w_ms set_shared Backends]. rewrite find_middle by done.
  rewrite strip_windows by done. cbn [w_cp]. rewrite set_middle by done. done.
Qed.

End Traffic.

(** ** An invariant of the process *)

Section Process.
Context {G : Geth} {GL : GethLaws} {RE : Regexp} {TX : TxLib} {MO : MapOrder} {MOL : MapOrderLaws} {MX : Mux}.
Context {W : Type} {WO : WindowOps W} {R : Type} {RR : RateRedis R} {C : Type} {CO : RPCCacheOps C} {H : Type} {HR : Redis H}.
Variables (env : start_env) (config : Config) (sd : started (W := W)).
Notation Backend := (Backend (W := W)).
Notation BackendGroup := (BackendGroup (W := W) (T := AnyTracker)).
Notation members := (members (W := W)).
Notation world := (world (W := W) (T := AnyTracker)).
Notation process := (process (W := W) (R := R) (C := C) (H := H)).
Notation group_state := (group_state (W := W)).

Hypothesis Hprepare : prepare env config = inl sd.
Hypothesis Hnames : forall name b, cfg_BackendGroups config !! name = Some b -> NoDup (gc_Backends b).
Hypothesis Hbatch : 0 <= MaxUpstreamBatchSize (cfg_Server config).

(** The groups that [Start] has yet to configure. *)
Definition todo (ph : phase) : list string := match ph with Starting l _ => l | _ => [] end.

(** A world that the goroutines of a poller of the group reach on their own. *)
Definition polled (b : BackendGroupConfig) (bg : BackendGroup) (w : world) : Prop :=
  exists now ms t opts, similar (bg_members bg) ms /\ Forall keeps_group opts /\
    reachable (start_poller b now ms (NewConsensusPoller t ms opts)) w.

Record group_inv (now : Time) (ph : phase) (name : string) (g : group_state) : Prop := {
  gi_members : exists bg0 b, sd_groups sd !! name = Some bg0 /\ cfg_BackendGroups config !! name = Some b /\
    similar (bg_members bg0) (bg_members (group_now g)) /\ routingStrategy g.1 = routingStrategy bg0 /\
    match g.2 with
    | None => Consensus g.1 = None
    | Some w => w_now w = now /\ polled b bg0 w
    end;
  gi_strategy : exists b, cfg_BackendGroups config !! name = Some b /\
    (name ∈ todo ph -> g.2 = None) /\
    (name ∉ todo ph -> exists strategy, ValidateRoutingStrategy b = inl strategy /\
       (g.2 = None <-> strategy <> ConsensusAwareRoutingStrategy));
  gi_cancelled : forall b w, cfg_BackendGroups config !! name = Some b -> is_noop b = false -> g.2 = Some w ->
    ph = Stopped -> w_cancelled w = true;
}.

Definition process_inv (p : process) : Prop :=
  NoDup (todo (p_phase p)) /\
  forall name g, p_groups p !! name = Some g -> group_inv (p_now p) (p_phase p) name g.

(** What was prepared. *)
Lemma prepared : exists byName : gmap string Backend, forall name bg0, sd_groups sd !! name = Some bg0 ->
  consistent byName (bg_members bg0) /\ Consensus bg0 = None /\
  exists b, cfg_BackendGroups config !! name = Some b /\ routingStrategy bg0 = gc_RoutingStrategy b /\
    map Name (Backends (bg_members bg0)) = gc_Backends b.
Proof.
  destruct (prepare_spec _ _ _ Hprepare) as (byName & Hb & Hg & _). exists byName. intros name bg0 Hbg.
  pose proof (range_build_lookup _ _ _ _ Hg name) as Lg. destruct (cfg_BackendGroups config !! name) as [b|]; cycle 1.
  { rewrite Lg, lookup_empty in Hbg. done. }
  destruct Lg as (g & Hbuild & E). rewrite Hbg in E. injection E as <-.
  destruct (build_group_spec _ _ _ _ Hbuild) as (_ & Hnone & Hr & Hall).
  assert (Hnamed : forall n be, byName !! n = Some be -> Name be = n).
  { intros n be Hbe. pose proof (range_build_lookup _ _ _ _ Hb n) as Lb.
    destruct (cfg_Backends config !! n); [|by rewrite Lb, lookup_empty in Hbe].
    destruct Lb as (be' & Hbuilt & E). rewrite Hbe in E. injection E as <-. by apply build_backend_spec in Hbuilt as [? _]. }
  split; [|split; [done|exists b; split; [done|split; [done|]]]].
  - unfold consistent. clear -Hall Hnamed. induction Hall as [|n be ns l Hbe _ IH]; [done|]. constructor; [|done].
    exists be. by rewrite (Hnamed _ _ Hbe).
  - clear -Hall Hnamed. induction Hall as [|n be ns l Hbe _ IH]; [done|]. cbn. by rewrite (Hnamed _ _ Hbe), IH.
Qed.

Lemma group_names name bg0 : sd_groups sd !! name = Some bg0 -> NoDup (map Name (Backends (bg_members bg0))).
Proof. intros Hbg. destruct prepared as [byName Hp]. destruct (Hp _ _ Hbg) as (_ & _ & b & Hb & _ & ->). by eapply Hnames. Qed.

Lemma polled_names b0 bg0 w : NoDup (map Name (Backends (bg_members bg0))) -> polled b0 bg0 w ->
  similar (bg_members bg0) (w_ms w) /\ NoDup (map Name (Backends (w_ms w))).
Proof.
  intros Hnd (now & ms & t & opts & [Hs Hf] & Ho & Hr).
  assert (Hnd' : NoDup (map Name (Backends ms))) by by rewrite (same_members_names _ _ Hs).
  assert (H0 : async_inv ms (start_poller b0 now ms (NewConsensusPoller t ms opts)))
    by (unfold start_poller; destruct (is_noop b0); [by apply Noop_inv|by apply Init_inv]).
  pose proof (reachable_inv ms _ w Hnd' H0 Hr) as Hinv.
  pose proof (ai_members _ _ Hinv) as Hm. pose proof (ai_fallbacks _ _ Hinv) as Hfb.
  split; [eapply similar_trans; split; eassumption|]. by rewrite (same_members_names _ _ Hm).
Qed.

Lemma polled_step b0 bg0 w w' l : allowed l -> exec l w = Ret (Some w') -> polled b0 bg0 w -> polled b0 bg0 w'.
Proof. intros Ha He (now & ms & t & opts & Hs & Ho & Hr). exists now, ms, t, opts. split; [done|]. split; [done|]. by eapply reach_step. Qed.

Lemma polled_traffic b0 bg0 w ms' : NoDup (map Name (Backends (bg_members bg0))) -> similar (w_ms w) ms' ->
  polled b0 bg0 w -> polled b0 bg0 (set_shared ms' (w_cp w) w).
Proof.
  intros Hnd Hs Hp. destruct (polled_names _ _ _ Hnd Hp) as [_ Hnd']. destruct Hp as (now & ms & t & opts & ? & ? & Hr).
  exists now, ms, t, opts. split; [done|]. split; [done|]. by apply reachable_traffic.
Qed.

(** A group whose members have other windows. *)
Lemma put_members_inv now ph name g ms' : similar (bg_members (group_now g)) ms' -> group_inv now ph name g ->
  group_inv now ph name (put_members ms' g).
Proof.
  intros Hs [(bg0 & b0 & Hbg & Hb0 & Hm & Hr & Hp) (b & Hb & Hst) Hcan]. destruct g as [bg [w|]]; cbn in *.
  - split; [exists bg0, b0; cbn|exists b; cbn; naive_solver|intros b1 w1 Hb1 Hno [= <-]; by apply (Hcan b1 w)].
    split; [done|]. split; [done|]. split; [by eapply similar_trans|]. split; [done|]. destruct Hp as [? Hp]. split; [done|].
    apply polled_traffic; [by eapply group_names|done|done].
  - split; [exists bg0, b0; cbn|by exists b|done]. split; [done|]. split; [done|]. split; [by eapply similar_trans|]. done.
Qed.

(** ** Steps *)

Lemma exec_now (l : label) (w w' : world) :
  match l with LUpdater _ _ | LUpdaterDone _ | LLoop _ _ | LLoopDone => True | _ => False end ->
  exec l w = Ret (Some w') -> w_now w' = w_now w /\ w_cancelled w' = w_cancelled w.
Proof.
  intros Hl He. destruct l as [| | |name net|name|order net| |]; try done; cbn [exec] in He.
  - unfold updater_step in He.
    repeat (case_match || (apply go_bind_ret in He as ([[? ?] ?] & _ & He))); by simplify_eq.
  - repeat case_match; by simplify_eq.
  - unfold loop_step in He.
    repeat (case_match || (apply go_bind_ret in He as ([[[? ?] ?] ?] & _ & He))); by simplify_eq.
  - repeat case_match; by simplify_eq.
Qed.

Lemma world_inv now now' ph name bg w w' l :
  group_inv now ph name (bg, Some w) -> allowed l -> exec l w = Ret (Some w') -> w_now w' = now' ->
  (w_cancelled w = true -> w_cancelled w' = true) ->
  group_inv now' ph name (bg, Some w').
Proof.
  intros [(bg0 & b0 & Hbg & Hb0 & Hm & Hr & _ & Hp) (b & Hb & Hst) Hcan] Ha He Hn Hc. cbn in *.
  pose proof (polled_step _ _ _ _ _ Ha He Hp) as Hp'. destruct (polled_names _ _ _ (group_names _ _ Hbg) Hp') as [Hs _].
  split; [by exists bg0, b0|exists b; cbn; naive_solver|]. cbn. intros b1 w1 Hb1 Hno [= <-]. naive_solver.
Qed.

Lemma idle_inv now now' ph name bg : group_inv now ph name (bg, None) -> group_inv now' ph name (bg, None).
Proof. by intros [? ? _]. Qed.

Lemma known_members byName now ph name g :
  (forall name bg0, sd_groups sd !! name = Some bg0 -> consistent byName (bg_members bg0)) ->
  group_inv now ph name g -> consistent byName (bg_members (group_now g)).
Proof. intros Hb [(bg0 & b0 & Hbg & _ & [Hm _] & _) _ _]. eapply same_members_consistent; [exact Hm|by eapply Hb]. Qed.

Lemma share_similar byName (ms : members) (bg : BackendGroup) :
  consistent byName ms -> consistent byName (bg_members bg) -> similar (bg_members bg) (bg_members (share ms bg)).
Proof.
  intros Hc Hb. unfold share. cbn. split; [by eapply set_backends_known|]. clear. generalize (bg_members bg) as m.
  induction (Backends ms) as [|b l IH]; intros m; [done|]. cbn. by rewrite IH.
Qed.

Lemma consensus_options_keep b : Forall keeps_group (consensus_options b).
Proof.
  unfold consensus_options, copt_if.
  repeat (apply Forall_app; split); match goal with |- Forall _ (if ?c then _ else _) => destruct c end; by repeat constructor.
Qed.

Lemma configure_group_poller name b (bg bg' : BackendGroup) :
  configure_group env name b bg = inl bg' -> Consensus bg = None ->
  bg_members bg' = bg_members bg /\ routingStrategy bg' = routingStrategy bg /\
  exists strategy, ValidateRoutingStrategy b = inl strategy /\
    match Consensus bg' with
    | None => strategy <> ConsensusAwareRoutingStrategy
    | Some cp => strategy = ConsensusAwareRoutingStrategy /\
        exists t opts, Forall keeps_group opts /\ cp = NewConsensusPoller t (bg_members bg) opts
    end.
Proof.
  unfold configure_group. intros Hc Hn. apply try_inl in Hc as (strategy & Hv & Hc).
  destruct (streq_spec strategy ConsensusAwareRoutingStrategy) as [Heq|Hne].
  - destruct (existsb _ _); [done|]. apply try_inl in Hc as (t & _ & Hc). injection Hc as <-.
    split; [done|]. split; [done|]. exists strategy. split; [done|]. cbn. split; [done|]. eexists _, _. split; [|done].
    apply Forall_app. split; [apply consensus_options_keep|]. destruct t; by repeat constructor.
  - injection Hc as <-. split; [done|]. split; [done|]. exists strategy. by rewrite Hn.
Qed.

(** ** Requests *)

#[local] Instance messages : ErrorMessages := error_messages config.

(** The groups of a request differ from those of the process in the windows of their backends. *)
Definition near (p : process) (envs : nat -> call_env (W := W)) (u : groups (W := W) (T := AnyTracker)) : Prop :=
  gr_env u = envs /\ forall name,
  match p_groups p !! name, gr_groups u !! name with
  | Some g, Some bg => similar (bg_members (group_now g)) (bg_members bg) /\
      routingStrategy bg = routingStrategy g.1 /\ Consensus bg = Consensus (group_now g)
  | None, None => True
  | _, _ => False
  end.

Definition envs_ok (envs : nat -> call_env (W := W)) : Prop :=
  forall i, shuffles_ok (ce_shuffles (envs i)) /\ forall l x, x ∈ ce_arrival (envs i) l -> x ∈ l.

Lemma near_up p envs group ctx reqs isBatch u u' after resp :
  process_inv p -> envs_ok envs -> near p envs u ->
  up_Forward group ctx reqs isBatch u = Ret (u', after, resp) -> near p envs u'.
Proof.
  intros [_ Hinv] Henv [He Hn] Hf. destruct prepared as [byName Hprep].
  assert (Hknown : forall name bg, gr_groups u !! name = Some bg -> consistent byName (bg_members bg)).
  { intros name bg Hbg. specialize (Hn name). rewrite Hbg in Hn. destruct (p_groups p !! name) as [g|] eqn:Hg; [|done].
    destruct Hn as ([Hm _] & _). eapply same_members_consistent; [exact Hm|].
    eapply known_members; [|by apply Hinv]. intros n b0 Hb0. by destruct (Hprep n b0 Hb0). }
  cbn in Hf. destruct (gr_groups u !! group) as [bg|] eqn:Hbg; [|destruct reqs; [by simplify_eq|done]].
  apply go_bind_ret in Hf as ([[ms left] r] & Hfwd & Hf). simplify_eq.
  destruct (Henv (gr_calls u)) as [Hsh _].
  pose proof (group_Forward_keeps byName _ _ _ _ _ _ _ _ _ _ _ Hsh (Hknown _ _ Hbg) Hfwd) as Hs.
  split; [done|]. intros name. cbn. specialize (Hn name). destruct (decide (group = name)) as [<-|Hne].
  - rewrite lookup_insert_eq. rewrite Hbg in Hn. destruct (p_groups p !! group); [|done]. cbn.
    destruct Hn as (Hm & ? & ?). split; [by eapply similar_trans|done].
  - rewrite lookup_insert_ne, lookup_fmap by done. destruct (gr_groups u !! name) as [bg1|] eqn:Hbg1; [|done]. cbn.
    destruct (p_groups p !! name); [|done]. destruct Hn as (Hm & ? & ?). split; [|done].
    eapply similar_trans; [exact Hm|]. eapply share_similar; [|by eapply Hknown].
    eapply same_members_consistent; [apply Hs|by eapply Hknown].
Qed.

(** Multicall groups have no poller. *)
Lemma multicall_plain p name g : process_inv p -> p_groups p !! name = Some g ->
  routingStrategy g.1 = MulticallRoutingStrategy -> Consensus (group_now g) = None.
Proof.
  intros [_ Hinv] Hg Hm. destruct (Hinv _ _ Hg) as [(bg0 & b0 & Hbg & _ & _ & Hr & Hp) (b & Hb & Hst) _].
  destruct prepared as [byName Hprep]. destruct (Hprep _ _ Hbg) as (_ & _ & b' & Hb' & Hrs & _).
  rewrite Hb in Hb'. injection Hb' as <-. destruct g as [bg [w|]]; cbn in *; [|done].
  destruct Hst as [Ht Hst]. destruct Hst as (strategy & Hv & Hiff); [by intros ?%Ht|]. exfalso.
  rewrite (ValidateRoutingStrategy_multicall b strategy Hv) in Hiff by congruence. discriminate (proj2 Hiff ltac:(done)).
Qed.

Lemma rpc_step_inv p p' clock buf envs r out :
  process_inv p -> envs_ok envs -> rpc_step config (sd_server sd) clock buf envs r p = Ret (p', out) -> process_inv p'.
Proof.
  intros Hinv Henv Hs. unfold rpc_step in Hs. apply go_bind_ret in Hs as ([st out1] & Hh & Hs). injection Hs as <- <-.
  set (u := mkGroups (group_now <$> p_groups p) 0 envs) in *.
  assert (Hnear : near p envs u).
  { split; [done|]. intros name. cbn. rewrite lookup_fmap. destruct (p_groups p !! name) as [[bg [w|]]|]; done. }
  assert (Hup : up_ok u).
  { split; [|intros i l x; apply Henv]. intros name bg. cbn. rewrite lookup_fmap.
    destruct (p_groups p !! name) as [g|] eqn:Hg; [|done]. intros [= <-] Hm. eapply multicall_plain; [done|exact Hg|].
    by destruct g as [? []]. }
  assert (Hmax : 0 < maxUpstreamBatchSize (sd_server sd)).
  { destruct (prepare_spec _ _ _ Hprepare) as (? & _ & _ & _ & ? & ? & Hsrv). apply NewServer_limits in Hsrv as (_ & Hpos & _). by apply Hpos. }
  assert (Hnear' : near p envs (st_up st)).
  { apply HandleRPC_cases in Hh as [[-> _]|(ctx & isBatch & raws & res & _ & _ & _ & _ & _ & _ & Hb & _)]; [done|].
    pose proof (handleBatchRPC_spec clock (sd_server sd) ctx isBatch raws (Header_Get (in_Header r) "X-Forwarded-Host")
      (Header_Get (in_Header r) "User-Agent") (stripXFF (GetXForwardedFor ctx)) (fun _ : C => True) (near p envs)
      (fun _ _ _ _ _ _ => I) (fun _ _ _ _ _ _ _ => I)
      (fun u group reqs u' after resp Hu _ Hf => near_up p envs group ctx reqs isBatch u u' after resp Hinv Henv Hu Hf)
      (mkSt (p_tick p) (p_lims p) (p_redis p) (p_cache p) u) Hmax (conj Hnear (conj Hup I))) as Hspec.
    unfold messages in Hspec. rewrite Hb in Hspec. by destruct Hspec as [[? _] _]. }
  destruct Hinv as [Hnd Hinv]. split; [done|]. intros name g. cbn. unfold absorb. rewrite map_lookup_imap.
  destruct (p_groups p !! name) as [g0|] eqn:Hg; [|done]. cbn. intros [= <-]. destruct Hnear' as [_ Hn]. specialize (Hn name).
  rewrite Hg in Hn. destruct (gr_groups (st_up st) !! name) as [bg|]; [|done]. apply put_members_inv; [by apply Hn|by apply Hinv].
Qed.

(** ** All steps *)

Lemma groups_inv_map (f : group_state -> group_state) (gs : gmap string group_state) now ph now' ph' :
  (forall name g, group_inv now ph name g -> group_inv now' ph' name (f g)) ->
  (forall name g, gs !! name = Some g -> group_inv now ph name g) ->
  forall name g, (f <$> gs) !! name = Some g -> group_inv now' ph' name g.
Proof.
  intros Hf Hg name g. rewrite lookup_fmap. destruct (gs !! name) as [g0|] eqn:E; [|done]. cbn. intros [= <-]. auto.
Qed.

Lemma groups_inv_insert (gs : gmap string group_state) now ph name0 g0 :
  group_inv now ph name0 g0 -> (forall name g, name <> name0 -> gs !! name = Some g -> group_inv now ph name g) ->
  forall name g, <[name0 := g0]> gs !! name = Some g -> group_inv now ph name g.
Proof.
  intros H0 Hg name g. destruct (decide (name0 = name)) as [<-|Hne]; [rewrite lookup_insert_eq; by intros [= <-]|].
  rewrite lookup_insert_ne by done. auto.
Qed.

Lemma phase_inv now ph ph' name g : todo ph' = todo ph -> ph' <> Stopped -> group_inv now ph name g -> group_inv now ph' name g.
Proof. intros Ht Hs [? Hst ?]. split; [done|by rewrite Ht|]. done. Qed.

Lemma configure_step_inv p name rest errTimer p' : process_inv p -> p_phase p = Starting (name :: rest) errTimer ->
  configure_step env config name rest errTimer p = Next p' -> process_inv p'.
Proof.
  intros [Hnd Hinv] Hph Hs. rewrite Hph in Hnd, Hinv. cbn in Hnd. apply NoDup_cons in Hnd as [Hnew Hnd].
  assert (Hrest : forall n g, n <> name -> p_groups p !! n = Some g -> group_inv (p_now p) (Starting rest errTimer) n g).
  { intros n g Hne Hg. destruct (Hinv n g Hg) as [? (b & Hb & Ht & Hst) ?]. split; [done| |done]. exists b. split; [done|].
    cbn in *. set_solver. }
  unfold configure_step in Hs. destruct (p_groups p !! name) as [g|] eqn:Hg; cycle 1.
  { injection Hs as <-. split; [done|]. intros n g Hg'. apply Hrest; [by intros ->; cbn in Hg'; congruence|done]. }
  destruct (Hinv name g Hg) as [(bg0 & b0 & Hbg & _ & Hm & Hr & Hp) (b & Hb & Ht & _) _]. rewrite Hb in Hs.
  destruct g as [bg [w|]]; cbn in *; [by discriminate Ht; left|].
  destruct (configure_group env name b bg) as [bg'|] eqn:Hc; [|done].
  destruct (configure_group_poller _ _ _ _ Hc Hp) as (Hm' & Hr' & strategy & Hv & Hcp).
  destruct (Consensus bg') as [cp|] eqn:Hcons; injection Hs as <-; (split; [done|]); cbn; apply groups_inv_insert; try done;
    (split; [exists bg0, b|exists b; split; [done|]; split; [done|]; intros _; exists strategy|]); cbn.
  - destruct Hcp as (-> & t & opts & Ho & ->). rewrite Hm'. unfold start_poller at 1 2. split; [done|]. split; [done|].
    split; [by destruct (is_noop b)|]. split; [congruence|]. split; [by destruct (is_noop b)|]. exists (p_now p), (bg_members bg), t, opts. split; [done|]. split; [done|]. apply reach_start.
  - destruct Hcp as [-> _]. split; [done|]. split; [done|]. by intros [].
  - done.
  - rewrite Hm'. split; [done|]. split; [done|]. split; [done|]. split; [congruence|done].
  - done.
  - done.
Qed.

Lemma on_world_inv (f : world -> world) (l : label) now ph now' ph' name g :
  (forall w, w_now w = now -> allowed l /\ exec l w = Ret (Some (f w)) /\ w_now (f w) = now' /\
     (ph' = Stopped -> w_cancelled (f w) = true \/ w_cancelled (f w) = w_cancelled w /\ ph = Stopped)) ->
  todo ph' = todo ph -> group_inv now ph name g -> group_inv now' ph' name (on_world f g).
Proof.
  intros Hf Ht [(bg0 & b0 & Hbg & Hb0 & Hm & Hr & Hp) (b & Hb & Hst) Hcan]. destruct g as [bg [w|]]; cbn in *.
  - destruct Hp as [Hn Hp]. destruct (Hf w Hn) as (Ha & He & Hn' & Hc).
    pose proof (polled_step _ _ _ _ _ Ha He Hp) as Hp'. destruct (polled_names _ _ _ (group_names _ _ Hbg) Hp') as [Hs _].
    split; [by exists bg0, b0|exists b; cbn; rewrite Ht; naive_solver|]. cbn. intros b1 w1 Hb1 Hno [= <-] Hph.
    destruct (Hc Hph) as [|[-> ?]]; [done|]. by eapply Hcan.
  - split; [by exists bg0, b0|exists b; cbn; by rewrite Ht|done].
Qed.

Lemma stop_inv now name g : group_inv now Running name g -> group_inv now Stopped name (on_world (stop_poller config name) g).
Proof.
  intros Hg. pose proof Hg as [(bg0 & b0 & Hbg & Hb0 & Hm & Hr & Hp) Hst _]. destruct (is_noop b0) eqn:Hno.
  - assert (Hid : on_world (stop_poller config name) g = g).
    { destruct g as [bg [w|]]; [|done]. unfold on_world, stop_poller. cbn. by rewrite Hb0, Hno. }
    rewrite Hid. split; [by exists bg0, b0|done|]. intros b1 w Hb1. rewrite Hb0 in Hb1. injection Hb1 as <-. congruence.
  - assert (Hid : on_world (stop_poller config name) g = on_world Shutdown g).
    { destruct g as [bg [w|]]; [|done]. unfold on_world, stop_poller. cbn. by rewrite Hb0, Hno. }
    rewrite Hid. apply (on_world_inv Shutdown LShutdown now Running); [|done|done]. intros w Hw. cbn. auto 10.
Qed.

Lemma poll_step_inv p name l p' : process_inv p ->
  allowed l /\ match l with LUpdater _ _ | LUpdaterDone _ | LLoop _ _ | LLoopDone => True | _ => False end ->
  poll_step name l p = Ret (Some p') -> process_inv p'.
Proof.
  intros [Hnd Hinv] [Ha Hl] Hs. unfold poll_step in Hs. destruct (p_groups p !! name) as [[bg [w|]]|] eqn:Hg; try done.
  apply go_bind_ret in Hs as ([w'|] & He & Hs); [|done]. injection Hs as <-. split; [done|].
  destruct (exec_now l w w' Hl He) as [Hn Hc].
  assert (Hw : group_inv (p_now p) (p_phase p) name (bg, Some w')).
  { eapply world_inv; [by apply Hinv|exact Ha|exact He| |by rewrite Hc].
    destruct (Hinv _ _ Hg) as [(bg0 & b0 & _ & _ & _ & _ & Hnow & _) _ _]. congruence. }
  destruct prepared as [byName Hprep].
  assert (Hknown : forall n b0, sd_groups sd !! n = Some b0 -> consistent byName (bg_members b0))
    by (intros n b0 Hb0; by destruct (Hprep n b0 Hb0)).
  cbn. apply groups_inv_insert; [exact Hw|]. intros n g _. revert n g.
  apply (groups_inv_map _ _ (p_now p) (p_phase p)); [|exact Hinv]. intros n g Hi. unfold share_state.
  apply put_members_inv; [|done]. eapply share_similar; [|by eapply known_members].
  exact (known_members byName _ _ _ _ Hknown Hw).
Qed.

Lemma heartbeat_inv p name p' : process_inv p -> heartbeat name p = Ret (Some p') -> process_inv p'.
Proof.
  intros [Hnd Hinv] Hs. unfold heartbeat in Hs. destruct (p_groups p !! name) as [[bg [w|]]|] eqn:Hg; try done.
  destruct (p_hb p !! name) as [loop|]; [|done]. destruct (tracker (w_cp w)) as [|ct]; [done|].
  apply go_bind_ret in Hs as ([[[loop1 ha1] ct1]|] & _ & Hs); [|done]. injection Hs as <-. split; [done|]. cbn.
  apply groups_inv_insert; [|intros n g _; apply Hinv].
  eapply (world_inv _ _ _ _ _ _ _ (LTracker (HATracker ct1))); [by apply Hinv|done|done| |done].
  by destruct (Hinv _ _ Hg) as [(bg0 & b0 & _ & _ & _ & _ & Hnow & _) _ _].
Qed.

Lemma p_exec_inv p l p' : process_inv p -> p_allowed l -> p_exec env config (sd_server sd) l p = Ret (Some (Next p')) ->
  process_inv p'.
Proof.
  intros Hinv Ha Hs. destruct l as [t|ws failed| | |clock buf envs method path r|name l|name|]; cbn in Hs.
  - destruct (Z.leb_spec (p_now p) t); [|done]. injection Hs as <-. destruct Hinv as [Hnd Hinv]. split; [done|]. cbn.
    eapply groups_inv_map; [|exact Hinv]. intros name g. eapply (on_world_inv _ (LTick t)); [|done].
    intros w Hw. split; [done|]. cbn. rewrite (proj2 (Z.leb_le (w_now w) t)) by lia. auto.
  - destruct (listen_step _ _ _) as [[l|]|]; try done. injection Hs as <-. by destruct ws.
  - destruct (p_phase p) as [[|name rest] errTimer| |] eqn:Hph; try done. injection Hs as Hs. by eapply configure_step_inv.
  - destruct (p_phase p) as [[|] errTimer| |] eqn:Hph; try done. destruct (_ <=? _); [|done]. injection Hs as <-.
    destruct Hinv as [Hnd Hinv]. rewrite Hph in Hinv. split; [constructor|]. cbn. intros name g Hg.
    by eapply phase_inv; [| |by apply Hinv].
  - destruct (p_rpc p) as [[]|]; try done. apply go_bind_ret in Hs as ([p1 out] & Hs & [= <-]). unfold serve_http in Hs.
    destruct (mux_Match _ _ _) as [[rt var]|]; [|by simplify_eq]. destruct (rt_handler rt); [by simplify_eq| |by simplify_eq].
    by eapply rpc_step_inv.
  - apply go_bind_ret in Hs as ([p1|] & Hs & E); [|done]. injection E as <-. by eapply poll_step_inv.
  - apply go_bind_ret in Hs as ([p1|] & Hs & E); [|done]. injection E as <-. by eapply heartbeat_inv.
  - destruct (p_phase p) eqn:Hph; try done. injection Hs as <-. destruct Hinv as [Hnd Hinv]. rewrite Hph in Hinv.
    split; [constructor|]. cbn. intros name g. rewrite map_lookup_imap. destruct (p_groups p !! name) as [g0|] eqn:Hg; [|done].
    cbn. intros [= <-]. by apply stop_inv, Hinv.
Qed.

Lemma launch_inv now ha redis cache : process_inv (launch config sd now ha redis cache).
Proof.
  destruct prepared as [byName Hprep]. split; cbn.
  { rewrite map_order_perm. apply NoDup_fst_map_to_list. }
  intros name g. rewrite lookup_fmap. destruct (sd_groups sd !! name) as [bg0|] eqn:Hbg; [|done]. cbn. intros [= <-].
  destruct (Hprep _ _ Hbg) as (_ & Hnone & b & Hb & _). split; [by exists bg0, b| |done]. exists b. split; [done|]. split; [done|].
  intros Hn. destruct Hn. cbn. rewrite map_order_perm. apply (list_elem_of_fmap_2 fst _ (name, bg0)). by apply elem_of_map_to_list.
Qed.

Lemma p_reachable_inv p0 p : process_inv p0 -> p_reachable env config (sd_server sd) p0 p -> process_inv p.
Proof. intros H0. induction 1 as [|p p' l _ IH Ha Hs]; [done|]. by eapply p_exec_inv. Qed.

(** C4. The running process is sound under every interleaving of start-up, requests, pollers, heartbeats
    and shutdown, where a request is one step, the backends of a group are distinct and the bound of
    upstream batches is not negative. In every process reachable from the moment the servers are told to listen, each group has
    its configured backends. Once all groups are configured, exactly those whose validated strategy is
    consensus-aware have a poller. The goroutines of every poller are in a state that they reach on their own
    from its start (so what is shown of pollers alone holds while requests are served), and after the
    shutdown the context of its goroutines is cancelled. *)
Theorem process_sound now ha redis cache p name bg ow :
  p_reachable env config (sd_server sd) (launch config sd now ha redis cache) p -> p_groups p !! name = Some (bg, ow) ->
  exists b, cfg_BackendGroups config !! name = Some b /\
    map Name (Backends (bg_members (group_now (bg, ow)))) = gc_Backends b /\
    (todo (p_phase p) = [] -> exists strategy, ValidateRoutingStrategy b = inl strategy /\
       (ow = None <-> strategy <> ConsensusAwareRoutingStrategy)) /\
    forall w, ow = Some w ->
      (exists now0 ms t opts, map Name (Backends ms) = gc_Backends b /\ Forall keeps_group opts /\
         reachable (start_poller b now0 ms (NewConsensusPoller t ms opts)) w) /\
      (is_noop b = false -> p_phase p = Stopped -> w_cancelled w = true).
Proof.
  intros Hr Hg. destruct (p_reachable_inv _ _ (launch_inv now ha redis cache) Hr) as [_ Hinv].
  destruct (Hinv _ _ Hg) as [(bg0 & b0 & Hbg & Hb0 & [Hm _] & _ & Hp) (b & Hb & Ht & Hst) Hcan].
  destruct prepared as [byName Hprep]. destruct (Hprep _ _ Hbg) as (_ & _ & b' & Hb' & _ & Hnm).
  rewrite Hb in Hb', Hb0. injection Hb' as <-. injection Hb0 as <-. exists b. split; [done|].
  split; [by rewrite (same_members_names _ _ Hm)|]. split.
  { intros Hdone. apply Hst. rewrite Hdone. apply not_elem_of_nil. }
  intros w ->. cbn in *. split; [|intros Hno; by apply (Hcan b w)]. destruct Hp as [_ (now0 & ms & t & opts & [Hs _] & Ho & Hw)].
  exists now0, ms, t, opts. by rewrite (same_members_names _ _ Hs).
Qed.

End Process.

(** ** Routing *)

Section Routing.
Context {G : Geth} {RE : Regexp} {TX : TxLib} {MO : MapOrder} {MX : Mux} {MXL : MuxLaws}.
Context {W : Type} {WO : WindowOps W} {R : Type} {RR : RateRedis R} {C : Type} {CO : RPCCacheOps C} {H : Type}.

Lemma template_other t seg : t <> seg -> template_matches ("/" +:+ t) seg
  = if ("/" +:+ t) ==s "/{authorization}" then if seg ==s "" then None else Some seg else None.
Proof.
  intros Hne. unfold template_matches. rewrite (streq_ne ("/" +:+ t) ("/" +:+ seg)); [by destruct (_ ==s _)|].
  intros E. apply Hne, chars_inj. apply (f_equal chars) in E. rewrite !chars_app in E. by injection E.
Qed.

(** The route of a request to the RPC server. *)
Lemma rpc_first_route method seg :
  first_route rpc_routes method seg =
  if (method ==s "GET") && (seg ==s "healthz") then Some (mkRoute "/healthz" ["GET"] Healthz, "")
  else if method ==s "POST" then
    Some (if seg ==s "" then mkRoute "/" ["POST"] RPC else mkRoute "/{authorization}" ["POST"] RPC, seg)
  else None.
Proof.
  assert (Hm : forall m, method <> m -> method_ok (mkRoute "" [m] RPC) method = false).
  { intros m Hne. unfold method_ok. cbn. by rewrite streq_ne. }
  cbn [first_route rpc_routes rt_path].
  change (template_matches "/{authorization}" seg) with (if seg ==s "" then None else Some seg).
  destruct (streq_spec seg "healthz") as [->|Hh]; [|rewrite (template_other "healthz") by done];
    (destruct (streq_spec seg "") as [->|He] || idtac); [| |rewrite (template_other "") by done].
  all: destruct (streq_spec method "GET") as [->|Hget]; [done|]; destruct (streq_spec method "POST") as [->|Hpost]; [done|].
  all: specialize (Hm "GET" Hget) as Hm1; specialize (Hm "POST" Hpost) as Hm2; unfold method_ok in *; cbn in *; by rewrite ?Hm1, ?Hm2.
Qed.

(** Requests are dispatched by method and path: [GET /healthz] is answered by the health check, [POST] to
    the root or to any other path of one segment is an RPC request whose authorization is that
    segment (also [POST /healthz]), and everything else is refused; only RPC requests change the process. *)
Theorem requests_routed config s clock buf envs method seg r (p : process (W := W) (R := R) (C := C) (H := H)) :
  plain_segment seg = true ->
  let answer := serve_http config s clock buf envs method ("/" +:+ seg) r p in
  if (method ==s "GET") && (seg ==s "healthz") then answer = Ret (p, mkOut 200 [] "OK")
  else if method ==s "POST" then
    answer = rpc_step config s clock buf envs (mkIn (in_Header r) (in_RemoteAddr r) (in_Host r) seg (in_Body r)) p
  else exists status, answer = Ret (p, mkOut status [] "") /\ (status = 404 \/ status = 405).
Proof.
  intros Hseg answer. unfold answer, serve_http. pose proof (mux_first rpc_routes method seg Hseg) as Hm.
  rewrite rpc_first_route in Hm. destruct (_ && _); [by rewrite Hm|]. destruct (method ==s "POST").
  - rewrite Hm. by destruct (seg ==s "").
  - destruct Hm as (status & -> & Hs). eauto.
Qed.

End Routing.

(** ** A concrete process *)

#[local] Existing Instances literal_regexp text_tx backwards backwards_laws unit_redis.

#[local] Instance plain_mux : Mux := {
  mux_Match routes method path :=
    let seg := str (tail (chars path)) in
    match first_route routes method seg with
    | Some found => inl found
    | None => inr (if existsb (fun rt => bool_decide (is_Some (template_matches (rt_path rt) seg))) routes then 405 else 404)
    end }.

#[local] Instance plain_mux_laws : MuxLaws.
Proof.
  split. intros routes method seg _. cbn. rewrite chars_app. cbn. rewrite str_chars.
  destruct (first_route routes method seg); [done|]. destruct (existsb _ routes); eauto.
Qed.

Lemma requests_routed_witness :
  plain_segment "healthz" = true /\
  forall r p, serve_http (W := demo_window) (R := unit) (C := NoopRPCCache) (H := mem_redis) demo_config demo_server (fun _ => 0)
    (fun _ => 1%nat) (fun _ => mkEnv Hour id_shuffles demo_group_net id false) "GET" ("/" +:+ "healthz") r p = Ret (p, mkOut 200 [] "OK").
Proof.
  split; [reflexivity|]. intros r p.
  exact (requests_routed demo_config demo_server (fun _ => 0) (fun _ => 1%nat)
    (fun _ => mkEnv Hour id_shuffles demo_group_net id false) "GET" "healthz" r p eq_refl).
Defined.

(** The process of the demo configuration, with a method whose block tag has to be resolved. *)
Definition tag_config : Config :=
  mkConfig (WSBackendGroup demo_config) (cfg_Server demo_config) (cfg_Cache demo_config) (cfg_Redis demo_config)
    (cfg_Metrics demo_config) (cfg_RateLimit demo_config) (cfg_BackendOptions demo_config) (cfg_Backends demo_config)
    (cfg_Batch demo_config) None (cfg_BackendGroups demo_config) {[ "eth_getBalance" := "main" ]} ∅ [] ""
    (SenderRateLimit demo_config) [].

Fixpoint p_run {G : Geth} {RE : Regexp} {TX : TxLib} {MO : MapOrder} {MX : Mux} {W} {WO : WindowOps W} {R} {RR : RateRedis R}
    {C} {CO : RPCCacheOps C} {H} {HR : Redis H} env config s (ls : list plabel) (p : process (W := W) (R := R) (C := C) (H := H))
  : option process :=
  match ls with
  | [] => Some p
  | l :: ls' =>
      match p_exec env config s l p with
      | Ret (Some (Next p1)) => p_run env config s ls' p1
      | _ => None
      end
  end.

Lemma p_run_reachable {G : Geth} {RE : Regexp} {TX : TxLib} {MO : MapOrder} {MX : Mux} {W} {WO : WindowOps W} {R} {RR : RateRedis R}
    {C} {CO : RPCCacheOps C} {H} {HR : Redis H} env config s p0 ls : forall (p p' : process (W := W) (R := R) (C := C) (H := H)),
  p_reachable env config s p0 p -> Forall p_allowed ls -> p_run env config s ls p = Some p' -> p_reachable env config s p0 p'.
Proof.
  induction ls as [|l ls IH]; intros p p' Hr Ha Hs; cbn in Hs; [by injection Hs as <-|]. apply Forall_cons in Ha as [Hl Ha].
  destruct (p_exec env config s l p) as [[[p1|]|]|] eqn:E; try done. eapply IH; [|done|exact Hs]. by eapply p_step.
Qed.

Definition demo_launch (sd : started (W := demo_window)) : process (W := demo_window) (R := unit) (C := NoopRPCCache) (H := mem_redis) :=
  launch tag_config sd Hour demo_redis tt noopRPCCache.

Notation demo_plabel := (plabel (W := demo_window)) (only parsing).
Definition listening : list demo_plabel := [PListen false None; PListen false None].

Lemma process_sound_witness :
  exists sd p bg w, prepare (W := demo_window) demo_env tag_config = inl sd /\
    p_run demo_env tag_config (sd_server sd)
      (listening ++ [PConfigure; PTick (Hour + 10 * Millisecond); PReturn; PSignal]) (demo_launch sd) = Some p /\
    p_groups p !! "main" = Some (bg, Some w) /\ w_cancelled w = true.
Proof.
  destruct (prepare (W := demo_window) demo_env tag_config) as [sd|] eqn:Hp; [|vm_compute in Hp; discriminate Hp].
  destruct (p_run demo_env tag_config (sd_server sd)
    (listening ++ [PConfigure; PTick (Hour + 10 * Millisecond); PReturn; PSignal]) (demo_launch sd)) as [p|] eqn:Hr;
    [|vm_compute in Hp; injection Hp as <-; vm_compute in Hr; discriminate Hr].
  destruct (p_groups p !! "main") as [[bg [w|]]|] eqn:Hg;
    [|vm_compute in Hp; injection Hp as <-; vm_compute in Hr; injection Hr as <-; vm_compute in Hg; discriminate Hg..].
  exists sd, p, bg, w. split; [reflexivity|]. split; [exact Hr|]. split; [exact Hg|].
  assert (Hstop : p_phase p = Stopped) by (vm_compute in Hp; injection Hp as <-; vm_compute in Hr; injection Hr as <-; reflexivity).
  destruct (process_sound demo_env tag_config sd Hp) with (name := "main") (bg := bg) (ow := Some w) (p := p)
    (now := Hour) (ha := demo_redis) (redis := tt) (cache := noopRPCCache) as (b & Hb & _ & _ & Hw).
  - intros name b Hb. cbn in Hb. apply lookup_singleton_Some in Hb as [_ <-]. repeat constructor. by intros ?%elem_of_nil.
  - discriminate.
  - eapply p_run_reachable; [apply p_start| |exact Hr]. repeat constructor.
  - exact Hg.
  - refine (proj2 (Hw w eq_refl) _ Hstop). cbn in Hb. apply lookup_singleton_Some in Hb as [_ <-]. reflexivity.
Defined.

(** A backend that answers with the block parameter it was asked about. *)
Definition echo_tag (r : http_request) : http_reply :=
  match hr_body r with
  | JObj [_; _; (_, JArr [_; tag]); _] => Response 200 (mkSource (chars (body_of [MarshalJSON (demo_response "1" tag)])) [] false None)
  | _ => NoResponse (EOther "unexpected request")
  end.

Definition echo_net (name : string) (i : nat) : attempt := mkAttempt Hour Hour None None echo_tag.

Definition tag_request : http_in :=
  mkIn [] "10.0.0.1:4242" "" "" (mkSource (chars (demo_raw (demo_request "1" "eth_getBalance" (JArr [JStr "0xabc"; JStr "latest"])))) [] false None).

(** A consensus-aware group is served without consensus during start-up: the servers listen before the pollers
    exist. There is a reachable process whose RPC server accepts requests while [Start] has yet to configure the
    group, and in which a request about the block [latest] is sent to a backend with its tag unresolved (the
    backend's answer is the tag it was asked about). *)
Theorem served_before_consensus :
  match prepare (W := demo_window) demo_env tag_config with
  | inl sd => exists p, p_reachable demo_env tag_config (sd_server sd) (demo_launch sd) p /\ p_rpc p = Some Open /\
      todo (p_phase p) = ["main"] /\
      match serve_http tag_config (sd_server sd) (fun _ => Hour) (fun _ => 512%nat)
              (fun _ => mkEnv Hour id_shuffles echo_net id false) "POST" "/" tag_request p with
      | Ret (_, out) => out_status out = 200 /\
          out_body out = (Marshal (JObj [("jsonrpc", JStr "2.0"); ("result", JStr "latest"); ("id", JNum "1")]) +:+ str [chr 10])
      | Panic _ => False
      end
  | inr _ => False
  end.
Proof.
  destruct (prepare (W := demo_window) demo_env tag_config) as [sd|] eqn:Hp; [|vm_compute in Hp; discriminate Hp].
  destruct (p_run demo_env tag_config (sd_server sd) listening (demo_launch sd)) as [p|] eqn:Hr;
    [|vm_compute in Hp; injection Hp as <-; vm_compute in Hr; discriminate Hr].
  exists p. split; [eapply p_run_reachable; [apply p_start| |exact Hr]; repeat constructor|].
  vm_compute in Hp; injection Hp as <-; vm_compute in Hr; injection Hr as <-. vm_compute. auto.
Qed.
